(* ===== verification/_CoqProject ===== *)
-Q . S2P
Prelude.v
Api.v
BlockKeys.v
BlockCodec.v
WireCodec.v
EvictionPolicy.v
Lru.v
CostAware.v
Arc.v
ArcGhosts.v
LocalIndex.v
Tier.v
DramTier.v
SsdTier.v
AnyTier.v
StorageNode.v
NodeInv.v
NodeRoom.v
NodePut.v
NodeGet.v
NodeOpen.v
NodeSpec.v
NodeTheorems.v
NodeStats.v
NodeFrames.v
NodeFindings.v
SsdStub.v
Factory.v
Float64.v
BenchStats.v
BenchOptions.v
BenchReport.v
Bench.v
BenchTheorems.v
HashRing.v
Coordinator.v
Transport.v
RdmaTransport.v
Connector.v
ConnectorTheorems.v
Sockets.v
TcpConnection.v
TcpTheorems.v
TcpConnect.v
SimSockets.v
TcpClaims.v
WireFraming.v
TcpConnector.v
RpcInv.v
RpcErrors.v
RpcTheorems.v
HealthyLink.v
RpcLiveness.v
VllmAdapter.v
