(* ===== verification/Prelude.v ===== *)
(** * TidePool: a verification development

    TidePool pools the KV-cache blocks of LLM inference across nodes.  A client
    derives a [BlockKey] from a token prefix, finds the owning node on a hash
    ring and asks that node's [StorageNode], which keeps blocks in a DRAM tier
    and, when DRAM is full, demotes victims chosen by an eviction policy to an
    SSD tier on LevelDB.  A coordinator keeps the membership the ring is built
    from; a remote node is reached by an RPC connector that exchanges frames over a
    TCP connection.  This development models the keys, the on-disk and wire formats,
    the eviction policies, the tiers, the node-local index and the storage node that
    ties them together, and then the ring, the coordinator, the client connector,
    the TCP connection, the framing and the RPC connector; last, the factories and
    the benchmark that assembles a node through them.

    ** Conventions

    A call of the source is a computation [comp S A] over the state [S] of its
    object: a function of the state and of an allocator script to a result and a
    new state, or [Terminated] for [std::terminate()] and undefined behaviour.
    The script is an arbitrary list of booleans; each allocation the source
    guards with a [bad_alloc] handler consumes one and fails when it is [true],
    so a theorem quantified over scripts covers every pattern of allocation
    failures.  [wp m Q s] says that from [s], for every script, [m] ends with a
    result and a state that satisfy [Q] and does not reach [Terminated].
    [Status] and [Result] are the source's; a w-bit integer is a [Z] reduced by
    [wrap w] where the source can overflow; maps are [gmap].  Every public method
    of a stateful class holds the object's mutex for its whole body, so a call is
    one atomic step; the exception is [TcpConnection], whose [Shutdown] another
    thread may call at any time, which every load of its flag allows for.  In the
    RPC connector, whose methods catch what their callees throw, exceptions are
    values of a sum.

    ** Files

    - [Prelude]: machine integers, byte strings, decimal printing and parsing,
      the [comp] monad, [wp] and its tactics.
    - [Api]: [include/tidepool/api]: status, keys, blocks, locations, shard maps,
      buffers.
    - [BlockKeys]: [src/api/block_key.cpp]: [ToString], [FromString],
      [FromTokenPrefix].
    - [BlockCodec]: [src/api/block_codec.cpp]: the self-describing SSD record.
    - [WireCodec]: [src/protocol/wire_codec.cpp]: frames and payloads of the
      protocol.
    - [EvictionPolicy] (the interface as a class and its laws), [Lru], [Arc],
      [ArcGhosts], [CostAware]: [src/store/eviction].
    - [LocalIndex]: [src/store/index/local_index.cpp].
    - [Tier] (the interface as a class and its laws), [DramTier], [SsdTier],
      [AnyTier] (a node's choice between the two): [src/store/tier].  [SsdStub] is the
      SSD tier of a build without LevelDB, and a node on it.
    - [StorageNode]: [src/store/storage_node.cpp], generic in the tier and policy
      classes.  [NodeInv] states its invariant, [NodeRoom] verifies demotion and
      room making, [NodePut] and [NodeGet] the data path, [NodeOpen] the lifecycle
      and recovery, [NodeSpec] the abstract specification and the simulation,
      [NodeTheorems] the node's theorems and a concrete node, [NodeStats] what
      the counters count, [NodeFrames] what outlasts calls on one key, and
      [NodeFindings] two flaws.
    - [Factory]: [include/tidepool/store/factory.h] and the [Make...] functions; the
      three policies behind one pointer.
    - [Float64]: binary64 numbers, their rounding, order and decimal text.
    - [BenchOptions], [BenchStats], [BenchReport], [Bench]:
      [bench/tiered_cache_bench.cpp], its command line, its statistics, what it prints
      and its run; [BenchTheorems] verifies the run.
    - [HashRing]: [src/hashring/hash_ring.cpp], with [std::hash] as a parameter.
    - [Coordinator] (the interface as a class and its laws, and the single-node
      implementation): [src/coordinator].
    - [Transport], [RdmaTransport]: the transfer engine interface as a class, its two
      implementations and a pointer to either, [src/transport].
    - [Connector]: [src/client/connector.cpp], generic in the coordinator, the
      transport and the node's classes; [ConnectorTheorems] composes it with the
      real ones.
    - [Sockets]: the operating system as a class of calls on a world and the class
      [SocketLaws] of what the code relies on; [SimSockets] a scripted world that
      meets them.
    - [TcpConnection]: [src/transport/tcp/tcp_connection.cpp]; [TcpTheorems]
      verifies its reads, writes and waits, [TcpConnect] its construction,
      [TcpClaims] states the theorems.
    - [WireFraming]: [src/transport/tcp/wire_framing.cpp].
    - [TcpConnector]: [src/rpc/tcp_connector.cpp]; [RpcInv] states its invariant and
      verifies one exchange, [RpcErrors] says which errors arise on the client side,
      [RpcTheorems] verifies the calls and sequences of them.  [HealthyLink] states
      the assumptions of a working link and peer, [RpcLiveness] what the connector
      delivers then.
    - [VllmAdapter]: [integration/vllm], three placeholders.

    ** Theorems

    - The storage node ([NodeTheorems]) refines a map of blocks with an open flag
      ([NodeSpec.spec_step]) over all call sequences; its index, policy and tiers
      agree in every reachable state; a stored block can be read; demotion is
      atomic; making room terminates; opening rebuilds the index from the tiers,
      also in a new process; the hit and miss counters are exact.  They are proved from
      the class laws alone, which [DramTier], [SsdTier], [Lru], [Arc] and [CostAware]
      discharge.
    - The tiers: what is stored is read back, occupancy counters are exact, SSD
      records survive a restart for any LevelDB that meets [LevelDBLaws].
    - The policies: LRU refines a recency list; ARC's lists stay disjoint and
      bounded while the residents fit its budget, and its ghost lists do not when
      they do not fit.
    - The codecs: encoding and decoding are inverse, decoders accept exactly the
      valid inputs and never read out of bounds, size checks do not overflow.
    - The keys: printing and parsing are inverse; equal prefixes share keys and a
      changed token changes the key.
    - The ring: the owner of a key is the next live point clockwise; a node that
      joins or leaves moves only its own keys.  The coordinator is a function of its
      registration history.
    - The client connector: over any sequence of calls a pool member is the co-located
      node on the keys the ring gives it and refuses the rest, and with the real
      coordinator, ring and node a stored block is read back.
    - The TCP connection, for any operating system that meets [SocketLaws]: reads
      and writes return and move exactly what they report, a failure breaks the
      connection for good, connecting leaks no descriptor, deadlines do not
      overflow.  Frames cross a stream unchanged.
    - The RPC connector, for any peer: a connection that is kept has carried matched
      requests and responses only; what [Get] and [Put] return is what the peer
      answered to that very request, errors about the remote store included; request
      ids are fresh.  Over a healthy link a stored block is delivered.
    - The build without LevelDB: a node with an SSD tier refuses every call.
    - The benchmark: its options are exactly the well-formed ones, the counters it
      reports account for every read, its percentiles are the samples of nearest rank
      in spite of rounding, and its csv and json reports can be read back.
    - The flaws: under LRU, a block whose metadata contradicts its key and that was
      stored first makes every later store that needs room fail; an overwritten block
      returns after a restart; the option parser reads a negative number after white
      space; ARC's ghosts can grow without bound; a connector never notices that its
      ring is stale.

    ** Bounds

    Two kinds of loops are not structurally recursive; running out of fuel is
    [Terminated] for both, so every [wp] statement shows that the fuel suffices.
    The loop of [MakeDramRoomForLocked] gets one more than the number of DRAM
    blocks: each round removes a block.  The loops of [TcpConnection] get
    [Sockets.enough_fuel]: each round but the first looks at the clock before its
    deadline, at most [call_rate] calls fit in a tick and the clock has [2^63]
    ticks, and a [poll] that starts over used up one of finitely many signals.  On a
    healthy link ([HealthyLink.enough]) two rounds per byte and one more suffice.  The
    percentiles of the benchmark are verified for fewer than [2^44] samples, for
    which the rank computed in doubles is shown to be exact.

    ** Not modelled

    LevelDB (a parameter of [SsdTier]), [std::hash], the standard random
    distributions, the clock and the file system (parameters of [Bench]) and the
    operating system (a parameter of the TCP connection); allocation failures the
    source does not handle (they end the process); the mutexes themselves.  The RPC
    connector's handlers catch the failed allocation of an error message in a callee;
    it is raised where the status reaches the connector, not inside the callee, whose
    sockets are closed either way.  [printf] rounds decimals correctly, as the C
    library does in its default mode.
    The repository has no server side of the RPC protocol: the peer is arbitrary. *)

From Stdlib Require Export ZArith Lia String Ascii.
From stdpp Require Export base tactics list option gmap strings.
From coqutil Require Export Byte.
From coqutil Require Import Word.LittleEndianList.

(** ** Scopes, hint databases and small tactics *)

Declare Scope tp_scope.
Delimit Scope tp_scope with tp.

Create HintDb tp.
Create Rewrite HintDb tp_simpl.

#[global] Open Scope Z_scope.

(** [break] splits the topmost [match]/[if] of the goal or of a hypothesis,
    remembering the scrutinee. *)
Ltac break :=
  match goal with
  | |- context [match ?x with _ => _ end] => destruct x eqn:?
  | H : context [match ?x with _ => _ end] |- _ => destruct x eqn:?
  end.

(** Boolean comparisons on integers become propositions. *)
Ltac boolZ :=
  repeat match goal with
  | H : (_ <? _) = true |- _ => apply Z.ltb_lt in H
  | H : (_ <? _) = false |- _ => apply Z.ltb_ge in H
  | H : (_ <=? _) = true |- _ => apply Z.leb_le in H
  | H : (_ <=? _) = false |- _ => apply Z.leb_gt in H
  | H : (_ =? _) = true |- _ => apply Z.eqb_eq in H
  | H : (_ =? _) = false |- _ => apply Z.eqb_neq in H
  | H : negb _ = true |- _ => apply negb_true_iff in H
  | H : negb _ = false |- _ => apply negb_false_iff in H
  | H : (_ && _)%bool = true |- _ => apply andb_true_iff in H; destruct H
  | H : (_ || _)%bool = false |- _ => apply orb_false_iff in H; destruct H
  end.

(** ** Machine integers

    A [w]-bit unsigned value of the source is a [Z]; [wrap w] is the reduction
    every unsigned C++ operation performs and [in_range w] the invariant a
    value of the type satisfies. *)

Definition wrap (w z : Z) : Z := z mod 2 ^ w.
Definition in_range (w z : Z) : Prop := 0 <= z < 2 ^ w.

Abbreviation u8 := (in_range 8).
Abbreviation u16 := (in_range 16).
Abbreviation u32 := (in_range 32).
Abbreviation u64 := (in_range 64).

Definition u64_max : Z := 2 ^ 64 - 1.
Definition u32_max : Z := 2 ^ 32 - 1.

Lemma wrap_range w z : 0 <= w -> in_range w (wrap w z).
Proof. intros Hw. unfold in_range, wrap. apply Z.mod_pos_bound. lia. Qed.

Lemma wrap_small w z : in_range w z -> wrap w z = z.
Proof. apply Z.mod_small. Qed.

#[export] Hint Rewrite wrap_small using (unfold in_range in *; lia) : tp_simpl.

(** Length of a container as the source sees it, a [size_t]. *)
Definition zlen {A} (l : list A) : Z := Z.of_nat (length l).

Lemma zlen_nonneg {A} (l : list A) : 0 <= zlen l.
Proof. unfold zlen. lia. Qed.

Lemma zlen_app {A} (l k : list A) : zlen (l ++ k) = zlen l + zlen k.
Proof. unfold zlen. rewrite length_app. lia. Qed.

Lemma zlen_nil_iff {A} (l : list A) : zlen l = 0 <-> l = [].
Proof. unfold zlen. destruct l; simpl; split; intros; try done; lia. Qed.

Lemma zlen_pos {A} (l : list A) : l <> [] -> 0 < zlen l.
Proof. destruct l; [done|]. unfold zlen. cbn. lia. Qed.

(** ** Bytes and fixed-width integer codecs

    [byte_at v i] is the expression [static_cast<uint8_t>((v >> (8*i)) & 0xff)]
    every field writer of the source is made of. *)

Abbreviation bytes := (list byte).

Definition byte_at (v : Z) (i : Z) : byte :=
  byte.of_Z (Z.land (Z.shiftr v (i * 8)) 255).

Lemma byte_of_Z_wrap z : byte.of_Z (byte.wrap z) = byte.of_Z z.
Proof.
  apply byte.unsigned_inj. rewrite !byte.unsigned_of_Z. unfold byte.wrap.
  by rewrite Z.mod_mod.
Qed.

Lemma byte_at_shiftr v i : byte_at v i = byte.of_Z (Z.shiftr v (i * 8)).
Proof.
  unfold byte_at. rewrite <- (byte_of_Z_wrap (Z.shiftr _ _)). unfold byte.wrap.
  f_equal. change 255 with (Z.ones 8). by rewrite Z.land_ones.
Qed.

(** A little-endian writer is [le_split], the reader is [le_combine]; a
    big-endian one works on the reversed list. *)
Lemma le_writer_split_from (n k : nat) v :
  map (fun i => byte_at v (Z.of_nat i)) (seq k n) = le_split n (Z.shiftr v (Z.of_nat k * 8)).
Proof.
  revert k. induction n as [|n IH]; intros k; [done|].
  cbn [seq map]. unfold le_split; fold le_split.
  rewrite byte_at_shiftr, IH, Z.shiftr_shiftr by lia. repeat f_equal. lia.
Qed.

Lemma le_writer_split (n : nat) v :
  map (fun i => byte_at v (Z.of_nat i)) (seq 0 n) = le_split n v.
Proof. by rewrite le_writer_split_from, Z.shiftr_0_r. Qed.

Lemma le_combine_le_split_small (n : nat) v :
  in_range (Z.of_nat n * 8) v -> le_combine (le_split n v) = v.
Proof. intros Hv. rewrite le_combine_split. by apply Z.mod_small. Qed.

(** Skipping the fields in front of an offset. *)
Lemma drop_le_split (n k : nat) v (rest : bytes) :
  (k <= n)%nat -> drop n (le_split k v ++ rest) = drop (n - k) rest.
Proof. intros Hn. rewrite drop_app_ge; rewrite length_le_split; done. Qed.

(** Gluing two adjacent slices of a buffer. *)
Lemma take_drop_glue {A} (l : list A) (k n m : nat) :
  m = (k + n)%nat -> take n (drop k l) ++ drop m l = drop k l.
Proof. intros ->. rewrite <- drop_drop. apply take_drop. Qed.

Lemma byte_of_unsigned_eq (b : byte) z : byte.unsigned b = z -> byte.of_Z z = b.
Proof. intros <-. apply byte.of_Z_unsigned. Qed.

(** ** Stateful components

    A method of a C++ class with state [S] and result [A] is a [comp S A].  The
    second argument is the script of the memory allocator: one boolean per
    allocation that the source guards with [catch (const std::bad_alloc&)],
    [true] when it throws; an exhausted script means that no further allocation
    fails.  [Terminated] is [std::terminate()], which the source calls when a
    commit operation finds its validated precondition broken. *)

Definition Alloc := list bool.

Inductive outcome (A : Type) : Type :=
| Done (a : A)
| Terminated.
Arguments Done {A} a.
Arguments Terminated {A}.

Definition comp (S A : Type) : Type := S -> Alloc -> outcome (A * S * Alloc).

#[export] Instance comp_ret {S} : MRet (comp S) := fun A a s al => Done (a, s, al).

#[export] Instance comp_bind {S} : MBind (comp S) := fun A B k m s al =>
  match m s al with
  | Done (a, s', al') => k a s' al'
  | Terminated => Terminated
  end.

Definition get {S} : comp S S := fun s al => Done (s, s, al).
Definition gets {S A} (f : S -> A) : comp S A := fun s al => Done (f s, s, al).
Definition modify {S} (f : S -> S) : comp S unit := fun s al => Done (tt, f s, al).
Definition terminate {S A} : comp S A := fun _ _ => Terminated.

(** One guarded allocation: [true] when it throws [std::bad_alloc]. *)
Definition alloc_fails {S} : comp S bool := fun s al =>
  match al with
  | [] => Done (false, s, [])
  | b :: al' => Done (b, s, al')
  end.

(** Running a method of a member object. *)
Definition zoom {S T A} (proj : S -> T) (upd : T -> S -> S) (m : comp T A) : comp S A :=
  fun s al =>
    match m (proj s) al with
    | Done (a, t, al') => Done (a, upd t s, al')
    | Terminated => Terminated
    end.

(** [wp m Q s]: from [s], whatever the allocator does, [m] does not reach
    [std::terminate()] and ends with a result and a state that satisfy [Q]. *)
Definition wp {S A} (m : comp S A) (Q : A -> S -> Prop) (s : S) : Prop :=
  forall al, match m s al with
             | Done (a, s', _) => Q a s'
             | Terminated => False
             end.

Section wp_rules.
Context {S : Type}.

Lemma wp_ret {A} (a : A) (Q : A -> S -> Prop) s : Q a s -> wp (mret a) Q s.
Proof. by intros H al. Qed.

Lemma wp_bind {A B} (m : comp S A) (k : A -> comp S B) Q s :
  wp m (fun a s' => wp (k a) Q s') s -> wp (m ≫= k) Q s.
Proof.
  intros H al. specialize (H al). unfold mbind, comp_bind.
  destruct (m s al) as [[[a s'] al']|]; [apply H|done].
Qed.

Lemma wp_mono {A} (m : comp S A) (Q Q' : A -> S -> Prop) s :
  wp m Q s -> (forall a s', Q a s' -> Q' a s') -> wp m Q' s.
Proof.
  intros H HQ al. specialize (H al).
  destruct (m s al) as [[[a s'] al']|]; [by apply HQ|done].
Qed.

Lemma wp_and {A} (m : comp S A) (Q Q' : A -> S -> Prop) s :
  wp m Q s -> wp m Q' s -> wp m (fun a s' => Q a s' /\ Q' a s') s.
Proof.
  intros H H' al. specialize (H al). specialize (H' al).
  by destruct (m s al) as [[[a s'] al']|].
Qed.

Lemma wp_gets {A} (f : S -> A) (Q : A -> S -> Prop) s : Q (f s) s -> wp (gets f) Q s.
Proof. by intros H al. Qed.

Lemma wp_get (Q : S -> S -> Prop) s : Q s s -> wp get Q s.
Proof. by intros H al. Qed.

Lemma wp_modify (f : S -> S) Q s : Q tt (f s) -> wp (modify f) Q s.
Proof. by intros H al. Qed.

Lemma wp_alloc_fails (Q : bool -> S -> Prop) s :
  Q false s -> Q true s -> wp alloc_fails Q s.
Proof. intros Hf Ht [|[] al]; done. Qed.

Lemma wp_zoom {T A} (proj : S -> T) (upd : T -> S -> S) (m : comp T A) Q s :
  wp m (fun a t => Q a (upd t s)) (proj s) -> wp (zoom proj upd m) Q s.
Proof.
  intros H al. specialize (H al). unfold zoom.
  by destruct (m (proj s) al) as [[[a t] al']|].
Qed.

(** A [wp] fact about one concrete run. *)
Lemma wp_run {A} (m : comp S A) Q s al a s' al' :
  wp m Q s -> m s al = Done (a, s', al') -> Q a s'.
Proof. intros H E. specialize (H al). by rewrite E in H. Qed.
End wp_rules.

#[export] Hint Resolve wp_ret wp_gets wp_get wp_modify wp_alloc_fails : tp.

(** [wp_step] takes one step of the program in a [wp] goal. *)
Ltac wp_step :=
  lazymatch goal with
  | |- wp (mret _) _ _ => apply wp_ret
  | |- wp (_ ≫= _) _ _ => apply wp_bind
  | |- wp (gets _) _ _ => apply wp_gets
  | |- wp get _ _ => apply wp_get
  | |- wp (modify _) _ _ => apply wp_modify
  | |- wp alloc_fails _ _ => apply wp_alloc_fails
  | |- wp (zoom _ _ _) _ _ => apply wp_zoom
  end; cbv beta iota.

Ltac wp_steps := repeat wp_step.

(** ** Reading integers from memory

    [peek beyond p i] is [p[i]]; reads past the end of the buffer see whatever
    memory is there, the byte [beyond].  A reader that stays in bounds does
    not depend on it. *)

Definition peek (beyond : byte) (p : bytes) (i : nat) : Z := byte.unsigned (nth i p beyond).

Definition get_le (beyond : byte) (n : nat) (p : bytes) : Z :=
  fold_left (fun v i => Z.lor v (Z.shiftl (peek beyond p i) (Z.of_nat i * 8))) (seq 0 n) 0.

(** [value = (value << 8) | data[i]] in a [w]-bit unsigned variable. *)
Definition get_be (w : Z) (beyond : byte) (n : nat) (p : bytes) : Z :=
  fold_left (fun v i => Z.lor (wrap w (Z.shiftl v 8)) (peek beyond p i)) (seq 0 n) 0.

(** [out[i] = (v >> ((n-1-i)*8)) & 0xff] *)
Definition put_be (n : nat) (v : Z) : bytes :=
  map (fun i => byte_at v (Z.of_nat (n - 1 - i))) (seq 0 n).

#[global] Arguments get_le : simpl never.
#[global] Arguments get_be : simpl never.
#[global] Arguments put_be : simpl never.
#[global] Arguments peek : simpl never.

Section integer_readers.
Variable beyond : byte.

Lemma take_S_nth n (p : bytes) :
  (n < length p)%nat -> take (S n) p = take n p ++ [nth n p beyond].
Proof.
  intros Hn. destruct (lookup_lt_is_Some_2 p n Hn) as [x Hx].
  by rewrite (take_S_r p n x Hx), (nth_lookup_Some _ _ _ _ Hx).
Qed.

Lemma get_le_combine n p : (n <= length p)%nat -> get_le beyond n p = le_combine (take n p).
Proof.
  unfold get_le. induction n as [|n IH]; intros Hn; [done|].
  rewrite seq_S, fold_left_app, IH, take_S_nth by lia. cbn [fold_left plus].
  rewrite le_combine_app, length_take_le, le_combine_1 by lia. done.
Qed.

Lemma le_combine_range (l : bytes) : in_range (Z.of_nat (length l) * 8) (le_combine l).
Proof. pose proof (le_combine_bound l) as H. unfold in_range. by rewrite Z.mul_comm. Qed.

Lemma get_be_combine w n p :
  (n <= length p)%nat -> Z.of_nat n * 8 <= w ->
  get_be w beyond n p = le_combine (rev (take n p)).
Proof.
  unfold get_be. induction n as [|n IH]; intros Hn Hw; [done|].
  rewrite seq_S, fold_left_app, IH, take_S_nth by lia. cbn [fold_left plus].
  rewrite rev_unit. unfold le_combine at 2; fold le_combine.
  pose proof (le_combine_range (rev (take n p))) as Hr.
  rewrite length_rev, length_take_le in Hr by lia.
  rewrite wrap_small; [by rewrite Z.lor_comm|].
  rewrite Z.shiftl_mul_pow2 by lia. unfold in_range in *.
  assert (2 ^ (Z.of_nat n * 8 + 8) <= 2 ^ w) by (apply Z.pow_le_mono_r; lia).
  rewrite Z.pow_add_r in * by lia. nia.
Qed.

Lemma put_be_split n v : put_be n v = rev (le_split n v).
Proof.
  rewrite <- le_writer_split, <- map_rev. unfold put_be.
  assert (rev (seq 0 n) = map (fun i => (n - 1 - i)%nat) (seq 0 n)) as ->.
  { apply list_eq. intros i. destruct (decide (i < n)%nat) as [Hi|Hi].
    - rewrite list_lookup_fmap, lookup_seq_lt by done. cbn.
      rewrite rev_alt. change (rev_append (seq 0 n) []) with (reverse (seq 0 n)).
      rewrite reverse_lookup by (rewrite length_seq; done).
      rewrite length_seq, lookup_seq_lt by lia. f_equal. lia.
    - rewrite !lookup_ge_None_2; [done| |]; rewrite ?length_rev, ?length_map, length_seq; lia. }
  by rewrite map_map.
Qed.

Lemma length_put_be n v : length (put_be n v) = n.
Proof. unfold put_be. by rewrite length_map, length_seq. Qed.

Lemma get_le_range n p : (n <= length p)%nat -> in_range (Z.of_nat n * 8) (get_le beyond n p).
Proof.
  intros Hn. rewrite get_le_combine by done. pose proof (le_combine_range (take n p)) as H.
  by rewrite length_take_le in H.
Qed.

Lemma get_be_range w n p :
  (n <= length p)%nat -> Z.of_nat n * 8 <= w -> in_range (Z.of_nat n * 8) (get_be w beyond n p).
Proof.
  intros Hn Hw. rewrite get_be_combine by done. pose proof (le_combine_range (rev (take n p))) as H.
  by rewrite length_rev, length_take_le in H.
Qed.

(** Reading what was just written, with anything behind it. *)
Lemma get_le_split n v rest :
  in_range (Z.of_nat n * 8) v -> get_le beyond n (le_split n v ++ rest) = v.
Proof.
  intros Hv. rewrite get_le_combine by (rewrite length_app, length_le_split; lia).
  rewrite take_app_length' by (symmetry; apply length_le_split). by apply le_combine_le_split_small.
Qed.

Lemma get_be_put w n v rest :
  Z.of_nat n * 8 <= w -> in_range (Z.of_nat n * 8) v ->
  get_be w beyond n (put_be n v ++ rest) = v.
Proof.
  intros Hw Hv. rewrite get_be_combine by (rewrite ?length_app, ?length_put_be; lia).
  rewrite take_app_length' by (symmetry; apply length_put_be).
  rewrite put_be_split, rev_involutive. by apply le_combine_le_split_small.
Qed.

(** Writing back what was just read. *)
Lemma split_get_le n p : (n <= length p)%nat -> le_split n (get_le beyond n p) = take n p.
Proof.
  intros Hn. rewrite get_le_combine by done.
  apply split_le_combine'. by apply length_take_le.
Qed.

Lemma put_get_be w n p :
  (n <= length p)%nat -> Z.of_nat n * 8 <= w -> put_be n (get_be w beyond n p) = take n p.
Proof.
  intros Hn Hw. rewrite get_be_combine, put_be_split by done.
  rewrite split_le_combine'; [apply rev_involutive|]. rewrite length_rev. by apply length_take_le.
Qed.
End integer_readers.

Lemma drop_put_be (n k : nat) v (rest : bytes) :
  (k <= n)%nat -> drop n (put_be k v ++ rest) = drop (n - k) rest.
Proof. intros Hn. rewrite drop_app_ge; rewrite length_put_be; done. Qed.

Lemma drop_byte (n : nat) (b : byte) (rest : bytes) :
  (1 <= n)%nat -> drop n ([b] ++ rest) = drop (n - 1) rest.
Proof. intros Hn. by rewrite drop_app_ge. Qed.

Lemma peek_drop beyond (p : bytes) i : peek beyond p i = peek beyond (drop i p) 0.
Proof.
  unfold peek. f_equal. revert p. induction i as [|i IH]; intros [|x p]; cbn; done.
Qed.

Lemma peek_byte beyond b (rest : bytes) : peek beyond ([b] ++ rest) 0 = byte.unsigned b.
Proof. done. Qed.

Lemma peek_range beyond p i : u8 (peek beyond p i).
Proof. apply byte.unsigned_range. Qed.

(** [drop_fields] resolves every read at a constant offset of a buffer built by
    appending fixed-width fields. *)
Ltac drop_fields :=
  repeat first [rewrite drop_0
               | rewrite drop_le_split by lia; cbn [Nat.sub]
               | rewrite drop_put_be by lia; cbn [Nat.sub]
               | rewrite drop_byte by lia; cbn [Nat.sub]].

Lemma unsigned_of_Z_small z : u8 z -> byte.unsigned (byte.of_Z z) = z.
Proof. intros Hz. rewrite byte.unsigned_of_Z. by apply Z.mod_small. Qed.

(** One byte of a buffer, written back. *)
Lemma take_1_peek beyond (p : bytes) i :
  (i < length p)%nat -> [byte.of_Z (peek beyond p i)] = take 1 (drop i p).
Proof.
  intros Hi. unfold peek. rewrite byte.of_Z_unsigned.
  revert p Hi. induction i as [|i IH]; intros [|x p] Hi; cbn in *; try lia; [done|].
  apply IH. lia.
Qed.
