(* ===== verification/Api.v ===== *)
(** * Shared API types

    The vocabulary of [include/tidepool/api/]: status codes and results
    ([status.h]), block keys, metadata and blocks ([block_key.h], [block.h]),
    caller-owned read buffers ([buffer.h]), locations ([location.h]) and the
    shard map ([shard_map.h]).  Text ([std::string] used as a message, a node
    id or a database key) is a [string]; a byte buffer is a [list byte]. *)

From S2P Require Import Prelude.

(** ** status.h *)

Inductive StatusCode : Type :=
| kOk
| kNotImplemented
| kNotFound
| kInvalidArgument
| kAlreadyExists
| kIoError
| kNetworkError
| kUnavailable
| kOutOfCapacity
| kCorruption
| kInternal.

#[export] Instance StatusCode_eq_dec : EqDecision StatusCode.
Proof. solve_decision. Defined.

Definition StatusCodeName (code : StatusCode) : string :=
  match code with
  | kOk => "Ok"
  | kNotImplemented => "NotImplemented"
  | kNotFound => "NotFound"
  | kInvalidArgument => "InvalidArgument"
  | kAlreadyExists => "AlreadyExists"
  | kIoError => "IoError"
  | kNetworkError => "NetworkError"
  | kUnavailable => "Unavailable"
  | kOutOfCapacity => "OutOfCapacity"
  | kCorruption => "Corruption"
  | kInternal => "Internal"
  end.

Record Status : Type := mkStatus { code : StatusCode; message : string }.

#[export] Instance Status_eq_dec : EqDecision Status.
Proof. solve_decision. Defined.

Definition Ok : Status := mkStatus kOk "".
Definition NotImplemented (msg : string) : Status := mkStatus kNotImplemented msg.
Definition NotFound (msg : string) : Status := mkStatus kNotFound msg.
Definition InvalidArgument (msg : string) : Status := mkStatus kInvalidArgument msg.
Definition Unavailable (msg : string) : Status := mkStatus kUnavailable msg.
Definition IoError (msg : string) : Status := mkStatus kIoError msg.
Definition NetworkError (msg : string) : Status := mkStatus kNetworkError msg.
Definition Corruption (msg : string) : Status := mkStatus kCorruption msg.
Definition Internal (msg : string) : Status := mkStatus kInternal msg.

(** [Status::ok()] *)
Definition ok (s : Status) : bool := bool_decide (code s = kOk).

(** [Status::ToString()] *)
Definition Status_ToString (s : Status) : string :=
  let name := StatusCodeName (code s) in
  if String.eqb (message s) "" then name else (name +:+ ": " +:+ message s)%string.

(** [Result<T>]: a value with status [Ok], or a status without value. *)
Inductive Result (T : Type) : Type :=
| Value (v : T)
| Error (s : Status).
Arguments Value {T} v.
Arguments Error {T} s.

Lemma Value_inj {T} (a b : T) : Value a = Value b -> a = b.
Proof. congruence. Qed.

Definition result_status {T} (r : Result T) : Status :=
  match r with
  | Value _ => Ok
  | Error s => s
  end.

Definition result_ok {T} (r : Result T) : bool := ok (result_status r).

Definition value_or {T} (r : Result T) (fallback : T) : T :=
  match r with
  | Value v => v
  | Error _ => fallback
  end.

(** Early returns.  [check s ;; k] is [if (!s.ok()) return s; k] in a function
    returning a [Status], [check_r] the same in one returning a [Result], and
    [let? x := r in k] is [if (!r.ok()) return r.status(); x = r.value(); k]. *)
Notation "'check' s ';;' k" := (let st := s in if ok st then k else st)
  (at level 10, s at level 99, k at level 200) : tp_scope.
Notation "'check_r' s ';;' k" := (let st := s in if ok st then k else Error st)
  (at level 10, s at level 99, k at level 200) : tp_scope.
Notation "'let?' x ':=' r 'in' k" :=
  (match r with Value x => k | Error st => Error st end)
  (at level 10, x name, r at level 100, k at level 200) : tp_scope.
Notation "'let!' x ':=' r 'in' k" :=
  (match r with Value x => k | Error st => st end)
  (at level 10, x name, r at level 100, k at level 200) : tp_scope.

Lemma ok_iff s : ok s = true <-> code s = kOk.
Proof. unfold ok. by rewrite bool_decide_eq_true. Qed.

Lemma ok_false_iff s : ok s = false <-> code s <> kOk.
Proof. unfold ok. by rewrite bool_decide_eq_false. Qed.

Lemma ok_Ok : ok Ok = true.
Proof. done. Qed.
#[export] Hint Rewrite ok_Ok : tp_simpl.

(** [ok_simpl] decides every [ok] of a status with a known code. *)
Ltac ok_simpl :=
  repeat match goal with
  | |- context [ok ?s] =>
      let v := eval lazy in (ok s) in
      lazymatch v with
      | true => change (ok s) with true
      | false => change (ok s) with false
      end
  end; cbv beta iota.

(** ** block_key.h, block.h *)

Record BlockKey : Type := mkBlockKey {
  prefix_hash : Z;
  prefix_len : Z;
  model_fingerprint : Z
}.

#[export] Instance BlockKey_eq_dec : EqDecision BlockKey.
Proof. solve_decision. Defined.

#[export] Instance BlockKey_countable : Countable BlockKey.
Proof.
  refine (inj_countable' (fun k => (prefix_hash k, prefix_len k, model_fingerprint k))
            (fun p => mkBlockKey p.1.1 p.1.2 p.2) _).
  by intros [].
Defined.

(** [BlockKey::operator==] *)
Definition BlockKey_eqb (a b : BlockKey) : bool :=
  (prefix_hash a =? prefix_hash b) && (prefix_len a =? prefix_len b)
  && (model_fingerprint a =? model_fingerprint b).

Lemma BlockKey_eqb_eq a b : BlockKey_eqb a b = true <-> a = b.
Proof.
  destruct a, b; unfold BlockKey_eqb; cbn.
  rewrite !andb_true_iff, !Z.eqb_eq. naive_solver.
Qed.

Lemma BlockKey_eqb_spec a b : BlockKey_eqb a b = bool_decide (a = b).
Proof.
  destruct (decide (a = b)) as [->|Hne].
  - rewrite bool_decide_eq_true_2 by done. by apply BlockKey_eqb_eq.
  - rewrite bool_decide_eq_false_2 by done.
    apply not_true_iff_false. by rewrite BlockKey_eqb_eq.
Qed.
#[export] Hint Rewrite BlockKey_eqb_spec : tp_simpl.

(** The declared widths of the fields. *)
Definition BlockKey_wf (k : BlockKey) : Prop :=
  u64 (prefix_hash k) /\ u32 (prefix_len k) /\ u32 (model_fingerprint k).

Record BlockMetadata : Type := mkBlockMetadata {
  num_tokens : Z;
  num_layers : Z;
  dtype_size : Z;
  kv_heads : Z;
  created_unix_ns : Z;
  meta_model_fingerprint : Z
}.

#[export] Instance BlockMetadata_eq_dec : EqDecision BlockMetadata.
Proof. solve_decision. Defined.

Definition BlockMetadata_default : BlockMetadata := mkBlockMetadata 0 0 0 0 0 0.

Definition BlockMetadata_wf (m : BlockMetadata) : Prop :=
  u32 (num_tokens m) /\ u32 (num_layers m) /\ u16 (dtype_size m) /\ u16 (kv_heads m)
  /\ u64 (created_unix_ns m) /\ u32 (meta_model_fingerprint m).

Record Block : Type := mkBlock { metadata : BlockMetadata; data : bytes }.

#[export] Instance byte_eq_dec : EqDecision byte := Byte.byte_eq_dec.

#[export] Instance Block_eq_dec : EqDecision Block.
Proof. solve_decision. Defined.

Definition size_bytes (b : Block) : Z := zlen (data b).

Definition Block_wf (b : Block) : Prop :=
  BlockMetadata_wf (metadata b) /\ u64 (size_bytes b).

(** ** location.h, shard_map.h *)

Inductive TierType : Type := kGpu | kDram | kSsd.

#[export] Instance TierType_eq_dec : EqDecision TierType.
Proof. solve_decision. Defined.

Definition TierTypeName (t : TierType) : string :=
  match t with
  | kGpu => "gpu"
  | kDram => "dram"
  | kSsd => "ssd"
  end.

Record Location : Type := mkLocation { node_id : string; tier : TierType; handle : Z }.

#[export] Instance Location_eq_dec : EqDecision Location.
Proof. solve_decision. Defined.

Record NodeInfo : Type := mkNodeInfo {
  ni_id : string;
  ni_address : string;
  ni_vnode_count : Z;
  ni_alive : bool
}.

Record ShardMap : Type := mkShardMap { sm_version : Z; sm_nodes : list NodeInfo }.

(** [ShardMap::FindNode]: the index loop, first match wins. *)
Fixpoint find_node_from (nodes : list NodeInfo) (id : string) : option NodeInfo :=
  match nodes with
  | [] => None
  | n :: rest => if String.eqb (ni_id n) id then Some n else find_node_from rest id
  end.

Definition FindNode (m : ShardMap) (id : string) : option NodeInfo :=
  find_node_from (sm_nodes m) id.

(** ** buffer.h

    [mb_data] is the memory behind the pointer, [None] for [nullptr].  A
    [BlockView] returned by a read always points at the caller's buffer:
    [bv_data] says whether the pointer is non-null, and the bytes it shows are
    [view_bytes]. *)

Record MutableBuffer : Type := mkMutableBuffer { mb_data : option bytes; mb_capacity : Z }.

Record BlockView : Type := mkBlockView {
  bv_data : bool;
  bv_size : Z;
  bv_metadata : BlockMetadata
}.

Definition BlockView_default : BlockView := mkBlockView false 0 BlockMetadata_default.

(** A buffer that really owns [mb_capacity] bytes. *)
Definition MutableBuffer_wf (dst : MutableBuffer) : Prop :=
  match mb_data dst with
  | Some mem => zlen mem = mb_capacity dst
  | None => True
  end.

(** [std::memcpy(dst.data, src, n)] *)
Definition buffer_write (dst : MutableBuffer) (src : bytes) : MutableBuffer :=
  match mb_data dst with
  | Some mem => mkMutableBuffer (Some (src ++ drop (length src) mem)) (mb_capacity dst)
  | None => dst
  end.

(** The range [[view.data, view.data + view.size)]. *)
Definition view_bytes (dst : MutableBuffer) (v : BlockView) : bytes :=
  match mb_data dst with
  | Some mem => take (Z.to_nat (bv_size v)) mem
  | None => []
  end.

Lemma buffer_write_view dst src meta :
  (src = [] \/ mb_data dst <> None) ->
  view_bytes (buffer_write dst src) (mkBlockView (bool_decide (mb_data dst <> None)) (zlen src) meta) = src.
Proof.
  unfold view_bytes, buffer_write, zlen; cbn. destruct dst as [[mem|] cap]; cbn; intros Hs.
  - by rewrite Nat2Z.id, take_app_length.
  - naive_solver.
Qed.
