(* ===== verification/BlockKeys.v ===== *)
(** * Block keys

    [src/api/block_key.cpp]: the textual form of a key used by the SSD tier as
    a database key ([BlockKey::ToString]), its strict parser
    ([BlockKey::FromString]) and the content hash of a token prefix
    ([BlockKey::FromTokenPrefix]).  The parts of the C++ library the source
    uses, [std::snprintf] with [%016llx] and [%u], [std::from_chars],
    [string_view::find] and [substr], are written out on character lists. *)

From S2P Require Import Prelude Api.
Local Open Scope tp_scope.

Abbreviation chars := (list ascii).

(** ** Digits *)

Definition digit_char (d : Z) : ascii :=
  if d <? 10 then ascii_of_nat (48 + Z.to_nat d) else ascii_of_nat (87 + Z.to_nat d).

(** The value [std::from_chars] gives a character: digits, then letters of
    either case. *)
Definition digit_val (c : ascii) : option Z :=
  let n := Z.of_nat (nat_of_ascii c) in
  if (48 <=? n) && (n <=? 57) then Some (n - 48)
  else if (97 <=? n) && (n <=? 122) then Some (n - 87)
  else if (65 <=? n) && (n <=? 90) then Some (n - 55)
  else None.

Fixpoint print_digits (base : Z) (fuel : nat) (z : Z) : chars :=
  match fuel with
  | O => [digit_char (z mod base)]
  | S fuel' =>
      if z <? base then [digit_char z]
      else print_digits base fuel' (z / base) ++ [digit_char (z mod base)]
  end.

(** Minimal representation of an unsigned value; [Z.log2 z] digits are enough
    in every base from two on. *)
Definition print_unsigned (base z : Z) : chars :=
  print_digits base (Z.to_nat (Z.log2 z)) z.

(** [std::to_string] on an unsigned value. *)
Definition to_string (z : Z) : string := string_of_list_ascii (print_unsigned 10 z).

Definition pad_zero (width : nat) (l : chars) : chars :=
  replicate (width - length l) "0"%char ++ l.

(** [std::snprintf] keeps at most [size - 1] characters. *)
Definition snprintf (size : nat) (l : chars) : chars := take (size - 1) l.

(** ** Parsing *)

Fixpoint scan_digits (base : Z) (text : chars) : list Z * chars :=
  match text with
  | [] => ([], [])
  | c :: rest =>
      match digit_val c with
      | Some d =>
          if d <? base then
            let '(ds, tail) := scan_digits base rest in (d :: ds, tail)
          else ([], text)
      | None => ([], text)
      end
  end.

Definition digits_value (base : Z) (ds : list Z) : Z :=
  fold_left (fun acc d => acc * base + d) ds 0.

(** [std::from_chars] into a [w]-bit unsigned type: the value and the unread
    tail, or an error when there is no digit or the value does not fit. *)
Definition from_chars (w base : Z) (text : chars) : option (Z * chars) :=
  let '(ds, tail) := scan_digits base text in
  match ds with
  | [] => None
  | _ => let v := digits_value base ds in if v <? 2 ^ w then Some (v, tail) else None
  end.

Definition ParseUnsigned (w : Z) (text : chars) (base : Z) : option Z :=
  match text with
  | [] => None
  | _ =>
      match from_chars w base text with
      | Some (v, []) => Some v
      | _ => None
      end
  end.

Fixpoint find_char (c : ascii) (l : chars) : option nat :=
  match l with
  | [] => None
  | x :: rest => if Ascii.eqb x c then Some O else S <$> find_char c rest
  end.

(** [string_view::find(c, pos)]; [None] is [npos]. *)
Definition find_from (c : ascii) (pos : nat) (l : chars) : option nat :=
  Nat.add pos <$> find_char c (drop pos l).

Definition substr (l : chars) (pos count : nat) : chars := take count (drop pos l).

(** ** BlockKey::ToString, BlockKey::FromString *)

Definition ToString_chars (k : BlockKey) : chars :=
  snprintf 48
    (pad_zero 16 (print_unsigned 16 (prefix_hash k)) ++ ":"%char
       :: print_unsigned 10 (prefix_len k) ++ ":"%char
       :: print_unsigned 10 (model_fingerprint k)).

Definition ToString (k : BlockKey) : string := string_of_list_ascii (ToString_chars k).

Definition FromString (encoded : string) : Result BlockKey :=
  let e := list_ascii_of_string encoded in
  match find_from ":" 0 e with
  | Some first =>
      if negb (first =? 16)%nat then
        Error (Corruption "BlockKey: expected exactly 16 hexadecimal hash digits")
      else
      match find_from ":" (first + 1) e with
      | None => Error (Corruption "BlockKey: expected hash:length:model")
      | Some second =>
          if bool_decide (find_from ":" (second + 1) e <> None) then
            Error (Corruption "BlockKey: expected hash:length:model")
          else
          match ParseUnsigned 64 (substr e 0 first) 16,
                ParseUnsigned 32 (substr e (first + 1) (second - first - 1)) 10,
                ParseUnsigned 32 (drop (second + 1) e) 10 with
          | Some h, Some l, Some m =>
              let key := mkBlockKey h l m in
              if String.eqb (ToString key) encoded then Value key
              else Error (Corruption "BlockKey: non-canonical encoding")
          | _, _, _ => Error (Corruption "BlockKey: invalid or overflowing numeric field")
          end
      end
  | None => Error (Corruption "BlockKey: expected exactly 16 hexadecimal hash digits")
  end.

(** ** BlockKey::FromTokenPrefix *)

Definition fnv_basis : Z := 1469598103934665603.
Definition fnv_prime : Z := 1099511628211.

(** [h ^= byte; h *= prime] on [uint64_t]. *)
Definition fnv_step (h : Z) (b : Z) : Z := wrap 64 (Z.lxor h b * fnv_prime).

(** The [n] low bytes of a value, least significant first. *)
Definition low_bytes (n : nat) (v : Z) : list Z :=
  map (fun i => Z.land (Z.shiftr v (Z.of_nat i * 8)) 255) (seq 0 n).

Definition fnv_mix (h : Z) (v : Z) (n : nat) : Z := fold_left fnv_step (low_bytes n v) h.
#[global] Arguments fnv_mix : simpl never.

(** [static_cast<uint32_t>(tokens[i])] wraps a negative token id. *)
Definition fnv_tokens (h : Z) (tokens : list Z) : Z :=
  fold_left (fun h t => fnv_mix h (wrap 32 t) 4) tokens h.

Definition FromTokenPrefix (tokens : list Z) (prefix_len model_fingerprint : Z) : BlockKey :=
  let n := if prefix_len <? zlen tokens then prefix_len else wrap 32 (zlen tokens) in
  mkBlockKey (fnv_tokens fnv_basis (take (Z.to_nat n) tokens)) n model_fingerprint.

(** ** Lemmas on digits *)

Lemma digit_val_char d : 0 <= d < 16 -> digit_val (digit_char d) = Some d.
Proof.
  intros Hd. assert (d ∈ map Z.of_nat (seq 0 16)) as Hin.
  { apply list_elem_of_In, in_map_iff. exists (Z.to_nat d). rewrite in_seq. lia. }
  revert d Hd Hin. vm_compute. intros d _ Hin.
  repeat (apply elem_of_cons in Hin as [->|Hin]; [reflexivity|]).
  by apply elem_of_nil in Hin.
Qed.

Lemma digit_char_not_colon d : 0 <= d < 16 -> digit_char d <> ":"%char.
Proof.
  intros Hd E. pose proof (digit_val_char d Hd) as Hv. rewrite E in Hv. vm_compute in Hv.
  discriminate.
Qed.

Definition is_digit (base : Z) (c : ascii) : Prop :=
  exists d, 0 <= d < base /\ c = digit_char d.

Lemma print_digits_Forall base fuel z :
  1 < base -> 0 <= z -> Forall (is_digit base) (print_digits base fuel z).
Proof.
  intros Hb. revert z. induction fuel as [|fuel IH]; intros z Hz; cbn.
  - constructor; [|done]. eexists; split; [|done]. apply Z.mod_pos_bound. lia.
  - destruct (Z.ltb_spec z base).
    + constructor; [|done]. by exists z.
    + apply Forall_app. split; [apply IH; apply Z.div_pos; lia|].
      constructor; [|done]. eexists; split; [|done]. apply Z.mod_pos_bound. lia.
Qed.

Lemma scan_digits_app base ds :
  base <= 16 -> Forall (fun d => 0 <= d < base) ds ->
  scan_digits base (map digit_char ds) = (ds, []).
Proof.
  intros Hb. induction 1 as [|d ds Hd _ IH]; cbn [map scan_digits]; [done|].
  rewrite digit_val_char by lia. rewrite (proj2 (Z.ltb_lt d base)) by lia. by rewrite IH.
Qed.

Lemma digits_value_snoc base ds d :
  digits_value base (ds ++ [d]) = digits_value base ds * base + d.
Proof. unfold digits_value. by rewrite fold_left_app. Qed.

(** The digits [print_digits] writes evaluate back to the number. *)
Lemma print_digits_value base fuel z :
  1 < base -> 0 <= z < base ^ (Z.of_nat fuel + 1) ->
  exists ds, print_digits base fuel z = map digit_char ds
             /\ Forall (fun d => 0 <= d < base) ds
             /\ digits_value base ds = z
             /\ ds <> [].
Proof.
  intros Hb. revert z. induction fuel as [|fuel IH]; intros z Hz.
  - exists [z]. assert (z < base) by (change (Z.of_nat 0 + 1) with 1 in Hz; rewrite Z.pow_1_r in Hz; lia).
    cbn. rewrite Z.mod_small by lia.
    repeat split; [constructor; [lia|constructor]|done].
  - cbn. destruct (Z.ltb_spec z base).
    + exists [z]. repeat split; [constructor; [lia|constructor]|done].
    + destruct (IH (z / base)) as (ds & E & Hds & Hv & _).
      { split; [apply Z.div_pos; lia|]. apply Z.div_lt_upper_bound; [lia|].
        rewrite <- Z.pow_succ_r by lia.
        replace (Z.succ (Z.of_nat fuel + 1)) with (Z.of_nat (S fuel) + 1) by lia. lia. }
      exists (ds ++ [z mod base]). rewrite E, map_app. repeat split.
      * apply Forall_app; split; [done|]. constructor; [|done]. apply Z.mod_pos_bound. lia.
      * rewrite digits_value_snoc, Hv. rewrite Z.mul_comm. symmetry. apply Z.div_mod. lia.
      * by destruct ds.
Qed.

Lemma log2_fuel base z : 1 < base -> 0 <= z -> z < base ^ (Z.of_nat (Z.to_nat (Z.log2 z)) + 1).
Proof.
  intros Hb Hz. pose proof (Z.log2_nonneg z). rewrite Z2Nat.id by lia.
  destruct (Z.eq_dec z 0) as [->|Hne].
  - change (Z.log2 0 + 1) with 1. lia.
  - apply Z.lt_le_trans with (2 ^ (Z.log2 z + 1)).
    + replace (Z.log2 z + 1) with (Z.succ (Z.log2 z)) by lia. apply Z.log2_spec. lia.
    + apply Z.pow_le_mono_l. lia.
Qed.

Lemma print_unsigned_value base z :
  1 < base -> 0 <= z ->
  exists ds, print_unsigned base z = map digit_char ds
             /\ Forall (fun d => 0 <= d < base) ds
             /\ digits_value base ds = z
             /\ ds <> [].
Proof. intros Hb Hz. apply print_digits_value; [done|]. split; [done|]. by apply log2_fuel. Qed.

Lemma print_digits_length base fuel z (n : nat) :
  1 < base -> 0 <= z < base ^ Z.of_nat n -> (1 <= n)%nat ->
  (length (print_digits base fuel z) <= n)%nat.
Proof.
  intros Hb. revert z n. induction fuel as [|fuel IH]; intros z n Hz Hn; cbn; [done|].
  destruct (Z.ltb_spec z base); [done|]. rewrite length_app. cbn.
  destruct n as [|n]; [lia|].
  assert (1 <= n)%nat.
  { destruct n; [|lia]. change (Z.of_nat 1) with 1 in Hz. rewrite Z.pow_1_r in Hz. lia. }
  enough (length (print_digits base fuel (z / base)) <= n)%nat by lia. apply IH; [|done].
  split; [apply Z.div_pos; lia|]. apply Z.div_lt_upper_bound; [lia|].
  rewrite Nat2Z.inj_succ, Z.pow_succ_r in Hz by lia. lia.
Qed.

Lemma digits_value_zeros base n ds :
  digits_value base (replicate n 0 ++ ds) = digits_value base ds.
Proof. unfold digits_value. induction n; cbn; [done|]. apply IHn. Qed.

(** [std::from_chars] reads back what [std::snprintf] wrote, padded or not. *)
Lemma ParseUnsigned_pad w base n z :
  2 <= base <= 16 -> in_range w z ->
  ParseUnsigned w (pad_zero n (print_unsigned base z)) base = Some z.
Proof.
  intros Hb Hz. destruct (print_unsigned_value base z) as (ds & E & Hds & Hv & Hne); [lia|apply Hz|].
  unfold pad_zero. rewrite E. set (k := (n - _)%nat).
  assert (replicate k "0"%char = map digit_char (replicate k 0)) as ->.
  { clear. induction k; cbn; [done|]. by rewrite IHk. }
  rewrite <- map_app. unfold ParseUnsigned.
  destruct (map digit_char (replicate k 0 ++ ds)) eqn:Em.
  { destruct (replicate k 0); destruct ds; done. }
  rewrite <- Em. unfold from_chars. rewrite scan_digits_app; [|lia|].
  2: { apply Forall_app; split; [|done]. apply Forall_replicate. lia. }
  destruct (replicate k 0 ++ ds) eqn:El; [destruct (replicate k 0); destruct ds; done|].
  rewrite <- El, digits_value_zeros, Hv. 
  rewrite (proj2 (Z.ltb_lt z _)) by apply Hz. done.
Qed.

Lemma ParseUnsigned_print w base z :
  2 <= base <= 16 -> in_range w z -> ParseUnsigned w (print_unsigned base z) base = Some z.
Proof. intros Hb Hz. by apply (ParseUnsigned_pad w base 0 z). Qed.

(** ** Searching for the separators *)

Lemma find_char_app c l t : c ∉ l -> find_char c (l ++ c :: t) = Some (length l).
Proof.
  induction l as [|x l IH]; intros Hc; cbn.
  - by rewrite Ascii.eqb_refl.
  - apply not_elem_of_cons in Hc as [Hx Hl]. destruct (Ascii.eqb_spec x c); [done|].
    by rewrite IH.
Qed.

Lemma find_char_None c l : c ∉ l -> find_char c l = None.
Proof.
  induction l as [|x l IH]; intros Hc; cbn; [done|].
  apply not_elem_of_cons in Hc as [Hx Hl]. destruct (Ascii.eqb_spec x c); [done|].
  by rewrite IH.
Qed.

(** The three fields of a key, separated by colons, are found where they are. *)
Lemma find_fields (h l m : chars) :
  ":"%char ∉ h -> ":"%char ∉ l -> ":"%char ∉ m ->
  let e := h ++ ":"%char :: l ++ ":"%char :: m in
  let first := length h in
  let second := (length h + 1 + length l)%nat in
  find_from ":" 0 e = Some first
  /\ find_from ":" (first + 1) e = Some second
  /\ find_from ":" (second + 1) e = None
  /\ substr e 0 first = h
  /\ substr e (first + 1) (second - first - 1) = l
  /\ drop (second + 1) e = m.
Proof.
  intros Hh Hl Hm e first second. subst e first second. unfold find_from, substr.
  assert (drop (length h + 1) (h ++ ":"%char :: l ++ ":"%char :: m) = l ++ ":"%char :: m) as E1.
  { rewrite drop_app_ge by lia. replace (length h + 1 - length h)%nat with 1%nat by lia. done. }
  assert (drop (length h + 1 + length l + 1) (h ++ ":"%char :: l ++ ":"%char :: m) = m) as E2.
  { replace (length h + 1 + length l + 1)%nat with (length h + 1 + (length l + 1))%nat by lia.
    rewrite <- drop_drop, E1, drop_app_ge by lia.
    replace (length l + 1 - length l)%nat with 1%nat by lia. done. }
  rewrite drop_0, E1, E2. rewrite !find_char_app by done. rewrite find_char_None by done.
  cbn [fmap option_fmap option_map]. repeat split; try done.
  - rewrite take_app_length. done.
  - replace (length h + 1 + length l - length h - 1)%nat with (length l) by lia.
    by rewrite take_app_length.
Qed.

Lemma print_unsigned_no_colon base z :
  1 < base <= 16 -> 0 <= z -> ":"%char ∉ print_unsigned base z.
Proof.
  intros Hb Hz Hin. pose proof (print_digits_Forall base (Z.to_nat (Z.log2 z)) z) as HF.
  rewrite Forall_forall in HF. destruct (HF ltac:(lia) Hz _ Hin) as (d & Hd & E).
  by apply (digit_char_not_colon d); [lia|].
Qed.

Lemma pad_zero_no_colon n l : ":"%char ∉ l -> ":"%char ∉ pad_zero n l.
Proof.
  intros Hl Hin. unfold pad_zero in Hin. apply elem_of_app in Hin as [Hin|Hin]; [|done].
  apply elem_of_replicate in Hin as [? _]. done.
Qed.

Lemma print_unsigned_length base z (n : nat) :
  1 < base -> 0 <= z < base ^ Z.of_nat n -> (1 <= n)%nat ->
  (length (print_unsigned base z) <= n)%nat.
Proof. apply print_digits_length. Qed.

Lemma pad_zero_length n l : (length l <= n)%nat -> length (pad_zero n l) = n.
Proof. intros H. unfold pad_zero. rewrite length_app, length_replicate. lia. Qed.

Lemma hash_field_length h : u64 h -> length (pad_zero 16 (print_unsigned 16 h)) = 16%nat.
Proof.
  intros Hh. apply pad_zero_length, print_unsigned_length; [lia| |lia].
  change (16 ^ Z.of_nat 16) with (2 ^ 64). apply Hh.
Qed.

Lemma u32_field_length z : u32 z -> (length (print_unsigned 10 z) <= 10)%nat.
Proof.
  intros Hz. apply print_unsigned_length; [lia| |lia].
  assert (2 ^ 32 < 10 ^ Z.of_nat 10) by (by vm_compute). unfold in_range in Hz. lia.
Qed.

(** The 48-byte buffer is never too small: nothing is truncated. *)
Lemma ToString_chars_untruncated k :
  BlockKey_wf k ->
  ToString_chars k =
    pad_zero 16 (print_unsigned 16 (prefix_hash k)) ++ ":"%char
      :: print_unsigned 10 (prefix_len k) ++ ":"%char
      :: print_unsigned 10 (model_fingerprint k).
Proof.
  intros (Hh & Hl & Hm). unfold ToString_chars, snprintf. apply take_ge.
  rewrite length_app. cbn [length]. rewrite length_app. cbn [length].
  rewrite hash_field_length by done.
  pose proof (u32_field_length _ Hl). pose proof (u32_field_length _ Hm). lia.
Qed.

(** [FromString] inverts [ToString] on every key. *)
Lemma FromString_ToString_value k : BlockKey_wf k -> FromString (ToString k) = Value k.
Proof.
  intros Hwf. pose proof Hwf as (Hh & Hl & Hm).
  assert (list_ascii_of_string (ToString k) = ToString_chars k) as Ee
    by apply list_ascii_of_string_of_list_ascii.
  unfold FromString. cbv zeta. rewrite Ee, ToString_chars_untruncated by done. clear Ee.
  set (h := pad_zero 16 _). set (l := print_unsigned 10 (prefix_len k)).
  set (m := print_unsigned 10 (model_fingerprint k)).
  destruct (find_fields h l m) as (E1 & E2 & E3 & E4 & E5 & E6).
  { apply pad_zero_no_colon, print_unsigned_no_colon; [lia|apply Hh]. }
  { apply print_unsigned_no_colon; [lia|apply Hl]. }
  { apply print_unsigned_no_colon; [lia|apply Hm]. }
  cbv zeta in *. rewrite E1. cbv beta iota.
  rewrite (proj2 (Nat.eqb_eq (length h) 16)) by (by apply hash_field_length).
  rewrite E2. cbv beta iota. cbn [negb].
  rewrite E3, bool_decide_eq_false_2 by naive_solver. rewrite E4, E5, E6.
  unfold h, l, m. rewrite ParseUnsigned_pad, !ParseUnsigned_print by (done || lia).
  destruct k; cbn. by rewrite String.eqb_refl.
Qed.

Lemma FromString_canonical s k : FromString s = Value k -> s = ToString k.
Proof.
  unfold FromString. cbv zeta. intros H.
  repeat (case_match; simplify_eq). symmetry. by apply String.eqb_eq.
Qed.

Lemma ToString_inj k1 k2 :
  BlockKey_wf k1 -> BlockKey_wf k2 -> ToString k1 = ToString k2 -> k1 = k2.
Proof.
  intros H1 H2 E. pose proof (FromString_ToString_value k1 H1) as F1.
  pose proof (FromString_ToString_value k2 H2) as F2. rewrite E in F1. congruence.
Qed.

Lemma digit_val_nonneg c d : digit_val c = Some d -> 0 <= d.
Proof. unfold digit_val. intros H. repeat (case_match; simplify_eq); boolZ; lia. Qed.

Lemma scan_digits_nonneg base text : 0 <= base -> Forall (fun d => 0 <= d) (scan_digits base text).1.
Proof.
  intros Hb. induction text as [|c text IH]; cbn; [constructor|].
  destruct (digit_val c) eqn:E; [|constructor]. destruct (z <? base); [|constructor].
  destruct (scan_digits base text). cbn in *. constructor; [by eapply digit_val_nonneg|done].
Qed.

Lemma digits_value_nonneg base ds : 0 <= base -> Forall (fun d => 0 <= d) ds -> 0 <= digits_value base ds.
Proof.
  intros Hb Hds. unfold digits_value. generalize (Z.le_refl 0). generalize 0 at 2 4 as acc.
  induction Hds as [|d ds Hd _ IH]; intros acc Hacc; cbn; [done|]. apply IH. nia.
Qed.

Lemma ParseUnsigned_range w base text v : 0 <= base -> ParseUnsigned w text base = Some v -> in_range w v.
Proof.
  intros Hb. unfold ParseUnsigned, from_chars. pose proof (scan_digits_nonneg base text Hb) as Hs.
  intros H. repeat (case_match; simplify_eq); cbn [fst] in *; boolZ;
    (split; [by apply digits_value_nonneg|done]).
Qed.

(** Every key the parser accepts respects the field widths. *)
Lemma FromString_wf s k : FromString s = Value k -> BlockKey_wf k.
Proof.
  unfold FromString. cbv zeta. intros H. repeat (case_match; simplify_eq).
  repeat split; cbn; (eapply ParseUnsigned_range; [|eassumption]; lia).
Qed.

(** ** Lemmas on the prefix hash *)

Lemma lxor_range w a b : 0 <= w -> in_range w a -> in_range w b -> in_range w (Z.lxor a b).
Proof.
  intros Hw [Ha0 Ha] [Hb0 Hb]. unfold in_range. split; [by apply Z.lxor_nonneg|].
  assert (forall x, 0 <= x -> x < 2 ^ w <-> Z.shiftr x w = 0) as Hs.
  { intros x Hx. rewrite Z.shiftr_div_pow2 by done. rewrite Z.div_small_iff by lia. lia. }
  apply Hs; [by apply Z.lxor_nonneg|].
  rewrite Z.shiftr_lxor, (proj1 (Hs a Ha0) Ha), (proj1 (Hs b Hb0) Hb). done.
Qed.

Lemma low_bytes_range n v : Forall u8 (low_bytes n v).
Proof.
  unfold low_bytes. apply Forall_map, Forall_forall. intros i _.
  change 255 with (Z.ones 8). rewrite Z.land_ones by lia. apply Z.mod_pos_bound. lia.
Qed.

(** The multiplicative inverse of the FNV prime modulo [2^64]. *)
Definition fnv_prime_inv : Z := 14886173955864302971.

Lemma fnv_step_range h b : u64 (fnv_step h b).
Proof. by apply wrap_range. Qed.

Lemma fnv_step_inj h1 h2 b :
  u64 h1 -> u64 h2 -> u8 b -> fnv_step h1 b = fnv_step h2 b -> h1 = h2.
Proof.
  intros H1 H2 Hb E.
  assert (forall h, u64 h -> wrap 64 (fnv_step h b * fnv_prime_inv) = Z.lxor h b) as Hinv.
  { intros h Hh. unfold fnv_step, wrap. rewrite Z.mul_mod_idemp_l by lia.
    rewrite <- Z.mul_assoc, <- Z.mul_mod_idemp_r by lia.
    replace (fnv_prime * fnv_prime_inv mod 2 ^ 64) with 1 by (by vm_compute).
    rewrite Z.mul_1_r. apply Z.mod_small. apply lxor_range; [lia|done|].
    unfold in_range in *; lia. }
  pose proof (Hinv h1 H1) as I1. pose proof (Hinv h2 H2) as I2. rewrite E in I1.
  assert (Z.lxor h1 b = Z.lxor h2 b) as Ex by congruence.
  apply (f_equal (fun x => Z.lxor x b)) in Ex.
  by rewrite !Z.lxor_assoc, Z.lxor_nilpotent, !Z.lxor_0_r in Ex.
Qed.

Lemma fnv_steps_range h bs : u64 h -> u64 (fold_left fnv_step bs h).
Proof. revert h. induction bs; cbn; intros; [done|]. apply IHbs, fnv_step_range. Qed.

Lemma fnv_steps_inj h1 h2 bs :
  u64 h1 -> u64 h2 -> Forall u8 bs ->
  fold_left fnv_step bs h1 = fold_left fnv_step bs h2 -> h1 = h2.
Proof.
  intros H1 H2 Hbs. revert h1 h2 H1 H2.
  induction Hbs as [|b bs Hb _ IH]; cbn; intros h1 h2 H1 H2 E; [done|].
  eapply fnv_step_inj; [done..|]. eapply IH; [apply fnv_step_range..|done].
Qed.

Lemma fnv_mix_range h v n : u64 h -> u64 (fnv_mix h v n).
Proof. apply fnv_steps_range. Qed.

Lemma fnv_mix_inj h1 h2 v n : u64 h1 -> u64 h2 -> fnv_mix h1 v n = fnv_mix h2 v n -> h1 = h2.
Proof. intros H1 H2. apply fnv_steps_inj; [done..|apply low_bytes_range]. Qed.

Lemma fnv_tokens_range h ts : u64 h -> u64 (fnv_tokens h ts).
Proof.
  unfold fnv_tokens. revert h. induction ts; cbn; intros; [done|].
  apply IHts. by apply fnv_mix_range.
Qed.

Lemma fnv_tokens_inj h1 h2 ts :
  u64 h1 -> u64 h2 -> fnv_tokens h1 ts = fnv_tokens h2 ts -> h1 = h2.
Proof.
  unfold fnv_tokens. revert h1 h2. induction ts as [|t ts IH]; cbn; intros h1 h2 H1 H2 E; [done|].
  apply (fnv_mix_inj h1 h2 (wrap 32 t) 4); [done..|].
  apply IH; [by apply fnv_mix_range..|done].
Qed.

(** What xoring a byte into [h] adds to it. *)
Definition fnv_delta (h b : Z) : Z := Z.lxor h b - h.

Lemma fnv_delta_bound h b : u8 b -> -255 <= fnv_delta h b <= 255.
Proof.
  intros Hb. unfold fnv_delta.
  assert (Z.lxor h b / 2 ^ 8 = h / 2 ^ 8) as E.
  { rewrite <- !Z.shiftr_div_pow2, Z.shiftr_lxor by lia. rewrite (Z.shiftr_div_pow2 b), Z.div_small by (done || lia). apply Z.lxor_0_r. }
  pose proof (Z.div_mod h (2 ^ 8)). pose proof (Z.div_mod (Z.lxor h b) (2 ^ 8)).
  pose proof (Z.mod_pos_bound h (2 ^ 8)). pose proof (Z.mod_pos_bound (Z.lxor h b) (2 ^ 8)). lia.
Qed.

Lemma fnv_delta_inj h b1 b2 : fnv_delta h b1 = fnv_delta h b2 -> b1 = b2.
Proof.
  unfold fnv_delta. intros E. assert (Z.lxor h b1 = Z.lxor h b2) as Ex by lia.
  apply (f_equal (Z.lxor h)) in Ex. by rewrite <- !Z.lxor_assoc, Z.lxor_nilpotent, !Z.lxor_0_l in Ex.
Qed.

Lemma fnv_delta_sub h b h' b' : u8 b -> u8 b' -> -510 <= fnv_delta h b - fnv_delta h' b' <= 510.
Proof. intros Hb Hb'. pose proof (fnv_delta_bound h b Hb). pose proof (fnv_delta_bound h' b' Hb'). lia. Qed.

Lemma fnv_step_delta h b : exists q, fnv_step h b = (h + fnv_delta h b) * fnv_prime + q * 2 ^ 64.
Proof.
  exists (- (Z.lxor h b * fnv_prime / 2 ^ 64)). unfold fnv_step, wrap, fnv_delta.
  pose proof (Z.div_mod (Z.lxor h b * fnv_prime) (2 ^ 64)). lia.
Qed.

(** Four digits of at most nine bits, weighted by powers of the prime, vanish
    modulo [2^64] only when they all do. *)
Lemma fnv_digits d0 d1 d2 d3 R :
  -510 <= d0 <= 510 -> -510 <= d1 <= 510 -> -510 <= d2 <= 510 -> -510 <= d3 <= 510 ->
  (((d0 * fnv_prime + d1) * fnv_prime + d2) * fnv_prime + d3) * fnv_prime = R * 2 ^ 64 ->
  d0 = 0 /\ d1 = 0 /\ d2 = 0 /\ d3 = 0.
Proof.
  intros B0 B1 B2 B3 E.
  set (A := 567675 * d0 + 870 * d1 + d2). set (L := 82312875 * d0 + 189225 * d1 + 435 * d2 + d3).
  assert (exists R', A * 2 ^ 40 + L = R' * 2 ^ 64) as [R' E'].
  { exists (R * fnv_prime_inv - (d0 * (3 * 435 * 2 ^ 16 + 2 ^ 56) + d1 * 2 ^ 16)
            - (((d0 * fnv_prime + d1) * fnv_prime + d2) * fnv_prime + d3) * (fnv_prime * fnv_prime_inv / 2 ^ 64)).
    unfold A, L. apply (f_equal (fun x => x * fnv_prime_inv)) in E. revert E. unfold fnv_prime, fnv_prime_inv.
    change (1099511628211 * 14886173955864302971 / 2 ^ 64) with 887285111055. lia. }
  assert (L = 0) as HL by (unfold L in *; lia).
  assert (exists m, A = m * 2 ^ 24) as [m HA] by (exists R'; lia).
  set (B := 189225 * d0 + 435 * d1 + d2) in *. assert (-1 <= B <= 1) by (unfold L, B in *; lia).
  assert (-1 <= d0 <= 1) by (unfold B in *; lia). assert (m = 0) by (unfold A, B in *; lia).
  unfold A, L, B in *. lia.
Qed.

Lemma low_bytes_4 v : exists b0 b1 b2 b3, low_bytes 4 v = [b0; b1; b2; b3] /\ u8 b0 /\ u8 b1 /\ u8 b2 /\ u8 b3
  /\ (u32 v -> v = b0 + 2 ^ 8 * b1 + 2 ^ 16 * b2 + 2 ^ 24 * b3).
Proof.
  pose proof (low_bytes_range 4 v) as Hr. unfold low_bytes in *. cbn [seq map] in *.
  do 4 eexists. split; [done|]. rewrite !Forall_cons in Hr. destruct Hr as (? & ? & ? & ? & _). split_and!; [done..|].
  intros Hv. change 255 with (Z.ones 8). rewrite !Z.land_ones, !Z.shiftr_div_pow2 by lia.
  unfold in_range in Hv. change (Z.of_nat 0 * 8) with 0. change (Z.of_nat 1 * 8) with 8. change (Z.of_nat 2 * 8) with 16.
  change (Z.of_nat 3 * 8) with 24. rewrite Z.div_1_r. 
  rewrite (Z.mod_small (v / 2 ^ 24)) by (split; [apply Z.div_pos; lia|apply Z.div_lt_upper_bound; lia]).
  change (2 ^ 24) with (2 ^ 16 * 2 ^ 8). change (2 ^ 16) with (2 ^ 8 * 2 ^ 8). rewrite <- !Z.div_div by lia.
  pose proof (Z.div_mod v (2 ^ 8)). pose proof (Z.div_mod (v / 2 ^ 8) (2 ^ 8)). pose proof (Z.div_mod (v / 2 ^ 8 / 2 ^ 8) (2 ^ 8)). lia.
Qed.

(** Four steps, as a sum of deltas. *)
Lemma fnv_steps_delta h b0 b1 b2 b3 :
  exists R, fold_left fnv_step [b0; b1; b2; b3] h
    = ((((h + fnv_delta h b0) * fnv_prime + fnv_delta (fold_left fnv_step [b0] h) b1) * fnv_prime
        + fnv_delta (fold_left fnv_step [b0; b1] h) b2) * fnv_prime
       + fnv_delta (fold_left fnv_step [b0; b1; b2] h) b3) * fnv_prime + R * 2 ^ 64.
Proof.
  cbn [fold_left]. set (x1 := fnv_step h b0). set (x2 := fnv_step x1 b1). set (x3 := fnv_step x2 b2).
  destruct (fnv_step_delta h b0) as [p1 P1], (fnv_step_delta x1 b1) as [p2 P2], (fnv_step_delta x2 b2) as [p3 P3],
    (fnv_step_delta x3 b3) as [p4 P4]. fold x1 in P1. fold x2 in P2. fold x3 in P3.
  exists (p4 + (p3 + (p2 + p1 * fnv_prime) * fnv_prime) * fnv_prime). rewrite P4, P3, P2, P1. unfold fnv_prime. lia.
Qed.

(** Mixing two different 32-bit values into the same hash gives different hashes. *)
Lemma fnv_mix_token_inj h v1 v2 : u32 v1 -> u32 v2 -> fnv_mix h v1 4 = fnv_mix h v2 4 -> v1 = v2.
Proof.
  intros H1 H2 E. unfold fnv_mix in E.
  destruct (low_bytes_4 v1) as (a0 & a1 & a2 & a3 & Ea & A0 & A1 & A2 & A3 & ->%(fun f => f H1)).
  destruct (low_bytes_4 v2) as (b0 & b1 & b2 & b3 & Eb & B0 & B1 & B2 & B3 & ->%(fun f => f H2)).
  rewrite Ea, Eb in E. destruct (fnv_steps_delta h a0 a1 a2 a3) as [R1 E1], (fnv_steps_delta h b0 b1 b2 b3) as [R2 E2].
  destruct (fnv_digits (fnv_delta h a0 - fnv_delta h b0)
              (fnv_delta (fold_left fnv_step [a0] h) a1 - fnv_delta (fold_left fnv_step [b0] h) b1)
              (fnv_delta (fold_left fnv_step [a0; a1] h) a2 - fnv_delta (fold_left fnv_step [b0; b1] h) b2)
              (fnv_delta (fold_left fnv_step [a0; a1; a2] h) a3 - fnv_delta (fold_left fnv_step [b0; b1; b2] h) b3) (R2 - R1))
    as (D0 & D1 & D2 & D3); [by apply fnv_delta_sub..|unfold fnv_prime in *; lia|].
  assert (a0 = b0) as -> by (eapply fnv_delta_inj, Zminus_eq, D0).
  assert (a1 = b1) as -> by (eapply fnv_delta_inj, Zminus_eq, D1).
  assert (a2 = b2) as -> by (eapply fnv_delta_inj, Zminus_eq, D2).
  assert (a3 = b3) as -> by (eapply fnv_delta_inj, Zminus_eq, D3). done.
Qed.

Lemma fnv_basis_range : u64 fnv_basis.
Proof. unfold in_range, fnv_basis. lia. Qed.

Lemma FromTokenPrefix_hash tokens n fp :
  u32 n -> prefix_hash (FromTokenPrefix tokens n fp) = fnv_tokens fnv_basis (take (Z.to_nat n) tokens).
Proof.
  intros Hn. unfold FromTokenPrefix, zlen, wrap, in_range in *. cbn.
  destruct (Z.ltb_spec n (Z.of_nat (length tokens))); [done|].
  rewrite Z.mod_small by lia. by rewrite Nat2Z.id, !take_ge by lia.
Qed.

Lemma FromTokenPrefix_len tokens n fp :
  u32 n -> prefix_len (FromTokenPrefix tokens n fp) = zlen (take (Z.to_nat n) tokens).
Proof.
  intros Hn. unfold FromTokenPrefix, zlen, wrap, in_range in *. cbn. rewrite length_take.
  destruct (Z.ltb_spec n (Z.of_nat (length tokens))); [lia|].
  rewrite Z.mod_small by lia. lia.
Qed.

Lemma FromTokenPrefix_shared t1 t2 n fp :
  u32 n -> take (Z.to_nat n) t1 = take (Z.to_nat n) t2 ->
  FromTokenPrefix t1 n fp = FromTokenPrefix t2 n fp.
Proof.
  intros Hn Hshared.
  pose proof (FromTokenPrefix_hash t1 n fp Hn) as H1.
  pose proof (FromTokenPrefix_hash t2 n fp Hn) as H2.
  pose proof (FromTokenPrefix_len t1 n fp Hn) as L1.
  pose proof (FromTokenPrefix_len t2 n fp Hn) as L2. rewrite Hshared in H1, L1.
  assert (forall a b, prefix_hash a = prefix_hash b -> prefix_len a = prefix_len b ->
            model_fingerprint a = model_fingerprint b -> a = b) as Hext
    by (intros [] []; cbn; congruence).
  apply Hext; [congruence..|done].
Qed.

Lemma FromTokenPrefix_changed pre suf t1 t2 n fp :
  u32 n -> zlen pre < n -> -2 ^ 31 <= t1 < 2 ^ 31 -> -2 ^ 31 <= t2 < 2 ^ 31 ->
  FromTokenPrefix (pre ++ t1 :: suf) n fp = FromTokenPrefix (pre ++ t2 :: suf) n fp -> t1 = t2.
Proof.
  intros Hn Hpre H1 H2 E%(f_equal prefix_hash). rewrite !FromTokenPrefix_hash in E by done.
  unfold zlen in Hpre. rewrite !take_app_ge in E by lia.
  destruct (Z.to_nat n - length pre)%nat as [|m] eqn:Em; [lia|]. cbn [take] in E.
  unfold fnv_tokens in E. rewrite !fold_left_app in E. cbn [fold_left] in E. apply fnv_tokens_inj in E.
  - apply fnv_mix_token_inj in E; [|by apply wrap_range..]. unfold wrap in E.
    apply Z.cong_iff_ex in E as [q E]. lia.
  - apply fnv_mix_range, fnv_tokens_range, fnv_basis_range.
  - apply fnv_mix_range, fnv_tokens_range, fnv_basis_range.
Qed.

(** ** Properties *)

(** C27 (round trip): a key written by [BlockKey::ToString] is read back
    unchanged by [BlockKey::FromString], and [FromString] accepts nothing else:
    a text it accepts is exactly the canonical text of a key whose fields
    respect their widths. *)
Theorem FromString_ToString (k : BlockKey) (Hk : BlockKey_wf k) :
  FromString (ToString k) = Value k
  /\ forall s k', FromString s = Value k' -> s = ToString k' /\ BlockKey_wf k'.
Proof.
  split; [by apply FromString_ToString_value|].
  intros s k' E. split; [by apply FromString_canonical|by eapply FromString_wf].
Qed.

Definition example_key : BlockKey := mkBlockKey 0xdeadbeef 128 7.

Example ToString_example : ToString example_key = "00000000deadbeef:128:7"%string.
Proof. vm_compute. reflexivity. Qed.

Lemma example_key_wf : BlockKey_wf example_key.
Proof. unfold BlockKey_wf, in_range; cbn; lia. Qed.

Lemma FromString_ToString_witness :
  FromString (ToString example_key) = Value example_key
  /\ forall s k', FromString s = Value k' -> s = ToString k' /\ BlockKey_wf k'.
Proof. exact (FromString_ToString example_key example_key_wf). Defined.

(** C33 (functional): prefix reuse.  Two token sequences that agree on their
    first [n] tokens get the same key for that prefix, whatever follows; two
    sequences that differ in exactly one of the tokens hashed, wherever it
    stands and whatever follows it, get the same key only when the two tokens
    are equal; the key's [prefix_len] is the number of tokens actually hashed
    and its hash fits 64 bits. *)
Theorem prefix_keys (n fp : Z) (Hn : u32 n) :
  (forall t1 t2, take (Z.to_nat n) t1 = take (Z.to_nat n) t2 ->
     FromTokenPrefix t1 n fp = FromTokenPrefix t2 n fp)
  /\ (forall pre suf t1 t2, zlen pre < n -> -2 ^ 31 <= t1 < 2 ^ 31 -> -2 ^ 31 <= t2 < 2 ^ 31 ->
     FromTokenPrefix (pre ++ t1 :: suf) n fp = FromTokenPrefix (pre ++ t2 :: suf) n fp <-> t1 = t2)
  /\ (forall ts, prefix_len (FromTokenPrefix ts n fp) = Z.min n (zlen ts)
     /\ u64 (prefix_hash (FromTokenPrefix ts n fp))).
Proof.
  split_and!.
  - intros t1 t2. by apply FromTokenPrefix_shared.
  - intros pre suf t1 t2 Hpre H1 H2. split; [by apply FromTokenPrefix_changed|by intros ->].
  - intros ts. rewrite FromTokenPrefix_len, FromTokenPrefix_hash by done. split.
    + unfold zlen, in_range in *. rewrite length_take. lia.
    + apply fnv_tokens_range, fnv_basis_range.
Qed.

Lemma prefix_keys_witness :
  FromTokenPrefix [1; -2; 3; 4] 3 9 = FromTokenPrefix [1; -2; 3; 77; 8] 3 9
  /\ (FromTokenPrefix ([1] ++ -3 :: [4]) 3 9 = FromTokenPrefix ([1] ++ 3 :: [4]) 3 9 <-> -3 = 3).
Proof.
  assert (u32 3) as H3 by (unfold in_range; lia).
  destruct (prefix_keys 3 9 H3) as (Hs & Hc & _).
  split; [apply Hs; reflexivity|apply Hc; [reflexivity|lia|lia]].
Defined.
