(* ===== verification/BlockCodec.v ===== *)
(** * Block codec

    [src/api/block_codec.cpp]: the self-describing blob (36-byte little-endian
    header, then the payload) the SSD tier stores and the wire protocol
    carries.  The out-parameters of [DeserializeHeader] are the components of
    its successful result. *)

From coqutil Require Import Word.LittleEndianList.
From S2P Require Import Prelude Api.
Local Open Scope tp_scope.

Module block_codec.

Definition kMagic0 : Z := 84.  (* 'T' *)
Definition kMagic1 : Z := 80.  (* 'P' *)
Definition kVersion : Z := 1.
Definition kSerdeRaw : Z := 0.
Definition kHeaderSize : Z := 36.

(** ** Little-endian field writers and readers *)

Definition PutU16 (v : Z) : bytes := [byte.of_Z (Z.land v 255); byte.of_Z (Z.land (Z.shiftr v 8) 255)].
Definition PutU32 (v : Z) : bytes := map (fun i => byte_at v (Z.of_nat i)) (seq 0 4).
Definition PutU64 (v : Z) : bytes := map (fun i => byte_at v (Z.of_nat i)) (seq 0 8).

Definition GetU16 (beyond : byte) (p : bytes) : Z :=
  Z.lor (peek beyond p 0) (Z.shiftl (peek beyond p 1) 8).
Definition GetU32 (beyond : byte) (p : bytes) : Z := get_le beyond 4 p.
Definition GetU64 (beyond : byte) (p : bytes) : Z := get_le beyond 8 p.

(** ** SerializeBlock, DeserializeHeader *)

Definition SerializeBlock (block : Block) : bytes :=
  let m := metadata block in
  [byte.of_Z kMagic0; byte.of_Z kMagic1; byte.of_Z kVersion; byte.of_Z kSerdeRaw]
  ++ PutU32 (num_tokens m)
  ++ PutU32 (num_layers m)
  ++ PutU16 (dtype_size m)
  ++ PutU16 (kv_heads m)
  ++ PutU64 (created_unix_ns m)
  ++ PutU32 (meta_model_fingerprint m)
  ++ PutU64 (size_bytes block)
  ++ data block.

(** What a successful [DeserializeHeader] reports: the metadata, the payload
    length and the payload offset. *)
Record Header : Type := mkHeader {
  h_metadata : BlockMetadata;
  h_payload_len : Z;
  h_payload_offset : Z
}.

Definition DeserializeHeader_mem (beyond : byte) (blob : bytes) : Result Header :=
  if zlen blob <? kHeaderSize then
    Error (InvalidArgument "block_codec: blob shorter than header (36 bytes)")
  else if negb (peek beyond blob 0 =? kMagic0) || negb (peek beyond blob 1 =? kMagic1) then
    Error (InvalidArgument "block_codec: bad magic (not a TP blob)")
  else if negb (peek beyond blob 2 =? kVersion) then
    Error (InvalidArgument "block_codec: unsupported version")
  else if negb (peek beyond blob 3 =? kSerdeRaw) then
    Error (NotImplemented "block_codec: serde_id not supported (only raw=0)")
  else
    let payload_len := GetU64 beyond (drop 28 blob) in
    let available := zlen blob - kHeaderSize in
    if negb (payload_len =? available) then
      Error (InvalidArgument "block_codec: payload_len does not exactly match blob length")
    else
      Value {|
        h_metadata := {|
          num_tokens := GetU32 beyond (drop 4 blob);
          num_layers := GetU32 beyond (drop 8 blob);
          dtype_size := GetU16 beyond (drop 12 blob);
          kv_heads := GetU16 beyond (drop 14 blob);
          created_unix_ns := GetU64 beyond (drop 16 blob);
          meta_model_fingerprint := GetU32 beyond (drop 24 blob)
        |};
        h_payload_len := payload_len;
        h_payload_offset := kHeaderSize
      |}.

Definition DeserializeHeader (blob : bytes) : Result Header :=
  DeserializeHeader_mem Byte.x00 blob.

(** The block a blob describes: its header, and the payload copied from
    [[offset, offset + len)], the way the callers of [DeserializeHeader] do. *)
Definition blob_payload (blob : bytes) (h : Header) : bytes :=
  take (Z.to_nat (h_payload_len h)) (drop (Z.to_nat (h_payload_offset h)) blob).

(** ** Lemmas *)

Lemma PutU16_split v : PutU16 v = le_split 2 v.
Proof. rewrite <- le_writer_split. unfold PutU16, byte_at. cbn. by rewrite Z.shiftr_0_r. Qed.
Lemma PutU32_split v : PutU32 v = le_split 4 v.
Proof. apply le_writer_split. Qed.
Lemma PutU64_split v : PutU64 v = le_split 8 v.
Proof. apply le_writer_split. Qed.
Lemma GetU16_le beyond p : GetU16 beyond p = get_le beyond 2 p.
Proof. unfold GetU16, get_le. cbn [seq fold_left]. by rewrite Z.shiftl_0_r, Z.lor_0_l. Qed.

Create Rewrite HintDb block_codec.
#[local] Hint Rewrite PutU16_split PutU32_split PutU64_split : block_codec.
#[local] Hint Rewrite GetU16_le : block_codec.
#[local] Hint Rewrite @length_app length_le_split : block_codec.

Lemma SerializeBlock_length b : zlen (SerializeBlock b) = kHeaderSize + size_bytes b.
Proof.
  unfold zlen, SerializeBlock, size_bytes, zlen. autorewrite with block_codec.
  cbn [length]. unfold kHeaderSize. lia.
Qed.

Lemma DeserializeHeader_Serialize beyond b :
  Block_wf b ->
  DeserializeHeader_mem beyond (SerializeBlock b)
  = Value (mkHeader (metadata b) (size_bytes b) kHeaderSize).
Proof.
  intros ((Ht & Hl & Hd & Hh & Hc & Hf) & Hs). unfold DeserializeHeader_mem.
  rewrite SerializeBlock_length. pose proof (zlen_nonneg (data b)) as Hn.
  rewrite (proj2 (Z.ltb_ge _ _)) by (unfold size_bytes; lia).
  unfold SerializeBlock. autorewrite with block_codec. cbn [app].
  set (rest := le_split 4 (num_tokens (metadata b)) ++ _).
  assert (forall z, 0 <= z < 256 -> byte.unsigned (byte.of_Z z) = z) as Hb.
  { intros z Hz. rewrite byte.unsigned_of_Z. by apply Z.mod_small. }
  unfold peek. cbn [nth]. rewrite !Hb by (unfold kMagic0, kMagic1, kVersion, kSerdeRaw; lia).
  rewrite !Z.eqb_refl. cbn [negb orb].
  unfold GetU64, GetU32. cbn [skipn]. subst rest.
  drop_fields.
  rewrite !get_le_split by assumption.
  replace (kHeaderSize + size_bytes b - kHeaderSize) with (size_bytes b) by lia.
  rewrite Z.eqb_refl. cbn [negb]. by destruct (metadata b).
Qed.
Lemma blob_payload_Serialize b meta :
  blob_payload (SerializeBlock b) (mkHeader meta (size_bytes b) kHeaderSize) = data b.
Proof.
  unfold blob_payload; cbn [h_payload_len h_payload_offset]. unfold SerializeBlock.
  autorewrite with block_codec. cbn [app].
  change (Z.to_nat kHeaderSize) with 36%nat. cbn [skipn]. drop_fields.
  unfold size_bytes, zlen. rewrite Nat2Z.id. by apply take_ge.
Qed.

(** The four identification bytes, read back. *)
Lemma magic_bytes beyond (blob : bytes) :
  (4 <= length blob)%nat ->
  peek beyond blob 0 = kMagic0 -> peek beyond blob 1 = kMagic1 ->
  peek beyond blob 2 = kVersion -> peek beyond blob 3 = kSerdeRaw ->
  [byte.of_Z kMagic0; byte.of_Z kMagic1; byte.of_Z kVersion; byte.of_Z kSerdeRaw] = take 4 blob.
Proof.
  intros Hl H0 H1 H2 H3. destruct blob as [|a [|b [|c [|d blob]]]]; cbn in Hl; try lia.
  unfold peek in *; cbn in *. by rewrite !(byte_of_unsigned_eq _ _ H0), !(byte_of_unsigned_eq _ _ H1),
    !(byte_of_unsigned_eq _ _ H2), !(byte_of_unsigned_eq _ _ H3).
Qed.

(** An accepted blob is the serialization of the block it describes. *)
Lemma DeserializeHeader_inv beyond blob h :
  u64 (zlen blob) ->
  DeserializeHeader_mem beyond blob = Value h ->
  h_payload_offset h = kHeaderSize
  /\ h_payload_len h = zlen blob - kHeaderSize
  /\ Block_wf (mkBlock (h_metadata h) (drop 36 blob))
  /\ blob = SerializeBlock (mkBlock (h_metadata h) (drop 36 blob)).
Proof.
  intros Hsz. unfold DeserializeHeader_mem. intros E.
  repeat (case_match; simplify_eq). cbn [h_metadata h_payload_len h_payload_offset].
  boolZ. unfold kHeaderSize, zlen in *.
  assert (36 <= length blob)%nat as Hlen by lia.
  assert (forall k n, (k + n <= 36)%nat -> (n <= length (drop k blob))%nat) as Hd
    by (intros; rewrite length_drop; lia).
  rewrite !GetU16_le in *. unfold GetU32, GetU64 in *.
  assert (size_bytes (mkBlock BlockMetadata_default (drop 36 blob)) = Z.of_nat (length blob) - 36) as Hs.
  { unfold size_bytes, zlen; cbn. rewrite length_drop. lia. }
  repeat split; cbn [metadata data num_tokens num_layers dtype_size kv_heads created_unix_ns
    meta_model_fingerprint]; try done.
  1-12: first [eapply get_le_range, Hd; lia].
  - unfold size_bytes in *. cbn in Hs |- *. unfold in_range in Hsz. lia.
  - unfold size_bytes in *. cbn in Hs |- *. unfold in_range in Hsz. lia.
  - unfold SerializeBlock; cbn [metadata data num_tokens num_layers dtype_size kv_heads created_unix_ns
      meta_model_fingerprint]. rewrite PutU64_split, PutU64_split, !PutU32_split, !PutU16_split.
    unfold size_bytes in *; cbn [data] in *. rewrite Hs.
    match goal with H : get_le _ 8 (drop 28 blob) = _ |- _ => rewrite <- H end.
    rewrite !split_get_le by (apply Hd; lia).
    rewrite (magic_bytes beyond blob) by (done || lia).
    rewrite !take_drop_glue by done. symmetry. apply take_drop.
Qed.

(** ** Properties *)

(** C28 (round trip): a serialized block is read back unchanged: the header
    gives its metadata, its payload size and the payload's offset, and the
    range they name holds the payload bytes; the blob is 36 bytes longer than
    the payload. *)
Theorem SerializeBlock_roundtrip (b : Block) (Hb : Block_wf b) :
  exists h, DeserializeHeader (SerializeBlock b) = Value h
            /\ mkBlock (h_metadata h) (blob_payload (SerializeBlock b) h) = b
            /\ h_payload_len h = size_bytes b
            /\ zlen (SerializeBlock b) = kHeaderSize + size_bytes b.
Proof.
  eexists. split; [by apply DeserializeHeader_Serialize|].
  rewrite blob_payload_Serialize, SerializeBlock_length. by destruct b.
Qed.

Definition example_block : Block := mkBlock (mkBlockMetadata 16 32 2 8 123456789 7) [Byte.x01; Byte.xff; Byte.x00].

Lemma example_block_wf : Block_wf example_block.
Proof. repeat split; by vm_compute. Qed.

Lemma SerializeBlock_roundtrip_witness :
  exists h, DeserializeHeader (SerializeBlock example_block) = Value h
            /\ mkBlock (h_metadata h) (blob_payload (SerializeBlock example_block) h) = example_block
            /\ h_payload_len h = size_bytes example_block
            /\ zlen (SerializeBlock example_block) = kHeaderSize + size_bytes example_block.
Proof. exact (SerializeBlock_roundtrip example_block example_block_wf). Defined.

(** C29 (equivalence): the header parser accepts exactly the blobs the
    serializer produces: a blob is accepted if and only if it is the
    serialization of a well-formed block. *)
Theorem DeserializeHeader_accepts_iff (blob : bytes) (Hsz : u64 (zlen blob)) :
  (exists h, DeserializeHeader blob = Value h) <-> (exists b, Block_wf b /\ blob = SerializeBlock b).
Proof.
  split.
  - intros [h Hh]. destruct (DeserializeHeader_inv _ _ _ Hsz Hh) as (_ & _ & Hwf & E). eauto.
  - intros (b & Hwf & ->). eexists. by apply DeserializeHeader_Serialize.
Qed.

Lemma DeserializeHeader_accepts_iff_witness :
  (exists h, DeserializeHeader (SerializeBlock example_block) = Value h)
  <-> (exists b, Block_wf b /\ SerializeBlock example_block = SerializeBlock b).
Proof.
  refine (DeserializeHeader_accepts_iff (SerializeBlock example_block) _).
  split; by vm_compute.
Defined.

(** The parser never looks past the end of the blob (its answer
    does not depend on the memory behind it), and a rejected blob is reported
    as documented: [kNotImplemented] only for a blob with the right magic and
    version and an unknown encoding, [kInvalidArgument] otherwise. *)
Theorem DeserializeHeader_in_bounds (blob : bytes) (beyond : byte) :
  DeserializeHeader_mem beyond blob = DeserializeHeader blob
  /\ forall s, DeserializeHeader blob = Error s ->
       code s = kInvalidArgument
       \/ (code s = kNotImplemented /\ (36 <= length blob)%nat
           /\ take 3 blob = [byte.of_Z kMagic0; byte.of_Z kMagic1; byte.of_Z kVersion]
           /\ nth 3 blob Byte.x00 <> byte.of_Z kSerdeRaw).
Proof.
  split.
  - unfold DeserializeHeader, DeserializeHeader_mem.
    destruct (Z.ltb_spec (zlen blob) kHeaderSize) as [|Hl]; [done|].
    unfold zlen, kHeaderSize in Hl.
    assert (forall i, (i < 36)%nat -> peek beyond blob i = peek Byte.x00 blob i) as Hp.
    { intros i Hi. unfold peek. f_equal. apply nth_indep. lia. }
    assert (forall k n, (k + n <= 36)%nat ->
              get_le beyond n (drop k blob) = get_le Byte.x00 n (drop k blob)) as Hg.
    { intros k n Hk. rewrite !get_le_combine; [done|rewrite length_drop; lia..]. }
    rewrite !GetU16_le. unfold GetU32, GetU64. rewrite !Hp, !Hg by lia. done.
  - intros s. unfold DeserializeHeader, DeserializeHeader_mem. intros E.
    repeat (case_match; simplify_eq); try (by left). right. boolZ.
    unfold zlen, kHeaderSize, peek in *.
    destruct blob as [|a [|b [|c [|d blob]]]]; cbn [length nth take] in *; try lia.
    repeat match goal with H : byte.unsigned _ = _ |- _ => apply byte_of_unsigned_eq in H end.
    split; [done|]. split; [lia|]. split; [congruence|].
    intros ->. match goal with H : byte.unsigned _ <> _ |- _ => by apply H end.
Qed.
End block_codec.
