(* ===== verification/WireCodec.v ===== *)
(** * Wire protocol v1 codec

    [src/protocol/wire_codec.cpp]: the fixed 32-byte big-endian frame header,
    the payload encodings of Get, Put, Ping and error messages, and the
    validation of whole requests and responses.

    An enumeration decoded from the network ([static_cast<Opcode>(byte)]) may
    hold any value of its underlying type, so [MessageKind], [Opcode] and
    [WireStatus] are integers with named constants.  A pointer argument is an
    [option bytes], [None] for [nullptr], next to the size the caller passes.
    Each function that copies into a container takes the outcome of that
    allocation as an argument ([mem]): it succeeds, or throws
    [std::bad_alloc] or [std::length_error], both of which the source catches.
    [size_t] has 64 bits. *)

From coqutil Require Import Word.LittleEndianList.
From S2P Require Import Prelude Api.
Local Open Scope tp_scope.

Module wire.

Definition kMagic : Z := 0x54504e57.
Definition kVersion : Z := 1.
Definition kHeaderBytes : Z := 32.
Definition kBlockKeyBytes : Z := 16.
Definition kDefaultMaxFrameBytes : Z := 256 * 1024 * 1024.
Definition kDefaultMaxErrorMessageBytes : Z := 4096.

Module MessageKind.
Definition kRequest : Z := 1.
Definition kResponse : Z := 2.
End MessageKind.

Module Opcode.
Definition kGet : Z := 1.
Definition kPut : Z := 2.
Definition kPing : Z := 3.
End Opcode.

Module WireStatus.
Definition kOk : Z := 0.
Definition kNotImplemented : Z := 1.
Definition kNotFound : Z := 2.
Definition kInvalidArgument : Z := 3.
Definition kAlreadyExists : Z := 4.
Definition kIoError : Z := 5.
Definition kNetworkError : Z := 6.
Definition kUnavailable : Z := 7.
Definition kOutOfCapacity : Z := 8.
Definition kCorruption : Z := 9.
Definition kInternal : Z := 10.
End WireStatus.

Record FrameHeader : Type := mkFrameHeader {
  kind : Z;
  opcode : Z;
  status : Z;
  flags : Z;
  request_id : Z;
  payload_bytes : Z
}.

Record CodecLimits : Type := mkCodecLimits {
  max_frame_bytes : Z;
  max_error_message_bytes : Z
}.

Definition default_limits : CodecLimits :=
  mkCodecLimits kDefaultMaxFrameBytes kDefaultMaxErrorMessageBytes.

Record DecodedPutRequest : Type := mkDecodedPutRequest { key : BlockKey; block_blob : bytes }.

(** The declared widths of the header fields. *)
Definition FrameHeader_wf (h : FrameHeader) : Prop :=
  u8 (kind h) /\ u8 (opcode h) /\ u16 (status h) /\ u32 (flags h)
  /\ u64 (request_id h) /\ u64 (payload_bytes h).

(** ** Errors and allocation outcomes *)

Definition Invalid (message : string) : Status := InvalidArgument ("wire_codec: " +:+ message).
Definition Corrupt (message : string) : Status := Corruption ("wire_codec: " +:+ message).
Definition Capacity (message : string) : Status := mkStatus kOutOfCapacity ("wire_codec: " +:+ message).
Definition InputError (network_input : bool) (message : string) : Status :=
  if network_input then Corrupt message else Invalid message.

Inductive AllocResult : Type := AllocOk | BadAlloc | LengthError.

(** [try { return value; } catch (bad_alloc) {...} catch (length_error) {...}] *)
Definition guard_alloc {T} (mem : AllocResult) (bad_alloc length_error : string) (value : T) : Result T :=
  match mem with
  | AllocOk => Value value
  | BadAlloc => Error (Capacity bad_alloc)
  | LengthError => Error (Capacity length_error)
  end.

(** ** Big-endian fields *)

Definition PutU16 (value : Z) : bytes :=
  [byte.of_Z (Z.land (Z.shiftr value 8) 255); byte.of_Z (Z.land value 255)].
Definition PutU32 (value : Z) : bytes := put_be 4 value.
Definition PutU64 (value : Z) : bytes := put_be 8 value.

Definition at_ (p : bytes) (i : nat) : Z := peek Byte.x00 p i.
Definition GetU16 (p : bytes) : Z := Z.lor (Z.shiftl (at_ p 0) 8) (at_ p 1).
Definition GetU32 (p : bytes) : Z := get_be 32 Byte.x00 4 p.
Definition GetU64 (p : bytes) : Z := get_be 64 Byte.x00 8 p.

(** ** Header validation *)

Definition IsKnownKind (k : Z) : bool :=
  (k =? MessageKind.kRequest) || (k =? MessageKind.kResponse).

Definition IsKnownOpcode (o : Z) : bool :=
  (o =? Opcode.kGet) || (o =? Opcode.kPut) || (o =? Opcode.kPing).

Definition IsKnownWireStatus (s : Z) : bool :=
  existsb (Z.eqb s)
    [WireStatus.kOk; WireStatus.kNotImplemented; WireStatus.kNotFound;
     WireStatus.kInvalidArgument; WireStatus.kAlreadyExists; WireStatus.kIoError;
     WireStatus.kNetworkError; WireStatus.kUnavailable; WireStatus.kOutOfCapacity;
     WireStatus.kCorruption; WireStatus.kInternal].

Definition ValidateFrameSizeImpl (payload_bytes : Z) (limits : CodecLimits) (network_input : bool)
  : Result Z :=
  if max_frame_bytes limits <? kHeaderBytes then
    Error (Invalid "max_frame_bytes is smaller than the 32-byte header")
  else
    let max_payload := max_frame_bytes limits - kHeaderBytes in
    if max_payload <? payload_bytes then
      Error (InputError network_input "payload is larger than max_frame_bytes")
    else if u64_max - kHeaderBytes <? payload_bytes then
      Error (InputError network_input "header plus payload length overflows size_t")
    else Value (wrap 64 (kHeaderBytes + payload_bytes)).

Definition ValidatePayloadLength (header : FrameHeader) (limits : CodecLimits) (network_input : bool)
  : Status :=
  let fail_ := InputError network_input in
  if kind header =? MessageKind.kRequest then
    if negb (status header =? WireStatus.kOk) then fail_ "request status must be kOk"
    else if opcode header =? Opcode.kGet then
      if negb (payload_bytes header =? kBlockKeyBytes)
      then fail_ "Get request payload must be exactly 16 bytes" else Ok
    else if opcode header =? Opcode.kPut then
      if payload_bytes header <=? kBlockKeyBytes
      then fail_ "Put request must contain a non-empty Block blob" else Ok
    else if opcode header =? Opcode.kPing then
      if negb (payload_bytes header =? 0) then fail_ "Ping request payload must be empty" else Ok
    else Ok
  else if negb (status header =? WireStatus.kOk) then
    if payload_bytes header <? 4 then
      fail_ "error response payload is shorter than its length field"
    else
      let max_error_payload := 4 + max_error_message_bytes limits in
      if max_error_payload <? payload_bytes header then
        fail_ "error response payload exceeds the error message limit"
      else Ok
  else if opcode header =? Opcode.kGet then
    if payload_bytes header =? 0
    then fail_ "successful Get response requires a non-empty Block blob" else Ok
  else if opcode header =? Opcode.kPut then
    if negb (payload_bytes header =? 0)
    then fail_ "successful Put response payload must be empty" else Ok
  else if opcode header =? Opcode.kPing then
    if negb (payload_bytes header =? 0)
    then fail_ "successful Ping response payload must be empty" else Ok
  else Ok.

Definition ValidateHeaderFields (header : FrameHeader) (limits : CodecLimits) (network_input : bool)
  : Status :=
  if negb (IsKnownKind (kind header)) then InputError network_input "unknown message kind"
  else if negb (IsKnownOpcode (opcode header)) then InputError network_input "unknown opcode"
  else if negb (IsKnownWireStatus (status header)) then InputError network_input "unknown wire status"
  else if negb (flags header =? 0) then InputError network_input "v1 flags must be zero"
  else
    let! frame_size := ValidateFrameSizeImpl (payload_bytes header) limits network_input in
    ValidatePayloadLength header limits network_input.

Definition ValidatePayloadPointer (payload : option bytes) (size : Z) : Status :=
  match payload with
  | None => if negb (size =? 0) then Corrupt "payload pointer is null with non-zero size" else Ok
  | Some _ => Ok
  end.

Definition ValidateDeclaredPayloadSize (header : FrameHeader) (payload : option bytes) (size : Z)
  : Status :=
  check ValidatePayloadPointer payload size ;;
  if negb (payload_bytes header =? size) then
    Corrupt "payload size does not match header payload_bytes"
  else Ok.

(** ** Copies *)

Definition CopyBytes (mem : AllocResult) (b : bytes) : Result bytes :=
  match b with
  | [] => Value []
  | _ => guard_alloc mem "byte buffer allocation failed"
           "byte buffer is larger than the container limit" b
  end.

(** The memory a pointer plus offset and a size name. *)
Definition memory (payload : option bytes) : bytes :=
  match payload with
  | Some p => p
  | None => []
  end.

Definition CopyString (mem : AllocResult) (p : bytes) (size : Z) : Result bytes :=
  if size =? 0 then Value []
  else guard_alloc mem "string allocation failed"
         "string is larger than the container limit" (take (Z.to_nat size) p).

(** ** Headers and keys *)

Definition ValidateFrameSize (payload_bytes : Z) (limits : CodecLimits) : Result Z :=
  ValidateFrameSizeImpl payload_bytes limits false.

Definition EncodeHeader (header : FrameHeader) (limits : CodecLimits) : Result bytes :=
  check_r ValidateHeaderFields header limits false ;;
  Value (PutU32 kMagic
         ++ PutU16 kVersion
         ++ PutU16 kHeaderBytes
         ++ [byte.of_Z (kind header)]
         ++ [byte.of_Z (opcode header)]
         ++ PutU16 (status header)
         ++ PutU32 (flags header)
         ++ PutU64 (request_id header)
         ++ PutU64 (payload_bytes header)).

Definition DecodeHeader (bytes_ : option bytes) (size : Z) (limits : CodecLimits)
  : Result FrameHeader :=
  if size <? kHeaderBytes then Error (Corrupt "truncated fixed header")
  else if kHeaderBytes <? size then Error (Corrupt "unexpected bytes after fixed header")
  else match bytes_ with
  | None => Error (Corrupt "header pointer is null")
  | Some p =>
      if max_frame_bytes limits <? kHeaderBytes then
        Error (Invalid "max_frame_bytes is smaller than the 32-byte header")
      else if negb (GetU32 p =? kMagic) then Error (Corrupt "bad magic")
      else if negb (GetU16 (drop 4 p) =? kVersion) then Error (Corrupt "unsupported version")
      else if negb (GetU16 (drop 6 p) =? kHeaderBytes) then Error (Corrupt "invalid header size")
      else
        let header := {|
          kind := at_ p 8;
          opcode := at_ p 9;
          status := GetU16 (drop 10 p);
          flags := GetU32 (drop 12 p);
          request_id := GetU64 (drop 16 p);
          payload_bytes := GetU64 (drop 24 p)
        |} in
        check_r ValidateHeaderFields header limits true ;;
        Value header
  end.

Definition EncodeBlockKey (k : BlockKey) : Result bytes :=
  Value (PutU64 (prefix_hash k) ++ PutU32 (prefix_len k) ++ PutU32 (model_fingerprint k)).

Definition DecodeBlockKey (bytes_ : option bytes) (size : Z) : Result BlockKey :=
  if size <? kBlockKeyBytes then Error (Corrupt "truncated BlockKey")
  else if kBlockKeyBytes <? size then Error (Corrupt "unexpected bytes after BlockKey")
  else match bytes_ with
  | None => Error (Corrupt "BlockKey pointer is null")
  | Some p => Value (mkBlockKey (GetU64 p) (GetU32 (drop 8 p)) (GetU32 (drop 12 p)))
  end.

(** ** Payloads *)

Definition EncodeGetRequest (mem : AllocResult) (k : BlockKey) : Result bytes :=
  let? encoded_key := EncodeBlockKey k in
  guard_alloc mem "Get request allocation failed"
    "Get request is larger than the container limit" encoded_key.

Definition DecodeGetRequest (payload : option bytes) (size : Z) : Result BlockKey :=
  DecodeBlockKey payload size.

Definition EncodeGetSuccessPayload (mem : AllocResult) (blob : bytes) (limits : CodecLimits)
  : Result bytes :=
  match blob with
  | [] => Error (Invalid "successful Get payload requires a non-empty Block blob")
  | _ =>
      let? frame_size := ValidateFrameSize (zlen blob) limits in
      CopyBytes mem blob
  end.

Definition DecodeGetSuccessPayload (mem : AllocResult) (payload : option bytes) (size : Z)
    (limits : CodecLimits) : Result bytes :=
  if size =? 0 then
    Error (Corrupt "successful Get payload requires a non-empty Block blob")
  else
  check_r ValidatePayloadPointer payload size ;;
  let? frame_size := ValidateFrameSizeImpl size limits true in
  CopyString mem (memory payload) size.

Definition EncodePutRequest (mem : AllocResult) (k : BlockKey) (blob : bytes) (limits : CodecLimits)
  : Result bytes :=
  match blob with
  | [] => Error (Invalid "Put request requires a non-empty Block blob")
  | _ =>
      if u64_max - kBlockKeyBytes <? zlen blob then
        Error (Invalid "Put request length overflows uint64_t")
      else
        let payload_bytes := wrap 64 (kBlockKeyBytes + zlen blob) in
        let? frame_size := ValidateFrameSize payload_bytes limits in
        let? encoded_key := EncodeBlockKey k in
        guard_alloc mem "Put request allocation failed"
          "Put request is larger than the container limit" (encoded_key ++ blob)
  end.

Definition DecodePutRequest (mem : AllocResult) (payload : option bytes) (size : Z)
    (limits : CodecLimits) : Result DecodedPutRequest :=
  if size <=? kBlockKeyBytes then
    Error (Corrupt "Put request must contain a key and non-empty Block blob")
  else
  check_r ValidatePayloadPointer payload size ;;
  let? frame_size := ValidateFrameSizeImpl size limits true in
  let? k := DecodeBlockKey payload kBlockKeyBytes in
  let? blob := CopyString mem (drop 16 (memory payload)) (size - kBlockKeyBytes) in
  Value (mkDecodedPutRequest k blob).

Definition EncodePingRequest : Result bytes := Value [].

Definition DecodePingRequest (payload : option bytes) (size : Z) : Status :=
  if bool_decide (payload = None) && (size =? 0) then Ok
  else if negb (size =? 0) then Corrupt "Ping request payload must be empty"
  else Ok.

Definition EncodeEmptySuccessPayload : Result bytes := Value [].

Definition DecodeEmptySuccessPayload (payload : option bytes) (size : Z) : Status :=
  if bool_decide (payload = None) && (size =? 0) then Ok
  else if negb (size =? 0) then Corrupt "successful response payload must be empty"
  else Ok.

Definition EncodeErrorPayload (mem : AllocResult) (message : bytes) (limits : CodecLimits)
  : Result bytes :=
  if max_error_message_bytes limits <? zlen message then
    Error (Invalid "error message exceeds max_error_message_bytes")
  else if u32_max <? zlen message then
    Error (Invalid "error message length overflows uint32_t")
  else
    let payload_bytes := wrap 64 (4 + zlen message) in
    let? frame_size := ValidateFrameSize payload_bytes limits in
    guard_alloc mem "error payload allocation failed"
      "error payload is larger than the container limit" (PutU32 (wrap 32 (zlen message)) ++ message).

Definition DecodeErrorPayload (mem : AllocResult) (payload : option bytes) (size : Z)
    (limits : CodecLimits) : Result bytes :=
  if size <? 4 then Error (Corrupt "truncated error payload length field")
  else match payload with
  | None => Error (Corrupt "error payload pointer is null")
  | Some p =>
      let? frame_size := ValidateFrameSizeImpl size limits true in
      let message_bytes := GetU32 p in
      if max_error_message_bytes limits <? message_bytes then
        Error (Corrupt "error message exceeds max_error_message_bytes")
      else if negb (message_bytes =? size - 4) then
        Error (Corrupt "error message length does not exactly match payload")
      else CopyString mem (drop 4 p) message_bytes
  end.

(** ** Whole messages *)

Definition ValidateRequest (mem : AllocResult) (header : FrameHeader) (payload : option bytes)
    (size : Z) (limits : CodecLimits) : Status :=
  check ValidateHeaderFields header limits true ;;
  if negb (kind header =? MessageKind.kRequest) then
    Corrupt "ValidateRequest received a response header"
  else if request_id header =? 0 then Corrupt "request_id zero is reserved"
  else
  check ValidateDeclaredPayloadSize header payload size ;;
  if opcode header =? Opcode.kGet then result_status (DecodeGetRequest payload size)
  else if opcode header =? Opcode.kPut then
    result_status (DecodePutRequest mem payload size limits)
  else if opcode header =? Opcode.kPing then DecodePingRequest payload size
  else Corrupt "unknown request opcode".

Definition ValidateResponse (mem : AllocResult) (header : FrameHeader) (payload : option bytes)
    (size : Z) (limits : CodecLimits) : Status :=
  check ValidateHeaderFields header limits true ;;
  if negb (kind header =? MessageKind.kResponse) then
    Corrupt "ValidateResponse received a request header"
  else if request_id header =? 0 then Corrupt "request_id zero is reserved"
  else
  check ValidateDeclaredPayloadSize header payload size ;;
  if negb (status header =? WireStatus.kOk) then
    result_status (DecodeErrorPayload mem payload size limits)
  else if opcode header =? Opcode.kGet then
    result_status (DecodeGetSuccessPayload mem payload size limits)
  else if (opcode header =? Opcode.kPut) || (opcode header =? Opcode.kPing) then
    DecodeEmptySuccessPayload payload size
  else Corrupt "unknown response opcode".

Definition ToWireStatus (c : StatusCode) : Result Z :=
  match c with
  | kOk => Value WireStatus.kOk
  | kNotImplemented => Value WireStatus.kNotImplemented
  | kNotFound => Value WireStatus.kNotFound
  | kInvalidArgument => Value WireStatus.kInvalidArgument
  | kAlreadyExists => Value WireStatus.kAlreadyExists
  | kIoError => Value WireStatus.kIoError
  | kNetworkError => Value WireStatus.kNetworkError
  | kUnavailable => Value WireStatus.kUnavailable
  | kOutOfCapacity => Value WireStatus.kOutOfCapacity
  | kCorruption => Value WireStatus.kCorruption
  | kInternal => Value WireStatus.kInternal
  end.

Definition FromWireStatus (s : Z) : Result StatusCode :=
  if s =? WireStatus.kOk then Value kOk
  else if s =? WireStatus.kNotImplemented then Value kNotImplemented
  else if s =? WireStatus.kNotFound then Value kNotFound
  else if s =? WireStatus.kInvalidArgument then Value kInvalidArgument
  else if s =? WireStatus.kAlreadyExists then Value kAlreadyExists
  else if s =? WireStatus.kIoError then Value kIoError
  else if s =? WireStatus.kNetworkError then Value kNetworkError
  else if s =? WireStatus.kUnavailable then Value kUnavailable
  else if s =? WireStatus.kOutOfCapacity then Value kOutOfCapacity
  else if s =? WireStatus.kCorruption then Value kCorruption
  else if s =? WireStatus.kInternal then Value kInternal
  else Error (Corrupt "unknown WireStatus").

(** ** Lemmas *)

Lemma ok_InputError b m : ok (InputError b m) = false.
Proof. by destruct b. Qed.
Lemma ok_Corrupt m : ok (Corrupt m) = false.
Proof. done. Qed.
#[local] Hint Rewrite ok_InputError ok_Corrupt : tp_simpl.

Lemma PutU16_be v : PutU16 v = put_be 2 v.
Proof. unfold PutU16, put_be, byte_at. cbn. by rewrite Z.shiftr_0_r. Qed.

Lemma GetU16_be p : GetU16 p = get_be 16 Byte.x00 2 p.
Proof.
  unfold GetU16, get_be, at_. cbn [seq fold_left]. rewrite Z.shiftl_0_l, (wrap_small 16 0) by (unfold in_range; lia).
  rewrite Z.lor_0_l. f_equal. symmetry. apply wrap_small.
  pose proof (peek_range Byte.x00 p 0) as H. rewrite Z.shiftl_mul_pow2 by lia. unfold in_range in *. lia.
Qed.

(** What the header checks amount to. *)
Definition payload_rule (h : FrameHeader) (limits : CodecLimits) : Prop :=
  if kind h =? MessageKind.kRequest then
    status h = WireStatus.kOk
    /\ (opcode h = Opcode.kGet -> payload_bytes h = 16)
    /\ (opcode h = Opcode.kPut -> 16 < payload_bytes h)
    /\ (opcode h = Opcode.kPing -> payload_bytes h = 0)
  else if status h =? WireStatus.kOk then
    (opcode h = Opcode.kGet -> payload_bytes h <> 0)
    /\ (opcode h = Opcode.kPut -> payload_bytes h = 0)
    /\ (opcode h = Opcode.kPing -> payload_bytes h = 0)
  else 4 <= payload_bytes h <= 4 + max_error_message_bytes limits.

Record valid_header (h : FrameHeader) (limits : CodecLimits) : Prop := {
  vh_kind : kind h = MessageKind.kRequest \/ kind h = MessageKind.kResponse;
  vh_opcode : opcode h = Opcode.kGet \/ opcode h = Opcode.kPut \/ opcode h = Opcode.kPing;
  vh_status : 0 <= status h <= 10;
  vh_flags : flags h = 0;
  vh_limit : kHeaderBytes <= max_frame_bytes limits;
  vh_size : kHeaderBytes + payload_bytes h <= Z.min (max_frame_bytes limits) u64_max;
  vh_payload : payload_rule h limits
}.

Lemma IsKnownWireStatus_spec s : IsKnownWireStatus s = true <-> 0 <= s <= 10.
Proof.
  unfold IsKnownWireStatus. rewrite existsb_exists. split.
  - intros (x & Hin & E). apply Z.eqb_eq in E as ->. cbn in Hin.
    repeat destruct Hin as [<-|Hin]; vm_compute; (split; discriminate) || done.
  - intros Hs. exists s. rewrite Z.eqb_refl. split; [|done]. cbn.
    unfold WireStatus.kOk, WireStatus.kNotImplemented, WireStatus.kNotFound, WireStatus.kInvalidArgument,
      WireStatus.kAlreadyExists, WireStatus.kIoError, WireStatus.kNetworkError, WireStatus.kUnavailable,
      WireStatus.kOutOfCapacity, WireStatus.kCorruption, WireStatus.kInternal. lia.
Qed.

Lemma ValidateFrameSizeImpl_spec n limits b r :
  0 <= n -> ValidateFrameSizeImpl n limits b = Value r ->
  r = kHeaderBytes + n /\ kHeaderBytes <= max_frame_bytes limits
  /\ kHeaderBytes + n <= Z.min (max_frame_bytes limits) u64_max.
Proof.
  intros Hn. unfold ValidateFrameSizeImpl, u64_max, kHeaderBytes. intros E.
  repeat (case_match; simplify_eq). boolZ. rewrite wrap_small by (unfold in_range; lia). lia.
Qed.

Lemma ValidateFrameSizeImpl_complete n limits b :
  0 <= n -> kHeaderBytes + n <= Z.min (max_frame_bytes limits) u64_max ->
  ValidateFrameSizeImpl n limits b = Value (kHeaderBytes + n).
Proof.
  intros Hn Hle. unfold ValidateFrameSizeImpl, u64_max, kHeaderBytes in *.
  repeat (case_match; boolZ; try lia). rewrite wrap_small by (unfold in_range; lia). done.
Qed.

Lemma ValidatePayloadLength_spec h limits b :
  kind h = MessageKind.kRequest \/ kind h = MessageKind.kResponse ->
  opcode h = Opcode.kGet \/ opcode h = Opcode.kPut \/ opcode h = Opcode.kPing ->
  ok (ValidatePayloadLength h limits b) = true <-> payload_rule h limits.
Proof.
  intros Hk Ho. unfold ValidatePayloadLength, payload_rule.
  unfold MessageKind.kRequest, MessageKind.kResponse, Opcode.kGet, Opcode.kPut, Opcode.kPing,
    WireStatus.kOk, kBlockKeyBytes in *.
  repeat (case_match; boolZ; try lia); rewrite ?ok_InputError, ?ok_Ok; intuition (try lia; try done).
Qed.

Lemma ValidateHeaderFields_spec h limits b :
  0 <= payload_bytes h -> ok (ValidateHeaderFields h limits b) = true <-> valid_header h limits.
Proof.
  intros Hp. unfold ValidateHeaderFields. split.
  - intros E. repeat (case_match; [by rewrite ok_InputError in E|]). 
    destruct (ValidateFrameSizeImpl _ _ _) eqn:Ef.
    2: { exfalso. unfold ValidateFrameSizeImpl in Ef. repeat (case_match; simplify_eq);
         first [by rewrite ok_InputError in E | done]. }
    apply ValidateFrameSizeImpl_spec in Ef as (-> & Hl & Hs); [|done].
    boolZ. unfold IsKnownKind, IsKnownOpcode in *.
    assert (kind h = MessageKind.kRequest \/ kind h = MessageKind.kResponse) by (rewrite orb_true_iff, !Z.eqb_eq in *; done).
    assert (opcode h = Opcode.kGet \/ opcode h = Opcode.kPut \/ opcode h = Opcode.kPing)
      by (rewrite !orb_true_iff, !Z.eqb_eq in *; tauto).
    split; try done; [by apply IsKnownWireStatus_spec|by eapply ValidatePayloadLength_spec].
  - intros [Hk Ho Hs Hf Hl Hsz Hr].
    rewrite ValidateFrameSizeImpl_complete by done.
    unfold IsKnownKind, IsKnownOpcode.
    assert (IsKnownWireStatus (status h) = true) as -> by (by apply IsKnownWireStatus_spec).
    assert ((kind h =? MessageKind.kRequest) || (kind h =? MessageKind.kResponse) = true)%bool as ->
      by (rewrite orb_true_iff, !Z.eqb_eq; done).
    assert ((opcode h =? Opcode.kGet) || (opcode h =? Opcode.kPut) || (opcode h =? Opcode.kPing) = true)%bool as ->
      by (rewrite !orb_true_iff, !Z.eqb_eq; tauto).
    rewrite Hf, Z.eqb_refl. cbn [negb]. by apply ValidatePayloadLength_spec.
Qed.

Lemma ValidateHeaderFields_error h limits b :
  ok (ValidateHeaderFields h limits b) = false ->
  code (ValidateHeaderFields h limits b) = (if b then kCorruption else kInvalidArgument)
  \/ (code (ValidateHeaderFields h limits b) = kInvalidArgument /\ max_frame_bytes limits < kHeaderBytes).
Proof.
  unfold ValidateHeaderFields, ValidateFrameSizeImpl, ValidatePayloadLength, InputError. intros E.
  repeat (case_match; simplify_eq); cbn in E |- *; boolZ; try (by left); try done; by right.
Qed.

Lemma EncodeHeader_inv h limits e :
  0 <= payload_bytes h -> EncodeHeader h limits = Value e ->
  valid_header h limits
  /\ e = put_be 4 kMagic ++ put_be 2 kVersion ++ put_be 2 kHeaderBytes ++ [byte.of_Z (kind h)]
         ++ [byte.of_Z (opcode h)] ++ put_be 2 (status h) ++ put_be 4 (flags h)
         ++ put_be 8 (request_id h) ++ put_be 8 (payload_bytes h).
Proof.
  intros Hp. unfold EncodeHeader. cbv zeta. destruct (ok _) eqn:E; [|done].
  apply ValidateHeaderFields_spec in E; [|done]. intros H.
  split; [done|]. rewrite <- (PutU16_be kVersion), <- (PutU16_be kHeaderBytes), <- (PutU16_be (status h)).
  unfold PutU32, PutU64 in H. congruence.
Qed.

Lemma DecodeHeader_encoded h limits e :
  FrameHeader_wf h -> EncodeHeader h limits = Value e ->
  zlen e = kHeaderBytes /\ DecodeHeader (Some e) kHeaderBytes limits = Value h.
Proof.
  intros (Hk & Ho & Hs & Hf & Hr & Hp) E.
  apply EncodeHeader_inv in E as (Hv & ->); [|apply Hp]. split.
  { unfold zlen. rewrite !length_app, !length_put_be. done. }
  unfold DecodeHeader. rewrite Z.ltb_irrefl.
  rewrite (proj2 (Z.ltb_ge _ _)) by apply Hv.
  unfold at_. rewrite (peek_drop _ _ 8), (peek_drop _ _ 9), !GetU16_be. unfold GetU32, GetU64.
  drop_fields. rewrite !peek_byte, !unsigned_of_Z_small by done.
  assert (forall v, u64 v -> get_be 64 Byte.x00 8 (put_be 8 v) = v) as Hlast.
  { intros v Hu. rewrite <- (app_nil_r (put_be 8 v)). by apply get_be_put. }
  rewrite !get_be_put, Hlast by (done || lia || (split; by vm_compute)).
  rewrite !Z.eqb_refl. cbn [negb]. cbv zeta.
  replace (mkFrameHeader _ _ _ _ _ _) with h by (by destruct h).
  by rewrite (proj2 (ValidateHeaderFields_spec h limits true ltac:(apply Hp)) Hv).
Qed.

Lemma DecodeHeader_inv p size limits h :
  zlen p = size -> DecodeHeader (Some p) size limits = Value h ->
  size = kHeaderBytes /\ FrameHeader_wf h /\ valid_header h limits /\ EncodeHeader h limits = Value p.
Proof.
  intros Hsz. unfold DecodeHeader. cbv zeta. intros E.
  destruct (Z.ltb_spec size kHeaderBytes); [done|].
  destruct (Z.ltb_spec kHeaderBytes size); [done|].
  destruct (max_frame_bytes limits <? kHeaderBytes); [done|].
  destruct (GetU32 p =? kMagic) eqn:Em; [|done]. destruct (GetU16 (drop 4 p) =? kVersion) eqn:Ev; [|done].
  destruct (GetU16 (drop 6 p) =? kHeaderBytes) eqn:Eh; [|done]. cbn [negb] in E. boolZ.
  destruct (ok _) eqn:Eok; simplify_eq.
  assert (length p = 32%nat) as Hl by (unfold kHeaderBytes, zlen in *; lia).
  assert (forall k n, (k + n <= 32)%nat -> (n <= length (drop k p))%nat) as Hd
    by (intros; rewrite length_drop; lia).
  set (h := mkFrameHeader _ _ _ _ _ _) in *.
  assert (FrameHeader_wf h) as Hwf.
  { unfold FrameHeader_wf, h, at_; cbn. rewrite !GetU16_be. unfold GetU32, GetU64.
    split_and!; try apply peek_range; apply get_be_range; try apply Hd; lia. }
  split; [unfold kHeaderBytes in *; lia|]. split; [done|].
  assert (valid_header h limits) as Hv by (eapply ValidateHeaderFields_spec; [apply Hwf|done]).
  split; [done|]. unfold EncodeHeader. cbv zeta.
  rewrite (proj2 (ValidateHeaderFields_spec h limits false ltac:(apply Hwf)) Hv). f_equal.
  unfold h; cbn [kind opcode status flags request_id payload_bytes].
  rewrite (PutU16_be kVersion), (PutU16_be kHeaderBytes), (PutU16_be (GetU16 _)).
  rewrite <- Em, <- Ev, <- Eh, !GetU16_be.
  unfold PutU32, PutU64, GetU32, GetU64, at_. rewrite !put_get_be by (try apply Hd; lia).
  rewrite !(take_1_peek _ p) by lia.
  rewrite (take_ge (drop 24 p)) by (rewrite length_drop; lia).
  rewrite !take_drop_glue by done. apply take_drop.
Qed.

(** Keys. *)
Lemma DecodeBlockKey_encoded k rest :
  BlockKey_wf k ->
  DecodeBlockKey (Some ((PutU64 (prefix_hash k) ++ PutU32 (prefix_len k) ++ PutU32 (model_fingerprint k)) ++ rest))
    kBlockKeyBytes = Value k.
Proof.
  intros (Hh & Hl & Hm). unfold DecodeBlockKey. rewrite Z.ltb_irrefl.
  unfold GetU64, GetU32, PutU64, PutU32. rewrite <- !app_assoc. drop_fields.
  rewrite !get_be_put by (done || lia). by destruct k.
Qed.

Lemma DecodeBlockKey_inv p k :
  (16 <= length p)%nat -> DecodeBlockKey (Some p) kBlockKeyBytes = Value k ->
  BlockKey_wf k /\ EncodeBlockKey k = Value (take 16 p).
Proof.
  intros Hl. unfold DecodeBlockKey. rewrite Z.ltb_irrefl. intros [= <-].
  assert (forall i n, (i + n <= 16)%nat -> (n <= length (drop i p))%nat) as Hd
    by (intros; rewrite length_drop; lia). split.
  - unfold BlockKey_wf; cbn. unfold GetU64, GetU32.
    split_and!; apply get_be_range; try apply Hd; lia.
  - unfold EncodeBlockKey; cbn. unfold GetU64, GetU32, PutU64, PutU32.
    rewrite !put_get_be by (try apply Hd; lia). f_equal.
    rewrite <- (take_drop 8 (take 16 p)), take_take, skipn_firstn_comm.
    f_equal. change (16 - 8)%nat with (4 + 4)%nat. rewrite <- take_take_drop, drop_drop. done.
Qed.

Lemma EncodeBlockKey_length k e : EncodeBlockKey k = Value e -> zlen e = kBlockKeyBytes.
Proof. intros <-%Value_inj. unfold zlen, PutU64, PutU32. rewrite !length_app, !length_put_be. done. Qed.

Lemma guard_alloc_Value {T} mem a b (v w : T) : guard_alloc mem a b v = Value w -> v = w.
Proof. destruct mem; simpl; congruence. Qed.

Lemma EncodePutRequest_inv mem k blob limits p :
  EncodePutRequest mem k blob limits = Value p ->
  exists e, EncodeBlockKey k = Value e /\ p = e ++ blob /\ blob <> []
            /\ kHeaderBytes + zlen p <= Z.min (max_frame_bytes limits) u64_max.
Proof.
  unfold EncodePutRequest. intros E. destruct blob as [|b blob]; [done|].
  destruct (Z.ltb_spec (u64_max - kBlockKeyBytes) (zlen (b :: blob))) as [|Hlt]; [done|].
  cbv zeta in E. pose proof (zlen_nonneg (b :: blob)) as Hn.
  rewrite wrap_small in E by (unfold in_range, u64_max, kBlockKeyBytes in *; lia).
  destruct (ValidateFrameSize _ _) eqn:Ef; [|done].
  apply ValidateFrameSizeImpl_spec in Ef as (-> & Hl & Hs); [|unfold kBlockKeyBytes; lia].
  destruct (EncodeBlockKey k) as [e|] eqn:Ek; [|done]. apply guard_alloc_Value in E as <-.
  exists e. split; [done|]. split; [done|]. split; [done|].
  rewrite zlen_app, (EncodeBlockKey_length _ _ Ek). lia.
Qed.

Lemma DecodePutRequest_encoded mem mem' k blob limits p :
  BlockKey_wf k -> EncodePutRequest mem k blob limits = Value p ->
  DecodePutRequest mem' (Some p) (zlen p) limits
  = guard_alloc mem' "string allocation failed" "string is larger than the container limit"
      (mkDecodedPutRequest k blob).
Proof.
  intros Hk E. apply EncodePutRequest_inv in E as (e & Ek & -> & Hne & Hsz).
  pose proof (EncodeBlockKey_length _ _ Ek) as Hle.
  pose proof (zlen_pos blob Hne) as Hpos.
  unfold DecodePutRequest. rewrite zlen_app, Hle in *.
  rewrite (proj2 (Z.leb_gt _ _)) by (unfold kBlockKeyBytes; lia). cbn [ValidatePayloadPointer].
  rewrite ok_Ok. rewrite ValidateFrameSizeImpl_complete by (done || unfold kBlockKeyBytes in *; lia).
  apply Value_inj in Ek as <-. rewrite DecodeBlockKey_encoded by done. unfold CopyString, memory.
  replace (kBlockKeyBytes + zlen blob - kBlockKeyBytes) with (zlen blob) by lia.
  rewrite (proj2 (Z.eqb_neq _ _)) by lia.
  rewrite drop_app_length' by (unfold zlen, kBlockKeyBytes in Hle; lia).
  unfold zlen. rewrite Nat2Z.id, take_ge by lia. by destruct mem'.
Qed.

Lemma EncodeErrorPayload_inv mem msg limits p :
  EncodeErrorPayload mem msg limits = Value p ->
  p = PutU32 (zlen msg) ++ msg /\ zlen p = 4 + zlen msg /\ u32 (zlen msg)
  /\ zlen msg <= max_error_message_bytes limits
  /\ kHeaderBytes + zlen p <= Z.min (max_frame_bytes limits) u64_max.
Proof.
  unfold EncodeErrorPayload. intros E. pose proof (zlen_nonneg msg) as Hn.
  destruct (Z.ltb_spec (max_error_message_bytes limits) (zlen msg)) as [|Hm]; [done|].
  destruct (Z.ltb_spec u32_max (zlen msg)) as [|Hu]; [done|]. unfold u32_max in Hu. cbv zeta in E.
  rewrite (wrap_small 64), (wrap_small 32) in E by (unfold in_range; lia).
  destruct (ValidateFrameSize _ _) eqn:Ef; [|done].
  apply ValidateFrameSizeImpl_spec in Ef as (-> & Hl & Hs); [|lia].
  apply guard_alloc_Value in E as <-.
  assert (zlen (PutU32 (zlen msg) ++ msg) = 4 + zlen msg) as Hz.
  { rewrite zlen_app. unfold zlen at 1, PutU32. by rewrite length_put_be. }
  rewrite Hz. unfold in_range. split_and!; try done; lia.
Qed.

Lemma DecodeErrorPayload_encoded mem msg limits p :
  EncodeErrorPayload mem msg limits = Value p ->
  DecodeErrorPayload AllocOk (Some p) (zlen p) limits = Value msg.
Proof.
  intros (-> & Hz & Hu & Hm & Hs)%EncodeErrorPayload_inv. pose proof (zlen_nonneg msg) as Hn.
  unfold DecodeErrorPayload. rewrite Hz in *. rewrite (proj2 (Z.ltb_ge _ _)) by lia.
  rewrite ValidateFrameSizeImpl_complete by (done || lia).
  unfold GetU32, PutU32. rewrite get_be_put by (done || lia).
  rewrite (proj2 (Z.ltb_ge _ _)) by lia. replace (4 + zlen msg - 4) with (zlen msg) by lia.
  rewrite Z.eqb_refl. cbn [negb]. drop_fields. unfold CopyString.
  destruct (Z.eqb_spec (zlen msg) 0) as [H0|_].
  - apply zlen_nil_iff in H0 as ->. done.
  - cbn [guard_alloc]. unfold zlen. by rewrite Nat2Z.id, take_ge.
Qed.

Lemma EncodeGetSuccessPayload_inv mem blob limits p :
  EncodeGetSuccessPayload mem blob limits = Value p ->
  p = blob /\ blob <> [] /\ kHeaderBytes + zlen p <= Z.min (max_frame_bytes limits) u64_max.
Proof.
  unfold EncodeGetSuccessPayload. intros E. destruct blob as [|b blob]; [done|].
  destruct (ValidateFrameSize _ _) eqn:Ef; [|done].
  apply ValidateFrameSizeImpl_spec in Ef as (-> & Hl & Hs); [|apply zlen_nonneg].
  apply guard_alloc_Value in E as <-. done.
Qed.

Lemma DecodeGetSuccessPayload_encoded mem blob limits p :
  EncodeGetSuccessPayload mem blob limits = Value p ->
  DecodeGetSuccessPayload AllocOk (Some p) (zlen p) limits = Value blob.
Proof.
  intros (-> & Hne & Hs)%EncodeGetSuccessPayload_inv. pose proof (zlen_pos blob Hne) as Hpos.
  unfold DecodeGetSuccessPayload, CopyString. rewrite (proj2 (Z.eqb_neq _ _)) by lia.
  cbn [ValidatePayloadPointer]. rewrite ok_Ok.
  rewrite ValidateFrameSizeImpl_complete by (done || lia).
  cbn [guard_alloc memory]. unfold zlen. by rewrite Nat2Z.id, take_ge.
Qed.

(** The frame header a peer builds around a payload. *)
Definition frame_for (k op st id : Z) (p : bytes) : FrameHeader := mkFrameHeader k op st 0 id (zlen p).

Lemma frame_valid k op st id p limits :
  (k = MessageKind.kRequest \/ k = MessageKind.kResponse) ->
  (op = Opcode.kGet \/ op = Opcode.kPut \/ op = Opcode.kPing) ->
  0 <= st <= 10 ->
  kHeaderBytes + zlen p <= Z.min (max_frame_bytes limits) u64_max ->
  payload_rule (frame_for k op st id p) limits ->
  ok (ValidateHeaderFields (frame_for k op st id p) limits true) = true.
Proof.
  intros Hk Ho Hs Hl Hr. apply ValidateHeaderFields_spec; [apply zlen_nonneg|].
  pose proof (zlen_nonneg p). split; cbn; try done; lia.
Qed.

(** A frame whose header is valid and whose payload decodes is accepted. *)
Lemma ValidateRequest_accepts mem op id p limits :
  (op = Opcode.kGet \/ op = Opcode.kPut \/ op = Opcode.kPing) -> 1 <= id ->
  ok (ValidateHeaderFields (frame_for MessageKind.kRequest op WireStatus.kOk id p) limits true) = true ->
  ValidateRequest mem (frame_for MessageKind.kRequest op WireStatus.kOk id p) (Some p) (zlen p) limits
  = if op =? Opcode.kGet then result_status (DecodeGetRequest (Some p) (zlen p))
    else if op =? Opcode.kPut then result_status (DecodePutRequest mem (Some p) (zlen p) limits)
    else DecodePingRequest (Some p) (zlen p).
Proof.
  intros Ho Hid Hv. unfold ValidateRequest. cbv zeta. rewrite Hv. cbn [kind request_id opcode frame_for].
  rewrite (proj2 (Z.eqb_neq id 0)) by lia. unfold ValidateDeclaredPayloadSize. cbn.
  rewrite Z.eqb_refl. cbn. destruct Ho as [-> | [-> | ->]]; done.
Qed.

Lemma ValidateResponse_accepts mem op st id p limits :
  (op = Opcode.kGet \/ op = Opcode.kPut \/ op = Opcode.kPing) -> 1 <= id ->
  ok (ValidateHeaderFields (frame_for MessageKind.kResponse op st id p) limits true) = true ->
  ValidateResponse mem (frame_for MessageKind.kResponse op st id p) (Some p) (zlen p) limits
  = if negb (st =? WireStatus.kOk) then result_status (DecodeErrorPayload mem (Some p) (zlen p) limits)
    else if op =? Opcode.kGet then result_status (DecodeGetSuccessPayload mem (Some p) (zlen p) limits)
    else DecodeEmptySuccessPayload (Some p) (zlen p).
Proof.
  intros Ho Hid Hv. unfold ValidateResponse. cbv zeta. rewrite Hv. cbn [kind request_id opcode status frame_for].
  rewrite (proj2 (Z.eqb_neq id 0)) by lia. unfold ValidateDeclaredPayloadSize. cbn.
  rewrite Z.eqb_refl. cbn. destruct Ho as [-> | [-> | ->]]; done.
Qed.

(** ** Properties *)

(** C30 (functional): a received header is accepted exactly when it is the
    encoding of a header that satisfies the protocol rules ([valid_header]), and
    what is decoded is that header; every header that satisfies the rules has an
    encoding, of the fixed header length, and it is accepted; a rejected header is
    reported as [kCorruption] unless the local frame limit itself is too small. *)
Theorem DecodeHeader_exact (p : bytes) (limits : CodecLimits) :
  (forall h, DecodeHeader (Some p) (zlen p) limits = Value h
     <-> FrameHeader_wf h /\ valid_header h limits /\ EncodeHeader h limits = Value p)
  /\ (forall h, FrameHeader_wf h -> valid_header h limits ->
        exists e, EncodeHeader h limits = Value e /\ zlen e = kHeaderBytes
                  /\ DecodeHeader (Some e) (zlen e) limits = Value h)
  /\ (forall s, DecodeHeader (Some p) (zlen p) limits = Error s ->
        code s = kCorruption
        \/ (code s = kInvalidArgument /\ max_frame_bytes limits < kHeaderBytes)).
Proof.
  split_and!.
  - intros h. split; [intros E; eapply DecodeHeader_inv in E as (_ & Hw & Hv & He); done|].
    intros (Hw & _ & He). destruct (DecodeHeader_encoded h limits p Hw He) as [-> Hd]. exact Hd.
  - intros h Hw Hv. assert (exists e, EncodeHeader h limits = Value e) as [e He].
    { unfold EncodeHeader. cbv zeta. rewrite (proj2 (ValidateHeaderFields_spec h limits false ltac:(apply Hw)) Hv). eauto. }
    exists e. destruct (DecodeHeader_encoded h limits e Hw He) as [Hl Hd].
    split_and!; [done..|by rewrite Hl].
  - intros s. unfold DecodeHeader. cbv zeta. intros E.
    repeat (case_match; simplify_eq); boolZ; try (by left); try (by right).
    match goal with H : ok (ValidateHeaderFields ?h _ true) = false |- _ =>
      destruct (ValidateHeaderFields_error h limits true H) as [?|[? ?]]; [by left|by right] end.
Qed.

(** The frame size the codec reports is exactly header plus
    payload; it fits both the configured limit and [size_t], so no addition
    wrapped, and every payload for which that is possible is accepted. *)
Lemma ValidateFrameSize_exact (n : Z) (limits : CodecLimits) (Hn : u64 n) :
  (forall r, ValidateFrameSize n limits = Value r ->
     r = kHeaderBytes + n /\ r <= max_frame_bytes limits /\ u64 r)
  /\ (kHeaderBytes + n <= Z.min (max_frame_bytes limits) u64_max ->
      ValidateFrameSize n limits = Value (kHeaderBytes + n)).
Proof.
  split.
  - intros r E. apply ValidateFrameSizeImpl_spec in E as (-> & Hl & Hs); [|apply Hn].
    unfold in_range, u64_max, kHeaderBytes in *. lia.
  - intros Hle. apply ValidateFrameSizeImpl_complete; [apply Hn|done].
Qed.

(** C31 (round trip): a Put request built by the client is accepted by
    [ValidateRequest] and decodes to the same key and block blob; so does a Get
    request, for every key. *)
Theorem put_get_request_roundtrip (mem : AllocResult) (k : BlockKey) (blob p : bytes) (id : Z)
    (limits : CodecLimits) (Hk : BlockKey_wf k) (Hid : 1 <= id)
    (Hp : EncodePutRequest mem k blob limits = Value p) :
  ValidateRequest AllocOk (frame_for MessageKind.kRequest Opcode.kPut WireStatus.kOk id p)
    (Some p) (zlen p) limits = Ok
  /\ DecodePutRequest AllocOk (Some p) (zlen p) limits = Value (mkDecodedPutRequest k blob)
  /\ exists g, EncodeGetRequest AllocOk k = Value g
       /\ DecodeGetRequest (Some g) (zlen g) = Value k
       /\ ValidateRequest AllocOk (frame_for MessageKind.kRequest Opcode.kGet WireStatus.kOk id g)
            (Some g) (zlen g) limits = Ok.
Proof.
  pose proof (DecodePutRequest_encoded mem AllocOk k blob limits p Hk Hp) as Hd.
  apply EncodePutRequest_inv in Hp as (e & Ek & Ep & Hne & Hs).
  pose proof (EncodeBlockKey_length _ _ Ek) as Hle. pose proof (zlen_pos blob Hne) as Hpos.
  assert (zlen p = 16 + zlen blob) as Hz by (rewrite Ep, zlen_app, Hle; done).
  assert (DecodeGetRequest (Some e) (zlen e) = Value k) as Hg.
  { rewrite Hle. apply Value_inj in Ek as <-. rewrite <- (app_nil_r (_ ++ _)). by apply DecodeBlockKey_encoded. }
  split; [|split; [done|exists e; split; [unfold EncodeGetRequest; by rewrite Ek|split; [done|]]]].
  - rewrite ValidateRequest_accepts; [|tauto|done|].
    + cbn. by rewrite Hd.
    + apply frame_valid; [tauto|tauto|by vm_compute|done|]. cbn.
      unfold Opcode.kGet, Opcode.kPut, Opcode.kPing. lia.
  - rewrite ValidateRequest_accepts; [|tauto|done|].
    + cbn. by rewrite Hg.
    + apply frame_valid; [tauto|tauto|by vm_compute| |]; cbn;
        unfold kBlockKeyBytes, Opcode.kGet, Opcode.kPut, Opcode.kPing in *; lia.
Qed.

Lemma put_get_request_roundtrip_witness :
  exists p, EncodePutRequest AllocOk (mkBlockKey 1 2 3) [Byte.x07] default_limits = Value p
   /\ DecodePutRequest AllocOk (Some p) (zlen p) default_limits
      = Value (mkDecodedPutRequest (mkBlockKey 1 2 3) [Byte.x07]).
Proof.
  eexists. split; [vm_compute; reflexivity|].
  refine (proj1 (proj2 (put_get_request_roundtrip AllocOk (mkBlockKey 1 2 3) [Byte.x07] _ 1
            default_limits _ _ _))).
  - repeat split; by vm_compute.
  - lia.
  - vm_compute. reflexivity.
Defined.

(** C32 (round trip): the status of a failed operation survives the wire.  An
    error response built from a non-[kOk] status code and a message that the
    encoder accepts passes [ValidateResponse] and decodes to the same code and
    message; a successful Get response decodes to the same blob. *)
Theorem response_roundtrip (mem : AllocResult) (c : StatusCode) (w op id : Z) (msg blob p g : bytes)
    (limits : CodecLimits) (Hc : c <> kOk) (Hw : ToWireStatus c = Value w) (Hid : 1 <= id)
    (Hop : op = Opcode.kGet \/ op = Opcode.kPut \/ op = Opcode.kPing)
    (Hp : EncodeErrorPayload mem msg limits = Value p)
    (Hg : EncodeGetSuccessPayload mem blob limits = Value g) :
  ValidateResponse AllocOk (frame_for MessageKind.kResponse op w id p) (Some p) (zlen p) limits = Ok
  /\ DecodeErrorPayload AllocOk (Some p) (zlen p) limits = Value msg
  /\ FromWireStatus w = Value c
  /\ ValidateResponse AllocOk (frame_for MessageKind.kResponse Opcode.kGet WireStatus.kOk id g)
       (Some g) (zlen g) limits = Ok
  /\ DecodeGetSuccessPayload AllocOk (Some g) (zlen g) limits = Value blob.
Proof.
  pose proof (DecodeErrorPayload_encoded _ _ _ _ Hp) as Hdp.
  pose proof (DecodeGetSuccessPayload_encoded _ _ _ _ Hg) as Hdg.
  apply EncodeErrorPayload_inv in Hp as (Ep & Hz & Hu & Hm & Hs).
  apply EncodeGetSuccessPayload_inv in Hg as (Eg & Hne & Hsg).
  assert (FromWireStatus w = Value c /\ 0 <= w <= 10 /\ w <> WireStatus.kOk) as (Hf & Hwr & Hw0).
  { destruct c; try done; apply Value_inj in Hw as <-; split_and!; by vm_compute. }
  split; [|split; [done|split; [done|split; [|done]]]].
  - rewrite ValidateResponse_accepts; [|done|done|].
    + rewrite (proj2 (Z.eqb_neq w _)) by done. cbn. by rewrite Hdp.
    + apply frame_valid; [tauto|done|done|done|]. unfold payload_rule; cbn.
      change (w =? WireStatus.kOk) with (w =? WireStatus.kOk).
      rewrite (proj2 (Z.eqb_neq w _)) by done. unfold in_range in Hu. lia.
  - rewrite ValidateResponse_accepts; [|tauto|done|].
    + cbn. by rewrite Hdg.
    + pose proof (zlen_pos blob Hne). apply frame_valid; [tauto|tauto|by vm_compute|done|].
      subst g. cbn. unfold Opcode.kGet, Opcode.kPut, Opcode.kPing. lia.
Qed.

Lemma response_roundtrip_witness :
  exists p, EncodeErrorPayload AllocOk [Byte.x68; Byte.x69] default_limits = Value p
   /\ ValidateResponse AllocOk (frame_for MessageKind.kResponse Opcode.kPut WireStatus.kNotFound 9 p)
        (Some p) (zlen p) default_limits = Ok.
Proof.
  eexists. split; [vm_compute; reflexivity|].
  refine (proj1 (response_roundtrip AllocOk kNotFound WireStatus.kNotFound Opcode.kPut 9
            [Byte.x68; Byte.x69] [Byte.x01] _ [Byte.x01] default_limits _ _ _ _ _ _)).
  - done.
  - reflexivity.
  - lia.
  - tauto.
  - vm_compute. reflexivity.
  - vm_compute. reflexivity.
Defined.

(** The wire status codes are a bijection with the status
    codes, and no other 16-bit value is accepted. *)
Theorem wire_status_bijection (c : StatusCode) (w : Z) :
  ToWireStatus c = Value w <-> FromWireStatus w = Value c.
Proof.
  split.
  - destruct c; intros [= <-]; reflexivity.
  - unfold FromWireStatus. intros E. repeat (case_match; simplify_eq); boolZ; subst; reflexivity.
Qed.

End wire.
