(* ===== verification/EvictionPolicy.v ===== *)
(** * Eviction policy interface

    [include/tidepool/store/eviction_policy.h] as a class of operations, and
    the contract the header documents as a class of laws.  The storage node is
    verified against the laws; [Lru], [Arc] and [CostAware] are instances.

    The file also models [std::list<BlockKey>] with its stable iterators, which
    both LRU and ARC store in their position maps: a list holds nodes, a node
    has an identity (its address), and an iterator is that identity. *)

From S2P Require Import Prelude Api.

(** ** The interface *)

Class EvictionPolicy (P : Type) : Type := {
  ep_OnAccess : BlockKey -> comp P unit;
  ep_OnInsert : BlockKey -> Z -> comp P Status;
  ep_OnPromotionCommitted : BlockKey -> Z -> comp P Status;
  ep_OnRemove : BlockKey -> comp P unit;
  ep_SelectVictim : option BlockKey -> comp P (Result BlockKey);
  ep_ValidateVictimCommit : BlockKey -> P -> Status;
  ep_CommitVictim : BlockKey -> comp P unit;
  ep_CancelVictim : BlockKey -> comp P Status
}.

(** The contract.  A policy tracks a set of resident keys and at most one
    reserved victim among them.  Inserting may fail for lack of memory and then
    changes nothing; selecting a victim only reserves it; after a successful
    validation the commit cannot fail and removes exactly the victim; a
    cancellation forgets the reservation and nothing else. *)
Class EvictionPolicyLaws (P : Type) `{EvictionPolicy P} : Type := {
  ep_inv : P -> Prop;
  ep_resident : P -> gset BlockKey;
  ep_reserved : P -> option BlockKey;

  ep_reserved_resident p k :
    ep_inv p -> ep_reserved p = Some k -> k ∈ ep_resident p;

  ep_OnAccess_law p k :
    ep_inv p -> k ∈ ep_resident p ->
    wp (ep_OnAccess k) (fun _ p' =>
      ep_inv p' /\ ep_resident p' = ep_resident p /\ ep_reserved p' = ep_reserved p) p;

  ep_OnInsert_law p k size :
    ep_inv p ->
    wp (ep_OnInsert k size) (fun s p' =>
      ep_inv p' /\ ep_reserved p' = ep_reserved p
      /\ if ok s then ep_resident p' = {[k]} ∪ ep_resident p else ep_resident p' = ep_resident p) p;

  ep_OnPromotionCommitted_law p k size :
    ep_inv p ->
    wp (ep_OnPromotionCommitted k size) (fun s p' =>
      ep_inv p' /\ ep_reserved p' = ep_reserved p
      /\ if ok s then ep_resident p' = {[k]} ∪ ep_resident p else ep_resident p' = ep_resident p) p;

  ep_OnRemove_law p k :
    ep_inv p ->
    wp (ep_OnRemove k) (fun _ p' =>
      ep_inv p' /\ ep_resident p' = ep_resident p ∖ {[k]}
      /\ (ep_reserved p <> Some k -> ep_reserved p' = ep_reserved p)
      /\ (ep_reserved p = Some k -> ep_reserved p' = None)) p;

  ep_SelectVictim_law p excluded :
    ep_inv p ->
    wp (ep_SelectVictim excluded) (fun r p' =>
      ep_inv p' /\ ep_resident p' = ep_resident p
      /\ match r with
         | Value k => ep_reserved p = None /\ k ∈ ep_resident p /\ Some k <> excluded
                      /\ ep_reserved p' = Some k
         | Error s => ok s = false /\ ep_reserved p' = ep_reserved p
                      /\ (ep_reserved p = None ->
                          code s = kNotFound /\ forall k, k ∈ ep_resident p -> Some k = excluded)
         end) p;

  ep_ValidateVictimCommit_law p k :
    ep_inv p -> ok (ep_ValidateVictimCommit k p) = true <-> ep_reserved p = Some k;

  ep_CommitVictim_law p k :
    ep_inv p -> ep_reserved p = Some k ->
    wp (ep_CommitVictim k) (fun _ p' =>
      ep_inv p' /\ ep_resident p' = ep_resident p ∖ {[k]} /\ ep_reserved p' = None) p;

  ep_CancelVictim_law p k :
    ep_inv p -> ep_reserved p = Some k ->
    wp (ep_CancelVictim k) (fun s p' =>
      ep_inv p' /\ ok s = true /\ ep_resident p' = ep_resident p /\ ep_reserved p' = None) p
}.

(** ** std::list with stable iterators *)

Abbreviation iterator := nat.
Abbreviation nlist := (list (iterator * BlockKey)).

(** The key of the node an iterator designates. *)
Fixpoint deref (it : iterator) (l : nlist) : option BlockKey :=
  match l with
  | [] => None
  | (i, k) :: l' => if decide (i = it) then Some k else deref it l'
  end.

(** [list.erase(it)] and the removal half of [splice]. *)
Definition unlink (it : iterator) (l : nlist) : nlist := filter (fun n => n.1 <> it) l.

Definition keys (l : nlist) : list BlockKey := l.*2.

(** [list.pop_back()]. *)
Definition pop_back (l : nlist) : nlist := take (length l - 1) l.

Lemma elem_of_unlink it l n : n ∈ unlink it l <-> n ∈ l /\ n.1 <> it.
Proof. unfold unlink. rewrite list_elem_of_filter. tauto. Qed.

Lemma deref_elem it l k : deref it l = Some k -> (it, k) ∈ l.
Proof.
  induction l as [|[i x] l IH]; cbn; [done|]. case_decide; intros; simplify_eq; [by left|]. right. by apply IH.
Qed.

Lemma deref_Some it l k : NoDup l.*1 -> (it, k) ∈ l -> deref it l = Some k.
Proof.
  induction l as [|[i x] l IH]; cbn; intros Hnd Hin; [by apply elem_of_nil in Hin|].
  apply NoDup_cons in Hnd as [Hi Hnd]. apply elem_of_cons in Hin as [E|Hin]; simplify_eq.
  - by rewrite decide_True.
  - rewrite decide_False; [by apply IH|]. intros ->. apply Hi. apply list_elem_of_fmap. by exists (it, k).
Qed.

Lemma NoDup_unlink it l : NoDup l.*1 -> NoDup (unlink it l).*1.
Proof.
  unfold unlink. induction l as [|[i x] l IH]; intros H; [constructor|].
  rewrite fmap_cons in H. apply NoDup_cons in H as [Hi H]. rewrite filter_cons. case_decide; [|by apply IH].
  cbn. constructor; [|by apply IH]. intros Hin. apply Hi.
  apply list_elem_of_fmap in Hin as (n & -> & Hn). apply list_elem_of_filter in Hn as [_ Hn].
  apply list_elem_of_fmap. by exists n.
Qed.

Lemma list_filter_all {A} (P : A -> Prop) `{!forall x, Decision (P x)} (l : list A) :
  Forall P l -> filter P l = l.
Proof. induction 1 as [|x l Hx _ IH]; [done|]. rewrite filter_cons_True by done. by f_equal. Qed.

Lemma keys_unlink it k l :
  NoDup l.*1 -> NoDup l.*2 -> (it, k) ∈ l -> keys (unlink it l) = filter (fun x => x <> k) (keys l).
Proof.
  unfold keys, unlink. induction l as [|[i x] l IH]; intros H1 H2 Hin; [by apply elem_of_nil in Hin|].
  rewrite fmap_cons in H1. rewrite fmap_cons in H2. rewrite (fmap_cons _ (i, x)). cbn [fst snd] in *.
  apply NoDup_cons in H1 as [Hi H1]. apply NoDup_cons in H2 as [Hx H2].
  apply elem_of_cons in Hin as [E|Hin]; simplify_eq.
  - rewrite filter_cons_False, filter_cons_False by naive_solver.
    rewrite !list_filter_all; [done|..].
    + apply Forall_forall. intros y Hy ->. done.
    + apply Forall_forall. intros y Hy Ey. apply Hi. apply list_elem_of_fmap. eauto.
  - assert (i <> it) by (intros ->; apply Hi; apply list_elem_of_fmap; by exists (it, k)).
    assert (x <> k) by (intros ->; apply Hx; apply list_elem_of_fmap; by exists (it, k)).
    rewrite !filter_cons_True by done. rewrite fmap_cons. f_equal. by apply IH.
Qed.

Lemma last_pop_back (l : nlist) n : last l = Some n -> l = pop_back l ++ [n].
Proof.
  intros H. apply last_Some in H as [l' ->]. unfold pop_back. rewrite length_app. cbn.
  replace (length l' + 1 - 1)%nat with (length l') by lia. by rewrite take_app_length.
Qed.

Lemma unlink_id it (l : nlist) : (forall k, (it, k) ∉ l) -> unlink it l = l.
Proof.
  intros H. apply list_filter_all, Forall_forall. intros [i k] Hin E. cbn in E; subst. by eapply H.
Qed.

Lemma pop_back_unlink (l : nlist) it k :
  NoDup l.*1 -> last l = Some (it, k) -> pop_back l = unlink it l.
Proof.
  intros Hnd Hl. pose proof (last_pop_back _ _ Hl) as E. rewrite E at 2. rewrite E in Hnd.
  rewrite fmap_app in Hnd. apply NoDup_app in Hnd as (_ & Hd & _).
  unfold unlink. rewrite filter_app, filter_cons_False by (cbn; tauto). rewrite filter_nil, app_nil_r.
  symmetry. apply list_filter_all, Forall_forall. intros n Hn En. apply (Hd n.1).
  - apply list_elem_of_fmap. eauto.
  - rewrite En. cbn. by left.
Qed.

Lemma length_unlink (l : nlist) it k :
  NoDup l.*1 -> (it, k) ∈ l -> length l = S (length (unlink it l)).
Proof.
  intros Hnd Hin. apply list_elem_of_split in Hin as (l1 & l2 & ->).
  rewrite fmap_app, fmap_cons in Hnd. apply NoDup_app in Hnd as (_ & Hd & Hnd).
  apply NoDup_cons in Hnd as [H2 _]. unfold unlink.
  rewrite filter_app, filter_cons_False by (cbn; tauto).
  rewrite !list_filter_all.
  - rewrite !length_app. cbn. lia.
  - apply Forall_forall. intros n Hn E. apply H2. cbn. apply list_elem_of_fmap. eauto.
  - apply Forall_forall. intros n Hn E. apply (Hd n.1); [apply list_elem_of_fmap; eauto|].
    rewrite E. by left.
Qed.
