(* ===== verification/Lru.v ===== *)
(** * LRU eviction

    [src/store/eviction/lru_eviction.{h,cpp}]: a recency list and a map from
    keys to list iterators.  The file shows that the iterators stay valid, that
    the policy meets the eviction contract and that it evicts in recency
    order. *)

From S2P Require Import Prelude Api EvictionPolicy.

Module Lru.

Record LruEviction : Type := mkLru {
  order_ : nlist;                     (* front = most recently used *)
  pos_ : gmap BlockKey iterator;
  reserved_ : option BlockKey;
  fresh : iterator                    (* the address of the next list node *)
}.

Definition empty : LruEviction := mkLru [] ∅ None 0%nat.

Definition set_order (l : nlist) (s : LruEviction) : LruEviction :=
  mkLru l (pos_ s) (reserved_ s) (fresh s).
Definition set_reserved (r : option BlockKey) (s : LruEviction) : LruEviction :=
  mkLru (order_ s) (pos_ s) r (fresh s).

(** [order_.splice(order_.begin(), order_, it)]; undefined behaviour when the
    iterator is dangling. *)
Definition splice_front (it : iterator) : comp LruEviction unit :=
  s ← get;
  match deref it (order_ s) with
  | Some k => modify (set_order ((it, k) :: unlink it (order_ s)))
  | None => terminate
  end.

(** [order_.push_front(key)] with the node already allocated. *)
Definition push_front (k : BlockKey) (s : LruEviction) : LruEviction :=
  mkLru ((fresh s, k) :: order_ s) (pos_ s) (reserved_ s) (S (fresh s)).

(** [order_.pop_front()], undoing the push. *)
Definition pop_front (s : LruEviction) : LruEviction :=
  mkLru (tail (order_ s)) (pos_ s) (reserved_ s) (pred (fresh s)).

(** [pos_.emplace(key, order_.begin())]. *)
Definition emplace (k : BlockKey) (s : LruEviction) : LruEviction :=
  match order_ s with
  | (it, _) :: _ => mkLru (order_ s) (<[k := it]> (pos_ s)) (reserved_ s) (fresh s)
  | [] => s
  end.

Definition OnAccess (k : BlockKey) : comp LruEviction unit :=
  s ← get;
  match pos_ s !! k with
  | None => mret tt
  | Some it =>
      if decide (reserved_ s = Some k) then mret tt
      else splice_front it
  end.

Definition OnInsert (k : BlockKey) (size_bytes : Z) : comp LruEviction Status :=
  s ← get;
  match pos_ s !! k with
  | Some it =>
      if decide (reserved_ s = Some k) then
        mret (InvalidArgument "LRU cannot insert its reserved victim")
      else (splice_front it ;; mret Ok)
  | None =>
      node_fails ← alloc_fails;
      if node_fails : bool then mret (mkStatus kOutOfCapacity "LRU insert allocation failed")
      else (
        modify (push_front k) ;;
        slot_fails ← alloc_fails;
        if slot_fails : bool then
          (modify pop_front ;; mret (mkStatus kOutOfCapacity "LRU insert allocation failed"))
        else (
          s' ← get;
          match pos_ s' !! k with
          | Some _ =>
              modify pop_front ;;
              mret (Internal "LRU insert found an unexpected duplicate")
          | None => modify (emplace k) ;; mret Ok
          end))
  end.

Definition OnPromotionCommitted (k : BlockKey) (size_bytes : Z) : comp LruEviction Status :=
  OnInsert k size_bytes.

(** [order_.erase(it->second); pos_.erase(it)]; erasing through a dangling
    iterator is undefined behaviour. *)
Definition erase (k : BlockKey) (it : iterator) : comp LruEviction unit :=
  s ← get;
  match deref it (order_ s) with
  | Some _ =>
      modify (fun s => mkLru (unlink it (order_ s)) (delete k (pos_ s)) (reserved_ s) (fresh s))
  | None => terminate
  end.

Definition OnRemove (k : BlockKey) : comp LruEviction unit :=
  s ← get;
  match pos_ s !! k with
  | None => mret tt
  | Some it =>
      (if decide (reserved_ s = Some k) then modify (set_reserved None) else mret tt) ;;
      erase k it
  end.

(** The reverse walk past the excluded key. *)
Fixpoint candidate (excluded : option BlockKey) (rev_keys : list BlockKey) : option BlockKey :=
  match rev_keys with
  | [] => None
  | k :: rest => if decide (excluded = Some k) then candidate excluded rest else Some k
  end.

Definition SelectVictim (excluded : option BlockKey) : comp LruEviction (Result BlockKey) :=
  s ← get;
  match reserved_ s with
  | Some _ => mret (Error (mkStatus kAlreadyExists "LRU already has a reserved victim"))
  | None =>
      match order_ s with
      | [] => mret (Error (NotFound "LRU has no resident victim"))
      | _ =>
          match candidate excluded (reverse (keys (order_ s))) with
          | None => mret (Error (NotFound "LRU has no unpinned resident victim"))
          | Some k => modify (set_reserved (Some k)) ;; mret (Value k)
          end
      end
  end.

Definition ValidateVictimCommit (k : BlockKey) (s : LruEviction) : Status :=
  if decide (reserved_ s = Some k) then
    match pos_ s !! k with
    | None => Internal "LRU reserved victim is not resident"
    | Some _ => Ok
    end
  else InvalidArgument "LRU commit does not match the reserved victim".

Definition CommitVictim (k : BlockKey) : comp LruEviction unit :=
  s ← get;
  if ok (ValidateVictimCommit k s) then
    match pos_ s !! k with
    | Some it => erase k it ;; modify (set_reserved None)
    | None => terminate
    end
  else terminate.

Definition CancelVictim (k : BlockKey) : comp LruEviction Status :=
  s ← get;
  if decide (reserved_ s = Some k) then modify (set_reserved None) ;; mret Ok
  else mret (InvalidArgument "LRU cancel does not match the reserved victim").

#[global] Instance LruEviction_policy : EvictionPolicy LruEviction := {|
  ep_OnAccess := OnAccess;
  ep_OnInsert := OnInsert;
  ep_OnPromotionCommitted := OnPromotionCommitted;
  ep_OnRemove := OnRemove;
  ep_SelectVictim := SelectVictim;
  ep_ValidateVictimCommit := ValidateVictimCommit;
  ep_CommitVictim := CommitVictim;
  ep_CancelVictim := CancelVictim
|}.

(** ** The representation invariant

    The position map is exactly the set of list nodes, no node or key occurs
    twice, addresses in use are older than the next one, and the reserved key
    is resident. *)

Record inv (s : LruEviction) : Prop := {
  inv_pos : forall k it, pos_ s !! k = Some it <-> (it, k) ∈ order_ s;
  inv_its : NoDup (order_ s).*1;
  inv_keys : NoDup (keys (order_ s));
  inv_fresh : forall n, n ∈ order_ s -> (n.1 < fresh s)%nat;
  inv_reserved : forall k, reserved_ s = Some k -> is_Some (pos_ s !! k)
}.

Definition resident (s : LruEviction) : gset BlockKey := dom (pos_ s).

(** Moving a key to the front of a recency list. *)
Definition touch (k : BlockKey) (l : list BlockKey) : list BlockKey := k :: filter (fun x => x <> k) l.

Lemma inv_empty : inv empty.
Proof.
  split; cbn.
  - intros k it. rewrite lookup_empty. split; [done|]. by intros ?%elem_of_nil.
  - constructor.
  - constructor.
  - by intros n ?%elem_of_nil.
  - done.
Qed.

Lemma inv_deref s k it : inv s -> pos_ s !! k = Some it -> deref it (order_ s) = Some k.
Proof. intros Hi Hk. apply deref_Some; [apply Hi|by apply Hi]. Qed.

Lemma inv_its_inj s it k k' : inv s -> (it, k) ∈ order_ s -> (it, k') ∈ order_ s -> k = k'.
Proof.
  intros Hi H H'. pose proof (deref_Some _ _ _ (inv_its s Hi) H) as E.
  rewrite (deref_Some _ _ _ (inv_its s Hi) H') in E. congruence.
Qed.

Lemma inv_set_reserved s r :
  inv s -> (forall k, r = Some k -> is_Some (pos_ s !! k)) -> inv (set_reserved r s).
Proof. intros [] Hr. by split. Qed.

(** Moving a node to the front keeps the representation. *)
Lemma inv_splice s k it :
  inv s -> pos_ s !! k = Some it -> inv (set_order ((it, k) :: unlink it (order_ s)) s).
Proof.
  intros Hi Hk. pose proof (proj1 (inv_pos s Hi k it) Hk) as Hin. split; cbn [order_ pos_ reserved_ fresh set_order].
  - intros k' it'. rewrite (inv_pos s Hi), elem_of_cons, elem_of_unlink; cbn. split.
    + intros H. destruct (decide (it' = it)) as [->|]; [|by right].
      left. f_equal. by eapply inv_its_inj.
    + intros [[= -> ->]|[H _]]; done.
  - rewrite fmap_cons. constructor; [|by apply NoDup_unlink, Hi].
    intros (n & E & [_ Hn]%elem_of_unlink)%list_elem_of_fmap. by apply Hn.
  - unfold keys. rewrite fmap_cons. fold (keys (unlink it (order_ s))).
    rewrite (keys_unlink it k) by (done || apply (inv_its s Hi) || apply (inv_keys s Hi)). constructor.
    + rewrite list_elem_of_filter. naive_solver.
    + apply NoDup_filter, Hi.
  - intros n [->|[Hn _]%elem_of_unlink]%elem_of_cons; [|by apply Hi].
    apply (inv_fresh s Hi (it, k) Hin).
  - apply Hi.
Qed.

Lemma inv_erase s k it :
  inv s -> pos_ s !! k = Some it -> reserved_ s <> Some k ->
  inv (mkLru (unlink it (order_ s)) (delete k (pos_ s)) (reserved_ s) (fresh s)).
Proof.
  intros Hi Hk Hr. pose proof (proj1 (inv_pos s Hi k it) Hk) as Hin. split; cbn [order_ pos_ reserved_ fresh set_order].
  - intros k' it'. rewrite lookup_delete_Some, (inv_pos s Hi), elem_of_unlink; cbn. split.
    + intros [Hne H]. split; [done|]. intros ->. apply Hne. by eapply inv_its_inj.
    + intros [H Hne]. split; [|done]. intros <-. apply Hne.
      apply (inv_pos s Hi) in H. congruence.
  - apply NoDup_unlink, Hi.
  - rewrite (keys_unlink it k) by (done || apply (inv_its s Hi) || apply (inv_keys s Hi)). apply NoDup_filter, Hi.
  - intros n [Hn _]%elem_of_unlink. by apply Hi.
  - intros k' Hk'. rewrite lookup_delete_ne by congruence. by apply Hi.
Qed.

Lemma inv_push s k :
  inv s -> pos_ s !! k = None -> inv (emplace k (push_front k s)).
Proof.
  intros Hi Hk.
  assert (forall it, (it, k) ∉ order_ s) as Hnew
    by (intros it Hin; apply (inv_pos s Hi) in Hin; congruence).
  unfold emplace, push_front. split; cbn [order_ pos_ reserved_ fresh set_order].
  - intros k' it'. rewrite lookup_insert_Some, elem_of_cons, (inv_pos s Hi). split.
    + intros [[<- <-]|[_ H]]; [by left|by right].
    + intros [[= -> ->]|H]; [by left|]. right. split; [|done]. intros <-. by eapply Hnew.
  - rewrite fmap_cons. constructor; [|apply Hi]. intros (n & E & Hn)%list_elem_of_fmap.
    pose proof (inv_fresh s Hi n Hn). cbn in E. lia.
  - unfold keys. rewrite fmap_cons. constructor; [|apply Hi].
    intros ([it k'] & E & Hn)%list_elem_of_fmap. cbn in E; subst. by eapply Hnew.
  - intros n [->|Hn]%elem_of_cons; cbn; [lia|]. pose proof (inv_fresh s Hi n Hn). lia.
  - intros k' Hk'. destruct (decide (k = k')) as [->|]; [by rewrite lookup_insert_eq|].
    rewrite lookup_insert_ne by done. by apply Hi.
Qed.

Lemma elem_of_keys s k : inv s -> k ∈ keys (order_ s) <-> is_Some (pos_ s !! k).
Proof.
  intros Hi. unfold keys. rewrite list_elem_of_fmap. split.
  - intros ([it k'] & -> & Hn). exists it. by apply (inv_pos s Hi).
  - intros [it Hk]. exists (it, k). split; [done|]. by apply (inv_pos s Hi).
Qed.

Lemma touch_new k l : k ∉ l -> touch k l = k :: l.
Proof.
  intros Hk. unfold touch. f_equal. apply list_filter_all, Forall_forall. intros x Hx ->. done.
Qed.

(** *** Specifications of the operations *)

Lemma wp_splice_front s k it (Q : unit -> LruEviction -> Prop) :
  inv s -> pos_ s !! k = Some it ->
  (forall s', inv s' -> pos_ s' = pos_ s -> reserved_ s' = reserved_ s ->
     keys (order_ s') = touch k (keys (order_ s)) -> Q tt s') ->
  wp (splice_front it) Q s.
Proof.
  intros Hi Hk HQ. unfold splice_front. wp_steps. rewrite (inv_deref s k it Hi Hk). wp_steps.
  apply HQ; [by apply inv_splice|done|done|]. cbn [order_ set_order]. unfold keys at 1.
  rewrite fmap_cons. cbn [snd]. fold (keys (unlink it (order_ s))).
  rewrite (keys_unlink it k) by (apply (inv_its s Hi) || apply (inv_keys s Hi) || by apply (inv_pos s Hi)).
  done.
Qed.

Lemma wp_lru_OnAccess s k :
  inv s ->
  wp (OnAccess k) (fun _ s' =>
    inv s' /\ pos_ s' = pos_ s /\ reserved_ s' = reserved_ s
    /\ keys (order_ s') =
       if decide (k ∈ keys (order_ s) /\ reserved_ s <> Some k)
       then touch k (keys (order_ s)) else keys (order_ s)) s.
Proof.
  intros Hi. unfold OnAccess. wp_steps. pose proof (elem_of_keys s k Hi) as Hek.
  destruct (pos_ s !! k) as [it|] eqn:E.
  - case_decide as Hr.
    + wp_steps. rewrite decide_False by tauto. done.
    + eapply wp_splice_front; [done..|]. intros s' Hi' Hp Hr' Hk'.
      rewrite decide_True by (split; [rewrite Hek; eauto|done]). done.
  - wp_steps. rewrite decide_False; [done|]. rewrite Hek. by intros [[? ?] _].
Qed.

Lemma wp_lru_OnInsert s k size :
  inv s ->
  wp (OnInsert k size) (fun r s' =>
    inv s' /\ reserved_ s' = reserved_ s
    /\ if ok r
       then dom (pos_ s') = {[k]} ∪ dom (pos_ s) /\ keys (order_ s') = touch k (keys (order_ s))
       else s' = s) s.
Proof.
  intros Hi. unfold OnInsert. wp_steps.
  destruct (pos_ s !! k) as [it|] eqn:E.
  - case_decide as Hr; [by wp_steps|]. wp_steps.
    eapply wp_splice_front; [done..|]. intros s' Hi' Hp Hr' Hk'. wp_steps.
    rewrite ok_Ok. split_and!; try done. rewrite Hp. apply set_eq. intros x. rewrite elem_of_union, elem_of_singleton, elem_of_dom.
    split; [tauto|]. intros [->|]; eauto.
  - wp_steps; [|by destruct s|done].
    cbn [pos_ push_front]. rewrite E. wp_steps. rewrite ok_Ok. split_and!; [by apply inv_push|done|..].
    + cbn. by rewrite dom_insert_L.
    + change (keys (order_ (emplace k (push_front k s)))) with (k :: keys (order_ s)).
      rewrite touch_new; [done|]. rewrite elem_of_keys by done. rewrite E. by intros [].
Qed.

Lemma wp_erase s k it (Q : unit -> LruEviction -> Prop) :
  inv s -> pos_ s !! k = Some it ->
  Q tt (mkLru (unlink it (order_ s)) (delete k (pos_ s)) (reserved_ s) (fresh s)) ->
  wp (erase k it) Q s.
Proof. intros Hi Hk HQ. unfold erase. wp_steps. rewrite (inv_deref s k it Hi Hk). by wp_steps. Qed.

Lemma wp_lru_OnRemove s k :
  inv s ->
  wp (OnRemove k) (fun _ s' =>
    inv s' /\ dom (pos_ s') = dom (pos_ s) ∖ {[k]}
    /\ reserved_ s' = (if decide (reserved_ s = Some k) then None else reserved_ s)
    /\ keys (order_ s') = filter (fun x => x <> k) (keys (order_ s))) s.
Proof.
  intros Hi. unfold OnRemove. wp_steps. destruct (pos_ s !! k) as [it|] eqn:E.
  - wp_steps.
    set (s1 := if decide (reserved_ s = Some k) then set_reserved None s else s).
    assert (inv s1 /\ order_ s1 = order_ s /\ pos_ s1 = pos_ s /\ fresh s1 = fresh s
            /\ reserved_ s1 = if decide (reserved_ s = Some k) then None else reserved_ s)
      as (Hi1 & Ho1 & Hp1 & Hf1 & Hr1).
    { unfold s1. case_decide; split_and!; try done. by apply inv_set_reserved. }
    enough (wp (erase k it) (fun (_ : unit) s' =>
      inv s' /\ dom (pos_ s') = dom (pos_ s) ∖ {[k]}
      /\ reserved_ s' = (if decide (reserved_ s = Some k) then None else reserved_ s)
      /\ keys (order_ s') = filter (fun x => x <> k) (keys (order_ s))) s1) as Hw.
    { unfold s1 in Hw. case_decide; by wp_steps. }
    apply wp_erase; [done|by rewrite Hp1|]. split_and!; cbn [pos_ reserved_ order_].
    + apply inv_erase; [done|by rewrite Hp1|]. rewrite Hr1. by case_decide.
    + by rewrite dom_delete_L, Hp1.
    + done.
    + rewrite Ho1. apply keys_unlink; [apply Hi|apply Hi|by apply (inv_pos s Hi)].
  - wp_steps. split_and!; [done|..].
    + rewrite difference_disjoint_L; [done|]. apply not_elem_of_dom in E. set_solver.
    + case_decide as Hr; [|done]. apply (inv_reserved s Hi) in Hr. rewrite E in Hr. by destruct Hr.
    + symmetry. apply list_filter_all, Forall_forall. intros x Hx ->. apply (elem_of_keys s k Hi) in Hx.
      rewrite E in Hx. by destruct Hx.
Qed.

Lemma candidate_spec excluded l :
  candidate excluded (reverse l) = last (filter (fun x => Some x <> excluded) l).
Proof.
  rewrite <- (reverse_involutive l) at 2. generalize (reverse l) as r. clear l.
  induction r as [|x r IH]; [done|]. cbn [candidate]. rewrite reverse_cons, filter_app.
  case_decide as Hx.
  - rewrite filter_cons_False by naive_solver. rewrite filter_nil, app_nil_r. apply IH.
  - rewrite filter_cons_True by naive_solver. rewrite filter_nil. by rewrite last_snoc.
Qed.

Lemma wp_lru_SelectVictim s excluded :
  inv s ->
  wp (SelectVictim excluded) (fun r s' =>
    inv s' /\ pos_ s' = pos_ s /\ order_ s' = order_ s
    /\ match r with
       | Value k => reserved_ s = None /\ reserved_ s' = Some k
                    /\ last (filter (fun x => Some x <> excluded) (keys (order_ s))) = Some k
       | Error st => s' = s /\ ok st = false
                     /\ (reserved_ s = None ->
                         code st = kNotFound
                         /\ last (filter (fun x => Some x <> excluded) (keys (order_ s))) = None)
       end) s.
Proof.
  intros Hi. unfold SelectVictim. wp_steps. destruct (reserved_ s) eqn:Er; [by wp_steps|].
  destruct (order_ s) eqn:Eo; [wp_steps; rewrite ?Eo; done|].
  rewrite candidate_spec, <- Eo.
  destruct (last _) as [k|] eqn:El; wp_steps; rewrite ?El; [|done].
  split_and!; try done. apply inv_set_reserved; [done|]. intros k' [= <-].
  apply elem_of_keys; [done|]. apply last_Some_elem_of, list_elem_of_filter in El. tauto.
Qed.

Lemma lru_ValidateVictimCommit_spec s k :
  inv s -> ok (ValidateVictimCommit k s) = true <-> reserved_ s = Some k.
Proof.
  intros Hi. unfold ValidateVictimCommit. case_decide as Hr; [|by split].
  destruct (inv_reserved s Hi k Hr) as [it ->]. done.
Qed.

Lemma wp_lru_CommitVictim s k :
  inv s -> reserved_ s = Some k ->
  wp (CommitVictim k) (fun _ s' =>
    inv s' /\ dom (pos_ s') = dom (pos_ s) ∖ {[k]} /\ reserved_ s' = None
    /\ keys (order_ s') = filter (fun x => x <> k) (keys (order_ s))) s.
Proof.
  intros Hi Hr. unfold CommitVictim. wp_steps.
  rewrite (proj2 (lru_ValidateVictimCommit_spec s k Hi) Hr).
  destruct (inv_reserved s Hi k Hr) as [it E]. rewrite E. wp_steps.
  apply wp_erase; [done..|]. wp_steps. split_and!; cbn [pos_ reserved_ order_ set_reserved].
  - apply (inv_erase (set_reserved None s) k it); [by apply inv_set_reserved|done|done].
  - by rewrite dom_delete_L.
  - done.
  - apply keys_unlink; [apply Hi|apply Hi|by apply (inv_pos s Hi)].
Qed.

Lemma wp_lru_CancelVictim s k :
  inv s -> reserved_ s = Some k ->
  wp (CancelVictim k) (fun r s' => r = Ok /\ s' = set_reserved None s /\ inv s') s.
Proof.
  intros Hi Hr. unfold CancelVictim. wp_steps. rewrite decide_True by done. wp_steps.
  split_and!; try done. by apply inv_set_reserved.
Qed.

(** LRU meets the eviction contract. *)
#[global] Instance LruEviction_laws : EvictionPolicyLaws LruEviction.
Proof.
  refine {| ep_inv := inv; ep_resident := resident; ep_reserved := reserved_ |};
    cbn [ep_OnAccess ep_OnInsert ep_OnPromotionCommitted ep_OnRemove ep_SelectVictim
         ep_ValidateVictimCommit ep_CommitVictim ep_CancelVictim LruEviction_policy];
    unfold resident.
  - intros p k Hi Hr. apply elem_of_dom. by apply (inv_reserved p Hi).
  - intros p k Hi Hk. eapply wp_mono; [by apply wp_lru_OnAccess|]. intros [] p' (? & -> & ? & _). done.
  - intros p k size Hi. eapply wp_mono; [by apply wp_lru_OnInsert|]. intros r p' (? & ? & H).
    destruct (ok r); [naive_solver|by subst].
  - intros p k size Hi. eapply wp_mono; [by apply wp_lru_OnInsert|]. intros r p' (? & ? & H).
    destruct (ok r); [naive_solver|by subst].
  - intros p k Hi. eapply wp_mono; [by apply wp_lru_OnRemove|]. intros [] p' (? & ? & H & _).
    split_and!; try done; intros; case_decide; done.
  - intros p ex Hi. eapply wp_mono; [by apply wp_lru_SelectVictim|]. intros r p' (? & -> & Ho & H).
    split_and!; try done. destruct r as [k|st].
    + destruct H as (? & ? & El). apply last_Some_elem_of, list_elem_of_filter in El as [? El].
      split_and!; try done. apply elem_of_dom. by apply elem_of_keys.
    + destruct H as (-> & ? & H). split_and!; try done. intros Hr. destruct (H Hr) as [? El].
      split; [done|]. intros k Hk. apply last_None in El. destruct (decide (Some k = ex)); [done|].
      exfalso. eapply (not_elem_of_nil k). rewrite <- El. apply list_elem_of_filter. split; [done|].
      apply elem_of_keys; [done|]. by apply elem_of_dom.
  - intros p k Hi. by apply lru_ValidateVictimCommit_spec.
  - intros p k Hi Hr. eapply wp_mono; [by apply wp_lru_CommitVictim|]. naive_solver.
  - intros p k Hi Hr. eapply wp_mono; [by apply wp_lru_CancelVictim|].
    intros r p' (-> & -> & ?). done.
Defined.

(** ** Refinement of a recency list

    The abstract state is the list of resident keys, most recently used first,
    with the reserved victim. *)

Abbreviation recency := (list BlockKey * option BlockKey)%type.

Definition abs (s : LruEviction) : recency := (keys (order_ s), reserved_ s).

Definition spec_access (k : BlockKey) (a : recency) : recency :=
  if decide (k ∈ a.1 /\ a.2 <> Some k) then (touch k a.1, a.2) else a.
Definition spec_insert (k : BlockKey) (a : recency) : recency := (touch k a.1, a.2).
Definition spec_remove (k : BlockKey) (a : recency) : recency :=
  (filter (fun x => x <> k) a.1, if decide (a.2 = Some k) then None else a.2).
(** The least recently used key other than the excluded one. *)
Definition spec_victim (excluded : option BlockKey) (a : recency) : option BlockKey :=
  last (filter (fun x => Some x <> excluded) a.1).

(** C19 (refinement): LRU keeps exact recency order.  From any state its
    operations can reach, under any allocation failures and without touching a
    dangling iterator, an access or insertion moves the key to the front, a
    removal or committed eviction deletes it, a failed insertion changes
    nothing at all, and [SelectVictim] reserves the least recently used key
    that is not excluded. *)
Theorem lru_refines_recency (s : LruEviction) (k : BlockKey) (size : Z) (excluded : option BlockKey)
    (Hs : inv s) :
  wp (OnAccess k) (fun _ s' => inv s' /\ abs s' = spec_access k (abs s)) s
  /\ wp (OnInsert k size) (fun r s' =>
       inv s' /\ if ok r then abs s' = spec_insert k (abs s) else s' = s) s
  /\ wp (OnRemove k) (fun _ s' => inv s' /\ abs s' = spec_remove k (abs s)) s
  /\ wp (SelectVictim excluded) (fun r s' =>
       inv s' /\ match r with
                 | Value v => spec_victim excluded (abs s) = Some v
                              /\ abs s' = ((abs s).1, Some v) /\ reserved_ s = None
                 | Error _ => s' = s /\ (reserved_ s = None -> spec_victim excluded (abs s) = None)
                 end) s
  /\ (reserved_ s = Some k ->
      wp (CommitVictim k) (fun _ s' => inv s' /\ abs s' = spec_remove k (abs s)) s).
Proof.
  unfold abs, spec_access, spec_insert, spec_remove, spec_victim. cbn [fst snd]. split_and!.
  - eapply wp_mono; [by apply wp_lru_OnAccess|]. intros [] s' (? & _ & -> & ->). split; [done|].
    by case_decide.
  - eapply wp_mono; [by apply wp_lru_OnInsert|]. intros r s' (? & -> & H). split; [done|].
    destruct (ok r); [|done]. by destruct H as [_ ->].
  - eapply wp_mono; [by apply wp_lru_OnRemove|]. intros [] s' (? & _ & -> & ->). done.
  - eapply wp_mono; [by apply wp_lru_SelectVictim|]. intros r s' (? & _ & Ho & H). split; [done|].
    destruct r; [destruct H as (? & -> & ?)|]; rewrite ?Ho; naive_solver.
  - intros Hr. eapply wp_mono; [by apply wp_lru_CommitVictim|]. intros [] s' (? & _ & -> & ->).
    by rewrite decide_True.
Qed.

Definition key_ (n : Z) : BlockKey := mkBlockKey n 1 0.

Definition example_trace : comp LruEviction (Result BlockKey) :=
  OnInsert (key_ 1) 10 ;; OnInsert (key_ 2) 10 ;; OnInsert (key_ 3) 10 ;;
  OnAccess (key_ 1) ;; SelectVictim None.

Example lru_trace_victim :
  match example_trace empty [] with
  | Done (r, _, _) => r = Value (key_ 2)
  | Terminated => False
  end.
Proof. vm_compute. reflexivity. Qed.

Lemma lru_refines_recency_witness :
  inv empty
  /\ wp (OnInsert (key_ 1) 10) (fun r s' =>
       inv s' /\ if ok r then abs s' = spec_insert (key_ 1) (abs empty) else s' = empty) empty.
Proof.
  split; [exact inv_empty|].
  exact (proj1 (proj2 (lru_refines_recency empty (key_ 1) 10 None inv_empty))).
Defined.
End Lru.
