(* ===== verification/CostAware.v ===== *)
(** * Cost-aware eviction (stub)

    [src/store/eviction/cost_aware_eviction.{h,cpp}]: the policy records access
    statistics but refuses every insertion and never selects a victim.  It
    still meets the eviction contract, with no key ever resident, so a storage
    node configured with it is covered by the same theorems. *)

From Stdlib Require Import SpecFloat.
From S2P Require Import Prelude Api EvictionPolicy.

Module CostAware.

Record CostStats : Type := mkCostStats {
  cs_size_bytes : Z;
  recompute_cost : spec_float;   (* double *)
  last_access_seq : Z
}.

Definition CostStats_default : CostStats := mkCostStats 0 (S754_zero false) 0.

Record CostAwareEviction : Type := mkCostAware {
  stats_ : gmap BlockKey CostStats;
  seq_ : Z
}.

Definition OnAccess (k : BlockKey) : comp CostAwareEviction unit :=
  s ← get;
  match stats_ s !! k with
  | Some cs =>
      let seq := wrap 64 (seq_ s + 1) in
      modify (fun s => mkCostAware (<[k := mkCostStats (cs_size_bytes cs) (recompute_cost cs) seq]> (stats_ s)) seq)
  | None => mret tt
  end.

Definition OnInsert (k : BlockKey) (size_bytes : Z) : comp CostAwareEviction Status :=
  mret (NotImplemented "cost-aware policy is not implemented").

Definition OnPromotionCommitted (k : BlockKey) (size_bytes : Z) : comp CostAwareEviction Status :=
  mret (NotImplemented "cost-aware policy is not implemented").

Definition OnRemove (k : BlockKey) : comp CostAwareEviction unit :=
  modify (fun s => mkCostAware (delete k (stats_ s)) (seq_ s)).

Definition SetRecomputeCost (k : BlockKey) (cost : spec_float) : comp CostAwareEviction unit :=
  modify (fun s =>
    let cs := default CostStats_default (stats_ s !! k) in
    mkCostAware (<[k := mkCostStats (cs_size_bytes cs) cost (last_access_seq cs)]> (stats_ s)) (seq_ s)).

Definition SelectVictim (excluded : option BlockKey) : comp CostAwareEviction (Result BlockKey) :=
  mret (Error (NotFound "cost-aware victim selection is not implemented")).

Definition ValidateVictimCommit (k : BlockKey) (s : CostAwareEviction) : Status :=
  InvalidArgument "cost-aware policy has no reserved victim".

Definition CommitVictim (k : BlockKey) : comp CostAwareEviction unit := terminate.

Definition CancelVictim (k : BlockKey) : comp CostAwareEviction Status :=
  mret (InvalidArgument "cost-aware policy has no reserved victim").

#[global] Instance CostAware_policy : EvictionPolicy CostAwareEviction := {|
  ep_OnAccess := OnAccess;
  ep_OnInsert := OnInsert;
  ep_OnPromotionCommitted := OnPromotionCommitted;
  ep_OnRemove := OnRemove;
  ep_SelectVictim := SelectVictim;
  ep_ValidateVictimCommit := ValidateVictimCommit;
  ep_CommitVictim := CommitVictim;
  ep_CancelVictim := CancelVictim
|}.

#[global] Instance CostAware_laws : EvictionPolicyLaws CostAwareEviction.
Proof.
  refine {| ep_inv := fun _ => True; ep_resident := fun _ => ∅; ep_reserved := fun _ => None |};
    cbn [ep_OnAccess ep_OnInsert ep_OnPromotionCommitted ep_OnRemove ep_SelectVictim
         ep_ValidateVictimCommit ep_CommitVictim ep_CancelVictim CostAware_policy]; try done.
  intros p k _. unfold OnRemove. wp_steps. set_solver.
Defined.

End CostAware.
