(* ===== verification/Arc.v ===== *)
(** * ARC eviction

    [src/store/eviction/arc_eviction.{h,cpp}]: the adaptive replacement cache
    over four recency lists (T1, T2 resident; B1, B2 ghosts), a position map of
    list iterators, a two-phase victim reservation and the adaptive target
    [p_].  [p_] is an IEEE binary64 number, computed with the standard
    library's executable floating-point specification. *)

From Stdlib Require Import SpecFloat.
From S2P Require Import Prelude Api EvictionPolicy.

Module Arc.

(** ** double *)

Module f64.
Definition of_size (n : Z) : spec_float := binary_normalize 53 1024 n 0 false.
Definition add : spec_float -> spec_float -> spec_float := SFadd 53 1024.
Definition sub : spec_float -> spec_float -> spec_float := SFsub 53 1024.
Definition div : spec_float -> spec_float -> spec_float := SFdiv 53 1024.
Definition ltb (a b : spec_float) : bool := SFltb a b.
Definition leb (a b : spec_float) : bool := SFleb a b.
(** [std::max(a, b)] is [(a < b) ? b : a], [std::min(a, b)] is [(b < a) ? b : a]. *)
Definition max (a b : spec_float) : spec_float := if ltb a b then b else a.
Definition min (a b : spec_float) : spec_float := if ltb b a then b else a.
Definition zero : spec_float := S754_zero false.
Definition one : spec_float := of_size 1.
End f64.

(** ** State *)

Inductive ListId : Type := kNone | kT1 | kT2 | kB1 | kB2.

#[export] Instance ListId_eq_dec : EqDecision ListId.
Proof. solve_decision. Defined.

Record ArcEviction : Type := mkArc {
  c_ : Z;
  p_ : spec_float;
  last_hit_in_b2_ : bool;
  t1_ : nlist;
  t2_ : nlist;
  b1_ : nlist;
  b2_ : nlist;
  pos_ : gmap BlockKey (ListId * iterator);
  reserved_ : option (BlockKey * ListId);
  fresh : iterator                   (* the address of the next list node *)
}.

(** [ArcEviction::ArcEviction(capacity_blocks)] *)
Definition make (capacity_blocks : Z) : ArcEviction :=
  mkArc (if capacity_blocks =? 0 then 1 else capacity_blocks) f64.zero false [] [] [] [] ∅ None 0%nat.

Definition ListRef (l : ListId) (s : ArcEviction) : nlist :=
  match l with
  | kT1 => t1_ s
  | kT2 => t2_ s
  | kB1 => b1_ s
  | kB2 => b2_ s
  | kNone => t1_ s
  end.

Definition set_list (l : ListId) (n : nlist) (s : ArcEviction) : ArcEviction :=
  let '(mkArc c p h t1 t2 b1 b2 pos r f) := s in
  match l with
  | kT1 | kNone => mkArc c p h n t2 b1 b2 pos r f
  | kT2 => mkArc c p h t1 n b1 b2 pos r f
  | kB1 => mkArc c p h t1 t2 n b2 pos r f
  | kB2 => mkArc c p h t1 t2 b1 n pos r f
  end.

Definition set_pos (m : gmap BlockKey (ListId * iterator)) (s : ArcEviction) : ArcEviction :=
  let '(mkArc c p h t1 t2 b1 b2 _ r f) := s in mkArc c p h t1 t2 b1 b2 m r f.
Definition set_p (p : spec_float) (s : ArcEviction) : ArcEviction :=
  let '(mkArc c _ h t1 t2 b1 b2 pos r f) := s in mkArc c p h t1 t2 b1 b2 pos r f.
Definition set_last_hit (h : bool) (s : ArcEviction) : ArcEviction :=
  let '(mkArc c p _ t1 t2 b1 b2 pos r f) := s in mkArc c p h t1 t2 b1 b2 pos r f.
Definition set_reserved (r : option (BlockKey * ListId)) (s : ArcEviction) : ArcEviction :=
  let '(mkArc c p h t1 t2 b1 b2 pos _ f) := s in mkArc c p h t1 t2 b1 b2 pos r f.
Definition set_fresh (f : iterator) (s : ArcEviction) : ArcEviction :=
  let '(mkArc c p h t1 t2 b1 b2 pos r _) := s in mkArc c p h t1 t2 b1 b2 pos r f.

Definition reserved_key (s : ArcEviction) : option BlockKey := fst <$> reserved_ s.

(** ** Helpers *)

(** [Relink(key, dst, front)]: splice the key's node to [dst].  Splicing
    through a dangling iterator is undefined behaviour. *)
Definition Relink (k : BlockKey) (dst : ListId) (front : bool) : comp ArcEviction unit :=
  s ← get;
  match pos_ s !! k with
  | None => terminate
  | Some (src, it) =>
      match deref it (ListRef src s) with
      | None => terminate
      | Some k' =>
          modify (fun s => set_list src (unlink it (ListRef src s)) s) ;;
          modify (fun s =>
            let d := ListRef dst s in
            set_list dst (if front then (it, k') :: d else d ++ [(it, k')]) s) ;;
          modify (fun s => set_pos (<[k := (dst, it)]> (pos_ s)) s)
      end
  end.

Definition push_front (dst : ListId) (k : BlockKey) (s : ArcEviction) : ArcEviction :=
  set_fresh (S (fresh s)) (set_list dst ((fresh s, k) :: ListRef dst s) s).
Definition pop_front (dst : ListId) (s : ArcEviction) : ArcEviction :=
  set_fresh (pred (fresh s)) (set_list dst (tail (ListRef dst s)) s).
Definition emplace (k : BlockKey) (dst : ListId) (s : ArcEviction) : ArcEviction :=
  match ListRef dst s with
  | (it, _) :: _ => set_pos (<[k := (dst, it)]> (pos_ s)) s
  | [] => s
  end.

Definition PushFront (k : BlockKey) (dst : ListId) : comp ArcEviction Status :=
  node_fails ← alloc_fails;
  if node_fails : bool then mret (mkStatus kOutOfCapacity "ARC insert allocation failed")
  else (
    modify (push_front dst k) ;;
    slot_fails ← alloc_fails;
    if slot_fails : bool then
      (modify (pop_front dst) ;; mret (mkStatus kOutOfCapacity "ARC insert allocation failed"))
    else (
      s ← get;
      match pos_ s !! k with
      | Some _ => modify (pop_front dst) ;; mret (Internal "ARC insert found an unexpected duplicate")
      | None => modify (emplace k dst) ;; mret Ok
      end)).

(** [EraseLru(l)]: drop the least recently used key of a list. *)
Definition EraseLru (l : ListId) (s : ArcEviction) : ArcEviction :=
  match last (ListRef l s) with
  | None => s
  | Some (_, k) => set_list l (pop_back (ListRef l s)) (set_pos (delete k (pos_ s)) s)
  end.

Definition size (l : nlist) : Z := zlen l.

Definition AdaptUp (s : ArcEviction) : ArcEviction :=
  let ratio :=
    match b1_ s with
    | [] => f64.one
    | _ => f64.max (f64.div (f64.of_size (size (b2_ s))) (f64.of_size (size (b1_ s)))) f64.one
    end in
  set_p (f64.min (f64.of_size (c_ s)) (f64.add (p_ s) ratio)) s.

Definition AdaptDown (s : ArcEviction) : ArcEviction :=
  let ratio :=
    match b2_ s with
    | [] => f64.one
    | _ => f64.max (f64.div (f64.of_size (size (b1_ s))) (f64.of_size (size (b2_ s)))) f64.one
    end in
  set_p (f64.max f64.zero (f64.sub (p_ s) ratio)) s.

Definition GhostToTrimForInsert (s : ArcEviction) : ListId :=
  let l1 := size (t1_ s) + size (b1_ s) in
  if l1 =? c_ s then
    if size (t1_ s) <? c_ s then kB1 else kNone
  else if l1 <? c_ s then
    let total := size (t1_ s) + size (t2_ s) + size (b1_ s) + size (b2_ s) in
    if wrap 64 (2 * c_ s) <=? total then kB2 else kNone
  else kNone.

(** ** The policy operations *)

Definition OnAccess (k : BlockKey) : comp ArcEviction unit :=
  s ← get;
  match pos_ s !! k with
  | None => modify (set_last_hit false)
  | Some (list, _) =>
      if decide (reserved_key s = Some k) then mret tt
      else match list with
      | kT1 | kT2 => Relink k kT2 true
      | kB1 =>
          modify AdaptUp ;;
          modify (set_last_hit false) ;;
          Relink k kT2 true
      | kB2 =>
          modify AdaptDown ;;
          modify (set_last_hit true) ;;
          Relink k kT2 true
      | kNone => mret tt
      end
  end.

(** Case IV: a brand-new key enters T1; ghosts are trimmed afterwards. *)
Definition ColdInsert (k : BlockKey) : comp ArcEviction Status :=
  s ← get;
  let trim := GhostToTrimForInsert s in
  st ← PushFront k kT1;
  if ok st then
    (if decide (trim = kNone) then mret tt else modify (EraseLru trim)) ;;
    modify (set_last_hit false) ;;
    mret Ok
  else mret st.

Definition OnInsert (k : BlockKey) (size_bytes : Z) : comp ArcEviction Status :=
  s ← get;
  match pos_ s !! k with
  | Some (list, _) =>
      if decide (reserved_key s = Some k) then
        mret (InvalidArgument "ARC cannot insert its reserved victim")
      else match list with
      | kT1 | kT2 => Relink k kT2 true ;; mret Ok
      | kB1 =>
          modify AdaptUp ;;
          modify (set_last_hit false) ;;
          Relink k kT2 true ;;
          mret Ok
      | kB2 =>
          modify AdaptDown ;;
          modify (set_last_hit true) ;;
          Relink k kT2 true ;;
          mret Ok
      | kNone => ColdInsert k
      end
  | None => ColdInsert k
  end.

Definition OnPromotionCommitted (k : BlockKey) (size_bytes : Z) : comp ArcEviction Status :=
  OnInsert k size_bytes.

(** Erasing through a dangling iterator is undefined behaviour. *)
Definition OnRemove (k : BlockKey) : comp ArcEviction unit :=
  s ← get;
  match pos_ s !! k with
  | None => mret tt
  | Some (list, it) =>
      (if decide (reserved_key s = Some k) then modify (set_reserved None) else mret tt) ;;
      match deref it (ListRef list s) with
      | None => terminate
      | Some _ =>
          modify (fun s => set_list list (unlink it (ListRef list s)) s) ;;
          modify (fun s => set_pos (delete k (pos_ s)) s)
      end
  end.

Definition use_t1 (s : ArcEviction) : bool :=
  match t1_ s, t2_ s with
  | [], _ => false
  | _, [] => true
  | _, _ =>
      if last_hit_in_b2_ s then f64.leb (p_ s) (f64.of_size (size (t1_ s)))
      else f64.ltb (p_ s) (f64.of_size (size (t1_ s)))
  end.

(** The lambda [choose]: the least recently used key that is not excluded. *)
Fixpoint choose_rev (excluded : option BlockKey) (rev_keys : list BlockKey) (source : ListId)
  : option (BlockKey * ListId) :=
  match rev_keys with
  | [] => None
  | k :: rest => if decide (excluded <> Some k) then Some (k, source) else choose_rev excluded rest source
  end.
Definition choose (excluded : option BlockKey) (l : nlist) (source : ListId) : option (BlockKey * ListId) :=
  choose_rev excluded (reverse (keys l)) source.

(** The resident block REPLACE gives up: from the list [use_t1] prefers, else
    from the other one. *)
Definition reservation (excluded : option BlockKey) (s : ArcEviction) : option (BlockKey * ListId) :=
  match (if use_t1 s then choose excluded (t1_ s) kT1 else choose excluded (t2_ s) kT2) with
  | Some r => Some r
  | None => if use_t1 s then choose excluded (t2_ s) kT2 else choose excluded (t1_ s) kT1
  end.

Definition SelectVictim (excluded : option BlockKey) : comp ArcEviction (Result BlockKey) :=
  s ← get;
  match reserved_ s with
  | Some _ => mret (Error (mkStatus kAlreadyExists "ARC already has a reserved victim"))
  | None =>
      if decide (t1_ s = [] /\ t2_ s = []) then mret (Error (NotFound "ARC has no resident victim"))
      else match reservation excluded s with
      | None => mret (Error (NotFound "ARC has no unpinned resident victim"))
      | Some r => modify (set_reserved (Some r)) ;; mret (Value r.1)
      end
  end.

Definition ValidateVictimCommit (k : BlockKey) (s : ArcEviction) : Status :=
  match reserved_ s with
  | Some (rk, source) =>
      if decide (rk = k) then
        match pos_ s !! k with
        | Some (list, _) =>
            if decide (list = source) then Ok
            else Internal "ARC reserved victim is not in its resident source list"
        | None => Internal "ARC reserved victim is not in its resident source list"
        end
      else InvalidArgument "ARC commit does not match the reserved victim"
  | None => InvalidArgument "ARC commit does not match the reserved victim"
  end.

Definition CommitVictim (k : BlockKey) : comp ArcEviction unit :=
  s ← get;
  if ok (ValidateVictimCommit k s) then
    let destination :=
      match reserved_ s with
      | Some (_, kT1) => kB1
      | _ => kB2
      end in
    Relink k destination true ;;
    modify (set_reserved None) ;;
    modify (set_last_hit false)
  else terminate.

Definition CancelVictim (k : BlockKey) : comp ArcEviction Status :=
  s ← get;
  if decide (reserved_key s = Some k) then modify (set_reserved None) ;; mret Ok
  else mret (InvalidArgument "ARC cancel does not match the reserved victim").

#[global] Instance ArcEviction_policy : EvictionPolicy ArcEviction := {|
  ep_OnAccess := OnAccess;
  ep_OnInsert := OnInsert;
  ep_OnPromotionCommitted := OnPromotionCommitted;
  ep_OnRemove := OnRemove;
  ep_SelectVictim := SelectVictim;
  ep_ValidateVictimCommit := ValidateVictimCommit;
  ep_CommitVictim := CommitVictim;
  ep_CancelVictim := CancelVictim
|}.

(** ** The representation invariant *)

(** The nodes of a list; [kNone] names no list. *)
Definition lst (s : ArcEviction) (L : ListId) : nlist :=
  match L with
  | kNone => []
  | _ => ListRef L s
  end.

(** The position map is exactly the set of nodes of the four lists, and no
    node occurs twice. *)
Record winv (s : ArcEviction) : Prop := {
  winv_pos : forall k L it, pos_ s !! k = Some (L, it) <-> (it, k) ∈ lst s L;
  winv_its : forall L, NoDup (lst s L).*1;
  winv_inj : forall L L' it k k', (it, k) ∈ lst s L -> (it, k') ∈ lst s L' -> k = k';
  winv_fresh : forall L n, n ∈ lst s L -> (n.1 < fresh s)%nat
}.

(** The reserved victim still sits in the resident list it was chosen from. *)
Definition res_ok (s : ArcEviction) : Prop :=
  forall k L, reserved_ s = Some (k, L) ->
    (L = kT1 \/ L = kT2) /\ exists it, pos_ s !! k = Some (L, it).

Definition inv (s : ArcEviction) : Prop := winv s /\ res_ok s.

Definition resident (s : ArcEviction) : gset BlockKey :=
  list_to_set (keys (t1_ s)) ∪ list_to_set (keys (t2_ s)).

Lemma lst_not_None s L it k : (it, k) ∈ lst s L -> L <> kNone.
Proof. by intros H ->; apply elem_of_nil in H. Qed.

Lemma winv_ext s s' :
  (forall L, lst s' L = lst s L) -> pos_ s' = pos_ s -> fresh s' = fresh s -> winv s -> winv s'.
Proof.
  intros Hl Hp Hf Hi. split.
  - intros. rewrite Hp, Hl. apply Hi.
  - intros. rewrite Hl. apply Hi.
  - intros *. rewrite !Hl. apply Hi.
  - intros *. rewrite Hl, Hf. apply Hi.
Qed.

Lemma winv_nodup_keys s L : winv s -> NoDup (keys (lst s L)).
Proof.
  intros Hi. unfold keys. apply NoDup_fmap_2_strong.
  - intros [i1 k1] [i2 k2] H1 H2 E. cbn in E; subst.
    apply (winv_pos s Hi) in H1, H2. congruence.
  - eapply NoDup_fmap_1, (winv_its s Hi).
Qed.

Lemma winv_other_list s k src it L : 
  winv s -> pos_ s !! k = Some (src, it) -> L <> src -> unlink it (lst s L) = lst s L.
Proof.
  intros Hi Hk HL. apply unlink_id. intros k' Hin.
  pose proof (proj1 (winv_pos s Hi k src it) Hk) as Hin0.
  pose proof (winv_inj s Hi _ _ _ _ _ Hin0 Hin) as <-.
  apply (winv_pos s Hi) in Hin. congruence.
Qed.

Lemma elem_of_resident s k :
  winv s -> k ∈ resident s <-> exists L it, pos_ s !! k = Some (L, it) /\ (L = kT1 \/ L = kT2).
Proof.
  intros Hi. unfold resident, keys. rewrite elem_of_union, !elem_of_list_to_set, !list_elem_of_fmap. split.
  - intros [([it x] & -> & H)|([it x] & -> & H)]; cbn.
    + exists kT1, it. split; [by apply (winv_pos s Hi)|tauto].
    + exists kT2, it. split; [by apply (winv_pos s Hi)|tauto].
  - intros (L & it & H & HL). apply (winv_pos s Hi) in H.
    destruct HL as [-> | ->]; [left|right]; by exists (it, k).
Qed.

Lemma inv_make c : inv (make c).
Proof.
  split; [split|]; cbn.
  - intros k L it. rewrite lookup_empty. split; [done|]. destruct L; by intros ?%elem_of_nil.
  - intros []; constructor.
  - intros [] *; by intros ?%elem_of_nil.
  - intros [] n; by intros ?%elem_of_nil.
  - done.
Qed.

(** Everything but the lists, the map and the address counter. *)
Definition same_config (s s' : ArcEviction) : Prop :=
  c_ s' = c_ s /\ p_ s' = p_ s /\ last_hit_in_b2_ s' = last_hit_in_b2_ s /\ reserved_ s' = reserved_ s.

(** The effect of moving a node, whatever the lists involved. *)
Record relinked (k : BlockKey) (it : iterator) (dst : ListId) (s s' : ArcEviction) : Prop := {
  rl_lst : forall L, lst s' L = (if decide (L = dst) then [(it, k)] else []) ++ unlink it (lst s L);
  rl_pos : pos_ s' = <[k := (dst, it)]> (pos_ s);
  rl_fresh : fresh s' = fresh s;
  rl_config : same_config s s'
}.

(** The effect of dropping a node. *)
Record erased (k : BlockKey) (it : iterator) (s s' : ArcEviction) : Prop := {
  er_lst : forall L, lst s' L = unlink it (lst s L);
  er_pos : pos_ s' = delete k (pos_ s);
  er_fresh : fresh s' = fresh s;
  er_config : same_config s s'
}.

Lemma winv_relinked s s' k src it dst :
  winv s -> pos_ s !! k = Some (src, it) -> dst <> kNone -> relinked k it dst s s' -> winv s'.
Proof.
  intros Hi Hk Hd [Hl Hp Hf _]. pose proof (proj1 (winv_pos s Hi _ _ _) Hk) as Hin.
  assert (forall L it' k', (it', k') ∈ lst s' L <->
            (L = dst /\ it' = it /\ k' = k) \/ ((it', k') ∈ lst s L /\ it' <> it)) as Hm.
  { intros L it' k'. rewrite Hl, elem_of_app, elem_of_unlink. cbn. case_decide.
    - rewrite elem_of_cons, elem_of_nil. naive_solver.
    - rewrite elem_of_nil. naive_solver. }
  split.
  - intros k' L it'. rewrite Hp, Hm, lookup_insert_Some, (winv_pos s Hi). split.
    + intros [[<- [= <- <-]]|[Hne H]]; [by left|]. right. split; [done|]. intros ->.
      apply Hne. by eapply (winv_inj s Hi).
    + intros [(-> & -> & ->)|[H Hne]]; [by left|]. right. split; [|done]. intros <-.
      apply (winv_pos s Hi) in H. congruence.
  - intros L. rewrite Hl. pose proof (NoDup_unlink it _ (winv_its s Hi L)) as Hn.
    case_decide; [|done]. cbn [app]. rewrite fmap_cons. constructor; [|done].
    intros (n & E & [_ Hn']%elem_of_unlink)%list_elem_of_fmap. by apply Hn'.
  - intros L L' i k1 k2 H1%Hm H2%Hm.
    destruct H1 as [(_ & -> & ->)|[H1 Hne1]], H2 as [(_ & E & ->)|[H2 Hne2]]; try done.
    by eapply (winv_inj s Hi).
  - intros L [i k'] Hn%Hm. rewrite Hf. destruct Hn as [(_ & -> & ->)|[Hn _]]; by eapply (winv_fresh s Hi).
Qed.

Lemma winv_erased s s' k src it :
  winv s -> pos_ s !! k = Some (src, it) -> erased k it s s' -> winv s'.
Proof.
  intros Hi Hk [Hl Hp Hf _]. pose proof (proj1 (winv_pos s Hi _ _ _) Hk) as Hin. split.
  - intros k' L it'. rewrite Hp, Hl, elem_of_unlink, lookup_delete_Some, (winv_pos s Hi). cbn. split.
    + intros [Hne H]. split; [done|]. intros ->. apply Hne. by eapply (winv_inj s Hi).
    + intros [H Hne]. split; [|done]. intros <-. apply (winv_pos s Hi) in H. congruence.
  - intros L. rewrite Hl. apply NoDup_unlink, (winv_its s Hi).
  - intros L L' i k1 k2. rewrite !Hl, !elem_of_unlink. intros [H1 _] [H2 _]. by eapply (winv_inj s Hi).
  - intros L n. rewrite Hl, Hf, elem_of_unlink. intros [H _]. by eapply (winv_fresh s Hi).
Qed.

(** *** The list primitives *)

Lemma lst_set_list l n s L :
  l <> kNone -> lst (set_list l n s) L = if decide (L = l) then n else lst s L.
Proof. intros Hl. by destruct s, l, L. Qed.

Lemma set_list_frame l n s :
  pos_ (set_list l n s) = pos_ s /\ fresh (set_list l n s) = fresh s /\ same_config s (set_list l n s).
Proof. by destruct s, l. Qed.

Lemma set_pos_frame m s :
  pos_ (set_pos m s) = m /\ fresh (set_pos m s) = fresh s /\ same_config s (set_pos m s).
Proof. by destruct s. Qed.

Lemma same_config_trans s1 s2 s3 : same_config s1 s2 -> same_config s2 s3 -> same_config s1 s3.
Proof. unfold same_config. intros (? & ? & ? & ?) (? & ? & ? & ?). split_and!; congruence. Qed.

Lemma lst_ListRef s L : L <> kNone -> ListRef L s = lst s L.
Proof. by destruct L. Qed.

Lemma lst_set_pos m s L : lst (set_pos m s) L = lst s L.
Proof. by destruct s, L. Qed.

Lemma wp_Relink s k src it dst (Q : unit -> ArcEviction -> Prop) :
  winv s -> pos_ s !! k = Some (src, it) -> dst <> kNone ->
  (forall s', relinked k it dst s s' -> winv s' -> Q tt s') ->
  wp (Relink k dst true) Q s.
Proof.
  intros Hi Hk Hd HQ. pose proof (proj1 (winv_pos s Hi _ _ _) Hk) as Hin.
  pose proof (lst_not_None _ _ _ _ Hin) as Hs. unfold Relink. wp_steps. rewrite Hk. cbn [fst snd].
  rewrite (lst_ListRef s src) by done. rewrite (deref_Some it (lst s src) k) by (done || apply (winv_its s Hi)).
  wp_steps. set (s1 := set_list src _ s). set (s2 := set_list dst _ s1).
  assert (relinked k it dst s (set_pos (<[k := (dst, it)]> (pos_ s2)) s2)) as Hr.
  { destruct (set_list_frame src (unlink it (ListRef src s)) s) as (Hp1 & Hf1 & Hc1).
    destruct (set_list_frame dst ((it, k) :: ListRef dst s1) s1) as (Hp2 & Hf2 & Hc2).
    fold s1 in Hp1, Hf1, Hc1. fold s2 in Hp2, Hf2, Hc2. split.
    - intros L. rewrite lst_set_pos. unfold s2. rewrite lst_set_list, lst_ListRef by done.
      unfold s1. rewrite !lst_set_list by done. rewrite (lst_ListRef s src) by done.
      destruct (decide (L = dst)) as [->|]; [cbn [app]; f_equal|cbn [app]];
        (case_decide; [by subst|by erewrite winv_other_list]).
    - rewrite (proj1 (set_pos_frame _ _)). congruence.
    - rewrite (proj1 (proj2 (set_pos_frame _ _))). congruence.
    - eapply same_config_trans; [done|]. eapply same_config_trans; [done|]. apply set_pos_frame. }
  apply HQ; [done|]. exact (winv_relinked s _ k src it dst Hi Hk Hd Hr).
Qed.

(** Dropping a key through its iterator. *)
Lemma erase_node_erased s k src it :
  winv s -> pos_ s !! k = Some (src, it) ->
  erased k it s (set_pos (delete k (pos_ s)) (set_list src (unlink it (ListRef src s)) s)).
Proof.
  intros Hi Hk. pose proof (proj1 (winv_pos s Hi _ _ _) Hk) as Hin.
  pose proof (lst_not_None _ _ _ _ Hin) as Hs.
  destruct (set_list_frame src (unlink it (ListRef src s)) s) as (Hp & Hf & Hc). split.
  - intros L. rewrite lst_set_pos, lst_set_list, lst_ListRef by done.
    case_decide; [by subst|by erewrite winv_other_list].
  - apply set_pos_frame.
  - rewrite (proj1 (proj2 (set_pos_frame _ _))). done.
  - eapply same_config_trans; [done|]. apply set_pos_frame.
Qed.

Lemma EraseLru_erased s L it k :
  winv s -> L <> kNone -> last (lst s L) = Some (it, k) ->
  erased k it s (EraseLru L s) /\ pos_ s !! k = Some (L, it).
Proof.
  intros Hi HL Hlast. pose proof (last_Some_elem_of _ _ Hlast) as Hin.
  pose proof (proj2 (winv_pos s Hi _ _ _) Hin) as Hk. split; [|done].
  unfold EraseLru. rewrite lst_ListRef, Hlast by done.
  rewrite (pop_back_unlink _ it k) by (done || apply (winv_its s Hi)).
  rewrite <- (lst_ListRef s L) by done.
  replace (set_list L _ (set_pos _ s))
    with (set_pos (delete k (pos_ s)) (set_list L (unlink it (ListRef L s)) s)) by (by destruct s, L).
  by apply erase_node_erased.
Qed.

Lemma EraseLru_empty s L : L <> kNone -> last (lst s L) = None -> EraseLru L s = s.
Proof. intros HL Hl. unfold EraseLru. by rewrite lst_ListRef, Hl. Qed.

(** The effect of a new node at the front of T1. *)
Record pushed (k : BlockKey) (s s' : ArcEviction) : Prop := {
  pu_lst : forall L, lst s' L = (if decide (L = kT1) then [(fresh s, k)] else []) ++ lst s L;
  pu_pos : pos_ s' = <[k := (kT1, fresh s)]> (pos_ s);
  pu_fresh : fresh s' = S (fresh s);
  pu_config : same_config s s'
}.

Lemma winv_pushed s s' k : winv s -> pos_ s !! k = None -> pushed k s s' -> winv s'.
Proof.
  intros Hi Hk [Hl Hp Hf _].
  assert (forall L it, (it, k) ∉ lst s L) as Hnew
    by (intros L it Hin; apply (winv_pos s Hi) in Hin; congruence).
  assert (forall L it' k', (it', k') ∈ lst s' L <->
            (L = kT1 /\ it' = fresh s /\ k' = k) \/ (it', k') ∈ lst s L) as Hm.
  { intros L it' k'. rewrite Hl, elem_of_app. case_decide.
    - rewrite elem_of_cons, elem_of_nil. naive_solver.
    - rewrite elem_of_nil. naive_solver. }
  assert (forall L k', (fresh s, k') ∉ lst s L) as Hfr
    by (intros L k' Hin; apply (winv_fresh s Hi) in Hin; cbn in Hin; lia).
  split.
  - intros k' L it'. rewrite Hp, Hm, lookup_insert_Some, (winv_pos s Hi). split.
    + intros [[<- [= <- <-]]|[Hne H]]; tauto.
    + intros [(-> & -> & ->)|H]; [by left|]. right. split; [|done]. intros <-. by eapply Hnew.
  - intros L. rewrite Hl. case_decide; [|apply Hi]. cbn [app]. rewrite fmap_cons.
    constructor; [|apply (winv_its s Hi)].
    intros ([i k'] & E & Hn)%list_elem_of_fmap. cbn in E; subst i. by eapply Hfr.
  - intros L L' i k1 k2 [(_ & -> & ->)|H1]%Hm [(_ & E & ->)|H2]%Hm; try done; subst.
    + exfalso. by eapply Hfr.
    + exfalso. by eapply Hfr.
    + by eapply (winv_inj s Hi).
  - intros L [i k'] [(_ & -> & ->)|Hn]%Hm; rewrite Hf; [cbn; lia|].
    apply (winv_fresh s Hi) in Hn. cbn in *. lia.
Qed.

Lemma wp_PushFront s k :
  winv s -> pos_ s !! k = None ->
  wp (PushFront k kT1) (fun r s' => if ok r then pushed k s s' /\ winv s' else s' = s) s.
Proof.
  intros Hi Hk. unfold PushFront. wp_steps; [|by destruct s|done].
  replace (pos_ (push_front kT1 k s)) with (pos_ s) by (by destruct s). rewrite Hk. wp_steps.
  assert (pushed k s (emplace k kT1 (push_front kT1 k s))) as Hp.
  { split; [|by destruct s..]. intros L. by destruct s, L. }
  split; [done|]. by eapply winv_pushed.
Qed.

(** The record fields that policy bookkeeping touches do not matter to the
    representation. *)
Lemma winv_set_last_hit h s : winv s -> winv (set_last_hit h s).
Proof. apply winv_ext; by destruct s. Qed.
Lemma winv_set_reserved r s : winv s -> winv (set_reserved r s).
Proof. apply winv_ext; by destruct s. Qed.
Lemma winv_AdaptUp s : winv s -> winv (AdaptUp s).
Proof. apply winv_ext; by destruct s. Qed.
Lemma winv_AdaptDown s : winv s -> winv (AdaptDown s).
Proof. apply winv_ext; by destruct s. Qed.

(** *** Effects on the resident set and the reservation *)

Lemma resident_relinked s s' k src it dst :
  winv s -> winv s' -> pos_ s !! k = Some (src, it) -> relinked k it dst s s' ->
  resident s' = (if decide (dst = kT1 \/ dst = kT2) then {[k]} ∪ resident s else resident s ∖ {[k]}).
Proof.
  intros Hi Hi' Hk [_ Hp _ _]. apply set_eq. intros x.
  assert (x ∈ resident s' <-> if decide (x = k) then dst = kT1 \/ dst = kT2 else x ∈ resident s) as ->.
  { rewrite elem_of_resident, Hp by done. case_decide as Hx; [subst|].
    - setoid_rewrite lookup_insert_eq. naive_solver.
    - rewrite elem_of_resident by done. by setoid_rewrite lookup_insert_ne. }
  repeat case_decide; set_solver.
Qed.

Lemma resident_erased s s' k src it :
  winv s -> winv s' -> pos_ s !! k = Some (src, it) -> erased k it s s' ->
  resident s' = resident s ∖ {[k]}.
Proof.
  intros Hi Hi' Hk [_ Hp _ _]. apply set_eq. intros x.
  rewrite elem_of_difference, elem_of_singleton, !elem_of_resident, Hp by done.
  setoid_rewrite lookup_delete_Some. naive_solver.
Qed.

Lemma resident_pushed s s' k :
  winv s -> winv s' -> pushed k s s' -> resident s' = {[k]} ∪ resident s.
Proof.
  intros Hi Hi' [_ Hp _ _]. apply set_eq. intros x.
  rewrite elem_of_union, elem_of_singleton, !elem_of_resident, Hp by done.
  setoid_rewrite lookup_insert_Some. destruct (decide (k = x)); naive_solver.
Qed.

Lemma ghost_not_resident s k L it :
  winv s -> pos_ s !! k = Some (L, it) -> L = kB1 \/ L = kB2 -> k ∉ resident s.
Proof. intros Hi Hk HL. rewrite elem_of_resident by done. naive_solver. Qed.

(** A reservation of another key survives. *)
Lemma res_ok_frame s s' :
  res_ok s -> reserved_ s' = reserved_ s ->
  (forall k, reserved_key s = Some k -> pos_ s' !! k = pos_ s !! k) -> res_ok s'.
Proof.
  intros Hr E Hp k L Hk. rewrite E in Hk. unfold reserved_key in Hp. rewrite Hk in Hp. cbn in Hp.
  rewrite (Hp k eq_refl). by apply Hr.
Qed.

Lemma res_ok_None s : reserved_ s = None -> res_ok s.
Proof. intros E k L. by rewrite E. Qed.

Lemma reserved_key_reserved s s' : reserved_ s' = reserved_ s -> reserved_key s' = reserved_key s.
Proof. unfold reserved_key. by intros ->. Qed.

(** The bookkeeping states an operation passes through before it moves a node. *)
Definition same_lists (s s0 : ArcEviction) : Prop :=
  (forall L, lst s0 L = lst s L) /\ pos_ s0 = pos_ s /\ fresh s0 = fresh s
  /\ reserved_ s0 = reserved_ s /\ c_ s0 = c_ s.

Lemma same_lists_winv s s0 : same_lists s s0 -> winv s -> winv s0.
Proof. intros (? & ? & ? & _). by apply winv_ext. Qed.

Lemma same_lists_resident s s0 : same_lists s s0 -> resident s0 = resident s.
Proof. intros (Hl & _). unfold resident. by rewrite (Hl kT1 : t1_ s0 = t1_ s), (Hl kT2 : t2_ s0 = t2_ s). Qed.

(** One node more in [dst], one less in [src]; no other list changes size. *)
Definition moved (src dst : ListId) (s s' : ArcEviction) : Prop :=
  c_ s' = c_ s /\
  forall L, (length (lst s' L) + (if decide (L = src) then 1 else 0)
             = length (lst s L) + (if decide (L = dst) then 1 else 0))%nat.

Lemma moved_relinked s s0 s' k src it dst :
  winv s -> same_lists s s0 -> pos_ s !! k = Some (src, it) -> relinked k it dst s0 s' -> moved src dst s s'.
Proof.
  intros Hi (Hl & _ & _ & _ & Ec) Hk Hrl. pose proof (rl_config _ _ _ _ _ Hrl) as (Ec' & _).
  split; [congruence|]. intros L. rewrite (rl_lst _ _ _ _ _ Hrl), Hl, length_app.
  destruct (decide (L = src)) as [->|].
  - pose proof (length_unlink (lst s src) it k (winv_its s Hi src) (proj1 (winv_pos s Hi _ _ _) Hk)).
    case_decide; cbn [length]; lia.
  - rewrite (winv_other_list s k src it L) by done. case_decide; cbn [length]; lia.
Qed.

(** Moving a key that is not the reserved victim to T2. *)
Lemma wp_Relink_T2 s s0 k src it :
  inv s -> same_lists s s0 -> pos_ s !! k = Some (src, it) -> reserved_key s <> Some k ->
  wp (Relink k kT2 true) (fun _ s' =>
    inv s' /\ resident s' = {[k]} ∪ resident s /\ reserved_ s' = reserved_ s
    /\ moved src kT2 s s') s0.
Proof.
  intros [Hi Hr] Hs Hk Hne. pose proof Hs as Hsl. pose proof Hk as Hk0. pose proof (same_lists_winv _ _ Hs Hi) as Hi0.
  pose proof (same_lists_resident _ _ Hs) as Hres. destruct Hs as (Hl & Hp & _ & Er & _).
  rewrite <- Hp in Hk. eapply wp_Relink; [done..|]. intros s' Hrl Hi'.
  pose proof (rl_config _ _ _ _ _ Hrl) as (_ & _ & _ & Er').
  split_and!; [split; [done|]|..].
  - apply (res_ok_frame s); [done|congruence|]. intros k' Hk'.
    rewrite (rl_pos _ _ _ _ _ Hrl), lookup_insert_ne, Hp; congruence.
  - rewrite (resident_relinked s0 s' k src it kT2) by done. rewrite decide_True by tauto. by rewrite Hres.
  - congruence.
  - by eapply moved_relinked.
Qed.

Lemma same_lists_refl s : same_lists s s.
Proof. done. Qed.
Lemma same_lists_up s : same_lists s (set_last_hit false (AdaptUp s)).
Proof. repeat split; by destruct s. Qed.
Lemma same_lists_down s : same_lists s (set_last_hit true (AdaptDown s)).
Proof. repeat split; by destruct s. Qed.
#[local] Hint Resolve same_lists_refl same_lists_up same_lists_down : tp.

(** *** Specifications of the operations *)

Lemma inv_set_last_hit h s : inv s -> inv (set_last_hit h s).
Proof. intros [? Hr]. split; [by apply winv_set_last_hit|]. apply (res_ok_frame s); [done|by destruct s..]. Qed.

Lemma wp_arc_OnAccess s k :
  inv s ->
  wp (OnAccess k) (fun _ s' =>
    inv s' /\ reserved_ s' = reserved_ s
    /\ resident s' = (if decide (is_Some (pos_ s !! k) /\ reserved_key s <> Some k)
                      then {[k]} ∪ resident s else resident s)
    /\ exists src, src <> kNone /\ moved src kT2 s s') s.
Proof.
  intros Hi. unfold OnAccess. wp_steps. destruct (pos_ s !! k) as [[L it]|] eqn:Hk.
  - case_decide as Hr.
    + wp_steps. rewrite decide_False by tauto. split_and!; try done. by exists kT2.
    + rewrite decide_True by eauto.
      assert (L <> kNone) as HL by (eapply lst_not_None, (winv_pos s (proj1 Hi)), Hk).
      destruct L; [done|..]; wp_steps;
        (eapply wp_mono; [eapply wp_Relink_T2; eauto with tp|]; naive_solver).
  - wp_steps. rewrite decide_False by (intros [[] _]; done).
    split_and!; [by apply inv_set_last_hit|by destruct s..|]. exists kT2. split; [done|by destruct s].
Qed.

(** What a successful cold insertion does to the four lists. *)
Record cold_inserted (k : BlockKey) (s s' : ArcEviction) : Prop := {
  ci_t1 : t1_ s' = (fresh s, k) :: t1_ s;
  ci_t2 : t2_ s' = t2_ s;
  ci_b1 : length (b1_ s') = (length (b1_ s) - if decide (GhostToTrimForInsert s = kB1) then 1 else 0)%nat;
  ci_b2 : length (b2_ s') = (length (b2_ s) - if decide (GhostToTrimForInsert s = kB2) then 1 else 0)%nat;
  ci_c : c_ s' = c_ s
}.

Lemma GhostToTrim_cases s :
  GhostToTrimForInsert s = kNone \/ GhostToTrimForInsert s = kB1 \/ GhostToTrimForInsert s = kB2.
Proof. unfold GhostToTrimForInsert. repeat case_match; auto. Qed.

Lemma length_EraseLru s L L' :
  winv s -> L <> kNone ->
  length (lst (EraseLru L s) L') = (length (lst s L') - if decide (L = L') then 1 else 0)%nat
  /\ (L <> L' -> lst (EraseLru L s) L' = lst s L').
Proof.
  intros Hi HL. destruct (last (lst s L)) as [[it k]|] eqn:El.
  - destruct (EraseLru_erased s L it k Hi HL El) as [He Hk]. rewrite (er_lst _ _ _ _ He).
    case_decide as E; [subst|].
    + rewrite (length_unlink (lst s L') it k) by (apply (winv_its s Hi) || by apply (winv_pos s Hi)).
      split; [lia|done].
    + rewrite (winv_other_list s k L it L') by (done || congruence). split; [lia|done].
  - rewrite (EraseLru_empty s L HL El). apply last_None in El. case_decide as E; [subst|].
    + rewrite El. done.
    + split; [lia|done].
Qed.

Lemma winv_EraseLru s L : winv s -> L <> kNone -> winv (EraseLru L s).
Proof.
  intros Hi HL. destruct (last (lst s L)) as [[it k]|] eqn:El; [|by rewrite (EraseLru_empty s L HL El)].
  destruct (EraseLru_erased s L it k Hi HL El) as [He Hk]. by eapply winv_erased.
Qed.

(** Trimming a ghost list affects neither the residents nor the reservation. *)
Lemma EraseLru_ghost s L :
  inv s -> L = kB1 \/ L = kB2 ->
  inv (EraseLru L s) /\ resident (EraseLru L s) = resident s /\ same_config s (EraseLru L s).
Proof.
  intros [Hi Hr] HL. assert (L <> kNone) as HN by (destruct HL; by subst).
  pose proof (winv_EraseLru s L Hi HN) as Hi'.
  destruct (last (lst s L)) as [[it k]|] eqn:El; [|by rewrite (EraseLru_empty s L HN El)].
  destruct (EraseLru_erased s L it k Hi HN El) as [He Hk].
  pose proof (er_config _ _ _ _ He) as (? & ? & ? & Er).
  pose proof (ghost_not_resident s k L it Hi Hk HL) as Hng. split_and!; [split; [done|]|..].
  - apply (res_ok_frame s); [done..|]. intros k' Hk'. rewrite (er_pos _ _ _ _ He).
    apply lookup_delete_ne. intros <-. unfold reserved_key in Hk'.
    destruct (reserved_ s) as [[rk rl]|] eqn:E; cbn in Hk'; simplify_eq.
    destruct (Hr _ _ E) as (HL' & it' & Hk'). rewrite Hk in Hk'. simplify_eq. naive_solver.
  - rewrite (resident_erased s _ k L it) by done. set_solver.
  - done.
Qed.

(** The optional trim of [ColdInsert]. *)
Definition trimmed (trim : ListId) (s : ArcEviction) : ArcEviction :=
  if decide (trim = kNone) then s else EraseLru trim s.

Lemma trimmed_effect s trim :
  inv s -> trim = kNone \/ trim = kB1 \/ trim = kB2 ->
  inv (trimmed trim s) /\ resident (trimmed trim s) = resident s /\ same_config s (trimmed trim s)
  /\ t1_ (trimmed trim s) = t1_ s /\ t2_ (trimmed trim s) = t2_ s
  /\ length (b1_ (trimmed trim s)) = (length (b1_ s) - if decide (trim = kB1) then 1 else 0)%nat
  /\ length (b2_ (trimmed trim s)) = (length (b2_ s) - if decide (trim = kB2) then 1 else 0)%nat.
Proof.
  intros Hi [-> |H]; unfold trimmed.
  - rewrite decide_True by done. split_and!; try done; (rewrite decide_False by done; lia).
  - assert (trim <> kNone) as HN by (destruct H as [-> | ->]; done). rewrite decide_False by done.
    destruct (EraseLru_ghost s _ Hi H) as (? & ? & ?). destruct Hi as [Hi _]. split_and!; try done.
    + apply (length_EraseLru s trim kT1 Hi HN). destruct H as [-> | ->]; done.
    + apply (length_EraseLru s trim kT2 Hi HN). destruct H as [-> | ->]; done.
    + apply (length_EraseLru s trim kB1 Hi HN).
    + apply (length_EraseLru s trim kB2 Hi HN).
Qed.

Lemma pushed_lists s s' k :
  pushed k s s' ->
  t1_ s' = (fresh s, k) :: t1_ s /\ t2_ s' = t2_ s /\ b1_ s' = b1_ s /\ b2_ s' = b2_ s.
Proof.
  intros [Hl _ _ _]. split_and!.
  - exact (Hl kT1).
  - exact (Hl kT2).
  - exact (Hl kB1).
  - exact (Hl kB2).
Qed.

Lemma inv_pushed s s' k : inv s -> pos_ s !! k = None -> winv s' -> pushed k s s' -> inv s'.
Proof.
  intros [Hi Hr] Hk Hi' Hp. pose proof (pu_config _ _ _ Hp) as (_ & _ & _ & Er).
  split; [done|]. apply (res_ok_frame s); [done..|]. intros k' Hk'. rewrite (pu_pos _ _ _ Hp).
  apply lookup_insert_ne. intros <-. unfold reserved_key in Hk'.
  destruct (reserved_ s) as [[rk rl]|] eqn:E; cbn in Hk'; simplify_eq.
  destruct (Hr _ _ E) as (_ & it & ?). congruence.
Qed.

Lemma wp_ColdInsert s k :
  inv s -> pos_ s !! k = None ->
  wp (ColdInsert k) (fun r s' =>
    if ok r then
      inv s' /\ resident s' = {[k]} ∪ resident s /\ reserved_ s' = reserved_ s /\ cold_inserted k s s'
    else s' = s) s.
Proof.
  intros Hi Hk. unfold ColdInsert. wp_steps.
  eapply wp_mono; [apply wp_PushFront; [apply Hi|done]|]. intros r s1 H1. cbv beta in H1.
  destruct (ok r) eqn:Er; [|wp_steps; rewrite Er; exact H1].
  destruct H1 as [Hp Hi1]. pose proof (pu_config _ _ _ Hp) as (Ec1 & _ & _ & Er1).
  pose proof (inv_pushed s s1 k Hi Hk Hi1 Hp) as Hv1.
  pose proof (resident_pushed s s1 k (proj1 Hi) Hi1 Hp) as Hres1.
  destruct (pushed_lists _ _ _ Hp) as (E1 & E2 & E3 & E4).
  destruct (trimmed_effect s1 (GhostToTrimForInsert s) Hv1 (GhostToTrim_cases s))
    as (Hv2 & Hres2 & (Ec2 & _ & _ & Er2) & F1 & F2 & F3 & F4).
  set (s2 := trimmed (GhostToTrimForInsert s) s1) in *.
  apply wp_bind, (wp_mono _ (fun _ s' => s' = s2)).
  { clear. unfold s2, trimmed. case_decide; by wp_steps. }
  intros _ ? ->. wp_steps. rewrite ok_Ok.
  assert (resident (set_last_hit false s2) = resident s2) as -> by (by destruct s2).
  assert (reserved_ (set_last_hit false s2) = reserved_ s2) as -> by (by destruct s2).
  split_and!; [by apply inv_set_last_hit|congruence..|].
  destruct s2; split; cbn in *; congruence.
Qed.

Lemma wp_arc_OnInsert s k size :
  inv s ->
  wp (OnInsert k size) (fun r s' =>
    inv s' /\ reserved_ s' = reserved_ s
    /\ if ok r then
         resident s' = {[k]} ∪ resident s
         /\ ((exists src, src <> kNone /\ moved src kT2 s s') \/ pos_ s !! k = None /\ cold_inserted k s s')
       else s' = s) s.
Proof.
  intros Hi. unfold OnInsert. wp_steps. destruct (pos_ s !! k) as [[L it]|] eqn:Hk.
  - case_decide as Hr; [by wp_steps|].
    assert (L <> kNone) as HL by (eapply lst_not_None, (winv_pos s (proj1 Hi)), Hk).
    destruct L; [done|..]; wp_steps;
      (eapply wp_mono; [eapply wp_Relink_T2; eauto with tp|]; intros [] s' (? & ? & ? & ?); wp_steps;
       rewrite ok_Ok; split_and!; eauto).
  - eapply wp_mono; [by apply wp_ColdInsert|]. intros r s' H. cbv beta in H. destruct (ok r); [naive_solver|by subst].
Qed.

Lemma inv_set_reserved_None s : inv s -> inv (set_reserved None s).
Proof. intros [? _]. split; [by apply winv_set_reserved|]. apply res_ok_None. by destruct s. Qed.

Lemma resident_set_reserved r s : resident (set_reserved r s) = resident s.
Proof. by destruct s. Qed.

Lemma inv_erased s s' k src it :
  inv s -> pos_ s !! k = Some (src, it) -> reserved_key s <> Some k -> erased k it s s' -> inv s'.
Proof.
  intros [Hi Hr] Hk Hne He. split; [by eapply winv_erased|].
  pose proof (er_config _ _ _ _ He) as (_ & _ & _ & Er).
  apply (res_ok_frame s); [done..|]. intros k' Hk'. rewrite (er_pos _ _ _ _ He).
  apply lookup_delete_ne. congruence.
Qed.

Lemma wp_arc_OnRemove s k :
  inv s ->
  wp (OnRemove k) (fun _ s' =>
    inv s' /\ resident s' = resident s ∖ {[k]} /\ c_ s' = c_ s
    /\ reserved_ s' = (if decide (reserved_key s = Some k) then None else reserved_ s)
    /\ forall L, (length (lst s' L) <= length (lst s L))%nat) s.
Proof.
  intros Hi. unfold OnRemove. wp_steps. destruct (pos_ s !! k) as [[src it]|] eqn:Hk.
  - set (s1 := if decide (reserved_key s = Some k) then set_reserved None s else s).
    assert (inv s1 /\ pos_ s1 = pos_ s /\ resident s1 = resident s /\ c_ s1 = c_ s
            /\ (forall L, lst s1 L = lst s L)
            /\ reserved_ s1 = (if decide (reserved_key s = Some k) then None else reserved_ s))
      as (Hi1 & Hp1 & Hres1 & Hc1 & Hl1 & Hr1).
    { unfold s1. case_decide; [|done]. split_and!; [by apply inv_set_reserved_None|by destruct s..]. }
    apply wp_bind, (wp_mono _ (fun _ s' => s' = s1)).
    { clear. unfold s1. case_decide; by wp_steps. }
    intros _ ? ->. pose proof (proj1 (winv_pos s (proj1 Hi) _ _ _) Hk) as Hin.
    rewrite lst_ListRef by (by eapply lst_not_None).
    rewrite (deref_Some it (lst s src) k) by (done || apply (winv_its s (proj1 Hi))). wp_steps.
    replace (pos_ (set_list src _ s1)) with (pos_ s1) by (by destruct s1, src).
    rewrite <- Hp1 in Hk. pose proof (erase_node_erased s1 k src it (proj1 Hi1) Hk) as He.
    set (s2 := set_pos _ _) in *. pose proof (er_config _ _ _ _ He) as (Ec & _ & _ & Er).
    assert (inv s2) as Hi2.
    { eapply inv_erased; [exact Hi1|exact Hk| |exact He]. unfold reserved_key. rewrite Hr1.
      case_decide; [done|]. assumption. }
    split_and!; [done| |congruence..|].
    + rewrite <- Hres1. eapply resident_erased; [apply Hi1|apply Hi2|exact Hk|exact He].
    + intros L. rewrite (er_lst _ _ _ _ He), Hl1. apply length_filter.
  - wp_steps. split_and!; try done.
    + rewrite difference_disjoint_L; [done|]. cut (k ∉ resident s); [set_solver|].
      rewrite elem_of_resident by apply Hi. naive_solver.
    + case_decide as Hr; [|done]. unfold reserved_key in Hr.
      destruct (reserved_ s) as [[rk rl]|] eqn:E; cbn in Hr; simplify_eq.
      destruct (proj2 Hi _ _ E) as (_ & it & ?). congruence.
Qed.

Lemma choose_spec excluded l source :
  match choose excluded l source with
  | Some (k, L) => L = source /\ Some k <> excluded
                   /\ last (filter (fun x => Some x <> excluded) (keys l)) = Some k
  | None => filter (fun x => Some x <> excluded) (keys l) = []
  end.
Proof.
  unfold choose. remember (reverse (keys l)) as r eqn:E.
  assert (keys l = reverse r) as -> by (by rewrite E, reverse_involutive). clear E.
  induction r as [|x r IH]; [done|]. cbn [choose_rev]. rewrite reverse_cons, filter_app.
  case_decide as Hx.
  - rewrite filter_cons_True, filter_nil by naive_solver. by rewrite last_snoc.
  - rewrite filter_cons_False, filter_nil, app_nil_r by naive_solver. apply IH.
Qed.

Lemma choose_resident s excluded L k src :
  winv s -> L = kT1 \/ L = kT2 -> choose excluded (lst s L) L = Some (k, src) ->
  (src = kT1 \/ src = kT2) /\ Some k <> excluded /\ exists it, pos_ s !! k = Some (src, it).
Proof.
  intros Hi HL E. pose proof (choose_spec excluded (lst s L) L) as H. rewrite E in H.
  destruct H as (-> & Hne & Hl). apply last_Some_elem_of, list_elem_of_filter in Hl as [_ Hl].
  apply list_elem_of_fmap in Hl as ([it x] & -> & Hin). cbn in *. split_and!; try done.
  exists it. by apply (winv_pos s Hi).
Qed.

Lemma choose_None excluded l L k : choose excluded l L = None -> k ∈ keys l -> Some k = excluded.
Proof.
  intros E Hin. pose proof (choose_spec excluded l L) as H. rewrite E in H.
  destruct (decide (Some k = excluded)); [done|]. exfalso. eapply (not_elem_of_nil k). rewrite <- H.
  by apply list_elem_of_filter.
Qed.

Lemma reservation_Some s excluded k src :
  winv s -> reservation excluded s = Some (k, src) ->
  (src = kT1 \/ src = kT2) /\ Some k <> excluded /\ exists it, pos_ s !! k = Some (src, it).
Proof.
  intros Hi. unfold reservation. change (t1_ s) with (lst s kT1). change (t2_ s) with (lst s kT2).
  destruct (use_t1 s); case_match eqn:E; intros; simplify_eq; (eapply choose_resident; [done| |done]); tauto.
Qed.

Lemma reservation_None s excluded k :
  reservation excluded s = None -> k ∈ resident s -> Some k = excluded.
Proof.
  unfold reservation, resident. rewrite elem_of_union, !elem_of_list_to_set.
  destruct (use_t1 s); case_match eqn:E; try done; intros E' [H|H]; eauto using choose_None.
Qed.

Lemma wp_arc_SelectVictim s excluded :
  inv s ->
  wp (SelectVictim excluded) (fun r s' =>
    match r with
    | Value k => reserved_ s = None /\ k ∈ resident s /\ Some k <> excluded /\ inv s'
                 /\ exists L, reservation excluded s = Some (k, L) /\ s' = set_reserved (Some (k, L)) s
    | Error st => s' = s /\ ok st = false
                  /\ (reserved_ s = None ->
                      code st = kNotFound /\ forall k, k ∈ resident s -> Some k = excluded)
    end) s.
Proof.
  intros Hi. unfold SelectVictim. wp_steps. destruct (reserved_ s) eqn:Er; [by wp_steps|].
  case_decide as Hd; [wp_steps|].
  { split_and!; try done. intros _. split; [done|]. intros k. unfold resident.
    destruct Hd as [-> ->]. set_solver. }
  destruct (reservation excluded s) as [[k L]|] eqn:E; wp_steps.
  - destruct (reservation_Some _ _ _ _ (proj1 Hi) E) as (HL & Hne & it & Hk). split_and!; eauto.
    + apply elem_of_resident; [apply Hi|naive_solver].
    + split; [by apply winv_set_reserved, Hi|]. intros k' L' E'. destruct s; cbn in *; simplify_eq. eauto.
  - split_and!; try done. intros _. split; [done|]. intros k. by apply reservation_None.
Qed.

Lemma reserved_key_Some s k : reserved_key s = Some k -> exists L, reserved_ s = Some (k, L).
Proof. unfold reserved_key. destruct (reserved_ s) as [[rk L]|]; cbn; intros; simplify_eq. eauto. Qed.

Lemma arc_ValidateVictimCommit_spec s k :
  inv s -> ok (ValidateVictimCommit k s) = true <-> reserved_key s = Some k.
Proof.
  intros [_ Hr]. unfold ValidateVictimCommit, reserved_key.
  destruct (reserved_ s) as [[rk L]|] eqn:E; cbn; [|done]. destruct (Hr _ _ E) as (_ & it & Hk).
  case_decide as Hd; [subst|by split; naive_solver]. rewrite Hk, decide_True by done. done.
Qed.

(** A committed victim becomes the most recent ghost of its side. *)
Lemma wp_arc_CommitVictim s k :
  inv s -> reserved_key s = Some k ->
  wp (CommitVictim k) (fun _ s' =>
    inv s' /\ resident s' = resident s ∖ {[k]} /\ reserved_ s' = None /\ c_ s' = c_ s
    /\ (moved kT1 kB1 s s' \/ moved kT2 kB2 s s')) s.
Proof.
  intros Hi Hr. unfold CommitVictim. wp_steps. rewrite (proj2 (arc_ValidateVictimCommit_spec s k Hi) Hr).
  destruct (reserved_key_Some _ _ Hr) as [src Er]. destruct (proj2 Hi _ _ Er) as (HL & it & Hk). rewrite Er.
  set (dst := match src with kT1 => kB1 | _ => kB2 end).
  apply wp_bind. eapply wp_Relink; [apply Hi|exact Hk|destruct HL as [-> | ->]; done|].
  intros s' Hrl Hi'. wp_steps. pose proof (rl_config _ _ _ _ _ Hrl) as (Ec & _).
  split_and!.
  - apply inv_set_last_hit. split; [by apply winv_set_reserved|]. apply res_ok_None. by destruct s'.
  - replace (resident _) with (resident s') by (by destruct s').
    rewrite (resident_relinked s s' k src it dst) by (done || apply Hi).
    rewrite decide_False; [done|]. destruct HL as [-> | ->]; cbn; naive_solver.
  - by destruct s'.
  - rewrite <- Ec. by destruct s'.
  - pose proof (moved_relinked s s s' k src it dst (proj1 Hi) (same_lists_refl s) Hk Hrl) as Hm.
    destruct HL as [-> | ->]; [left|right]; destruct Hm; by destruct s'.
Qed.

Lemma wp_arc_CancelVictim s k :
  inv s -> reserved_key s = Some k ->
  wp (CancelVictim k) (fun r s' => r = Ok /\ s' = set_reserved None s /\ inv s') s.
Proof.
  intros Hi Hr. unfold CancelVictim. wp_steps. rewrite decide_True by done. wp_steps.
  split_and!; try done. by apply inv_set_reserved_None.
Qed.

(** ARC meets the eviction contract. *)
#[global] Instance ArcEviction_laws : EvictionPolicyLaws ArcEviction.
Proof.
  refine {| ep_inv := inv; ep_resident := resident; ep_reserved := reserved_key |};
    cbn [ep_OnAccess ep_OnInsert ep_OnPromotionCommitted ep_OnRemove ep_SelectVictim
         ep_ValidateVictimCommit ep_CommitVictim ep_CancelVictim ArcEviction_policy].
  - intros p k Hi Hr. destruct (reserved_key_Some _ _ Hr) as [L E].
    destruct (proj2 Hi _ _ E) as (HL & it & Hk). apply elem_of_resident; [apply Hi|naive_solver].
  - intros p k Hi Hk. eapply wp_mono; [by apply wp_arc_OnAccess|].
    intros [] p' (? & ? & -> & _). split_and!; [done| |by apply reserved_key_reserved].
    case_decide; [set_solver|done].
  - intros p k size Hi. eapply wp_mono; [by apply wp_arc_OnInsert|]. intros r p' (? & ? & H).
    split_and!; [done|by apply reserved_key_reserved|]. destruct (ok r); [by destruct H|by subst].
  - intros p k size Hi. eapply wp_mono; [by apply wp_arc_OnInsert|]. intros r p' (? & ? & H).
    split_and!; [done|by apply reserved_key_reserved|]. destruct (ok r); [by destruct H|by subst].
  - intros p k Hi. eapply wp_mono; [by apply wp_arc_OnRemove|]. intros [] p' (? & ? & _ & H & _).
    unfold reserved_key in *. split_and!; try done; intros; rewrite H; case_decide; done.
  - intros p ex Hi. eapply wp_mono; [by apply wp_arc_SelectVictim|]. intros r p' H. cbv beta in H.
    unfold reserved_key. destruct r as [k|st].
    + destruct H as (E & ? & ? & ? & L & _ & ->). rewrite E, resident_set_reserved. split_and!; try done.
      by destruct p.
    + destruct H as (-> & ? & H). split_and!; try done. intros Hr. apply H. by destruct (reserved_ p).
  - intros p k Hi. by apply arc_ValidateVictimCommit_spec.
  - intros p k Hi Hr. eapply wp_mono; [by apply wp_arc_CommitVictim|]. intros [] p' (? & ? & E & _).
    unfold reserved_key. by rewrite E.
  - intros p k Hi Hr. eapply wp_mono; [by apply wp_arc_CancelVictim|].
    intros r p' (-> & -> & ?). unfold reserved_key. rewrite resident_set_reserved. split_and!; try done.
    by destruct p.
Defined.
End Arc.
