(* ===== verification/ArcGhosts.v ===== *)
(** * The size of ARC's ghost lists

    [ArcEviction::GhostToTrimForInsert] keeps the key-only ghost lists bounded
    ([|T1| + |B1| <= c], total [<= 2c]).  The bound is proved for every history
    in which a cold insertion finds fewer than [c] residents, and refuted for
    histories in which the residents may exceed [c], which happens when DRAM is
    sized in bytes and [c] in blocks. *)

From Stdlib Require Import SpecFloat.
From S2P Require Import Prelude Api EvictionPolicy Arc.
Import Arc.

Definition ghosts_bounded (s : ArcEviction) : Prop :=
  size (t1_ s) + size (b1_ s) <= c_ s
  /\ size (t1_ s) + size (t2_ s) + size (b1_ s) + size (b2_ s) <= 2 * c_ s.

(** One call of the policy, with any allocator behaviour.  A brand-new key
    arrives only while fewer than [c] blocks are resident; a victim is committed
    or cancelled only while it is reserved. *)
Inductive arc_call (s s' : ArcEviction) : Prop :=
| call_access k al al' : OnAccess k s al = Done (tt, s', al') -> arc_call s s'
| call_insert k n al r al' :
    (pos_ s !! k = None -> size (t1_ s) + size (t2_ s) < c_ s) ->
    OnInsert k n s al = Done (r, s', al') -> arc_call s s'
| call_remove k al al' : OnRemove k s al = Done (tt, s', al') -> arc_call s s'
| call_select excluded al r al' : SelectVictim excluded s al = Done (r, s', al') -> arc_call s s'
| call_commit k al al' :
    reserved_key s = Some k -> CommitVictim k s al = Done (tt, s', al') -> arc_call s s'
| call_cancel k al r al' :
    reserved_key s = Some k -> CancelVictim k s al = Done (r, s', al') -> arc_call s s'.

Section sizes.
Context (s s' : ArcEviction).

(** Sizes of the four lists after a move. *)
Lemma moved_sizes src dst (Hm : moved src dst s s') :
  c_ s' = c_ s
  /\ size (t1_ s') + (if decide (kT1 = src) then 1 else 0) = size (t1_ s) + (if decide (kT1 = dst) then 1 else 0)
  /\ size (t2_ s') + (if decide (kT2 = src) then 1 else 0) = size (t2_ s) + (if decide (kT2 = dst) then 1 else 0)
  /\ size (b1_ s') + (if decide (kB1 = src) then 1 else 0) = size (b1_ s) + (if decide (kB1 = dst) then 1 else 0)
  /\ size (b2_ s') + (if decide (kB2 = src) then 1 else 0) = size (b2_ s) + (if decide (kB2 = dst) then 1 else 0).
Proof.
  destruct Hm as [Hc Hm]. pose proof (Hm kT1) as H1. pose proof (Hm kT2) as H2.
  pose proof (Hm kB1) as H3. pose proof (Hm kB2) as H4. cbn [lst ListRef] in *. unfold size, zlen.
  split_and!; [done|..]; repeat case_decide; lia.
Qed.

Lemma bounded_moved_T2 src (Hs : src <> kNone) (Hm : moved src kT2 s s') :
  ghosts_bounded s -> ghosts_bounded s'.
Proof.
  intros [H1 H2]. destruct (moved_sizes _ _ Hm) as (Hc & Ht1 & Ht2 & Hb1 & Hb2). unfold ghosts_bounded.
  destruct src; [done|..]; repeat case_decide; (congruence || lia).
Qed.

Lemma bounded_moved_ghost (Hm : moved kT1 kB1 s s' \/ moved kT2 kB2 s s') :
  ghosts_bounded s -> ghosts_bounded s'.
Proof.
  intros [H1 H2]. unfold ghosts_bounded.
  destruct Hm as [Hm|Hm]; destruct (moved_sizes _ _ Hm) as (Hc & Ht1 & Ht2 & Hb1 & Hb2);
    repeat case_decide; (congruence || lia).
Qed.

Lemma bounded_cold_inserted k :
  0 < c_ s < 2 ^ 63 -> size (t1_ s) + size (t2_ s) < c_ s ->
  cold_inserted k s s' -> ghosts_bounded s -> ghosts_bounded s'.
Proof.
  intros Hc Hroom [E1 E2 E3 E4 Ec] [H1 H2]. unfold ghosts_bounded. rewrite E1, E2, Ec.
  unfold size, zlen in *. rewrite E3, E4. cbn [length]. unfold GhostToTrimForInsert, size, zlen in *.
  rewrite wrap_small in * by (unfold in_range; lia).
  repeat case_match; boolZ; repeat case_decide; simplify_eq; lia.
Qed.
End sizes.

Lemma sizes_frame s s' :
  (forall L, lst s' L = lst s L) -> c_ s' = c_ s -> ghosts_bounded s -> ghosts_bounded s'.
Proof.
  intros Hl Hc. unfold ghosts_bounded.
  by rewrite Hc, (Hl kT1 : t1_ s' = _), (Hl kT2 : t2_ s' = _), (Hl kB1 : b1_ s' = _), (Hl kB2 : b2_ s' = _).
Qed.

Lemma bounded_shrunk s s' :
  (forall L, length (lst s' L) <= length (lst s L))%nat -> c_ s' = c_ s ->
  ghosts_bounded s -> ghosts_bounded s'.
Proof.
  intros Hl Hc. pose proof (Hl kT1) as H1. pose proof (Hl kT2) as H2.
  pose proof (Hl kB1) as H3. pose proof (Hl kB2) as H4. cbn [lst ListRef] in *.
  unfold ghosts_bounded, size, zlen. lia.
Qed.

Definition arc_good (c : Z) (s : ArcEviction) : Prop := inv s /\ ghosts_bounded s /\ c_ s = c.

Lemma set_reserved_good c r s : inv (set_reserved r s) -> arc_good c s -> arc_good c (set_reserved r s).
Proof. intros Hi (_ & Hb & Hc). split_and!; [done| |by destruct s]. apply (sizes_frame s); by destruct s. Qed.

Lemma arc_call_good c s s' : 0 < c < 2 ^ 63 -> arc_good c s -> arc_call s s' -> arc_good c s'.
Proof.
  intros Hc Hg Hcall. pose proof Hg as (Hi & Hb & Ec). destruct Hcall as [k al al' E|k n al r al' Hroom E|k al al' E|ex al r al' E|k al al' Hr E|k al r al' Hr E].
  - eapply wp_run in E; [|by apply wp_arc_OnAccess]. destruct E as (? & _ & _ & src & HN & Hm).
    split_and!; [done|by eapply bounded_moved_T2|destruct Hm; congruence].
  - eapply wp_run in E; [|by apply wp_arc_OnInsert]. destruct E as (Hi' & _ & H). destruct (ok r); [|by subst].
    destruct H as (_ & Hcase). destruct Hcase as [(src & HN & Hm)|[Hk Hci]].
    + split_and!; [done|by eapply bounded_moved_T2|destruct Hm; congruence].
    + split_and!; [done| |destruct Hci; congruence].
      eapply bounded_cold_inserted; [by rewrite Ec|by apply Hroom|done..].
  - eapply wp_run in E; [|by apply wp_arc_OnRemove]. destruct E as (? & _ & ? & _ & Hl).
    split_and!; [done|by eapply bounded_shrunk|congruence].
  - eapply wp_run in E; [|by apply wp_arc_SelectVictim]. destruct r.
    + destruct E as (_ & _ & _ & ? & L & _ & ->). by apply set_reserved_good.
    + by destruct E as (-> & _).
  - eapply wp_run in E; [|by apply wp_arc_CommitVictim]. destruct E as (? & _ & _ & ? & Hm).
    split_and!; [done|by eapply bounded_moved_ghost|congruence].
  - eapply wp_run in E; [|by apply wp_arc_CancelVictim]. destruct E as (_ & -> & ?). by apply set_reserved_good.
Qed.

Lemma arc_good_make c : 0 < c -> arc_good c (make c).
Proof.
  intros Hc. unfold make. rewrite (proj2 (Z.eqb_neq c 0)) by lia.
  split_and!; [|unfold ghosts_bounded, size, zlen; cbn; lia|done].
  pose proof (inv_make c) as Hi. unfold make in Hi. by rewrite (proj2 (Z.eqb_neq c 0)) in Hi by lia.
Qed.

Lemma reachable_good c s : 0 < c < 2 ^ 63 -> rtc arc_call (make c) s -> arc_good c s.
Proof.
  intros Hc Hr. pose proof (arc_good_make c (proj1 Hc)) as Hg. revert Hg.
  induction Hr as [|s1 s2 s3 Hcall _ IH]; intros Hg; [done|]. by eapply IH, arc_call_good.
Qed.

(** C20 (invariant): ARC's lists stay consistent and bounded.  In every history
    of policy calls that starts from the constructor, under any allocation
    failures, as long as a brand-new key arrives only while fewer than [c]
    blocks are resident: the position map and the four lists describe the same
    nodes, [|T1| + |B1| <= c], the four lists together hold at most [2c] keys,
    and no further call can follow a dangling iterator or reach
    [std::terminate()]. *)
Theorem arc_ghosts_stay_bounded (c : Z) (s : ArcEviction) (k : BlockKey) (n : Z)
    (excluded : option BlockKey) (al : Alloc)
    (Hc : 0 < c < 2 ^ 63) (Hr : rtc arc_call (make c) s) :
  inv s
  /\ size (t1_ s) + size (b1_ s) <= c
  /\ size (t1_ s) + size (t2_ s) + size (b1_ s) + size (b2_ s) <= 2 * c
  /\ OnAccess k s al <> Terminated
  /\ OnInsert k n s al <> Terminated
  /\ OnRemove k s al <> Terminated
  /\ SelectVictim excluded s al <> Terminated
  /\ (reserved_key s = Some k -> CommitVictim k s al <> Terminated).
Proof.
  destruct (reachable_good c s Hc Hr) as (Hi & [H1 H2] & <-).
  assert (forall A (m : comp ArcEviction A) Q, wp m Q s -> m s al <> Terminated) as Hsafe
    by (intros A m Q Hw E; specialize (Hw al); by rewrite E in Hw).
  split_and!; try done.
  - by eapply Hsafe, wp_arc_OnAccess.
  - by eapply Hsafe, wp_arc_OnInsert.
  - by eapply Hsafe, wp_arc_OnRemove.
  - by eapply Hsafe, wp_arc_SelectVictim.
  - intros Hk. by eapply Hsafe, wp_arc_CommitVictim.
Qed.

Definition key (i : nat) : BlockKey := mkBlockKey (Z.of_nat i) 1 0.

(** The state after inserting a key into an empty policy of two blocks and
    accessing it again. *)
Definition after_hit : ArcEviction :=
  match (OnInsert (key 0) 8 ;; OnAccess (key 0)) (make 2) [] with
  | Done (_, s, _) => s
  | Terminated => make 2
  end.

Lemma after_hit_reachable : rtc arc_call (make 2) after_hit.
Proof.
  eapply rtc_l; [eapply (call_insert _ _ (key 0) 8 []); [intros _; vm_compute; reflexivity|vm_compute; reflexivity]|].
  eapply rtc_l; [eapply (call_access _ _ (key 0) []); vm_compute; reflexivity|]. apply rtc_refl.
Qed.

Lemma arc_ghosts_stay_bounded_witness :
  size (t2_ after_hit) = 1 /\ size (t1_ after_hit) + size (b1_ after_hit) <= 2.
Proof.
  split; [vm_compute; reflexivity|].
  exact (proj1 (proj2 (arc_ghosts_stay_bounded 2 _ (key 0) 8 None [] ltac:(lia) after_hit_reachable))).
Defined.

(** ** When the residents may exceed [c] *)

(** One round of a DRAM tier that holds two blocks while [c] is one: the node
    demotes a block to make room and inserts the next one. *)
Definition churn_round (i : nat) : comp ArcEviction unit :=
  r ← SelectVictim None;
  match r with
  | Value victim => CommitVictim victim ;; OnInsert (key i) 8 ;; mret tt
  | Error _ => mret tt
  end.

Fixpoint churn (i n : nat) : comp ArcEviction unit :=
  match n with
  | O => mret tt
  | S n' => churn_round i ;; churn (S i) n'
  end.

(** Keys [i] and [i + 1] are resident in T1, all older ones are in B1. *)
Record churned (i : nat) (s : ArcEviction) : Prop := {
  ch_c : c_ s = 1;
  ch_t1 : exists a b, t1_ s = [(a, key (S i)); (b, key i)] /\ a <> b;
  ch_t2 : t2_ s = [];
  ch_b2 : b2_ s = [];
  ch_b1 : length (b1_ s) = i;
  ch_res : reserved_ s = None;
  ch_inv : inv s;
  ch_new : forall j, (i + 2 <= j)%nat -> pos_ s !! key j = None
}.

Lemma key_inj i j : key i = key j -> i = j.
Proof. unfold key. intros H. simplify_eq. lia. Qed.

Section round.
Context (p : spec_float) (h : bool) (a b f : iterator) (i : nat) (ghosts : nlist).
Context (pos : gmap BlockKey (ListId * iterator)).
Context (Hab : a <> b) (Hpos : pos !! key i = Some (kT1, b)) (Hnew : pos !! key (2 + i) = None).

Let before := mkArc 1 p h [(a, key (S i)); (b, key i)] [] ghosts [] pos None f.
Let demoted := mkArc 1 p false [(a, key (S i))] [] ((b, key i) :: ghosts) [] (<[key i := (kB1, b)]> pos) None f.
Let inserted :=
  mkArc 1 p false [(f, key (2 + i)); (a, key (S i))] [] ((b, key i) :: ghosts) []
    (<[key (2 + i) := (kT1, f)]> (<[key i := (kB1, b)]> pos)) None (S f).

Lemma round_select :
  SelectVictim None before [] = Done (Value (key i), set_reserved (Some (key i, kT1)) before, []).
Proof. reflexivity. Qed.

Lemma round_commit : CommitVictim (key i) (set_reserved (Some (key i, kT1)) before) [] = Done (tt, demoted, []).
Proof.
  unfold CommitVictim, Relink, ValidateVictimCommit, mbind, comp_bind, get, modify, before, set_reserved.
  cbn [reserved_ pos_]. rewrite decide_True, Hpos, decide_True by done. rewrite ok_Ok. cbv beta iota.
  cbn [pos_]. rewrite Hpos. cbn [ListRef t1_ deref]. rewrite decide_False, decide_True by done.
  unfold unlink. cbn [set_list ListRef t1_ b1_ set_pos pos_]. rewrite filter_cons_True by done.
  by rewrite filter_cons_False by (cbn; tauto).
Qed.

Lemma round_insert : OnInsert (key (2 + i)) 8 demoted [] = Done (Ok, inserted, []).
Proof.
  assert (key i <> key (2 + i)) as Hne by (intros E%key_inj; lia).
  assert (GhostToTrimForInsert demoted = kNone) as Ht.
  { unfold GhostToTrimForInsert, demoted, size, zlen. cbn [t1_ t2_ b1_ b2_ c_ length].
    rewrite (proj2 (Z.eqb_neq _ _)), (proj2 (Z.ltb_ge _ _)) by lia. done. }
  assert (pos_ demoted !! key (2 + i) = None) as Hd by (unfold demoted; cbn [pos_]; by rewrite lookup_insert_ne).
  assert (pos_ (push_front kT1 (key (2 + i)) demoted) = pos_ demoted) as Hpf by done.
  unfold OnInsert, ColdInsert, PushFront, mbind, comp_bind, get, modify, alloc_fails.
  rewrite Hd, Ht, Hpf, Hd. reflexivity.
Qed.

Lemma round_run : churn_round (2 + i) before [] = Done (tt, inserted, []).
Proof.
  unfold churn_round. unfold mbind at 1, comp_bind at 1. rewrite round_select.
  unfold mbind at 1, comp_bind at 1. rewrite round_commit.
  unfold mbind at 1, comp_bind at 1. by rewrite round_insert.
Qed.

Lemma round_inv : inv before -> inv inserted.
Proof.
  intros Hi. pose proof round_select as E1. eapply wp_run in E1; [|by apply wp_arc_SelectVictim].
  destruct E1 as (_ & _ & _ & Hi1 & _). pose proof round_commit as E2.
  eapply wp_run in E2; [|by apply wp_arc_CommitVictim]. destruct E2 as (Hi2 & _).
  pose proof round_insert as E3. eapply wp_run in E3; [|by apply wp_arc_OnInsert]. apply E3.
Qed.
End round.

Lemma churned_round i s :
  churned i s -> exists s', churn_round (2 + i) s [] = Done (tt, s', []) /\ churned (S i) s'.
Proof.
  intros [Hc (a & b & Ht1 & Hab) Ht2 Hb2 Hb1 Hr Hi Hnew].
  assert (pos_ s !! key i = Some (kT1, b)) as Hp
    by (apply (winv_pos s (proj1 Hi)); cbn [lst ListRef]; rewrite Ht1; set_solver).
  assert (a < fresh s)%nat as Hf
    by (apply (winv_fresh s (proj1 Hi) kT1 (a, key (S i))); cbn [lst ListRef]; rewrite Ht1; set_solver).
  pose proof (Hnew (2 + i)%nat ltac:(lia)) as Hn.
  destruct s as [c p h t1 t2 b1 b2 pos r f]. cbn in *. subst.
  eexists. split; [by apply round_run|]. split; try done.
  - exists f, a. split; [done|lia].
  - by eapply round_inv.
  - intros j Hj. cbn [pos_]. rewrite !lookup_insert_ne by (intros E%key_inj; lia). apply Hnew. lia.
Qed.

Lemma churned_many n i s :
  churned i s -> exists s', churn (2 + i) n s [] = Done (tt, s', []) /\ churned (n + i) s'.
Proof.
  revert i s. induction n as [|n IH]; intros i s Hs; [by exists s|].
  destruct (churned_round i s Hs) as (s1 & E1 & H1). destruct (IH (S i) s1 H1) as (s2 & E2 & H2).
  exists s2. split; [|by replace (S n + i)%nat with (n + S i)%nat by lia].
  cbn [churn]. unfold mbind, comp_bind. rewrite E1. exact E2.
Qed.

(** Two cold insertions into a policy of one block. *)
Definition two_residents : ArcEviction :=
  match (OnInsert (key 0) 8 ;; OnInsert (key 1) 8) (make 1) [] with
  | Done (_, s, _) => s
  | Terminated => make 1
  end.

Lemma churned_two_residents : churned 0 two_residents.
Proof.
  split; try (vm_compute; reflexivity).
  - exists 1%nat, 0%nat. split; [vm_compute; reflexivity|done].
  - assert (wp (OnInsert (key 0) 8 ;; OnInsert (key 1) 8) (fun _ s => inv s) (make 1)) as Hw.
    { apply wp_bind. eapply wp_mono; [apply wp_arc_OnInsert, inv_make|]. intros r s (Hi & _).
      eapply wp_mono; [by apply wp_arc_OnInsert|]. intros ? ? (? & _). done. }
    apply (wp_run _ _ _ [] Ok two_residents [] Hw). vm_compute. reflexivity.
  - intros j Hj. change (pos_ two_residents)
      with (<[key 1 := (kT1, 1%nat)]> (<[key 0 := (kT1, 0%nat)]> (∅ : gmap BlockKey (ListId * iterator)))).
    rewrite !lookup_insert_ne by (intros E%key_inj; lia). apply lookup_empty.
Qed.

(** C36 (invariant, negative): the ghost lists are not bounded by [c] alone.  With
    [c = 1] and a DRAM tier that holds two blocks, every round of demoting a
    victim and inserting a new block adds one key to B1 and none is ever
    trimmed: after [n] rounds, all of which succeed, B1 holds [n] keys while two
    blocks are resident. *)
Theorem arc_ghosts_unbounded (n : nat) :
  exists s, churn 2 n two_residents [] = Done (tt, s, [])
            /\ size (b1_ s) = Z.of_nat n /\ size (t1_ s) + size (t2_ s) = 2 /\ c_ s = 1.
Proof.
  destruct (churned_many n 0 _ churned_two_residents) as (s & E & [Hc (a & b & Ht1 & _) Ht2 _ Hb1 _ _ _]).
  exists s. split_and!; [done| | |done].
  - unfold size, zlen. rewrite Hb1. lia.
  - unfold size, zlen. by rewrite Ht1, Ht2.
Qed.
