(* ===== verification/LocalIndex.v ===== *)
(** * Local index

    [include/tidepool/store/local_index.h], [src/store/index/local_index.cpp]:
    the node-local directory from block keys to locations, and the preflight /
    commit pair the storage node builds its multi-object commits from. *)

From S2P Require Import Prelude Api BlockKeys.

Module LocalIndex.

Record LocalIndex : Type := mkIndex { table_ : gmap BlockKey Location }.

Definition empty : LocalIndex := mkIndex ∅.

(** Copying the location and, for a new key, the map node may throw. *)
Definition Upsert (k : BlockKey) (loc : Location) : comp LocalIndex Status :=
  copy_fails ← alloc_fails;
  if copy_fails : bool then mret (mkStatus kOutOfCapacity "LocalIndex::Upsert allocation failed")
  else (
    s ← get;
    match table_ s !! k with
    | None =>
        node_fails ← alloc_fails;
        if node_fails : bool then mret (mkStatus kOutOfCapacity "LocalIndex::Upsert allocation failed")
        else (modify (fun s => mkIndex (<[k := loc]> (table_ s))) ;; mret Ok)
    | Some _ => modify (fun s => mkIndex (<[k := loc]> (table_ s))) ;; mret Ok
    end).

Definition InsertIfAbsent (k : BlockKey) (loc : Location) : comp LocalIndex Status :=
  s ← get;
  match table_ s !! k with
  | Some _ => mret Ok
  | None =>
      node_fails ← alloc_fails;
      if node_fails : bool then
        mret (mkStatus kOutOfCapacity "LocalIndex::InsertIfAbsent allocation failed")
      else (modify (fun s => mkIndex (<[k := loc]> (table_ s))) ;; mret Ok)
  end.

Definition ValidateRelocate (k : BlockKey) (expected_tier : TierType) (s : LocalIndex) : Status :=
  match table_ s !! k with
  | None => NotFound (ToString k)
  | Some loc =>
      if decide (tier loc = expected_tier) then Ok
      else Internal "LocalIndex::ValidateRelocate: current tier does not match expected tier"
  end.

Definition RelocateExisting (k : BlockKey) (expected_tier new_tier : TierType) (new_handle : Z)
  : comp LocalIndex unit :=
  s ← get;
  match table_ s !! k with
  | None => terminate
  | Some loc =>
      if decide (tier loc = expected_tier) then
        modify (fun s => mkIndex (<[k := mkLocation (node_id loc) new_tier new_handle]> (table_ s)))
      else terminate
  end.

Definition Find (k : BlockKey) (s : LocalIndex) : Result Location :=
  match table_ s !! k with
  | None => Error (NotFound (ToString k))
  | Some loc => Value loc
  end.

Definition Remove (k : BlockKey) : comp LocalIndex Status :=
  s ← get;
  match table_ s !! k with
  | None => mret (NotFound (ToString k))
  | Some _ => modify (fun s => mkIndex (delete k (table_ s))) ;; mret Ok
  end.

Definition RemoveExisting (k : BlockKey) : comp LocalIndex unit :=
  s ← get;
  match table_ s !! k with
  | None => terminate
  | Some _ => modify (fun s => mkIndex (delete k (table_ s)))
  end.

Definition Contains (k : BlockKey) (s : LocalIndex) : bool := bool_decide (is_Some (table_ s !! k)).

Definition size (s : LocalIndex) : Z := Z.of_nat (map_size (table_ s)).

Definition Swap (other : LocalIndex) : comp LocalIndex LocalIndex :=
  s ← get; modify (fun _ => other) ;; mret s.

(** ** Specifications *)

Lemma wp_Upsert s k loc :
  wp (Upsert k loc) (fun r s' =>
    if ok r then table_ s' = <[k := loc]> (table_ s) else s' = s) s.
Proof. unfold Upsert. wp_steps; [|done]. destruct (table_ s !! k); by wp_steps. Qed.

Lemma wp_InsertIfAbsent s k loc :
  wp (InsertIfAbsent k loc) (fun r s' =>
    if ok r then
      table_ s' = (if decide (is_Some (table_ s !! k)) then table_ s else <[k := loc]> (table_ s))
    else s' = s) s.
Proof.
  unfold InsertIfAbsent. wp_steps. destruct (table_ s !! k) eqn:E; wp_steps; try done.
  all: rewrite ok_Ok; case_decide as H; naive_solver.
Qed.

Lemma ValidateRelocate_ok s k t :
  ok (ValidateRelocate k t s) = true <-> exists loc, table_ s !! k = Some loc /\ tier loc = t.
Proof.
  unfold ValidateRelocate. destruct (table_ s !! k) as [loc|]; [|naive_solver].
  case_decide; rewrite ?ok_Ok; naive_solver.
Qed.

Lemma wp_RelocateExisting s k loc t t' h (Q : unit -> LocalIndex -> Prop) :
  table_ s !! k = Some loc -> tier loc = t ->
  Q tt (mkIndex (<[k := mkLocation (node_id loc) t' h]> (table_ s))) ->
  wp (RelocateExisting k t t' h) Q s.
Proof. intros E Ht HQ. unfold RelocateExisting. wp_steps. rewrite E, decide_True by done. by wp_steps. Qed.

Lemma wp_RemoveExisting s k loc (Q : unit -> LocalIndex -> Prop) :
  table_ s !! k = Some loc -> Q tt (mkIndex (delete k (table_ s))) -> wp (RemoveExisting k) Q s.
Proof. intros E HQ. unfold RemoveExisting. wp_steps. rewrite E. by wp_steps. Qed.

(** The preflight / commit pair of the index.  After
    [ValidateRelocate] has succeeded, [RelocateExisting] cannot reach
    [std::terminate()], moves exactly that key to the new tier and handle on the
    same node and leaves every other entry alone; when validation fails the
    commit would terminate. *)
Theorem relocate_after_validate (s : LocalIndex) (k k' : BlockKey) (t t' : TierType) (h : Z) (al : Alloc) :
  (ok (ValidateRelocate k t s) = true <-> RelocateExisting k t t' h s al <> Terminated)
  /\ match RelocateExisting k t t' h s al with
     | Done (_, s', al') =>
         al' = al
         /\ Find k' s' =
              (if decide (k' = k) then
                 match Find k s with
                 | Value loc => Value (mkLocation (node_id loc) t' h)
                 | Error e => Error e
                 end
               else Find k' s)
     | Terminated => True
     end.
Proof.
  rewrite ValidateRelocate_ok. unfold RelocateExisting, mbind, comp_bind, get, Find.
  destruct (table_ s !! k) as [loc|] eqn:E; [|split; [naive_solver|done]].
  case_decide as Ht; [|split; [naive_solver|done]]. cbn. split; [naive_solver|]. split; [done|].
  case_decide as Hk; [subst; by rewrite lookup_insert_eq|]. by rewrite lookup_insert_ne by done.
Qed.
End LocalIndex.
