(* ===== verification/Tier.v ===== *)
(** * Storage tier interface

    [include/tidepool/store/tier.h]: the operations of a tier as a class, and
    what the storage node relies on as a class of laws.  A tier holds a finite
    map of blocks ([tier_contents]); DRAM is exact and its operations fail
    without effect, a persistent tier may have applied a write that it reports
    as failed. *)

From S2P Require Import Prelude Api BlockCodec.

Record TierStats : Type := mkTierStats {
  num_blocks : Z;
  used_bytes : Z;
  capacity_bytes : Z;
  put_count : Z;
  get_count : Z;
  evict_count : Z;
  hits : Z;
  misses : Z
}.

Record BlockInfo : Type := mkBlockInfo {
  bi_metadata : BlockMetadata;
  payload_size : Z;
  bi_handle : Z
}.

Class Tier (T : Type) : Type := {
  tier_type : T -> TierType;
  tier_Open : comp T Status;
  tier_Close : comp T Status;
  tier_IsReady : T -> bool;
  tier_Probe : BlockKey -> comp T (Result BlockInfo);
  (** [Put(key, block, &handle)]: the handle on success. *)
  tier_Put : BlockKey -> Block -> comp T (Result Z);
  (** [Get(key, dst, out)]: the flag says whether [out] is non-null; the status,
      the destination memory after the call and [*out] are returned. *)
  tier_Get : BlockKey -> MutableBuffer -> bool -> comp T (Status * MutableBuffer * BlockView);
  tier_Evict : BlockKey -> comp T Status;
  tier_ValidateEraseExisting : BlockKey -> T -> Status;
  tier_EraseExisting : BlockKey -> comp T unit;
  tier_VisitEntries : forall V, (BlockKey -> BlockInfo -> comp V Status) -> comp (T * V) Status;
  tier_Stats : T -> TierStats
}.

(** The base class's lifecycle hooks, for tiers without external resources. *)
Definition default_Open {T} : comp T Status := mret Ok.
Definition default_Close {T} : comp T Status := mret Ok.
Definition default_IsReady {T} (t : T) : bool := true.

(** Calling a visitor on a snapshot of entries, stopping at its first error. *)
Fixpoint visit_all {V} (visitor : BlockKey -> BlockInfo -> comp V Status)
    (entries : list (BlockKey * BlockInfo)) : comp V Status :=
  match entries with
  | [] => mret Ok
  | (k, info) :: rest =>
      s ← visitor k info;
      if ok s then visit_all visitor rest else mret s
  end.

(** What a tier can hold: values of the declared widths, whose serialized form
    is a [std::string] (at most [PTRDIFF_MAX] bytes). *)
Definition storable (k : BlockKey) (b : Block) : Prop :=
  BlockKey_wf k /\ Block_wf b /\ block_codec.kHeaderSize + size_bytes b < 2 ^ 63.

(** Payload bytes of a set of blocks. *)
Definition total_bytes (m : gmap BlockKey Block) : Z :=
  map_fold (fun _ b acc => size_bytes b + acc) 0 m.

Lemma total_bytes_empty : total_bytes ∅ = 0.
Proof. unfold total_bytes. by rewrite map_fold_empty. Qed.

Lemma total_bytes_insert m k b :
  m !! k = None -> total_bytes (<[k := b]> m) = size_bytes b + total_bytes m.
Proof. intros Hk. unfold total_bytes. rewrite map_fold_insert_L; [done|intros; lia|done]. Qed.

Lemma total_bytes_delete m k b :
  m !! k = Some b -> total_bytes (delete k m) = total_bytes m - size_bytes b.
Proof.
  intros Hk. rewrite <- (insert_delete_id m k b Hk) at 2.
  rewrite total_bytes_insert by apply lookup_delete_eq. lia.
Qed.

Lemma total_bytes_replace m k b b' :
  m !! k = Some b -> total_bytes (<[k := b']> m) = total_bytes m - size_bytes b + size_bytes b'.
Proof.
  intros Hk. rewrite <- (insert_delete_eq m).
  rewrite total_bytes_insert, (total_bytes_delete m k b) by (done || apply lookup_delete_eq). lia.
Qed.

Lemma total_bytes_nonneg m : 0 <= total_bytes m.
Proof.
  induction m as [|k b m Hk IH] using map_ind; [by rewrite total_bytes_empty|].
  rewrite total_bytes_insert by done. pose proof (zlen_nonneg (data b)). unfold size_bytes. lia.
Qed.

Class TierLaws (T : Type) `{Tier T} : Type := {
  tier_inv : T -> Prop;
  tier_contents : T -> gmap BlockKey Block;

  (** What no operation of an open tier changes. *)
  tier_frame (t t' : T) : Prop :=
    tier_inv t' /\ tier_type t' = tier_type t /\ tier_IsReady t' = tier_IsReady t
    /\ capacity_bytes (tier_Stats t') = capacity_bytes (tier_Stats t);

  tier_capacity_range t : tier_inv t -> u64 (capacity_bytes (tier_Stats t));

  tier_contents_wf t k b :
    tier_inv t -> tier_contents t !! k = Some b -> storable k b;

  tier_Open_law t :
    tier_inv t ->
    wp tier_Open (fun _ t' =>
      tier_inv t' /\ tier_type t' = tier_type t /\ tier_contents t' = tier_contents t
      /\ capacity_bytes (tier_Stats t') = capacity_bytes (tier_Stats t)) t;

  tier_Close_law t :
    tier_inv t ->
    wp tier_Close (fun _ t' =>
      tier_inv t' /\ tier_type t' = tier_type t /\ tier_contents t' = tier_contents t
      /\ capacity_bytes (tier_Stats t') = capacity_bytes (tier_Stats t)) t;

  tier_Probe_law t k :
    tier_inv t -> tier_IsReady t = true -> BlockKey_wf k ->
    wp (tier_Probe k) (fun r t' =>
      tier_frame t t' /\ tier_contents t' = tier_contents t
      /\ match r with
         | Value i => exists b, tier_contents t !! k = Some b /\ bi_metadata i = metadata b
                                /\ payload_size i = size_bytes b
         | Error s => ok s = false
                      /\ (tier_type t = kDram \/ code s = kNotFound -> tier_contents t !! k = None)
                      /\ (tier_type t = kDram -> code s = kNotFound)
         end) t;

  tier_Put_law t k b :
    tier_inv t -> tier_IsReady t = true -> storable k b ->
    wp (tier_Put k b) (fun r t' =>
      tier_frame t t'
      /\ match r with
         | Value _ => tier_contents t' = <[k := b]> (tier_contents t)
         | Error s => ok s = false
                      /\ (tier_contents t' = tier_contents t
                          \/ tier_type t <> kDram /\ tier_contents t' = <[k := b]> (tier_contents t))
         end) t;

  tier_Get_law t k dst out :
    tier_inv t -> tier_IsReady t = true -> BlockKey_wf k ->
    wp (tier_Get k dst out) (fun r t' =>
      let '(s, dst', v) := r in
      tier_frame t t' /\ tier_contents t' = tier_contents t
      /\ mb_capacity dst' = mb_capacity dst
      /\ (MutableBuffer_wf dst -> MutableBuffer_wf dst')
      /\ if ok s then
           out = true
           /\ exists b, tier_contents t !! k = Some b /\ size_bytes b <= mb_capacity dst
                        /\ bv_size v = size_bytes b /\ bv_metadata v = metadata b
                        /\ view_bytes dst' v = data b
         else v = BlockView_default /\ dst' = dst
              /\ (code s = kNotFound -> tier_contents t !! k = None)
              /\ (tier_type t = kDram -> out = true -> (mb_data dst = None -> mb_capacity dst = 0) ->
                  forall b, tier_contents t !! k = Some b -> mb_capacity dst < size_bytes b)) t;

  tier_ValidateEraseExisting_law t k :
    tier_inv t -> tier_type t = kDram ->
    ok (tier_ValidateEraseExisting k t) = true <-> is_Some (tier_contents t !! k);

  tier_EraseExisting_law t k b :
    tier_inv t -> tier_type t = kDram -> tier_contents t !! k = Some b ->
    wp (tier_EraseExisting k) (fun _ t' =>
      tier_frame t t' /\ tier_contents t' = delete k (tier_contents t)) t;

  (** A visitor that keeps [I] over the set of visited keys has seen every entry
      when the visit succeeds. *)
  tier_VisitEntries_law V (visitor : BlockKey -> BlockInfo -> comp V Status) (I : gset BlockKey -> V -> Prop) t v :
    tier_inv t -> tier_IsReady t = true -> I ∅ v ->
    (forall S k info b v', I S v' -> k ∉ S -> tier_contents t !! k = Some b ->
       wp (visitor k info) (fun s v'' => ok s = true -> I ({[k]} ∪ S) v'') v') ->
    wp (tier_VisitEntries V visitor) (fun s tv =>
      tier_frame t tv.1 /\ tier_contents tv.1 = tier_contents t
      /\ (ok s = true -> I (dom (tier_contents t)) tv.2)) (t, v);

  tier_Stats_law t :
    tier_inv t -> tier_type t = kDram ->
    used_bytes (tier_Stats t) = wrap 64 (total_bytes (tier_contents t))
    /\ num_blocks (tier_Stats t) = Z.of_nat (size (tier_contents t))
}.

Section visit.
Context {V : Type} (visitor : BlockKey -> BlockInfo -> comp V Status).
Context (I : gset BlockKey -> V -> Prop) (contents : gmap BlockKey Block).
Hypothesis Hvisit : forall S k info b v', I S v' -> k ∉ S -> contents !! k = Some b ->
  wp (visitor k info) (fun s v'' => ok s = true -> I ({[k]} ∪ S) v'') v'.

(** Visiting distinct entries of the map. *)
Lemma wp_visit_all entries S v :
  I S v -> NoDup (entries.*1) -> (forall k, k ∈ (entries.*1) -> (k ∉ S) /\ is_Some (contents !! k)) ->
  wp (visit_all visitor entries)
     (fun s v' => ok s = true -> I (list_to_set entries.*1 ∪ S) v') v.
Proof.
  revert S v. induction entries as [|[k info] rest IH]; intros S v HI Hnd Hin; cbn [visit_all].
  - wp_steps. intros _. cbn. by rewrite union_empty_l_L.
  - rewrite fmap_cons in *. cbn [fst] in *. apply NoDup_cons in Hnd as [Hk Hnd].
    destruct (Hin k ltac:(by left)) as [HkS [b Hb]]. wp_steps.
    eapply wp_mono; [by eapply Hvisit|]. intros s v1 H1. cbv beta in H1.
    destruct (ok s) eqn:Es; wp_steps; [|by rewrite Es].
    eapply wp_mono.
    + apply (IH ({[k]} ∪ S)); [by apply H1|done|]. intros k' Hk'.
      destruct (Hin k' ltac:(by right)) as [? ?]. split; [|done]. set_solver.
    + intros s' v' H' Hs'. specialize (H' Hs'). cbn [list_to_set].
      by replace ({[k]} ∪ list_to_set (rest.*1) ∪ S) with (list_to_set (rest.*1) ∪ ({[k]} ∪ S)) by set_solver.
Qed.
End visit.
