(* ===== verification/DramTier.v ===== *)
(** * DRAM tier

    [src/store/tier/dram/dram_tier.{h,cpp}]: the in-memory tier, with its
    statistics kept in 64-bit counters. *)

From S2P Require Import Prelude Api BlockKeys Tier.

Module DramTier.

Record Entry : Type := mkEntry { block : Block; entry_handle : Z }.

Record DramTier : Type := mkDram {
  store_ : gmap BlockKey Entry;
  next_handle_ : Z;
  stats_ : TierStats
}.

(** [DramTier::DramTier(capacity_bytes)] *)
Definition make (capacity : Z) : DramTier := mkDram ∅ 1 (mkTierStats 0 0 capacity 0 0 0 0 0).

Definition set_stats (st : TierStats) (s : DramTier) : DramTier := mkDram (store_ s) (next_handle_ s) st.
Definition set_store (m : gmap BlockKey Entry) (s : DramTier) : DramTier := mkDram m (next_handle_ s) (stats_ s).

(** The counters a method touches. *)
Definition add_occupancy (blocks bytes : Z) (st : TierStats) : TierStats :=
  mkTierStats (wrap 64 (num_blocks st + blocks)) (wrap 64 (used_bytes st + bytes)) (capacity_bytes st)
    (put_count st) (get_count st) (evict_count st) (hits st) (misses st).
Definition count_put (st : TierStats) : TierStats :=
  mkTierStats (num_blocks st) (used_bytes st) (capacity_bytes st)
    (wrap 64 (put_count st + 1)) (get_count st) (evict_count st) (hits st) (misses st).
Definition count_get (st : TierStats) : TierStats :=
  mkTierStats (num_blocks st) (used_bytes st) (capacity_bytes st)
    (put_count st) (wrap 64 (get_count st + 1)) (evict_count st) (wrap 64 (hits st + 1)) (misses st).
Definition count_evict (st : TierStats) : TierStats :=
  mkTierStats (num_blocks st) (used_bytes st) (capacity_bytes st)
    (put_count st) (get_count st) (wrap 64 (evict_count st + 1)) (hits st) (misses st).
Definition count_miss (st : TierStats) : TierStats :=
  mkTierStats (num_blocks st) (used_bytes st) (capacity_bytes st)
    (put_count st) (get_count st) (evict_count st) (hits st) (wrap 64 (misses st + 1)).

Definition Probe (k : BlockKey) : comp DramTier (Result BlockInfo) :=
  s ← get;
  match store_ s !! k with
  | None => mret (Error (NotFound (ToString k)))
  | Some e => mret (Value (mkBlockInfo (metadata (block e)) (size_bytes (block e)) (entry_handle e)))
  end.

(** The nodes of a hash map live at distinct addresses of a 64-bit address
    space, so an allocation for the 2^64-th of them fails. *)
Definition address_space_full (m : gmap BlockKey Entry) : bool := u64_max <=? Z.of_nat (size m).

Definition Put (k : BlockKey) (b : Block) : comp DramTier (Result Z) :=
  copy_fails ← alloc_fails;
  if copy_fails : bool then
    mret (Error (mkStatus kOutOfCapacity "DramTier::Put: block allocation failed"))
  else (
    s ← get;
    let new_size := size_bytes b in
    let handle := next_handle_ s in
    let commit :=
      modify (fun s => mkDram (store_ s) (wrap 64 (next_handle_ s + 1)) (count_put (stats_ s))) ;;
      mret (Value handle) in
    match store_ s !! k with
    | Some existing =>
        let old_size := size_bytes (block existing) in
        modify (fun s => set_store (<[k := mkEntry b handle]> (store_ s)) s) ;;
        (if old_size <=? new_size
         then modify (fun s => set_stats (add_occupancy 0 (new_size - old_size) (stats_ s)) s)
         else modify (fun s => set_stats (add_occupancy 0 (- (old_size - new_size)) (stats_ s)) s)) ;;
        commit
    | None =>
        node_fails ← alloc_fails;
        if node_fails || address_space_full (store_ s) then
          mret (Error (mkStatus kOutOfCapacity "DramTier::Put: map allocation failed"))
        else (
          modify (fun s => set_store (<[k := mkEntry b handle]> (store_ s)) s) ;;
          modify (fun s => set_stats (add_occupancy 1 new_size (stats_ s)) s) ;;
          commit)
    end).

Definition Get (k : BlockKey) (dst : MutableBuffer) (out : bool)
  : comp DramTier (Status * MutableBuffer * BlockView) :=
  if negb out then mret (InvalidArgument "DramTier::Get: out is null", dst, BlockView_default)
  else if bool_decide (mb_data dst = None) && negb (mb_capacity dst =? 0) then
    mret (InvalidArgument "DramTier::Get: dst.data is null with non-zero capacity", dst, BlockView_default)
  else (
    s ← get;
    match store_ s !! k with
    | None =>
        modify (fun s => set_stats (count_miss (stats_ s)) s) ;;
        mret (NotFound (ToString k), dst, BlockView_default)
    | Some e =>
        let blk := block e in
        if mb_capacity dst <? size_bytes blk then
          mret (mkStatus kOutOfCapacity "DramTier::Get: dst buffer too small", dst, BlockView_default)
        else (
          let dst' := match data blk with [] => dst | _ => buffer_write dst (data blk) end in
          modify (fun s => set_stats (count_get (stats_ s)) s) ;;
          mret (Ok, dst', mkBlockView (bool_decide (mb_data dst <> None)) (size_bytes blk) (metadata blk)))
    end).

Definition erase_entry (k : BlockKey) (e : Entry) (s : DramTier) : DramTier :=
  set_stats (count_evict (add_occupancy (-1) (- size_bytes (block e)) (stats_ s)))
            (set_store (delete k (store_ s)) s).

Definition Evict (k : BlockKey) : comp DramTier Status :=
  s ← get;
  match store_ s !! k with
  | None => mret (NotFound (ToString k))
  | Some e => modify (erase_entry k e) ;; mret Ok
  end.

Definition ValidateEraseExisting (k : BlockKey) (s : DramTier) : Status :=
  match store_ s !! k with
  | None => Internal "DramTier::ValidateEraseExisting: key is absent"
  | Some _ => Ok
  end.

Definition EraseExisting (k : BlockKey) : comp DramTier unit :=
  s ← get;
  match store_ s !! k with
  | None => terminate
  | Some e => modify (erase_entry k e)
  end.

(** The snapshot the visitor runs over, in the hash map's iteration order. *)
Definition entries (s : DramTier) : list (BlockKey * BlockInfo) :=
  (fun p => (p.1, mkBlockInfo (metadata (block p.2)) (size_bytes (block p.2)) (entry_handle p.2)))
    <$> map_to_list (store_ s).

Definition VisitEntries V (visitor : BlockKey -> BlockInfo -> comp V Status) : comp (DramTier * V) Status :=
  snapshot_fails ← alloc_fails;
  if snapshot_fails : bool then
    mret (mkStatus kOutOfCapacity "DramTier::VisitEntries allocation failed")
  else (
    s ← get;
    zoom snd (fun v s => (s.1, v)) (visit_all visitor (entries s.1))).

Definition Stats (s : DramTier) : TierStats := stats_ s.

#[global] Instance DramTier_tier : Tier DramTier := {|
  tier_type := fun _ => kDram;
  tier_Open := default_Open;
  tier_Close := default_Close;
  tier_IsReady := default_IsReady;
  tier_Probe := Probe;
  tier_Put := Put;
  tier_Get := Get;
  tier_Evict := Evict;
  tier_ValidateEraseExisting := ValidateEraseExisting;
  tier_EraseExisting := EraseExisting;
  tier_VisitEntries := VisitEntries;
  tier_Stats := Stats
|}.

(** ** The contract *)

Definition contents (s : DramTier) : gmap BlockKey Block := block <$> store_ s.

Record inv (s : DramTier) : Prop := {
  inv_wf : forall k e, store_ s !! k = Some e -> storable k (block e);
  inv_blocks : num_blocks (stats_ s) = Z.of_nat (size (store_ s));
  inv_addressable : Z.of_nat (size (store_ s)) <= u64_max;
  inv_bytes : used_bytes (stats_ s) = wrap 64 (total_bytes (contents s));
  inv_capacity : u64 (capacity_bytes (stats_ s))
}.

Lemma dram_inv_make c : u64 c -> inv (make c).
Proof. intros Hc. split; cbn; done. Qed.

Lemma contents_lookup s k : contents s !! k = block <$> store_ s !! k.
Proof. apply lookup_fmap. Qed.

Lemma contents_insert s k b h n st :
  contents (mkDram (<[k := mkEntry b h]> (store_ s)) n st) = <[k := b]> (contents s).
Proof. unfold contents. cbn. by rewrite fmap_insert. Qed.

Lemma contents_erase k e s : contents (erase_entry k e s) = delete k (contents s).
Proof. unfold contents. cbn. by rewrite fmap_delete. Qed.

Lemma wrap_add_wrap a b : wrap 64 (wrap 64 a + b) = wrap 64 (a + b).
Proof. unfold wrap. by rewrite Z.add_mod_idemp_l. Qed.

Lemma inv_count s st' :
  num_blocks st' = num_blocks (stats_ s) -> used_bytes st' = used_bytes (stats_ s) ->
  capacity_bytes st' = capacity_bytes (stats_ s) -> inv s -> inv (set_stats st' s).
Proof. intros E1 E2 E3 [H1 H2 H3 H4 H5]. split; cbn [set_stats store_ stats_]; rewrite ?E1, ?E2, ?E3; try done; exact H4. Qed.

Lemma inv_overwrite s k b h n e st' :
  inv s -> store_ s !! k = Some e -> storable k b ->
  st' = count_put (add_occupancy 0 (size_bytes b - size_bytes (block e)) (stats_ s)) ->
  inv (mkDram (<[k := mkEntry b h]> (store_ s)) n st').
Proof.
  intros [H1 H2 H3 H4 H5] Hk Hw ->. split; cbn [store_ stats_ count_put add_occupancy num_blocks used_bytes capacity_bytes].
  - intros k' e' [[-> <-]|[_ ?]]%lookup_insert_Some; [done|by eapply H1].
  - rewrite map_size_insert_Some, Z.add_0_r, H2 by eauto. apply wrap_small. unfold in_range, u64_max in *. lia.
  - by rewrite map_size_insert_Some by eauto.
  - rewrite contents_insert, H4, wrap_add_wrap, (total_bytes_replace _ k (block e)) by (by rewrite contents_lookup, Hk).
    f_equal. lia.
  - done.
Qed.

Lemma inv_new s k b h n st' :
  inv s -> store_ s !! k = None -> address_space_full (store_ s) = false -> storable k b ->
  st' = count_put (add_occupancy 1 (size_bytes b) (stats_ s)) ->
  inv (mkDram (<[k := mkEntry b h]> (store_ s)) n st').
Proof.
  intros [H1 H2 H3 H4 H5] Hk Hfull Hw ->. apply Z.leb_gt in Hfull.
  split; cbn [store_ stats_ count_put add_occupancy num_blocks used_bytes capacity_bytes].
  - intros k' e' [[-> <-]|[_ ?]]%lookup_insert_Some; [done|by eapply H1].
  - rewrite map_size_insert_None, H2 by done. rewrite wrap_small by (unfold in_range, u64_max in *; lia). lia.
  - rewrite map_size_insert_None by done. lia.
  - rewrite contents_insert, H4, wrap_add_wrap, total_bytes_insert by (by rewrite contents_lookup, Hk).
    f_equal. lia.
  - done.
Qed.

Lemma inv_erase_entry s k e : inv s -> store_ s !! k = Some e -> inv (erase_entry k e s).
Proof.
  intros [H1 H2 H3 H4 H5] Hk.
  pose proof (map_size_delete_Some k (store_ s) ltac:(by eexists)) as Hsz.
  assert (size (store_ s) <> 0%nat) by (intros E%map_size_empty_inv; by rewrite E, lookup_empty in Hk).
  unfold erase_entry. split;
    cbn [set_stats set_store store_ stats_ count_evict add_occupancy num_blocks used_bytes capacity_bytes].
  - intros k' e' [_ ?]%lookup_delete_Some. by eapply H1.
  - rewrite Hsz, H2. rewrite wrap_small by (unfold in_range, u64_max in *; lia). lia.
  - rewrite Hsz. lia.
  - change (contents _) with (contents (erase_entry k e s)). rewrite contents_erase, H4, wrap_add_wrap.
    rewrite (total_bytes_delete _ k (block e)) by (by rewrite contents_lookup, Hk). f_equal.
  - done.
Qed.

(** *** Specifications of the operations *)

Lemma wp_dram_Put s k b :
  inv s -> storable k b ->
  wp (Put k b) (fun r s' =>
    match r with
    | Value h => inv s' /\ contents s' = <[k := b]> (contents s) /\ h = next_handle_ s
                 /\ capacity_bytes (stats_ s') = capacity_bytes (stats_ s)
    | Error st => s' = s /\ code st = kOutOfCapacity
    end) s.
Proof.
  intros Hi Hw. unfold Put. wp_steps; [|done]. destruct (store_ s !! k) as [e|] eqn:E.
  - wp_steps. destruct (_ <=? _) eqn:Hle; wp_steps; boolZ;
      (split_and!; [|by apply contents_insert|done|done]; eapply inv_overwrite; [done..|];
       unfold count_put, add_occupancy; cbn; do 2 f_equal; lia).
  - wp_steps; cbn [orb]; [|done]. destruct (address_space_full (store_ s)) eqn:Ef; wp_steps; [done|].
    split_and!; [|by apply contents_insert|done|done]. by eapply inv_new.
Qed.

Lemma wp_dram_Get s k dst out :
  inv s ->
  wp (Get k dst out) (fun r s' =>
    let '(st, dst', v) := r in
    inv s' /\ contents s' = contents s /\ capacity_bytes (stats_ s') = capacity_bytes (stats_ s)
    /\ mb_capacity dst' = mb_capacity dst /\ (MutableBuffer_wf dst -> MutableBuffer_wf dst')
    /\ if ok st then
         out = true
         /\ exists b, contents s !! k = Some b /\ size_bytes b <= mb_capacity dst
                      /\ bv_size v = size_bytes b /\ bv_metadata v = metadata b
                      /\ view_bytes dst' v = data b
       else v = BlockView_default /\ dst' = dst /\ (code st = kNotFound -> contents s !! k = None)
            /\ (out = true -> (mb_data dst = None -> mb_capacity dst = 0) ->
                forall b, contents s !! k = Some b -> mb_capacity dst < size_bytes b)) s.
Proof.
  intros Hi. unfold Get. rewrite contents_lookup. destruct out; cbn [negb]; [|by wp_steps].
  destruct (bool_decide _ && _)%bool eqn:Ed; [wp_steps|].
  { boolZ. case_bool_decide; [|done]. ok_simpl. split_and!; try done. intros _ Hz. exfalso. naive_solver. }
  wp_steps. destruct (store_ s !! k) as [e|] eqn:E; [|wp_steps; ok_simpl; split_and!; try done; by apply inv_count].
  destruct (_ <? _) eqn:Hc; boolZ; wp_steps; ok_simpl; [split_and!; naive_solver|].
  split_and!; try done; [by apply inv_count| | |].
  - unfold buffer_write. by repeat case_match.
  - unfold MutableBuffer_wf, buffer_write. destruct (data (block e)) eqn:Ed'; [done|].
    rewrite <- Ed'. destruct (mb_data dst) as [mem|] eqn:Em; cbn; rewrite ?Em; [|done]. intros Hm.
    rewrite zlen_app. unfold size_bytes, zlen in *. rewrite length_drop. lia.
  - exists (block e). split_and!; try done.
    destruct (data (block e)) eqn:Ed'.
    + unfold view_bytes, size_bytes. rewrite Ed'. by case_match.
    + rewrite <- Ed'. apply buffer_write_view. right. intros En. rewrite En in Ed. rewrite bool_decide_true in Ed by done.
      cbn in Ed. boolZ. unfold size_bytes, zlen in Hc. rewrite Ed', Ed in Hc. cbn in Hc. lia.
Qed.

Lemma wp_dram_VisitEntries V (visitor : BlockKey -> BlockInfo -> comp V Status) I s v :
  I ∅ v ->
  (forall S k info b v', I S v' -> k ∉ S -> contents s !! k = Some b ->
     wp (visitor k info) (fun st v'' => ok st = true -> I ({[k]} ∪ S) v'') v') ->
  wp (VisitEntries V visitor)
     (fun st sv => sv.1 = s /\ (ok st = true -> I (dom (contents s)) sv.2)) (s, v).
Proof.
  intros HI Hv. unfold VisitEntries. wp_steps; [|done]. cbn [fst snd].
  assert ((entries s).*1 = (map_to_list (store_ s)).*1) as Ek
    by (unfold entries; rewrite <- list_fmap_compose; by apply list_fmap_ext; intros; cbn).
  eapply wp_mono.
  - eapply (wp_visit_all visitor I (contents s) Hv (entries s) ∅ v HI); rewrite Ek.
    + apply NoDup_fst_map_to_list.
    + intros k ([k' e] & -> & Hin)%list_elem_of_fmap. split; [set_solver|].
      apply elem_of_map_to_list in Hin. cbn. rewrite contents_lookup, Hin. eauto.
  - intros st v' H. split; [done|]. intros Hok. specialize (H Hok). rewrite Ek in H.
    replace (dom (contents s)) with (list_to_set (map_to_list (store_ s)).*1 ∪ (∅ : gset BlockKey)); [done|].
    apply set_eq. intros k. rewrite elem_of_union, elem_of_list_to_set, list_elem_of_fmap, elem_of_dom, contents_lookup.
    rewrite fmap_is_Some. split.
    + intros [([k' e] & -> & Hin%elem_of_map_to_list)|?]; [by eexists|set_solver].
    + intros [e He]. left. exists (k, e). split; [done|]. by apply elem_of_map_to_list.
Qed.

Lemma capacity_frame s s' :
  inv s' -> capacity_bytes (stats_ s') = capacity_bytes (stats_ s) ->
  inv s' /\ kDram = kDram /\ true = true /\ capacity_bytes (Stats s') = capacity_bytes (Stats s).
Proof. done. Qed.

#[global] Instance DramTier_laws : TierLaws DramTier.
Proof.
  refine {| tier_inv := inv; tier_contents := contents |};
    cbn [tier_type tier_IsReady tier_Stats tier_Open tier_Close tier_Probe tier_Put tier_Get
         tier_ValidateEraseExisting tier_EraseExisting tier_VisitEntries DramTier_tier].
  - intros t Hi. apply Hi.
  - intros t k b Hi. rewrite contents_lookup, fmap_Some. intros (e & He & ->). by eapply inv_wf.
  - intros t Hi. unfold default_Open. by wp_steps.
  - intros t Hi. unfold default_Close. by wp_steps.
  - intros t k Hi _ _. unfold Probe. wp_steps. rewrite contents_lookup.
    destruct (store_ t !! k) as [e|]; wp_steps; split_and!; try done. by exists (block e).
  - intros t k b Hi _ Hw. eapply wp_mono; [by apply wp_dram_Put|]. intros [h|st] t' H; cbv beta iota in H.
    + destruct H as (? & ? & _ & ?). done.
    + destruct H as [-> Hc]. split_and!; try done; [|by left]. apply ok_false_iff. by rewrite Hc.
  - intros t k dst out Hi _ _. eapply wp_mono; [by apply wp_dram_Get|].
    intros [[st dst'] v] t' (? & ? & ? & ? & ? & H). split_and!; try done.
    destruct (ok st); [done|]. naive_solver.
  - intros t k Hi _. unfold ValidateEraseExisting. rewrite contents_lookup.
    destruct (store_ t !! k); cbn; split; try done; eauto.
  - intros t k b Hi _. rewrite contents_lookup, fmap_Some. intros (e & He & ->).
    unfold EraseExisting. wp_steps. rewrite He. wp_steps.
    split; [|by apply contents_erase]. split_and!; try done. by apply inv_erase_entry.
  - intros V visitor I t v Hi _ HI Hv. eapply wp_mono; [by apply wp_dram_VisitEntries|].
    intros st [t' v'] [E H]. cbn in *. by subst.
  - intros t Hi _. split; [apply Hi|]. unfold Stats. rewrite (inv_blocks t Hi). unfold contents.
    by rewrite map_size_fmap.
Defined.

(** [Put] followed by [Get] of the same key. *)
Definition put_then_get (k : BlockKey) (b : Block) (dst : MutableBuffer)
  : comp DramTier (option (Status * MutableBuffer * BlockView)) :=
  r ← Put k b;
  match r with
  | Value _ => x ← Get k dst true; mret (Some x)
  | Error _ => mret None
  end.

(** C22 (roundtrip): the DRAM tier stores and accounts exactly.  Whatever the
    allocator does, a [Put] either fails with the tier untouched, or a [Get]
    into a large enough buffer then succeeds and delivers the payload and the
    metadata; the other blocks are unaffected, [used_bytes] is the sum of the
    stored payload sizes modulo 2^64 and [num_blocks] their number. *)
Theorem dram_put_get (s : DramTier) (k : BlockKey) (b : Block) (dst : MutableBuffer)
    (Hs : inv s) (Hw : storable k b)
    (Hdst : mb_data dst <> None) (Hfit : size_bytes b <= mb_capacity dst) :
  wp (put_then_get k b dst) (fun r s' =>
    match r with
    | Some (st, dst', v) =>
        ok st = true /\ view_bytes dst' v = data b /\ bv_metadata v = metadata b
        /\ contents s' = <[k := b]> (contents s)
        /\ used_bytes (Stats s') = wrap 64 (total_bytes (<[k := b]> (contents s)))
        /\ num_blocks (Stats s') = Z.of_nat (size (<[k := b]> (contents s)))
    | None => s' = s
    end) s.
Proof.
  unfold put_then_get. wp_steps. eapply wp_mono; [by apply wp_dram_Put|].
  intros [h|st] s1 H1; cbv beta iota in H1; wp_steps; [|apply H1].
  destruct H1 as (Hi1 & Hc1 & _). eapply wp_mono; [by apply wp_dram_Get|].
  intros [[st dst'] v] s2 (Hi2 & Hc2 & _ & _ & _ & H2). wp_steps. rewrite Hc1, lookup_insert_eq in H2.
  assert (used_bytes (Stats s2) = wrap 64 (total_bytes (<[k := b]> (contents s)))
          /\ num_blocks (Stats s2) = Z.of_nat (size (<[k := b]> (contents s)))) as [Hu Hn].
  { rewrite <- Hc1, <- Hc2. split; [apply Hi2|]. unfold Stats. rewrite (inv_blocks s2 Hi2).
    unfold contents. by rewrite map_size_fmap. }
  destruct (ok st).
  - destruct H2 as (_ & b' & [= <-] & ? & ? & ? & ?). split_and!; try done. congruence.
  - destruct H2 as (_ & _ & _ & H2). specialize (H2 eq_refl ltac:(done) b eq_refl). lia.
Qed.

Definition example_key : BlockKey := mkBlockKey 11 2 7.
Definition example_block : Block := mkBlock (mkBlockMetadata 2 4 2 8 5 7) [byte.of_Z 1; byte.of_Z 2].
Definition example_dst : MutableBuffer := mkMutableBuffer (Some (replicate 4 (byte.of_Z 0))) 4.

Lemma dram_put_get_witness :
  inv (make 8)
  /\ wp (put_then_get example_key example_block example_dst) (fun r _ =>
       match r with
       | Some (st, dst', v) => ok st = true /\ view_bytes dst' v = data example_block
       | None => True
       end) (make 8).
Proof.
  assert (Hi : inv (make 8)) by (apply dram_inv_make; split; lia).
  split; [exact Hi|]. eapply wp_mono.
  - apply (dram_put_get (make 8) example_key example_block example_dst Hi); try done.
    all: repeat split; vm_compute; done.
  - intros [[[st dst'] v]|] s' H; [|done]. split; apply H.
Defined.
End DramTier.
