(* ===== verification/SsdTier.v ===== *)
(** * SSD tier

    [src/store/tier/ssd/ssd_tier.{h,cpp}], built with LevelDB: a block is stored
    under [BlockKey::ToString()] as a [block_codec] blob.  LevelDB is not part of
    the repository: it is the class [LevelDB] of the operations the tier calls,
    and [LevelDBLaws] states the documented behaviour the tier relies on.  Every
    call may fail, and a failed write may or may not have been applied. *)

From S2P Require Import Prelude Api BlockKeys BlockCodec Tier.
Import block_codec.

(** ** LevelDB *)

Inductive DbResult (A : Type) : Type :=
| DbOk (a : A)
| DbNotFound
| DbError (msg : string)
| DbBadAlloc.
Arguments DbOk {A} a.
Arguments DbNotFound {A}.
Arguments DbError {A} msg.
Arguments DbBadAlloc {A}.

(** [ldb_Scan] is an iterator run from [SeekToFirst()] until it is no longer
    valid: the records it produced and the iterator's final status. *)
Class LevelDB (D : Type) : Type := {
  ldb_Open : D -> option string * D;   (* the error message of a failed open *)
  ldb_Close : D -> D;
  ldb_Get : string -> D -> DbResult bytes * D;
  ldb_Put : string -> bytes -> D -> DbResult unit * D;
  ldb_Delete : string -> D -> DbResult unit * D;
  ldb_Scan : D -> list (string * bytes) * DbResult unit * D
}.

Class LevelDBLaws (D : Type) `{LevelDB D} : Type := {
  ldb_view : D -> gmap string bytes;
  ldb_value_size d k v : ldb_view d !! k = Some v -> zlen v < 2 ^ 63;
  ldb_Open_law d : ldb_view (ldb_Open d).2 = ldb_view d;
  ldb_Close_law d : ldb_view (ldb_Close d) = ldb_view d;
  ldb_Get_law d k :
    ldb_view (ldb_Get k d).2 = ldb_view d
    /\ match (ldb_Get k d).1 with
       | DbOk v => ldb_view d !! k = Some v
       | DbNotFound => ldb_view d !! k = None
       | _ => True
       end;
  ldb_Put_law d k v :
    zlen v < 2 ^ 63 ->
    match (ldb_Put k v d).1 with
    | DbOk _ => ldb_view (ldb_Put k v d).2 = <[k := v]> (ldb_view d)
    | _ => ldb_view (ldb_Put k v d).2 = ldb_view d \/ ldb_view (ldb_Put k v d).2 = <[k := v]> (ldb_view d)
    end;
  ldb_Delete_law d k :
    match (ldb_Delete k d).1 with
    | DbOk _ => ldb_view (ldb_Delete k d).2 = delete k (ldb_view d)
    | _ => ldb_view (ldb_Delete k d).2 = ldb_view d \/ ldb_view (ldb_Delete k d).2 = delete k (ldb_view d)
    end;
  ldb_Scan_law d :
    ldb_view (ldb_Scan d).2 = ldb_view d
    /\ NoDup (ldb_Scan d).1.1.*1
    /\ (forall k v, (k, v) ∈ (ldb_Scan d).1.1 -> ldb_view d !! k = Some v)
    /\ match (ldb_Scan d).1.2 with
       | DbOk _ => forall k v, ldb_view d !! k = Some v -> (k, v) ∈ (ldb_Scan d).1.1
       | _ => True
       end
}.

Module SsdTier.

(** ** Record codec *)

Definition StableHandle (k : BlockKey) : Z :=
  fnv_mix (fnv_mix (fnv_mix fnv_basis (prefix_hash k) 8) (prefix_len k) 4) (model_fingerprint k) 4.

Definition ValidateMetadata (k : BlockKey) (m : BlockMetadata) : Status :=
  if negb (meta_model_fingerprint m =? model_fingerprint k) then
    Corruption "SSD record model_fingerprint does not match BlockKey"
  else if negb (num_tokens m =? 0) && negb (num_tokens m =? prefix_len k) then
    Corruption "SSD record num_tokens does not match BlockKey prefix_len"
  else Ok.

(** The block info and the payload offset of a record. *)
Definition DecodeRecord (k : BlockKey) (value : bytes) : Result (BlockInfo * Z) :=
  match DeserializeHeader value with
  | Error s => Error (Corruption ("SSD record value is invalid: " +:+ Status_ToString s)%string)
  | Value h =>
      let s := ValidateMetadata k (h_metadata h) in
      if ok s then
        Value (mkBlockInfo (h_metadata h) (h_payload_len h) (StableHandle k), h_payload_offset h)
      else Error s
  end.

(** ** State *)

Section ssd.
Context {D : Type} `{LevelDB D}.

(** [db_] is the open flag: the handle is null when the database is closed.
    [disk] is the database at [db_path_]. *)
Record SsdTier : Type := mkSsd {
  db_path_ : string;
  stats_ : TierStats;
  db_ : bool;
  disk : D
}.

(** [SsdTier::SsdTier(db_path)] *)
Definition make (db_path : string) (d : D) : SsdTier :=
  mkSsd db_path (mkTierStats 0 0 0 0 0 0 0 0) false d.

Definition set_stats (st : TierStats) (s : SsdTier) : SsdTier := mkSsd (db_path_ s) st (db_ s) (disk s).
Definition set_disk (d : D) (s : SsdTier) : SsdTier := mkSsd (db_path_ s) (stats_ s) (db_ s) d.
Definition set_db (b : bool) (s : SsdTier) : SsdTier := mkSsd (db_path_ s) (stats_ s) b (disk s).

(** A call into the database. *)
Definition db_call {A} (f : D -> A * D) : comp SsdTier A :=
  s ← get;
  modify (set_disk (f (disk s)).2) ;;
  mret (f (disk s)).1.

(** ** Lifecycle *)

(** The recovery scan of [Open]: count the records, stop at the first invalid
    one. *)
Fixpoint scan_records (records : list (string * bytes)) (num_blocks used_bytes : Z) : Result (Z * Z) :=
  match records with
  | [] => Value (num_blocks, used_bytes)
  | (encoded_key, value) :: rest =>
      match FromString encoded_key with
      | Error s => Error (Corruption ("leveldb scan key: " +:+ Status_ToString s)%string)
      | Value k =>
          match DecodeRecord k value with
          | Error s => Error (Corruption ("leveldb scan value: " +:+ Status_ToString s)%string)
          | Value _ =>
              if u64_max - zlen value <? used_bytes then Error (Corruption "leveldb scan size overflow")
              else scan_records rest (wrap 64 (num_blocks + 1)) (used_bytes + zlen value)
          end
      end
  end.

Definition Open : comp SsdTier Status :=
  s ← get;
  if db_ s then mret Ok
  else (
    r ← db_call ldb_Open;
    match r with
    | Some msg => mret (IoError ("leveldb open: " +:+ msg)%string)
    | None =>
        scan_fails ← alloc_fails;
        if scan_fails : bool then
          (modify (fun s => set_disk (ldb_Close (disk s)) s) ;;
           mret (mkStatus kOutOfCapacity "leveldb scan allocation failed"))
        else (
          x ← db_call ldb_Scan;
          let scan_status :=
            match scan_records x.1 0 0 with
            | Error st => Error st
            | Value counts =>
                match x.2 with
                | DbOk _ => Value counts
                | DbNotFound => Error (IoError "leveldb scan: NotFound")
                | DbError msg => Error (IoError ("leveldb scan: " +:+ msg)%string)
                | DbBadAlloc => Error (mkStatus kOutOfCapacity "leveldb scan allocation failed")
                end
            end in
          match scan_status with
          | Error st => modify (fun s => set_disk (ldb_Close (disk s)) s) ;; mret st
          | Value (num_blocks, used_bytes) =>
              modify (fun s =>
                set_stats (mkTierStats num_blocks used_bytes (capacity_bytes (stats_ s)) 0 0 0 0 0)
                          (set_db true s)) ;;
              mret Ok
          end)
    end).

Definition Close : comp SsdTier Status :=
  s ← get;
  if db_ s then
    modify (fun s => set_db false (set_disk (ldb_Close (disk s)) s)) ;;
    mret Ok
  else mret Ok.

Definition IsReady (s : SsdTier) : bool := db_ s.

(** ** Data operations *)

Definition Probe (k : BlockKey) : comp SsdTier (Result BlockInfo) :=
  s ← get;
  if negb (db_ s) then mret (Error (Unavailable "SsdTier::Probe: tier is not open"))
  else (
    throws ← alloc_fails;
    if throws : bool then mret (Error (mkStatus kOutOfCapacity "SsdTier::Probe allocation failed"))
    else (
      r ← db_call (ldb_Get (ToString k));
      match r with
      | DbNotFound => mret (Error (NotFound (ToString k)))
      | DbError msg => mret (Error (IoError ("leveldb probe: " +:+ msg)%string))
      | DbBadAlloc => mret (Error (mkStatus kOutOfCapacity "SsdTier::Probe allocation failed"))
      | DbOk value =>
          match DecodeRecord k value with
          | Error st => mret (Error st)
          | Value (info, _) => mret (Value info)
          end
      end)).

(** The occupancy counters after a successful write. *)
Definition stats_after_put (existing : option bytes) (blob : bytes) (st : TierStats) : TierStats :=
  mkTierStats
    (match existing with Some _ => num_blocks st | None => wrap 64 (num_blocks st + 1) end)
    (wrap 64 (match existing with Some old => wrap 64 (used_bytes st - zlen old) | None => used_bytes st end
              + zlen blob))
    (capacity_bytes st) (wrap 64 (put_count st + 1)) (get_count st) (evict_count st) (hits st) (misses st).

Definition Put (k : BlockKey) (b : Block) : comp SsdTier (Result Z) :=
  s ← get;
  if negb (db_ s) then mret (Error (Unavailable "SsdTier::Put: tier is not open"))
  else if negb (ok (ValidateMetadata k (metadata b))) then
    mret (Error (InvalidArgument (message (ValidateMetadata k (metadata b)))))
  else (
    throws ← alloc_fails;
    if throws : bool then mret (Error (mkStatus kOutOfCapacity "SsdTier::Put allocation failed"))
    else (
      let blob := SerializeBlock b in
      g ← db_call (ldb_Get (ToString k));
      let write (existing : option bytes) :=
        w ← db_call (ldb_Put (ToString k) blob);
        match w with
        | DbOk _ =>
            modify (fun s => set_stats (stats_after_put existing blob (stats_ s)) s) ;;
            mret (Value (StableHandle k))
        | DbNotFound => mret (Error (IoError "leveldb put: NotFound"))
        | DbError msg => mret (Error (IoError ("leveldb put: " +:+ msg)%string))
        | DbBadAlloc => mret (Error (mkStatus kOutOfCapacity "SsdTier::Put backend allocation failed"))
        end in
      match g with
      | DbOk existing => write (Some existing)
      | DbNotFound => write None
      | DbError msg => mret (Error (IoError ("leveldb get(probe): " +:+ msg)%string))
      | DbBadAlloc => mret (Error (mkStatus kOutOfCapacity "SsdTier::Put backend allocation failed"))
      end)).

Definition count_get (st : TierStats) : TierStats :=
  mkTierStats (num_blocks st) (used_bytes st) (capacity_bytes st)
    (put_count st) (wrap 64 (get_count st + 1)) (evict_count st) (wrap 64 (hits st + 1)) (misses st).
Definition count_miss (st : TierStats) : TierStats :=
  mkTierStats (num_blocks st) (used_bytes st) (capacity_bytes st)
    (put_count st) (get_count st) (evict_count st) (hits st) (wrap 64 (misses st + 1)).

Definition Get (k : BlockKey) (dst : MutableBuffer) (out : bool)
  : comp SsdTier (Status * MutableBuffer * BlockView) :=
  let fail st := mret (st, dst, BlockView_default) in
  if negb out then fail (InvalidArgument "SsdTier::Get: out is null")
  else if bool_decide (mb_data dst = None) && negb (mb_capacity dst =? 0) then
    fail (InvalidArgument "SsdTier::Get: dst.data is null with non-zero capacity")
  else (
    s ← get;
    if negb (db_ s) then fail (Unavailable "SsdTier::Get: tier is not open")
    else (
      throws ← alloc_fails;
      if throws : bool then fail (mkStatus kOutOfCapacity "SsdTier::Get allocation failed")
      else (
        r ← db_call (ldb_Get (ToString k));
        match r with
        | DbNotFound =>
            modify (fun s => set_stats (count_miss (stats_ s)) s) ;;
            fail (NotFound (ToString k))
        | DbError msg => fail (IoError ("leveldb get: " +:+ msg)%string)
        | DbBadAlloc => fail (mkStatus kOutOfCapacity "SsdTier::Get allocation failed")
        | DbOk value =>
            match DecodeRecord k value with
            | Error st => fail st
            | Value (info, payload_off) =>
                if mb_capacity dst <? payload_size info then
                  fail (mkStatus kOutOfCapacity "SsdTier::Get: dst buffer too small")
                else (
                  let payload := take (Z.to_nat (payload_size info)) (drop (Z.to_nat payload_off) value) in
                  let dst' := if negb (payload_size info =? 0) then buffer_write dst payload else dst in
                  modify (fun s => set_stats (count_get (stats_ s)) s) ;;
                  mret (Ok, dst',
                        mkBlockView (bool_decide (mb_data dst <> None)) (payload_size info) (bi_metadata info)))
            end
        end))).

Definition stats_after_evict (existing : bytes) (st : TierStats) : TierStats :=
  mkTierStats (if 0 <? num_blocks st then num_blocks st - 1 else num_blocks st)
    (wrap 64 (used_bytes st - zlen existing)) (capacity_bytes st)
    (put_count st) (get_count st) (wrap 64 (evict_count st + 1)) (hits st) (misses st).

Definition Evict (k : BlockKey) : comp SsdTier Status :=
  s ← get;
  if negb (db_ s) then mret (Unavailable "SsdTier::Evict: tier is not open")
  else (
    throws ← alloc_fails;
    if throws : bool then mret (mkStatus kOutOfCapacity "SsdTier::Evict allocation failed")
    else (
      g ← db_call (ldb_Get (ToString k));
      match g with
      | DbNotFound => mret (NotFound (ToString k))
      | DbError msg => mret (IoError ("leveldb get(evict): " +:+ msg)%string)
      | DbBadAlloc => mret (mkStatus kOutOfCapacity "SsdTier::Evict allocation failed")
      | DbOk existing =>
          w ← db_call (ldb_Delete (ToString k));
          match w with
          | DbOk _ =>
              modify (fun s => set_stats (stats_after_evict existing (stats_ s)) s) ;;
              mret Ok
          | DbNotFound => mret (IoError "leveldb delete: NotFound")
          | DbError msg => mret (IoError ("leveldb delete: " +:+ msg)%string)
          | DbBadAlloc => mret (mkStatus kOutOfCapacity "SsdTier::Evict allocation failed")
          end
      end)).

Definition ValidateEraseExisting (k : BlockKey) (s : SsdTier) : Status :=
  NotImplemented "SsdTier does not support volatile commit erasure".

Definition EraseExisting (k : BlockKey) : comp SsdTier unit := terminate.

(** The snapshot of [VisitEntries]: decode the records, stop at the first
    invalid one. *)
Fixpoint decode_records (records : list (string * bytes)) : Result (list (BlockKey * BlockInfo)) :=
  match records with
  | [] => Value []
  | (encoded_key, value) :: rest =>
      match FromString encoded_key with
      | Error s => Error s
      | Value k =>
          match DecodeRecord k value with
          | Error s => Error s
          | Value (info, _) =>
              match decode_records rest with
              | Error s => Error s
              | Value entries => Value ((k, info) :: entries)
              end
          end
      end
  end.

Definition VisitEntries V (visitor : BlockKey -> BlockInfo -> comp V Status) : comp (SsdTier * V) Status :=
  s ← get;
  if negb (db_ s.1) then mret (Unavailable "SsdTier::VisitEntries: tier is not open")
  else (
    throws ← alloc_fails;
    if throws : bool then mret (mkStatus kOutOfCapacity "SsdTier::VisitEntries allocation failed")
    else (
      x ← zoom fst (fun t s => (t, s.2)) (db_call ldb_Scan);
      match decode_records x.1 with
      | Error st => mret st
      | Value entries =>
          match x.2 with
          | DbOk _ => zoom snd (fun v s => (s.1, v)) (visit_all visitor entries)
          | DbNotFound => mret (IoError "leveldb visit: NotFound")
          | DbError msg => mret (IoError ("leveldb visit: " +:+ msg)%string)
          | DbBadAlloc => mret (mkStatus kOutOfCapacity "SsdTier::VisitEntries allocation failed")
          end
      end)).

Definition Stats (s : SsdTier) : TierStats := stats_ s.

#[global] Instance SsdTier_tier : Tier SsdTier := {|
  tier_type := fun _ => kSsd;
  tier_Open := Open;
  tier_Close := Close;
  tier_IsReady := IsReady;
  tier_Probe := Probe;
  tier_Put := Put;
  tier_Get := Get;
  tier_Evict := Evict;
  tier_ValidateEraseExisting := ValidateEraseExisting;
  tier_EraseExisting := EraseExisting;
  tier_VisitEntries := VisitEntries;
  tier_Stats := Stats
|}.

(** ** What the database holds *)

(** The block a record describes. *)
Definition decode_block (k : BlockKey) (value : bytes) : option Block :=
  match DecodeRecord k value with
  | Value (info, off) =>
      Some (mkBlock (bi_metadata info) (take (Z.to_nat (payload_size info)) (drop (Z.to_nat off) value)))
  | Error _ => None
  end.

Definition decode_entry (r : string * bytes) : option (BlockKey * Block) :=
  match FromString r.1 with
  | Value k => (fun b => (k, b)) <$> decode_block k r.2
  | Error _ => None
  end.

Definition blocks (view : gmap string bytes) : gmap BlockKey Block :=
  list_to_map (omap decode_entry (map_to_list view)).

Lemma decode_entry_Some s v k b :
  decode_entry (s, v) = Some (k, b) <-> BlockKey_wf k /\ s = ToString k /\ decode_block k v = Some b.
Proof.
  unfold decode_entry. cbn [fst snd]. split.
  - destruct (FromString s) as [k'|] eqn:E; [|done]. intros (b' & Hb & [= -> ->])%fmap_Some.
    split_and!; [by eapply FromString_wf|by apply FromString_canonical|done].
  - intros (Hk & -> & Hb). by rewrite (FromString_ToString_value k Hk), Hb.
Qed.

Lemma NoDup_decoded_keys records :
  NoDup (records.*1) -> NoDup ((omap decode_entry records).*1).
Proof.
  induction records as [|[s v] records IH]; intros Hnd; [constructor|].
  rewrite fmap_cons in Hnd. apply NoDup_cons in Hnd as [Hs Hnd].
  change (omap decode_entry ((s, v) :: records))
    with (match decode_entry (s, v) with Some y => y :: omap decode_entry records | None => omap decode_entry records end).
  destruct (decode_entry (s, v)) as [[k b]|] eqn:E; [|by apply IH].
  rewrite fmap_cons. constructor; [|by apply IH]. cbn [fst].
  intros ([k' b'] & Ek & ([s' v'] & Hin & E')%list_elem_of_omap)%list_elem_of_fmap. cbn in Ek. subst k'.
  apply decode_entry_Some in E as (_ & -> & _). apply decode_entry_Some in E' as (_ & -> & _).
  apply Hs. apply list_elem_of_fmap. by exists (ToString k, v').
Qed.

Lemma blocks_lookup view k b :
  blocks view !! k = Some b
  <-> BlockKey_wf k /\ exists v, view !! ToString k = Some v /\ decode_block k v = Some b.
Proof.
  unfold blocks. rewrite <- elem_of_list_to_map by (apply NoDup_decoded_keys, NoDup_fst_map_to_list).
  rewrite list_elem_of_omap. split.
  - intros ([s v] & Hin & (Hk & -> & Hb)%decode_entry_Some). apply elem_of_map_to_list in Hin. eauto.
  - intros (Hk & v & Hv & Hb). exists (ToString k, v). split; [by apply elem_of_map_to_list|].
    by apply decode_entry_Some.
Qed.

Lemma blocks_lookup_None view k : view !! ToString k = None -> blocks view !! k = None.
Proof.
  intros Hn. destruct (blocks view !! k) eqn:E; [|done].
  apply blocks_lookup in E as (_ & v & Hv & _). congruence.
Qed.

Lemma decode_block_Serialize k b :
  Block_wf b -> ok (ValidateMetadata k (metadata b)) = true -> decode_block k (SerializeBlock b) = Some b.
Proof.
  intros Hb Hm. unfold decode_block, DecodeRecord, DeserializeHeader.
  rewrite DeserializeHeader_Serialize by done. cbn [h_metadata h_payload_len h_payload_offset]. rewrite Hm.
  cbn [bi_metadata payload_size]. f_equal.
  pose proof (blob_payload_Serialize b (metadata b)) as Hp. unfold blob_payload in Hp.
  cbn [h_payload_len h_payload_offset] in Hp. rewrite Hp. by destruct b.
Qed.

Lemma blocks_insert view k b :
  storable k b -> ok (ValidateMetadata k (metadata b)) = true ->
  blocks (<[ToString k := SerializeBlock b]> view) = <[k := b]> (blocks view).
Proof.
  intros (Hk & Hb & _) Hm. apply map_eq. intros k'. apply option_eq. intros b'.
  rewrite blocks_lookup, lookup_insert_Some, blocks_lookup. setoid_rewrite lookup_insert_Some. split.
  - intros (Hk' & v & [[E <-]|[Hne Hv]] & Hd).
    + apply ToString_inj in E; [|done..]. subst k'. left. split; [done|].
      rewrite decode_block_Serialize in Hd by done. congruence.
    + right. split; [congruence|]. eauto.
  - intros [[<- <-]|[Hne (Hk' & v & Hv & Hd)]].
    + split; [done|]. eexists. split; [by left|]. by apply decode_block_Serialize.
    + split; [done|]. exists v. split; [|done]. right. split; [|done].
      intros E. apply Hne. by apply ToString_inj.
Qed.

(** A record's block has the declared widths. *)
Lemma decode_block_storable k v b :
  BlockKey_wf k -> zlen v < 2 ^ 63 -> decode_block k v = Some b -> storable k b.
Proof.
  intros Hk Hsz. unfold decode_block, DecodeRecord. destruct (DeserializeHeader v) as [h|] eqn:E; [|done].
  apply DeserializeHeader_inv in E as (Ho & Hl & Hw & Hv); [|pose proof (zlen_nonneg v); unfold in_range; lia].
  destruct (ok (ValidateMetadata k (h_metadata h))); [|done]. cbn [bi_metadata payload_size]. intros [= <-]. rewrite Hl, Ho.
  assert (take (Z.to_nat (zlen v - kHeaderSize)) (drop (Z.to_nat kHeaderSize) v) = drop 36 v) as ->.
  { change (Z.to_nat kHeaderSize) with 36%nat. apply take_ge. rewrite length_drop. unfold zlen, kHeaderSize. lia. }
  split_and!; [done..|]. rewrite <- SerializeBlock_length, <- Hv. done.
Qed.

Lemma DecodeRecord_block k v info off :
  zlen v < 2 ^ 63 -> DecodeRecord k v = Value (info, off) ->
  exists b, decode_block k v = Some b /\ bi_metadata info = metadata b /\ payload_size info = size_bytes b
            /\ take (Z.to_nat (payload_size info)) (drop (Z.to_nat off) v) = data b.
Proof.
  intros Hsz E. unfold decode_block. rewrite E. eexists. split; [done|]. cbn [metadata data]. split_and!; try done.
  unfold DecodeRecord in E. destruct (DeserializeHeader v) as [h|] eqn:Eh; [|done].
  apply DeserializeHeader_inv in Eh as (Ho & Hl & _ & Hv); [|pose proof (zlen_nonneg v); unfold in_range; lia].
  assert (kHeaderSize <= zlen v) as Hge
    by (rewrite Hv, SerializeBlock_length; unfold size_bytes; pose proof (zlen_nonneg (drop 36 v)); cbn; lia).
  destruct (ok _); simplify_eq. cbn [payload_size] in *. unfold size_bytes, zlen in *. cbn [data].
  rewrite length_take, length_drop, Ho, Hl. unfold kHeaderSize in *. lia.
Qed.

(** ** The contract *)

Context `{!LevelDBLaws D}.

Definition contents (s : SsdTier) : gmap BlockKey Block := blocks (ldb_view (disk s)).

(** Every record of an open database is a valid block under its own key. *)
Record inv (s : SsdTier) : Prop := {
  inv_records : db_ s = true -> forall key v, ldb_view (disk s) !! key = Some v -> is_Some (decode_entry (key, v));
  inv_capacity : u64 (capacity_bytes (stats_ s))
}.

Lemma ssd_inv_make path d : inv (make path d).
Proof. split; [done|]. cbn. split; lia. Qed.

Lemma wp_db_call {A} (f : D -> A * D) (Q : A -> SsdTier -> Prop) s :
  Q (f (disk s)).1 (set_disk (f (disk s)).2 s) -> wp (db_call f) Q s.
Proof. intros HQ. unfold db_call. by wp_steps. Qed.

(** Same handle, same capacity, same database contents. *)
Definition same_view (s s' : SsdTier) : Prop :=
  db_ s' = db_ s /\ capacity_bytes (stats_ s') = capacity_bytes (stats_ s)
  /\ ldb_view (disk s') = ldb_view (disk s).

Lemma inv_same_view s s' : inv s -> same_view s s' -> inv s' /\ contents s' = contents s.
Proof.
  intros [H1 H2] (E1 & E2 & E3). unfold contents. rewrite E3. split; [|done].
  split; [rewrite E1, E3|rewrite E2]; done.
Qed.

Lemma inv_put s s' k b :
  inv s -> storable k b -> ok (ValidateMetadata k (metadata b)) = true ->
  db_ s' = db_ s -> capacity_bytes (stats_ s') = capacity_bytes (stats_ s) ->
  ldb_view (disk s') = <[ToString k := SerializeBlock b]> (ldb_view (disk s)) ->
  inv s' /\ contents s' = <[k := b]> (contents s).
Proof.
  intros [H1 H2] Hw Hm E1 E2 E3. unfold contents. rewrite E3, blocks_insert by done. split; [|done].
  split; [rewrite E1, E3|by rewrite E2]. intros Hdb key v [[<- <-]|[_ Hv]]%lookup_insert_Some; [|by apply H1].
  exists (k, b). apply decode_entry_Some. split_and!; [apply Hw|done|]. apply decode_block_Serialize; [apply Hw|done].
Qed.

Lemma Serialize_size k b : storable k b -> zlen (SerializeBlock b) < 2 ^ 63.
Proof. intros (_ & _ & Hs). by rewrite SerializeBlock_length. Qed.

Lemma open_contents s k v :
  inv s -> db_ s = true -> ldb_view (disk s) !! ToString k = Some v -> BlockKey_wf k ->
  exists b, decode_block k v = Some b /\ contents s !! k = Some b.
Proof.
  intros Hi Hdb Hv Hk. destruct (inv_records s Hi Hdb _ _ Hv) as [[k' b] Hd].
  apply decode_entry_Some in Hd as (Hk' & E & Hd). apply ToString_inj in E; [|done..]. subst k'.
  exists b. split; [done|]. apply blocks_lookup. eauto.
Qed.

(** *** Specifications of the operations *)

Lemma same_view_get s k : same_view s (set_disk (ldb_Get k (disk s)).2 s).
Proof. split_and!; try done. apply (ldb_Get_law (disk s) k). Qed.

Lemma same_view_trans s s1 s2 : same_view s s1 -> same_view s1 s2 -> same_view s s2.
Proof. intros (? & ? & ?) (? & ? & ?). split_and!; congruence. Qed.

Lemma same_view_stats s st :
  capacity_bytes st = capacity_bytes (stats_ s) -> same_view s (set_stats st s).
Proof. intros E. split_and!; done. Qed.

Lemma DecodeRecord_error k v st : DecodeRecord k v = Error st -> code st = kCorruption.
Proof.
  unfold DecodeRecord, ValidateMetadata. intros E.
  repeat (case_match; simplify_eq; try done).
Qed.

Lemma wp_ssd_Probe s k :
  inv s -> db_ s = true -> BlockKey_wf k ->
  wp (Probe k) (fun r s' =>
    same_view s s'
    /\ match r with
       | Value i => exists b, contents s !! k = Some b /\ bi_metadata i = metadata b
                              /\ payload_size i = size_bytes b
       | Error st => ok st = false /\ (code st = kNotFound -> contents s !! k = None)
       end) s.
Proof.
  intros Hi Hdb Hk. unfold Probe. wp_steps. rewrite Hdb. cbn [negb]. wp_steps; [|done].
  apply wp_db_call. pose proof (same_view_get s (ToString k)) as Hsv.
  destruct (ldb_Get_law (disk s) (ToString k)) as [_ Hr].
  destruct (ldb_Get (ToString k) (disk s)).1 as [v| |msg|]; [|by wp_steps; eauto using blocks_lookup_None|by wp_steps..].
  destruct (open_contents s k v Hi Hdb Hr Hk) as (b & Hd & Hc).
  destruct (DecodeRecord k v) as [[info off]|st] eqn:E; wp_steps; (split; [done|]).
  - apply DecodeRecord_block in E as (b' & Hd' & ? & ? & _); [|by eapply ldb_value_size].
    exists b. rewrite Hd in Hd'. naive_solver.
  - unfold decode_block in Hd. by rewrite E in Hd.
Qed.

Lemma wp_ssd_Put s k b :
  inv s -> db_ s = true -> storable k b ->
  wp (Put k b) (fun r s' =>
    (db_ s' = db_ s /\ capacity_bytes (stats_ s') = capacity_bytes (stats_ s))
    /\ match r with
       | Value h => ldb_view (disk s') = <[ToString k := SerializeBlock b]> (ldb_view (disk s))
                    /\ ok (ValidateMetadata k (metadata b)) = true
       | Error st => ok st = false
                     /\ (ldb_view (disk s') = ldb_view (disk s)
                         \/ ldb_view (disk s') = <[ToString k := SerializeBlock b]> (ldb_view (disk s))
                            /\ ok (ValidateMetadata k (metadata b)) = true)
       end) s.
Proof.
  intros Hi Hdb Hw. unfold Put. wp_steps. rewrite Hdb. cbn [negb].
  destruct (ok (ValidateMetadata k (metadata b))) eqn:Hm; cbn [negb]; [|wp_steps; eauto].
  wp_steps; [|by eauto]. apply wp_db_call.
  destruct (ldb_Get_law (disk s) (ToString k)) as [Hg _].
  set (s1 := set_disk (ldb_Get (ToString k) (disk s)).2 s).
  assert (db_ s1 = true) as Hdb1 by done.
  pose proof (ldb_Put_law (disk s1) (ToString k) (SerializeBlock b) (Serialize_size k b Hw)) as Hp.
  change (ldb_view (disk s1)) with (ldb_view (ldb_Get (ToString k) (disk s)).2) in Hp. rewrite Hg in Hp.
  destruct (ldb_Get (ToString k) (disk s)).1 as [v| |msg|];
    [| |wp_steps; split_and!; try done; by left..].
  all: wp_steps; apply wp_db_call; destruct (ldb_Put (ToString k) (SerializeBlock b) (disk s1)).1;
    wp_steps; split_and!; try done; destruct Hp as [Hp|Hp]; auto.
Qed.

Lemma wp_ssd_Get s k dst out :
  inv s -> db_ s = true -> BlockKey_wf k ->
  wp (Get k dst out) (fun r s' =>
    let '(st, dst', v) := r in
    same_view s s' /\ mb_capacity dst' = mb_capacity dst /\ (MutableBuffer_wf dst -> MutableBuffer_wf dst')
    /\ if ok st then
         out = true
         /\ exists b, contents s !! k = Some b /\ size_bytes b <= mb_capacity dst
                      /\ bv_size v = size_bytes b /\ bv_metadata v = metadata b
                      /\ view_bytes dst' v = data b
       else v = BlockView_default /\ dst' = dst /\ (code st = kNotFound -> contents s !! k = None)
            /\ code st <> kCorruption) s.
Proof.
  intros Hi Hdb Hk. unfold Get. destruct out; cbn [negb]; [|by wp_steps].
  destruct (bool_decide _ && _)%bool eqn:Ed; [by wp_steps|]. wp_steps. rewrite Hdb. cbn [negb].
  wp_steps; [|done]. apply wp_db_call. pose proof (same_view_get s (ToString k)) as Hsv.
  destruct (ldb_Get_law (disk s) (ToString k)) as [_ Hr].
  set (s1 := set_disk (ldb_Get (ToString k) (disk s)).2 s) in *.
  assert (forall st, capacity_bytes st = capacity_bytes (stats_ s1) -> same_view s (set_stats st s1)) as Hst
    by (intros; eapply same_view_trans; [done|]; by apply same_view_stats).
  destruct (ldb_Get (ToString k) (disk s)).1 as [v| |msg|]; [| |by wp_steps..].
  2: { wp_steps. ok_simpl. split; [by apply Hst|]. split_and!; try done. intros _. by apply blocks_lookup_None. }
  destruct (open_contents s k v Hi Hdb Hr Hk) as (b & Hd & Hc).
  destruct (DecodeRecord k v) as [[info off]|st] eqn:E; [|unfold decode_block in Hd; by rewrite E in Hd].
  apply DecodeRecord_block in E as (b' & Hd' & Hm & Hs & Ht); [|by eapply ldb_value_size].
  rewrite Hd in Hd'. simplify_eq. rewrite Ht, Hs.
  destruct (_ <? _) eqn:Hcap; boolZ; wp_steps; ok_simpl; [done|].
  assert (data b' <> [] -> mb_data dst <> None) as Hnn.
  { intros Hne En. rewrite En, bool_decide_true in Ed by done. cbn in Ed. boolZ.
    apply zlen_pos in Hne. unfold size_bytes in Hcap. lia. }
  split; [by apply Hst|]. split_and!; [| |done|].
  - unfold buffer_write. by repeat case_match.
  - unfold MutableBuffer_wf, buffer_write. destruct (negb (size_bytes b' =? 0)); [|done].
    destruct (mb_data dst) as [mem|] eqn:Em; cbn; rewrite ?Em; [|done]. intros Hw.
    rewrite zlen_app. unfold size_bytes, zlen in *. rewrite length_drop. lia.
  - exists b'. split_and!; try done. destruct (size_bytes b' =? 0) eqn:Hz; cbn [negb]; boolZ.
    + apply zlen_nil_iff in Hz. unfold view_bytes, size_bytes. rewrite Hz. by case_match.
    + apply buffer_write_view. right. apply Hnn. intros En. unfold size_bytes in Hz. by rewrite En in Hz.
Qed.

Lemma scan_records_Value records n u x :
  scan_records records n u = Value x -> forall r, r ∈ records -> is_Some (decode_entry r).
Proof.
  revert n u. induction records as [|[s v] records IH]; intros n u E r Hr; [by apply elem_of_nil in Hr|].
  cbn [scan_records] in E. destruct (FromString s) as [k|] eqn:Ek; [|done].
  destruct (DecodeRecord k v) as [[info off]|] eqn:Ed; [|done]. destruct (_ <? _); [done|].
  apply elem_of_cons in Hr as [->|Hr]; [|by eapply IH].
  unfold decode_entry, decode_block. cbn [fst snd]. rewrite Ek, Ed. eauto.
Qed.

Lemma scan_records_Error records n u st : scan_records records n u = Error st -> ok st = false.
Proof.
  revert n u. induction records as [|[s v] records IH]; intros n u E; [done|].
  cbn [scan_records] in E. repeat (case_match; simplify_eq; try done). by eapply IH.
Qed.

(** Giving up on an open that has reached the scan. *)
Lemma open_failed s s2 st :
  inv s -> db_ s2 = false -> capacity_bytes (stats_ s2) = capacity_bytes (stats_ s) ->
  ldb_view (disk s2) = ldb_view (disk s) -> ok st = false ->
  let s' := set_disk (ldb_Close (disk s2)) s2 in
  inv s' /\ ldb_view (disk s') = ldb_view (disk s)
  /\ capacity_bytes (stats_ s') = capacity_bytes (stats_ s)
  /\ (ok st = true -> db_ s' = true) /\ (ok st = false -> db_ s' = false).
Proof.
  intros [H1 H2] Hdb Hc Hv Hst. cbn. rewrite ldb_Close_law. split_and!; try done; try congruence.
  split; cbn; [by rewrite Hdb|by rewrite Hc].
Qed.

(** [Open] changes no record; when it reports success the tier is ready and
    every record is valid. *)
Lemma wp_ssd_Open s :
  inv s ->
  wp Open (fun st s' =>
    inv s' /\ ldb_view (disk s') = ldb_view (disk s)
    /\ capacity_bytes (stats_ s') = capacity_bytes (stats_ s)
    /\ (ok st = true -> db_ s' = true) /\ (ok st = false -> db_ s' = db_ s)) s.
Proof.
  intros Hi. unfold Open. wp_steps. destruct (db_ s) eqn:Hdb; [by wp_steps|]. wp_steps.
  apply wp_db_call. pose proof (ldb_Open_law (disk s)) as Ho. set (s1 := set_disk (ldb_Open (disk s)).2 s).
  destruct (ldb_Open (disk s)).1.
  { wp_steps. ok_simpl. split; [|by split_and!]. by apply (inv_same_view s). }
  wp_steps; [|by apply (open_failed s s1)].
  apply wp_db_call. destruct (ldb_Scan_law (disk s1)) as (Hv & _ & Hsub & Hall).
  assert (ldb_view (disk s1) = ldb_view (disk s)) as Ho1 by exact Ho.
  rewrite Ho1 in Hv. destruct (scan_records (ldb_Scan (disk s1)).1.1 0 0) as [[n u]|st] eqn:Es.
  - destruct (ldb_Scan (disk s1)).1.2; [|wp_steps; by eapply open_failed..].
    wp_steps. ok_simpl. split_and!; try done. split; [|apply Hi]. intros _ key v. cbn [disk set_stats set_db set_disk].
    rewrite Hv. intros Hk. eapply scan_records_Value; [done|]. apply Hall. by rewrite Ho1.
  - wp_steps. eapply open_failed; try done. by eapply scan_records_Error.
Qed.

Lemma decode_records_Value records entries :
  decode_records records = Value entries -> entries.*1 = (omap decode_entry records).*1.
Proof.
  revert entries. induction records as [|[s v] records IH]; intros entries E; cbn [decode_records] in E; [by simplify_eq|].
  change (omap decode_entry ((s, v) :: records))
    with (match decode_entry (s, v) with Some y => y :: omap decode_entry records | None => omap decode_entry records end).
  unfold decode_entry, decode_block. cbn [fst snd]. destruct (FromString s) as [k|]; [|done].
  destruct (DecodeRecord k v) as [[info off]|]; [|done].
  destruct (decode_records records) as [rest|]; [|done]. simplify_eq. cbn [fmap option_fmap option_map].
  rewrite !fmap_cons. f_equal. by apply IH.
Qed.

Lemma decode_records_Error records st : decode_records records = Error st -> ok st = false.
Proof.
  induction records as [|[s v] records IH]; intros E; cbn [decode_records] in E; [done|].
  destruct (FromString s) as [k|] eqn:Ek.
  - destruct (DecodeRecord k v) as [[info off]|] eqn:Ed; [destruct (decode_records records); [done|]|]; simplify_eq.
    + by apply IH.
    + apply DecodeRecord_error in Ed. apply ok_false_iff. by rewrite Ed.
  - simplify_eq. unfold FromString in Ek. cbv zeta in Ek. repeat (case_match; simplify_eq; try done).
Qed.

Lemma scanned_keys view records :
  NoDup (records.*1) -> (forall key v, (key, v) ∈ records -> view !! key = Some v) ->
  (forall k, k ∈ (omap decode_entry records).*1 -> is_Some (blocks view !! k))
  /\ ((forall key v, view !! key = Some v -> (key, v) ∈ records) ->
      list_to_set (omap decode_entry records).*1 = dom (blocks view)).
Proof.
  intros Hnd Hsub.
  assert (forall k, k ∈ (omap decode_entry records).*1 -> is_Some (blocks view !! k)) as Hin.
  { intros k ([k' b] & -> & ([key v] & Hr & Hd)%list_elem_of_omap)%list_elem_of_fmap. cbn [fst].
    apply decode_entry_Some in Hd as (Hk & -> & Hd). exists b. apply blocks_lookup. eauto. }
  split; [done|]. intros Hall. apply set_eq. intros k. rewrite elem_of_list_to_set, elem_of_dom. split; [apply Hin|].
  intros [b (Hk & v & Hv & Hd)%blocks_lookup]. apply list_elem_of_fmap. exists (k, b). split; [done|].
  apply list_elem_of_omap. exists (ToString k, v). split; [by apply Hall|]. by apply decode_entry_Some.
Qed.

Lemma wp_ssd_VisitEntries V (visitor : BlockKey -> BlockInfo -> comp V Status) I s v :
  db_ s = true -> I ∅ v ->
  (forall S k info b v', I S v' -> k ∉ S -> contents s !! k = Some b ->
     wp (visitor k info) (fun st v'' => ok st = true -> I ({[k]} ∪ S) v'') v') ->
  wp (VisitEntries V visitor)
     (fun st sv => same_view s sv.1 /\ (ok st = true -> I (dom (contents s)) sv.2)) (s, v).
Proof.
  intros Hdb HI Hv. unfold VisitEntries. wp_steps. cbn [fst]. rewrite Hdb. cbn [negb]. wp_steps; [|done].
  apply wp_db_call. cbn [fst snd]. destruct (ldb_Scan_law (disk s)) as (Hview & Hnd & Hsub & Hall).
  assert (same_view s (set_disk (ldb_Scan (disk s)).2 s)) as Hsv by (by split_and!).
  destruct (scanned_keys (ldb_view (disk s)) _ Hnd Hsub) as [Hin Hdom].
  destruct (decode_records (ldb_Scan (disk s)).1.1) as [entries|st] eqn:E; wp_steps.
  2: { split; [done|]. apply decode_records_Error in E. congruence. }
  apply decode_records_Value in E.
  destruct (ldb_Scan (disk s)).1.2; [|wp_steps; split; done..]. wp_steps. cbn [fst snd]. eapply wp_mono.
  - eapply (wp_visit_all visitor I (contents s) Hv entries ∅ v HI); rewrite E.
    + by apply NoDup_decoded_keys.
    + intros k Hk. split; [set_solver|by apply Hin].
  - intros st v' Hi'. split; [done|]. intros Hok. specialize (Hi' Hok). cbn [snd]. rewrite E, Hdom in Hi' by done.
    by rewrite union_empty_r_L in Hi'.
Qed.

#[global] Instance SsdTier_laws : TierLaws SsdTier.
Proof.
  refine {| tier_inv := inv; tier_contents := contents |};
    cbn [tier_type tier_IsReady tier_Stats tier_Open tier_Close tier_Probe tier_Put tier_Get
         tier_ValidateEraseExisting tier_EraseExisting tier_VisitEntries SsdTier_tier];
    unfold IsReady, Stats.
  - intros t Hi. apply Hi.
  - intros t k b Hi (Hk & v & Hv & Hd)%blocks_lookup. eapply decode_block_storable; [done| |done].
    by eapply ldb_value_size.
  - intros t Hi. eapply wp_mono; [by apply wp_ssd_Open|]. intros st t' (? & E & ? & _).
    unfold contents. by rewrite E.
  - intros t Hi. unfold Close. wp_steps. destruct (db_ t); wp_steps; [|done].
    unfold contents. cbn. rewrite ldb_Close_law. split_and!; try done. split; [done|apply Hi].
  - intros t k Hi Hr Hk. eapply wp_mono; [by apply wp_ssd_Probe|]. intros r t' [Hsv HQ].
    destruct (inv_same_view _ _ Hi Hsv) as [? ?]. destruct Hsv as (? & ? & ?). split_and!; try done.
    destruct r; [done|]. destruct HQ. split_and!; try done. naive_solver.
  - intros t k b Hi Hr Hw. eapply wp_mono; [by apply wp_ssd_Put|]. intros r t' [[E1 E2] HQ]. destruct r as [h|st].
    + destruct HQ as [Hv Hm]. destruct (inv_put t t' k b Hi Hw Hm E1 E2 Hv). done.
    + destruct HQ as [Hst [Hv|[Hv Hm]]].
      * destruct (inv_same_view t t' Hi ltac:(by split_and!)) as [? ?]. split_and!; try done. by left.
      * destruct (inv_put t t' k b Hi Hw Hm E1 E2 Hv). split_and!; try done. by right.
  - intros t k dst out Hi Hr Hk. eapply wp_mono; [by apply wp_ssd_Get|].
    intros [[st dst'] v] t' (Hsv & ? & ? & HQ). destruct (inv_same_view _ _ Hi Hsv) as [? ?].
    destruct Hsv as (? & ? & ?). split_and!; try done. destruct (ok st); [done|]. naive_solver.
  - done.
  - done.
  - intros V visitor I t v Hi Hr HI Hv. eapply wp_mono; [by apply wp_ssd_VisitEntries|].
    intros st [t' v'] [Hsv HQ]. cbn [fst snd] in *. destruct (inv_same_view _ _ Hi Hsv) as [? ?].
    destruct Hsv as (? & ? & ?). by split_and!.
  - done.
Defined.

(** Store a block, shut the tier down, start it again and read the block. *)
Definition put_restart_get (k : BlockKey) (b : Block) (dst : MutableBuffer)
  : comp SsdTier (option (Status * MutableBuffer * BlockView)) :=
  r ← Put k b;
  match r with
  | Error _ => mret None
  | Value _ =>
      _ ← Close;
      st ← Open;
      if ok st then x ← Get k dst true; mret (Some x) else mret None
  end.

(** C17 (roundtrip): a block on SSD survives a restart.  For any LevelDB that
    meets its documented contract, any I/O or allocation failures, and any
    other valid records in the database: when a [Put] succeeded and the tier was
    closed and opened again, reading the block never reports it missing or
    corrupt, and a read that succeeds returns exactly its payload and
    metadata. *)
Theorem ssd_survives_restart (s : SsdTier) (k : BlockKey) (b : Block) (dst : MutableBuffer)
    (Hs : inv s) (Hopen : db_ s = true) (Hw : storable k b) :
  wp (put_restart_get k b dst) (fun r s' =>
    match r with
    | Some (st, dst', v) =>
        code st <> kNotFound /\ code st <> kCorruption
        /\ (ok st = true -> view_bytes dst' v = data b /\ bv_metadata v = metadata b)
        /\ contents s' = <[k := b]> (contents s)
    | None => True
    end) s.
Proof.
  unfold put_restart_get. wp_steps. eapply wp_mono; [by apply wp_ssd_Put|].
  intros [h|st] s1 [[E1 E2] H1]; [|by wp_steps]. destruct H1 as [Hv Hm].
  destruct (inv_put s s1 k b Hs Hw Hm E1 E2 Hv) as [Hi1 Hc1]. unfold Close. wp_steps.
  rewrite E1, Hopen. wp_steps. set (s2 := set_db false _).
  assert (inv s2) as Hi2 by (split; [done|apply Hi1]).
  assert (ldb_view (disk s2) = ldb_view (disk s1)) as Hv2 by apply ldb_Close_law.
  eapply wp_mono; [by apply wp_ssd_Open|]. intros st s3 (Hi3 & Hv3 & _ & Hdb3 & _).
  destruct (ok st); wp_steps; [|done].
  assert (contents s3 = <[k := b]> (contents s)) as Hc3 by (unfold contents in *; congruence).
  eapply wp_mono; [apply wp_ssd_Get; [done|by apply Hdb3|apply Hw]|].
  intros [[st' dst'] v] s4 (Hsv & _ & _ & HQ). wp_steps. rewrite Hc3, lookup_insert_eq in HQ.
  destruct (inv_same_view _ _ Hi3 Hsv) as [_ Hc4]. rewrite Hc4. destruct (ok st') eqn:Eok.
  - apply ok_iff in Eok. destruct HQ as (_ & b' & [= <-] & _ & _ & ? & ?). by rewrite Eok.
  - split_and!; try done; [|naive_solver..]. intros En. destruct HQ as (_ & _ & HQ & _). by specialize (HQ En).
Qed.
End ssd.
Arguments SsdTier : clear implicits.

(** ** A database that never fails *)

Record MemDb : Type := mkMemDb { mem : gmap string bytes }.

Definition mem_view (d : MemDb) : gmap string bytes := filter (fun kv => zlen kv.2 < 2 ^ 63) (mem d).

#[global] Instance MemDb_db : LevelDB MemDb := {|
  ldb_Open := fun d => (None, d);
  ldb_Close := fun d => d;
  ldb_Get := fun k d => (match mem_view d !! k with Some v => DbOk v | None => DbNotFound end, d);
  ldb_Put := fun k v d => (DbOk tt, mkMemDb (<[k := v]> (mem d)));
  ldb_Delete := fun k d => (DbOk tt, mkMemDb (delete k (mem d)));
  ldb_Scan := fun d => (map_to_list (mem_view d), DbOk tt, d)
|}.

#[global] Instance MemDb_laws : LevelDBLaws MemDb.
Proof.
  refine {| ldb_view := mem_view |}; cbn [ldb_Open ldb_Close ldb_Get ldb_Put ldb_Delete ldb_Scan MemDb_db fst snd].
  - intros d k v. unfold mem_view. rewrite map_lookup_filter_Some. by intros [_ ?].
  - done.
  - done.
  - intros d k. split; [done|]. by destruct (mem_view d !! k) eqn:E.
  - intros d k v Hv. unfold mem_view. cbn [mem]. by rewrite map_filter_insert_True.
  - intros d k. unfold mem_view. cbn [mem]. apply map_filter_delete.
  - intros d. split_and!; [done|apply NoDup_fst_map_to_list|..]; intros k v; apply elem_of_map_to_list.
Defined.

Definition open_empty : SsdTier MemDb := set_db true (make "/var/tidepool" (mkMemDb ∅)).

Lemma open_empty_inv : inv open_empty.
Proof. split; [|split; cbn; lia]. intros _ key v. change (ldb_view (disk open_empty)) with (∅ : gmap string bytes). by rewrite lookup_empty. Qed.

Definition ssd_key : BlockKey := mkBlockKey 11 2 7.
Definition ssd_block : Block := mkBlock (mkBlockMetadata 2 4 2 8 5 7) [byte.of_Z 1; byte.of_Z 2].

Lemma ssd_storable : storable ssd_key ssd_block.
Proof. repeat split; vm_compute; done. Qed.

Lemma ssd_survives_restart_witness :
  match put_restart_get ssd_key ssd_block (mkMutableBuffer (Some (replicate 4 (byte.of_Z 0))) 4) open_empty [] with
  | Done (Some (st, dst', v), _, _) => st = Ok /\ view_bytes dst' v = data ssd_block
  | _ => False
  end
  /\ wp (put_restart_get ssd_key ssd_block (mkMutableBuffer (Some (replicate 4 (byte.of_Z 0))) 4)) (fun r _ =>
       match r with
       | Some (st, _, _) => code st <> kNotFound
       | None => True
       end) open_empty.
Proof.
  split; [vm_compute; split; reflexivity|]. eapply wp_mono.
  - exact (ssd_survives_restart open_empty ssd_key ssd_block _ open_empty_inv eq_refl ssd_storable).
  - intros [[[st dst'] v]|] s' H; [apply H|done].
Defined.
End SsdTier.
