(* ===== verification/AnyTier.v ===== *)
(** * The tiers a node is built from

    A node holds [std::unique_ptr<Tier>]s: a DRAM tier or an SSD tier behind
    the virtual interface.  Dynamic dispatch is a sum, and the contract of the
    interface holds for it because it holds for both. *)

From S2P Require Import Prelude Api Tier DramTier SsdTier.

Section any.
Context {D : Type} `{LevelDB D}.

Inductive AnyTier : Type :=
| Dram (t : DramTier.DramTier)
| Ssd (t : SsdTier.SsdTier D).

(** The virtual call. *)
Definition dispatch {A} (m : comp DramTier.DramTier A) (m' : comp (SsdTier.SsdTier D) A) : comp AnyTier A :=
  fun s al =>
    match s with
    | Dram t => match m t al with Done (a, t', al') => Done (a, Dram t', al') | Terminated => Terminated end
    | Ssd t => match m' t al with Done (a, t', al') => Done (a, Ssd t', al') | Terminated => Terminated end
    end.

Definition dispatch_visit {V} (visitor : BlockKey -> BlockInfo -> comp V Status) : comp (AnyTier * V) Status :=
  fun s al =>
    match s with
    | (Dram t, v) =>
        match tier_VisitEntries V visitor (t, v) al with
        | Done (a, tv, al') => Done (a, (Dram tv.1, tv.2), al')
        | Terminated => Terminated
        end
    | (Ssd t, v) =>
        match tier_VisitEntries V visitor (t, v) al with
        | Done (a, tv, al') => Done (a, (Ssd tv.1, tv.2), al')
        | Terminated => Terminated
        end
    end.

Definition view {A} (f : DramTier.DramTier -> A) (f' : SsdTier.SsdTier D -> A) (s : AnyTier) : A :=
  match s with
  | Dram t => f t
  | Ssd t => f' t
  end.

#[export] Instance AnyTier_tier : Tier AnyTier := {|
  tier_type := view tier_type tier_type;
  tier_Open := dispatch tier_Open tier_Open;
  tier_Close := dispatch tier_Close tier_Close;
  tier_IsReady := view tier_IsReady tier_IsReady;
  tier_Probe := fun k => dispatch (tier_Probe k) (tier_Probe k);
  tier_Put := fun k b => dispatch (tier_Put k b) (tier_Put k b);
  tier_Get := fun k dst out => dispatch (tier_Get k dst out) (tier_Get k dst out);
  tier_Evict := fun k => dispatch (tier_Evict k) (tier_Evict k);
  tier_ValidateEraseExisting := fun k => view (tier_ValidateEraseExisting k) (tier_ValidateEraseExisting k);
  tier_EraseExisting := fun k => dispatch (tier_EraseExisting k) (tier_EraseExisting k);
  tier_VisitEntries := fun V visitor => dispatch_visit visitor;
  tier_Stats := view tier_Stats tier_Stats
|}.

Context `{!LevelDBLaws D}.

Lemma wp_dispatch_dram {A} (m : comp DramTier.DramTier A) m' Q t :
  wp m (fun a t' => Q a (Dram t')) t -> wp (dispatch m m') Q (Dram t).
Proof. intros Hw al. specialize (Hw al). unfold dispatch. by destruct (m t al) as [[[a t'] al']|]. Qed.

Lemma wp_dispatch_ssd {A} (m : comp DramTier.DramTier A) (m' : comp (SsdTier.SsdTier D) A) Q t :
  wp m' (fun a t' => Q a (Ssd t')) t -> wp (dispatch m m') Q (Ssd t).
Proof. intros Hw al. specialize (Hw al). unfold dispatch. by destruct (m' t al) as [[[a t'] al']|]. Qed.

Lemma wp_visit_dram {V} (visitor : BlockKey -> BlockInfo -> comp V Status) Q t v :
  wp (tier_VisitEntries V visitor) (fun a tv => Q a (Dram tv.1, tv.2)) (t, v) ->
  wp (dispatch_visit visitor) Q (Dram t, v).
Proof.
  intros Hw al. specialize (Hw al). unfold dispatch_visit.
  by destruct (tier_VisitEntries V visitor (t, v) al) as [[[a [t' v']] al']|].
Qed.

Lemma wp_visit_ssd {V} (visitor : BlockKey -> BlockInfo -> comp V Status) Q t v :
  wp (tier_VisitEntries V visitor) (fun a tv => Q a (Ssd tv.1, tv.2)) (t, v) ->
  wp (dispatch_visit visitor) Q (Ssd t, v).
Proof.
  intros Hw al. specialize (Hw al). unfold dispatch_visit.
  by destruct (tier_VisitEntries V visitor (t, v) al) as [[[a [t' v']] al']|].
Qed.

#[export] Instance AnyTier_laws : TierLaws AnyTier.
Proof.
  refine {| tier_inv := view tier_inv tier_inv; tier_contents := view tier_contents tier_contents |};
    cbn [tier_type tier_IsReady tier_Stats tier_Open tier_Close tier_Probe tier_Put tier_Get
         tier_ValidateEraseExisting tier_EraseExisting tier_VisitEntries AnyTier_tier].
  - intros [t|t]; apply tier_capacity_range.
  - intros [t|t]; apply tier_contents_wf.
  - intros [t|t] Hi; [apply wp_dispatch_dram|apply wp_dispatch_ssd]; by apply tier_Open_law.
  - intros [t|t] Hi; [apply wp_dispatch_dram|apply wp_dispatch_ssd]; by apply tier_Close_law.
  - intros [t|t] k Hi Hr Hk; [apply wp_dispatch_dram|apply wp_dispatch_ssd]; by apply tier_Probe_law.
  - intros [t|t] k b Hi Hr Hw; [apply wp_dispatch_dram|apply wp_dispatch_ssd]; by apply tier_Put_law.
  - intros [t|t] k dst out Hi Hr Hk; [apply wp_dispatch_dram|apply wp_dispatch_ssd]; by apply tier_Get_law.
  - intros [t|t] k; apply tier_ValidateEraseExisting_law.
  - intros [t|t] k b Hi Ht Hk; [apply wp_dispatch_dram|done]. by apply (tier_EraseExisting_law t k b).
  - intros V visitor I [t|t] v Hi Hr HI Hv; [apply wp_visit_dram|apply wp_visit_ssd];
      by apply (tier_VisitEntries_law V visitor I t v).
  - intros [t|t]; apply tier_Stats_law.
Defined.
End any.
Arguments AnyTier : clear implicits.
