(* ===== verification/StorageNode.v ===== *)
(** * Storage node

    [include/tidepool/store/storage_node.h], [src/store/storage_node.cpp]: a
    node owns an ordered list of tiers (hottest first), a local index and an
    eviction policy, and serves [Put] and [Get] for the keys it is assigned.
    Every operation runs under the node's lifecycle mutex, so a call is one
    atomic step of the node's state.  The model is generic in the tiers and the
    policy; dereferencing a null tier or policy is [terminate]. *)

From S2P Require Import Prelude Api BlockKeys EvictionPolicy LocalIndex Tier.

Module StorageNode.

Record StorageNodeStats : Type := mkNodeStats {
  dram_hits : Z;
  ssd_hits : Z;
  node_misses : Z;
  demotions : Z;
  promotions : Z;
  bytes_read : Z;
  bytes_written : Z
}.

Definition stats_zero : StorageNodeStats := mkNodeStats 0 0 0 0 0 0 0.

(** [counter += n] on the seven [uint64_t] counters. *)
Definition add_stats (dh sh ms de pr br bw : Z) (s : StorageNodeStats) : StorageNodeStats :=
  mkNodeStats (wrap 64 (dram_hits s + dh)) (wrap 64 (ssd_hits s + sh)) (wrap 64 (node_misses s + ms))
    (wrap 64 (demotions s + de)) (wrap 64 (promotions s + pr))
    (wrap 64 (bytes_read s + br)) (wrap 64 (bytes_written s + bw)).

(** [ProjectedBytes]: the footprint after replacing, unless it underflows or
    overflows. *)
Definition ProjectedBytes (used replaced incoming : Z) : option Z :=
  if used <? replaced then None
  else
    let base := used - replaced in
    if u64_max - base <? incoming then None else Some (base + incoming).

Section node.
Context {T P : Type} `{Tier T} `{EvictionPolicy P}.

Record StorageNode : Type := mkNode {
  id_ : string;
  tiers_ : list (option T);
  eviction_ : option P;
  index_ : LocalIndex.LocalIndex;
  ready_ : bool;
  stats_ : StorageNodeStats
}.

(** [StorageNode::StorageNode] *)
Definition make (id : string) (tiers : list (option T)) (eviction : option P) : StorageNode :=
  mkNode id tiers eviction LocalIndex.empty false stats_zero.

Definition set_tiers (ts : list (option T)) (n : StorageNode) : StorageNode :=
  mkNode (id_ n) ts (eviction_ n) (index_ n) (ready_ n) (stats_ n).
Definition set_eviction (p : option P) (n : StorageNode) : StorageNode :=
  mkNode (id_ n) (tiers_ n) p (index_ n) (ready_ n) (stats_ n).
Definition set_index (ix : LocalIndex.LocalIndex) (n : StorageNode) : StorageNode :=
  mkNode (id_ n) (tiers_ n) (eviction_ n) ix (ready_ n) (stats_ n).
Definition set_ready (r : bool) (n : StorageNode) : StorageNode :=
  mkNode (id_ n) (tiers_ n) (eviction_ n) (index_ n) r (stats_ n).
Definition set_stats (s : StorageNodeStats) (n : StorageNode) : StorageNode :=
  mkNode (id_ n) (tiers_ n) (eviction_ n) (index_ n) (ready_ n) s.

(** A method of the tier [tiers_[i]], of the policy, of the index. *)
Definition on_tier {A} (i : nat) (m : comp T A) : comp StorageNode A := fun n al =>
  match tiers_ n !! i with
  | Some (Some t) =>
      match m t al with
      | Done (a, t', al') => Done (a, set_tiers (<[i := Some t']> (tiers_ n)) n, al')
      | Terminated => Terminated
      end
  | _ => Terminated
  end.

Definition on_policy {A} (m : comp P A) : comp StorageNode A := fun n al =>
  match eviction_ n with
  | Some p =>
      match m p al with
      | Done (a, p', al') => Done (a, set_eviction (Some p') n, al')
      | Terminated => Terminated
      end
  | None => Terminated
  end.

Definition on_index {A} (m : comp LocalIndex.LocalIndex A) : comp StorageNode A := zoom index_ set_index m.

Definition count (dh sh ms de pr br bw : Z) : comp StorageNode unit :=
  modify (fun n => set_stats (add_stats dh sh ms de pr br bw (stats_ n)) n).

(** A const method of a tier or the policy. *)
Definition tier_get {A} (i : nat) (f : T -> A) : comp StorageNode A := on_tier i (gets f).
Definition policy_get {A} (f : P -> A) : comp StorageNode A := on_policy (gets f).

(** ** Tier lookup *)

Fixpoint find_tier (ty : TierType) (ts : list (option T)) : option nat :=
  match ts with
  | [] => None
  | Some t :: rest => if decide (tier_type t = ty) then Some 0%nat else S <$> find_tier ty rest
  | None :: rest => S <$> find_tier ty rest
  end.

Definition TierOfLocked (ty : TierType) (n : StorageNode) : option nat := find_tier ty (tiers_ n).
Definition ColderTierLocked (n : StorageNode) : option nat := TierOfLocked kSsd n.

(** ** Demotion *)

Definition CancelVictimOrInternal (k : BlockKey) (cause : Status) (context : string) : comp StorageNode Status :=
  cancelled ← on_policy (ep_CancelVictim k);
  if ok cancelled then mret cause
  else mret (Internal (context +:+ ": " +:+ Status_ToString cause
                       +:+ "; victim cancellation failed: " +:+ Status_ToString cancelled)%string).

(** [ReadBlockLocked(tier, key, &block)] *)
Definition ReadBlockLocked (tier : option nat) (k : BlockKey) : comp StorageNode (Result Block) :=
  match tier with
  | None => mret (Error (InvalidArgument "ReadBlockLocked received a null argument"))
  | Some i =>
      info ← on_tier i (tier_Probe k);
      match info with
      | Error s => mret (Error s)
      | Value info =>
          let n := payload_size info in
          resize_fails ← (if n =? 0 then mret false else alloc_fails);
          if resize_fails : bool then
            mret (Error (mkStatus kOutOfCapacity "failed to allocate tier read buffer"))
          else (
            let dst := mkMutableBuffer
              (if n =? 0 then None else Some (replicate (Z.to_nat n) Byte.x00)) n in
            x ← on_tier i (tier_Get k dst true);
            let '(s, dst', view) := x in
            if negb (ok s) then mret (Error s)
            else if negb (bv_size view =? n) then
              mret (Error (Internal "Tier Probe/Get size changed while StorageNode lock was held"))
            else mret (Value (mkBlock (bv_metadata view) (default [] (mb_data dst')))))
      end
  end.

Definition DemoteOneVictimLocked (dram sink : nat) (excluded : option BlockKey) : comp StorageNode Status :=
  n ← get;
  match eviction_ n with
  | None => mret (Internal "demotion requires an eviction policy")
  | Some _ =>
      selected ← on_policy (ep_SelectVictim excluded);
      match selected with
      | Error s => mret s
      | Value victim =>
          n ← get;
          let s := LocalIndex.ValidateRelocate victim kDram (index_ n) in
          if negb (ok s) then CancelVictimOrInternal victim s "demotion index preflight"
          else (
            r ← ReadBlockLocked (Some dram) victim;
            match r with
            | Error s => CancelVictimOrInternal victim s "demotion read preflight"
            | Value block =>
                s ← tier_get dram (tier_ValidateEraseExisting victim);
                if negb (ok s) then CancelVictimOrInternal victim s "demotion DRAM preflight"
                else (
                  s ← policy_get (ep_ValidateVictimCommit victim);
                  if negb (ok s) then CancelVictimOrInternal victim s "demotion policy preflight"
                  else (
                    stored ← on_tier sink (tier_Put victim block);
                    match stored with
                    | Error s => CancelVictimOrInternal victim s "demotion SSD Put"
                    | Value sink_handle =>
                        on_tier dram (tier_EraseExisting victim) ;;
                        sink_type ← tier_get sink tier_type;
                        on_index (LocalIndex.RelocateExisting victim kDram sink_type sink_handle) ;;
                        on_policy (ep_CommitVictim victim) ;;
                        count 0 0 0 1 0 (size_bytes block) (size_bytes block) ;;
                        mret Ok
                    end))
            end)
      end
  end.

(** The loop of [MakeDramRoomForLocked].  Each round that goes on has removed
    one block from DRAM, so [fuel] bounds it; running out of fuel is
    [terminate]. *)
Fixpoint make_room_loop (fuel : nat) (dram : nat) (replaced incoming : Z) (replacing : option BlockKey)
  : comp StorageNode Status :=
  match fuel with
  | O => terminate
  | S fuel' =>
      before ← tier_get dram tier_Stats;
      if capacity_bytes before =? 0 then mret Ok
      else match ProjectedBytes (used_bytes before) replaced incoming with
      | None => mret (mkStatus kOutOfCapacity "projected DRAM footprint overflow")
      | Some projected =>
          if projected <=? capacity_bytes before then mret Ok
          else (
            n ← get;
            match eviction_ n, ColderTierLocked n with
            | None, _ => mret (mkStatus kOutOfCapacity "DRAM needs space and has no eviction policy")
            | Some _, None => mret (mkStatus kOutOfCapacity "DRAM needs space and has no SSD sink")
            | Some _, Some sink =>
                demoted ← DemoteOneVictimLocked dram sink replacing;
                if negb (ok demoted) then
                  if decide (code demoted = kNotFound) then
                    mret (mkStatus kOutOfCapacity "DRAM needs space but no unpinned victim is available")
                  else mret demoted
                else (
                  after ← tier_get dram tier_Stats;
                  if (used_bytes before <=? used_bytes after) && (num_blocks before <=? num_blocks after) then
                    mret (Internal "DRAM demotion committed without making progress")
                  else make_room_loop fuel' dram replaced incoming replacing)
            end)
      end
  end.

Definition MakeDramRoomForLocked (incoming : Z) (replacing : option BlockKey) : comp StorageNode Status :=
  n ← get;
  match TierOfLocked kDram n with
  | None => mret Ok
  | Some dram =>
      replaced ← match replacing with
                 | None => mret (Value 0)
                 | Some k =>
                     old ← on_tier dram (tier_Probe k);
                     mret (match old with Error s => Error s | Value i => Value (payload_size i) end)
                 end;
      match replaced with
      | Error s => mret s
      | Value replaced_bytes =>
          stats ← tier_get dram tier_Stats;
          make_room_loop (S (Z.to_nat (num_blocks stats))) dram replaced_bytes incoming replacing
      end
  end.

(** ** Put *)

Definition PutWithoutDramLocked (k : BlockKey) (block : Block) (old_location : option Location)
  : comp StorageNode Status :=
  let hot := 0%nat in
  n ← get;
  hot_type ← tier_get hot tier_type;
  prepared ← match old_location with
             | Some old =>
                 let s := LocalIndex.ValidateRelocate k (tier old) (index_ n) in
                 if negb (ok s) then mret s
                 else (on_index (LocalIndex.RelocateExisting k (tier old) hot_type 0) ;; mret Ok)
             | None => on_index (LocalIndex.Upsert k (mkLocation (id_ n) hot_type 0))
             end;
  if negb (ok prepared) then mret prepared
  else (
    stored ← on_tier hot (tier_Put k block);
    match stored with
    | Error s =>
        match old_location with
        | None => on_index (LocalIndex.RemoveExisting k)
        | Some old => on_index (LocalIndex.RelocateExisting k hot_type (tier old) (handle old))
        end ;;
        mret s
    | Value h =>
        on_index (LocalIndex.RelocateExisting k hot_type hot_type h) ;;
        count 0 0 0 0 0 0 (size_bytes block) ;;
        mret Ok
    end).

Definition PutOversizedLocked (k : BlockKey) (block : Block) (dram sink : nat) (old_location : option Location)
  : comp StorageNode Status :=
  n ← get;
  sink_type ← tier_get sink tier_type;
  prepared ← match old_location with
             | Some old =>
                 let s := LocalIndex.ValidateRelocate k (tier old) (index_ n) in
                 if negb (ok s) then mret s
                 else if decide (tier old = kDram) then tier_get dram (tier_ValidateEraseExisting k)
                 else mret Ok
             | None => on_index (LocalIndex.Upsert k (mkLocation (id_ n) sink_type 0))
             end;
  if negb (ok prepared) then mret prepared
  else (
    stored ← on_tier sink (tier_Put k block);
    match stored with
    | Error s =>
        match old_location with
        | None => on_index (LocalIndex.RemoveExisting k)
        | Some _ => mret tt
        end ;;
        mret s
    | Value h =>
        match old_location with
        | Some old =>
            (if decide (tier old = kDram) then
               on_tier dram (tier_EraseExisting k) ;;
               n ← get;
               match eviction_ n with Some _ => on_policy (ep_OnRemove k) | None => mret tt end
             else mret tt) ;;
            on_index (LocalIndex.RelocateExisting k (tier old) sink_type h)
        | None => on_index (LocalIndex.RelocateExisting k sink_type sink_type h)
        end ;;
        count 0 0 0 0 0 0 (size_bytes block) ;;
        mret Ok
    end).

(** Undoing a DRAM insertion after the policy or the index refused it. *)
Definition undo_dram_put (dram : nat) (k : BlockKey) : comp StorageNode unit :=
  s ← tier_get dram (tier_ValidateEraseExisting k);
  if negb (ok s) then terminate else on_tier dram (tier_EraseExisting k).

(** The DRAM path of [Put], after the oversize check. *)
Definition PutDram (k : BlockKey) (block : Block) (old_location : option Location) : comp StorageNode Status :=
  let hot := 0%nat in
  let old_in_dram := match old_location with Some old => bool_decide (tier old = kDram) | None => false end in
  room ← MakeDramRoomForLocked (size_bytes block) (if old_in_dram then Some k else None);
  if negb (ok room) then mret room
  else (
    n ← get;
    let valid := match old_location with
                 | Some old => LocalIndex.ValidateRelocate k (tier old) (index_ n)
                 | None => Ok
                 end in
    if negb (ok valid) then mret valid
    else (
      stored ← on_tier hot (tier_Put k block);
      match stored with
      | Error s => mret s
      | Value h =>
          n ← get;
          let has_policy := match eviction_ n with Some _ => true | None => false end in
          inserted ← (if negb old_in_dram && has_policy then on_policy (ep_OnInsert k (size_bytes block))
                      else mret Ok);
          if negb (ok inserted) then (undo_dram_put hot k ;; mret inserted)
          else (
            indexed ← match old_location with
                      | Some old =>
                          on_index (LocalIndex.RelocateExisting k (tier old) kDram h) ;; mret Ok
                      | None => on_index (LocalIndex.Upsert k (mkLocation (id_ n) kDram h))
                      end;
            if negb (ok indexed) then (
              (if has_policy then on_policy (ep_OnRemove k) else mret tt) ;;
              undo_dram_put hot k ;;
              mret indexed)
            else (
              (if old_in_dram && has_policy then on_policy (ep_OnAccess k) else mret tt) ;;
              count 0 0 0 0 0 0 (size_bytes block) ;;
              mret Ok))
      end)).

Definition Put (k : BlockKey) (block : Block) : comp StorageNode Status :=
  n ← get;
  if negb (ready_ n) then mret (Unavailable "StorageNode::Put: node is not open")
  else match tiers_ n with
  | [] | None :: _ => mret (Internal "storage node has no hot tier")
  | Some hot :: _ =>
      let existing := LocalIndex.Find k (index_ n) in
      let go (old_location : option Location) :=
        if decide (tier_type hot = kDram) then
          let sink := ColderTierLocked n in
          let capacity := capacity_bytes (tier_Stats hot) in
          if negb (capacity =? 0) && (capacity <? size_bytes block) then
            match sink with
            | None => mret (mkStatus kOutOfCapacity "block is larger than DRAM capacity and no SSD sink exists")
            | Some sink => PutOversizedLocked k block 0%nat sink old_location
            end
          else PutDram k block old_location
        else PutWithoutDramLocked k block old_location in
      match existing with
      | Value loc => go (Some loc)
      | Error s => if decide (code s = kNotFound) then go None else mret s
      end
  end.

(** ** Get *)

(** [TryPromoteToDramLocked(key, view)]; [payload] are the bytes the view shows. *)
Definition TryPromoteToDramLocked (k : BlockKey) (view : BlockView) (payload : bytes) : comp StorageNode unit :=
  n ← get;
  match TierOfLocked kDram n, eviction_ n with
  | Some dram, Some _ =>
      dram_stats ← tier_get dram tier_Stats;
      if negb (capacity_bytes dram_stats =? 0) && (capacity_bytes dram_stats <? bv_size view) then mret tt
      else if negb (ok (LocalIndex.ValidateRelocate k kSsd (index_ n))) then mret tt
      else (
        already ← on_tier dram (tier_Probe k);
        match already with
        | Value _ => mret tt
        | Error s =>
            if decide (code s <> kNotFound) then mret tt
            else (
              copy_fails ← alloc_fails;
              if copy_fails : bool then mret tt
              else (
                let block := mkBlock (bv_metadata view) payload in
                room ← MakeDramRoomForLocked (size_bytes block) None;
                if negb (ok room) then mret tt
                else (
                  stored ← on_tier dram (tier_Put k block);
                  match stored with
                  | Error _ => mret tt
                  | Value h =>
                      policy ← on_policy (ep_OnPromotionCommitted k (size_bytes block));
                      if negb (ok policy) then undo_dram_put dram k
                      else (
                        on_index (LocalIndex.RelocateExisting k kSsd kDram h) ;;
                        count 0 0 0 0 1 0 (size_bytes block))
                  end)))
        end)
  | _, _ => mret tt
  end.

Definition Get (k : BlockKey) (dst : MutableBuffer) (out : bool)
  : comp StorageNode (Status * MutableBuffer * BlockView) :=
  n ← get;
  if negb (ready_ n) then
    mret (Unavailable "StorageNode::Get: node is not open", dst, BlockView_default)
  else match LocalIndex.Find k (index_ n) with
  | Error s => count 0 0 1 0 0 0 0 ;; mret (s, dst, BlockView_default)
  | Value loc =>
      match TierOfLocked (tier loc) n with
      | None => mret (Internal "index points at an unknown tier", dst, BlockView_default)
      | Some owner =>
          x ← on_tier owner (tier_Get k dst out);
          let '(fetched, dst', view) := x in
          if negb (ok fetched) then (
            (if decide (code fetched = kNotFound) then count 0 0 1 0 0 0 0 else mret tt) ;;
            mret (fetched, dst', view))
          else (
            count 0 0 0 0 0 (bv_size view) 0 ;;
            (if decide (tier loc = kDram) then
               count 1 0 0 0 0 0 0 ;;
               n ← get;
               match eviction_ n with Some _ => on_policy (ep_OnAccess k) | None => mret tt end
             else (
               count 0 1 0 0 0 0 0 ;;
               TryPromoteToDramLocked k view (view_bytes dst' view))) ;;
            mret (Ok, dst', view))
      end
  end.

(** ** Queries *)

Definition Probe (k : BlockKey) : comp StorageNode (Result BlockInfo) :=
  n ← get;
  if negb (ready_ n) then mret (Error (Unavailable "StorageNode::Probe: node is not open"))
  else match LocalIndex.Find k (index_ n) with
  | Error s => mret (Error s)
  | Value loc =>
      match TierOfLocked (tier loc) n with
      | None => mret (Error (Internal "index points at an unknown tier"))
      | Some owner => on_tier owner (tier_Probe k)
      end
  end.

Definition Contains (k : BlockKey) (n : StorageNode) : Result bool :=
  if negb (ready_ n) then Error (Unavailable "StorageNode::Contains: node is not open")
  else Value (LocalIndex.Contains k (index_ n)).

Definition Locate (k : BlockKey) (n : StorageNode) : Result Location :=
  if negb (ready_ n) then Error (Unavailable "StorageNode::Locate: node is not open")
  else LocalIndex.Find k (index_ n).

Definition Stats (n : StorageNode) : StorageNodeStats := stats_ n.
Definition IsReady (n : StorageNode) : bool := ready_ n.

(** ** Lifecycle *)

(** The opening loop: the failure (or [Ok]), how many tiers were opened and the
    index that failed. *)
Fixpoint open_tiers (todo i opened : nat) : comp StorageNode (Status * nat * nat) :=
  match todo with
  | O => mret (Ok, opened, 0%nat)
  | S todo' =>
      n ← get;
      match tiers_ n !! i with
      | Some (Some _) =>
          failure ← on_tier i tier_Open;
          if negb (ok failure) then mret (failure, opened, i)
          else (
            is_ready ← tier_get i tier_IsReady;
            if negb is_ready then mret (Internal "Open returned OK but tier is not ready", S i, i)
            else open_tiers todo' (S i) (S i))
      | _ => mret (Internal "configured tier is null", opened, i)
      end
  end.

(** The visitor of the recovery scan. *)
Definition recover_entry (id : string) (ty : TierType) (k : BlockKey) (info : BlockInfo)
  : comp LocalIndex.LocalIndex Status :=
  location_fails ← alloc_fails;
  if location_fails : bool then
    mret (mkStatus kOutOfCapacity "StorageNode::Open index recovery allocation failed")
  else LocalIndex.InsertIfAbsent k (mkLocation id ty (bi_handle info)).

Definition visit_tier (i : nat) (recovered : LocalIndex.LocalIndex)
  : comp StorageNode (Status * LocalIndex.LocalIndex) := fun n al =>
  match tiers_ n !! i with
  | Some (Some t) =>
      match tier_VisitEntries _ (recover_entry (id_ n) (tier_type t)) (t, recovered) al with
      | Done (s, tr, al') => Done ((s, tr.2), set_tiers (<[i := Some tr.1]> (tiers_ n)) n, al')
      | Terminated => Terminated
      end
  | _ => Terminated
  end.

(** The recovery loop, hottest tier first. *)
Fixpoint recover_tiers (todo i : nat) (recovered : LocalIndex.LocalIndex)
  : comp StorageNode (Status * LocalIndex.LocalIndex * nat) :=
  match todo with
  | O => mret (Ok, recovered, 0%nat)
  | S todo' =>
      x ← visit_tier i recovered;
      let '(failure, recovered') := x in
      if negb (ok failure) then mret (failure, recovered', i)
      else recover_tiers todo' (S i) recovered'
  end.

(** The rollback: close what was opened, in reverse order, collecting errors in
    the message. *)
Fixpoint rollback_tiers (opened : nat) (message : string) : comp StorageNode string :=
  match opened with
  | O => mret message
  | S i =>
      n ← get;
      match tiers_ n !! i with
      | Some (Some t) =>
          rollback ← on_tier i tier_Close;
          rollback_tiers i
            (if ok rollback then message
             else (message +:+ "; rollback close tier[" +:+ to_string (Z.of_nat i) +:+ "] ("
                   +:+ TierTypeName (tier_type t) +:+ ") failed: " +:+ Status_ToString rollback)%string)
      | _ => rollback_tiers i message
      end
  end.

Definition Open : comp StorageNode Status :=
  n ← get;
  if ready_ n then mret Ok
  else match tiers_ n with
  | [] => mret (Internal "StorageNode::Open: node has no tiers")
  | _ =>
      let count := length (tiers_ n) in
      x ← open_tiers count 0%nat 0%nat;
      let '(opening, opened, opening_index) := x in
      y ← (if ok opening then recover_tiers count 0%nat LocalIndex.empty
           else mret (opening, LocalIndex.empty, opening_index));
      let '(failure, recovered, failed_index) := y in
      if negb (ok failure) then (
        n ← get;
        let where_ := match tiers_ n !! failed_index with
                      | Some (Some t) => (" (" +:+ TierTypeName (tier_type t) +:+ ")")%string
                      | _ => ""
                      end in
        message ← rollback_tiers opened
          ("StorageNode::Open: tier[" +:+ to_string (Z.of_nat failed_index) +:+ "]" +:+ where_
           +:+ " failed: " +:+ Status_ToString failure)%string;
        modify (set_ready false) ;;
        mret (mkStatus (code failure) message))
      else (
        on_index (LocalIndex.Swap recovered) ;;
        modify (set_ready true) ;;
        mret Ok)
  end.

(** [Close]: every tier in reverse order; the first error is reported. *)
Fixpoint close_tiers (i : nat) (first_error : Status) : comp StorageNode Status :=
  match i with
  | O => mret first_error
  | S i' =>
      n ← get;
      match tiers_ n !! i' with
      | Some (Some t) =>
          s ← on_tier i' tier_Close;
          close_tiers i'
            (if negb (ok s) && ok first_error then
               mkStatus (code s)
                 ("StorageNode::Close: tier[" +:+ to_string (Z.of_nat i') +:+ "] ("
                  +:+ TierTypeName (tier_type t) +:+ ") failed: " +:+ Status_ToString s)%string
             else first_error)
      | _ => close_tiers i' first_error
      end
  end.

Definition Close : comp StorageNode Status :=
  n ← get;
  first_error ← close_tiers (length (tiers_ n)) Ok;
  modify (set_ready false) ;;
  mret first_error.
End node.
Arguments StorageNode : clear implicits.
End StorageNode.
