(* ===== verification/NodeInv.v ===== *)
(** * Storage node: the invariant

    What holds between operations of a node, the map of blocks it serves, and
    how updates of one tier, of the index and of the policy act on them.  Proved
    for any tiers and any policy that meet their contracts. *)

From S2P Require Import Prelude Api BlockKeys EvictionPolicy LocalIndex Tier StorageNode.
Import StorageNode.

Section node_inv.
Context {T P : Type} `{TierLaws T} `{EvictionPolicyLaws P}.

Abbreviation node := (StorageNode T P).
Abbreviation table n := (LocalIndex.table_ (index_ n)).

(** ** Tiers by type *)

Lemma find_tier_Some ty (ts : list (option T)) i :
  find_tier ty ts = Some i -> exists t, ts !! i = Some (Some t) /\ tier_type t = ty.
Proof.
  revert i. induction ts as [|[t|] ts IH]; intros i; cbn [find_tier]; [done| |].
  - case_decide; [intros [= <-]; by exists t|]. intros (j & Hj & ->)%fmap_Some. by apply IH.
  - intros (j & Hj & ->)%fmap_Some. by apply IH.
Qed.

(** Replacing a tier by one of the same type. *)
Lemma find_tier_insert ty (ts : list (option T)) i t t' :
  ts !! i = Some (Some t) -> tier_type t' = tier_type t ->
  find_tier ty (<[i := Some t']> ts) = find_tier ty ts.
Proof.
  intros Hi Ht. revert i Hi. induction ts as [|[u|] ts IH]; intros i Hi; [done|..].
  - destruct i as [|i]; cbn in Hi |- *; simplify_eq; [by rewrite Ht|]. case_decide; [done|]. by rewrite IH.
  - destruct i as [|i]; cbn in Hi |- *; simplify_eq. by rewrite IH.
Qed.

(** [tiers_[i]] is the tier that serves type [ty]. *)
Definition tier_at (ts : list (option T)) (ty : TierType) (i : nat) (t : T) : Prop :=
  find_tier ty ts = Some i /\ ts !! i = Some (Some t).

Definition tier_of (ts : list (option T)) (ty : TierType) : option T :=
  i ← find_tier ty ts; t ← ts !! i; t.

Lemma tier_of_Some ts ty t : tier_of ts ty = Some t <-> exists i, tier_at ts ty i t.
Proof.
  unfold tier_of, tier_at. split.
  - intros (i & Hf & (x & Hx & E)%bind_Some)%bind_Some. cbn in E. subst. eauto.
  - intros (i & Hf & Hi). by rewrite Hf; cbn; rewrite Hi.
Qed.

Lemma tier_at_of ts ty i t : tier_at ts ty i t -> tier_of ts ty = Some t.
Proof. intros Hat. apply tier_of_Some. eauto. Qed.

Lemma tier_at_type ts ty i t : tier_at ts ty i t -> tier_type t = ty.
Proof. intros [Hf Hi]. apply find_tier_Some in Hf as (t' & Hi' & E). congruence. Qed.

Lemma find_tier_at ts ty i : find_tier ty ts = Some i -> exists t, tier_at ts ty i t.
Proof. intros Hf. destruct (find_tier_Some _ _ _ Hf) as (t & Hi & _). by exists t. Qed.

Lemma find_tier_None ts ty : find_tier ty ts = None -> tier_of ts ty = None.
Proof. unfold tier_of. by intros ->. Qed.

Section update.
Context (ts : list (option T)) (ty : TierType) (i : nat) (t t' : T).
Context (Hat : tier_at ts ty i t) (Hty : tier_type t' = tier_type t).

Lemma find_tier_upd ty' : find_tier ty' (<[i := Some t']> ts) = find_tier ty' ts.
Proof. destruct Hat as [_ Hi]. by eapply find_tier_insert. Qed.

Lemma tier_at_upd : tier_at (<[i := Some t']> ts) ty i t'.
Proof.
  split; [rewrite find_tier_upd; apply Hat|]. apply list_lookup_insert_eq. destruct Hat as [_ Hi].
  by eapply lookup_lt_Some.
Qed.

Lemma tier_at_upd_other ty' j u : ty' <> ty -> tier_at ts ty' j u -> tier_at (<[i := Some t']> ts) ty' j u.
Proof.
  intros Hne Hj. pose proof (tier_at_type _ _ _ _ Hj) as Tj. pose proof (tier_at_type _ _ _ _ Hat) as Ti.
  destruct Hj as [Hf Hj]. split; [by rewrite find_tier_upd|].
  rewrite list_lookup_insert_ne; [done|]. intros <-. destruct Hat as [_ Hi]. congruence.
Qed.

Lemma tier_of_upd ty' : tier_of (<[i := Some t']> ts) ty' = if decide (ty' = ty) then Some t' else tier_of ts ty'.
Proof.
  case_decide as E; [subst; apply tier_of_Some; eexists; apply tier_at_upd|].
  apply option_eq. intros u. rewrite !tier_of_Some. split; intros [j Hj]; exists j.
  - pose proof (tier_at_type _ _ _ _ Hj) as Tj. destruct Hj as [Hf Hj]. rewrite find_tier_upd in Hf.
    split; [done|]. rewrite list_lookup_insert_ne in Hj; [done|]. intros <-.
    rewrite list_lookup_insert_eq in Hj by (destruct Hat as [_ Hi]; by eapply lookup_lt_Some).
    pose proof (tier_at_type _ _ _ _ Hat). congruence.
  - by apply tier_at_upd_other.
Qed.
End update.

(** ** Running methods of the members *)

Definition upd_tier (i : nat) (t : T) (n : node) : node := set_tiers (<[i := Some t]> (tiers_ n)) n.

Lemma upd_tier_twice i t t' n : upd_tier i t' (upd_tier i t n) = upd_tier i t' n.
Proof. unfold upd_tier, set_tiers. cbn. by rewrite list_insert_insert_eq. Qed.

Lemma upd_tier_id i t n : tiers_ n !! i = Some (Some t) -> upd_tier i t n = n.
Proof. intros Hi. unfold upd_tier, set_tiers. destruct n. cbn in *. by rewrite list_insert_id. Qed.

Lemma wp_on_tier {A} i t (m : comp T A) (Q : A -> node -> Prop) n :
  tiers_ n !! i = Some (Some t) -> wp m (fun a t' => Q a (upd_tier i t' n)) t -> wp (on_tier i m) Q n.
Proof.
  intros Hi Hw al. specialize (Hw al). unfold on_tier. rewrite Hi. by destruct (m t al) as [[[a t'] al']|].
Qed.

Lemma wp_tier_get {A} i t (f : T -> A) (Q : A -> node -> Prop) n :
  tiers_ n !! i = Some (Some t) -> Q (f t) n -> wp (tier_get i f) Q n.
Proof.
  intros Hi HQ. unfold tier_get. eapply wp_on_tier; [done|]. apply wp_gets. by rewrite upd_tier_id.
Qed.

Lemma wp_on_policy {A} p (m : comp P A) (Q : A -> node -> Prop) n :
  eviction_ n = Some p -> wp m (fun a p' => Q a (set_eviction (Some p') n)) p -> wp (on_policy m) Q n.
Proof.
  intros Hp Hw al. specialize (Hw al). unfold on_policy. rewrite Hp. by destruct (m p al) as [[[a p'] al']|].
Qed.

Lemma wp_policy_get {A} p (f : P -> A) (Q : A -> node -> Prop) n :
  eviction_ n = Some p -> Q (f p) n -> wp (policy_get f) Q n.
Proof.
  intros Hp HQ. unfold policy_get. eapply wp_on_policy; [done|]. apply wp_gets.
  replace (set_eviction (Some p) n) with n; [done|]. destruct n. cbn in *. by subst.
Qed.

Lemma wp_on_index {A} (m : comp LocalIndex.LocalIndex A) (Q : A -> node -> Prop) n :
  wp m (fun a ix => Q a (set_index ix n)) (index_ n) -> wp (on_index m) Q n.
Proof. apply wp_zoom. Qed.

(** ** The invariant *)

(** The blocks held by the tier of each type. *)
Definition held (ts : list (option T)) (ty : TierType) : gmap BlockKey Block :=
  from_option tier_contents ∅ (tier_of ts ty).

(** The block served for a key, given what the tiers hold. *)
Definition value (h : TierType -> gmap BlockKey Block) (tb : gmap BlockKey Location) (k : BlockKey) : option Block :=
  loc ← tb !! k; h (tier loc) !! k.

(** Tiers have distinct types, the hottest comes first and DRAM is the hottest
    when present. *)
Record layout_ok (ts : list (option T)) : Prop := {
  lo_hot : exists h, ts !! 0%nat = Some (Some h);
  lo_unique : forall i t, ts !! i = Some (Some t) -> find_tier (tier_type t) ts = Some i;
  lo_dram : forall i, find_tier kDram ts = Some i -> i = 0%nat
}.

(** The tiers keep their contracts; a bounded DRAM tier is within its
    capacity. *)
Record tiers_ok (ready : bool) (ts : list (option T)) : Prop := {
  to_layout : layout_ok ts;
  to_inv : forall ty t, tier_of ts ty = Some t -> tier_inv t;
  to_ready : ready = true -> forall ty t, tier_of ts ty = Some t -> tier_IsReady t = true;
  to_capacity : forall d, tier_of ts kDram = Some d -> capacity_bytes (tier_Stats d) <> 0 ->
    total_bytes (tier_contents d) <= capacity_bytes (tier_Stats d)
}.

(** Between operations the policy tracks exactly the DRAM blocks and holds no
    reservation. *)
Definition policy_ok (ev : option P) (ts : list (option T)) : Prop :=
  forall p, ev = Some p ->
    ep_inv p /\ ep_reserved p = None /\ ep_resident p = dom (held ts kDram).

(** The index names a block that is there, and every DRAM block is named. *)
Record index_ok (id : string) (h : TierType -> gmap BlockKey Block) (tb : gmap BlockKey Location) : Prop := {
  io_entry : forall k loc, tb !! k = Some loc -> node_id loc = id /\ is_Some (h (tier loc) !! k);
  io_dram : forall k, is_Some (h kDram !! k) -> exists loc, tb !! k = Some loc /\ tier loc = kDram
}.

Record node_inv (n : node) : Prop := {
  ni_tiers : tiers_ok (ready_ n) (tiers_ n);
  ni_policy : policy_ok (eviction_ n) (tiers_ n);
  ni_index : ready_ n = true -> index_ok (id_ n) (held (tiers_ n)) (table n)
}.

(** The map a node serves. *)
Definition serves (n : node) (k : BlockKey) : option Block := value (held (tiers_ n)) (table n) k.

(** ** Effects of an update *)

Lemma held_at ts ty i t : tier_at ts ty i t -> held ts ty = tier_contents t.
Proof. intros Hat. unfold held. by rewrite (tier_at_of _ _ _ _ Hat). Qed.

Lemma held_upd ts ty i t t' ty' :
  tier_at ts ty i t -> tier_type t' = tier_type t ->
  held (<[i := Some t']> ts) ty' = if decide (ty' = ty) then tier_contents t' else held ts ty'.
Proof. intros Hat Hty. unfold held. rewrite (tier_of_upd ts ty i t t') by done. by case_decide. Qed.

Lemma layout_upd ts ty i t t' :
  layout_ok ts -> tier_at ts ty i t -> tier_type t' = tier_type t -> layout_ok (<[i := Some t']> ts).
Proof.
  intros [Hh Hu Hd] Hat Hty. pose proof (find_tier_upd ts ty i t t' Hat Hty) as Hf.
  destruct Hat as [Hfi Hi]. pose proof (lookup_lt_Some _ _ _ Hi) as Hlt. split.
  - destruct (decide (i = 0%nat)) as [->|]; [rewrite list_lookup_insert_eq by done; eauto|].
    by rewrite list_lookup_insert_ne.
  - intros j u Hj. rewrite Hf. destruct (decide (i = j)) as [<-|Hne].
    + rewrite list_lookup_insert_eq in Hj by done. simplify_eq. rewrite Hty. by apply Hu.
    + rewrite list_lookup_insert_ne in Hj by done. by apply Hu.
  - intros j. rewrite Hf. apply Hd.
Qed.

Lemma tiers_upd r ts ty i t t' :
  tiers_ok r ts -> tier_at ts ty i t -> tier_frame t t' ->
  (ty = kDram -> capacity_bytes (tier_Stats t) <> 0 ->
   total_bytes (tier_contents t') <= capacity_bytes (tier_Stats t)) ->
  tiers_ok r (<[i := Some t']> ts).
Proof.
  intros [Hl Hi Hr Hc] Hat (Fi & Fty & Fr & Fc) Hcap. pose proof (tier_at_of _ _ _ _ Hat) as Hof.
  pose proof (tier_of_upd ts ty i t t' Hat Fty) as Hu. split.
  - by eapply layout_upd.
  - intros ty' u. rewrite Hu. case_decide; [|by apply Hi]. by intros [= <-].
  - intros Hrd ty' u. rewrite Hu. case_decide; [|by apply Hr]. intros [= <-]. rewrite Fr. by eapply Hr.
  - intros d. rewrite Hu. case_decide as E; [|by apply Hc]. intros [= <-]. rewrite Fc. by apply Hcap.
Qed.

(** Same contents: nothing visible changes. *)
Lemma held_same ts ty i t t' ty' :
  tier_at ts ty i t -> tier_type t' = tier_type t -> tier_contents t' = tier_contents t ->
  held (<[i := Some t']> ts) ty' = held ts ty'.
Proof.
  intros Hat Hty Hc. rewrite (held_upd ts ty i t t') by done. case_decide; [|done]. subst.
  by rewrite Hc, (held_at _ _ _ _ Hat).
Qed.

Lemma tiers_same r ts ty i t t' :
  tiers_ok r ts -> tier_at ts ty i t -> tier_frame t t' -> tier_contents t' = tier_contents t ->
  tiers_ok r (<[i := Some t']> ts).
Proof.
  intros Hok Hat Hf Hc. eapply tiers_upd; [done..|]. intros -> Hcap. rewrite Hc.
  apply (to_capacity _ _ Hok); [by eapply tier_at_of|done].
Qed.

Lemma index_ext id h h' tb : (forall ty, h' ty = h ty) -> index_ok id h tb -> index_ok id h' tb.
Proof. intros E [He Hd]. split; intros *; rewrite ?E; eauto. Qed.

Lemma value_ext h h' tb k : (forall ty, h' ty = h ty) -> value h' tb k = value h tb k.
Proof. intros E. unfold value. destruct (tb !! k); [|done]. cbn. by rewrite E. Qed.

Lemma policy_same ev ts ts' : held ts' kDram = held ts kDram -> policy_ok ev ts -> policy_ok ev ts'.
Proof. intros E Hp p Hev. rewrite E. by apply Hp. Qed.
End node_inv.
