(* ===== verification/NodeRoom.v ===== *)
(** * Storage node: making room in DRAM

    [ReadBlockLocked], [DemoteOneVictimLocked] and [MakeDramRoomForLocked]: a
    demotion moves one block from DRAM to the sink or changes nothing visible,
    and the loop that demotes until the incoming block fits terminates. *)

From S2P Require Import Prelude Api BlockKeys EvictionPolicy LocalIndex Tier StorageNode NodeInv.
Import StorageNode.

Section room.
Context {T P : Type} `{TierLaws T} `{EvictionPolicyLaws P}.

Abbreviation node := (StorageNode T P).
Abbreviation table n := (LocalIndex.table_ (index_ n)).

(** What making room may do: blocks move between tiers, nothing is lost. *)
Record evolves (n n' : node) : Prop := {
  ev_id : id_ n' = id_ n;
  ev_ready : ready_ n' = ready_ n;
  ev_policy : is_Some (eviction_ n') <-> is_Some (eviction_ n);
  ev_find : forall ty, find_tier ty (tiers_ n') = find_tier ty (tiers_ n);
  ev_capacity : forall ty t', tier_of (tiers_ n') ty = Some t' ->
    exists t, tier_of (tiers_ n) ty = Some t
              /\ capacity_bytes (tier_Stats t') = capacity_bytes (tier_Stats t);
  ev_serves : forall k, serves n' k = serves n k
}.

Lemma evolves_refl (n : node) : evolves n n.
Proof. split; try done. eauto. Qed.

Lemma evolves_trans (n1 n2 n3 : node) : evolves n1 n2 -> evolves n2 n3 -> evolves n1 n3.
Proof.
  intros [A1 A2 A3 A4 A5 A6] [B1 B2 B3 B4 B5 B6]. split.
  - congruence.
  - congruence.
  - by rewrite B3.
  - intros ty. by rewrite B4.
  - intros ty t3 Ht3. destruct (B5 _ _ Ht3) as (t2 & Ht2 & E2). destruct (A5 _ _ Ht2) as (t1 & Ht1 & E1).
    exists t1. split; [done|congruence].
  - intros k. by rewrite B6.
Qed.

(** Reading a block through its tier. *)
Lemma wp_ReadBlockLocked (n : node) ty i t k :
  tier_at (tiers_ n) ty i t -> tier_inv t -> tier_IsReady t = true -> BlockKey_wf k ->
  wp (ReadBlockLocked (Some i) k) (fun r n' =>
    exists t', n' = upd_tier i t' n /\ tier_frame t t' /\ tier_contents t' = tier_contents t
      /\ match r with
         | Value b => tier_contents t !! k = Some b
         | Error s => ok s = false
         end) n.
Proof.
  intros Hat Hi Hr Hk. unfold ReadBlockLocked. wp_steps.
  eapply wp_on_tier; [apply Hat|]. eapply wp_mono; [by apply tier_Probe_law|].
  intros [info|s] t1 (F1 & C1 & HQ); cbv beta iota in HQ; [|wp_steps; exists t1; naive_solver].
  destruct HQ as (b & Hb & Hm & Hsz).
  apply wp_bind, (wp_mono _ (fun _ m => m = upd_tier i t1 n)); [destruct (_ =? _); by wp_steps|].
  intros resize_fails m ->. destruct resize_fails; [wp_steps; exists t1; by split_and!|].
  pose proof F1 as (I1 & Y1 & R1 & K1). rewrite Hr in R1.
  set (dst := mkMutableBuffer _ _).
  assert (MutableBuffer_wf dst) as Hdst.
  { unfold MutableBuffer_wf, dst. cbn. destruct (payload_size info =? 0) eqn:E; [done|].
    unfold zlen. rewrite length_replicate, Z2Nat.id; [done|]. rewrite Hsz. apply zlen_nonneg. }
  wp_steps. eapply wp_on_tier; [exact (proj2 (tier_at_upd _ _ _ _ _ Hat Y1))|]. eapply wp_mono; [by apply tier_Get_law|].
  intros [[s dst'] v] t2 (F2 & C2 & Hcap & Hwf & HQ). rewrite upd_tier_twice.
  assert (tier_frame t t2 /\ tier_contents t2 = tier_contents t) as [F C].
  { destruct F2 as (? & ? & ? & ?). split; [split_and!|]; congruence. }
  destruct (ok s) eqn:Es; cbn [negb]; [|wp_steps; exists t2; naive_solver].
  destruct HQ as (_ & b' & Hb' & _ & Hsz' & Hm' & Hv). rewrite C1, Hb in Hb'. simplify_eq.
  rewrite Hsz', Hsz, Z.eqb_refl. cbn [negb]. wp_steps. exists t2. split_and!; try done.
  rewrite Hb, Hm'. destruct b' as [m d]. do 2 f_equal. cbn [data size_bytes] in *.
  specialize (Hwf Hdst). unfold MutableBuffer_wf in Hwf. unfold view_bytes in Hv. rewrite Hsz' in Hv.
  rewrite Hcap in Hwf. change (mb_capacity dst) with (payload_size info) in Hwf. rewrite Hsz in Hwf.
  unfold size_bytes in *. cbn [data] in *. destruct (mb_data dst') as [mem|]; cbn; [|done].
  rewrite <- Hv at 1. unfold zlen in *. rewrite take_ge; [done|lia].
Qed.

(** Giving a reservation back. *)
Lemma wp_CancelVictimOrInternal (n : node) p k cause context :
  eviction_ n = Some p -> ep_inv p -> ep_reserved p = Some k ->
  wp (CancelVictimOrInternal k cause context) (fun s n' =>
    s = cause /\ exists p', n' = set_eviction (Some p') n /\ ep_inv p' /\ ep_reserved p' = None
                            /\ ep_resident p' = ep_resident p) n.
Proof.
  intros Hp Hi Hr. unfold CancelVictimOrInternal. wp_steps. eapply wp_on_policy; [done|].
  eapply wp_mono; [by apply ep_CancelVictim_law|]. intros s p' (? & -> & ? & ?). wp_steps. eauto 6.
Qed.

(** ** The index and what the tiers hold *)

Lemma index_dram_entry id h tb k b :
  index_ok id h tb -> h kDram !! k = Some b ->
  exists loc, tb !! k = Some loc /\ tier loc = kDram /\ node_id loc = id.
Proof.
  intros Hix Hb. destruct (io_dram _ _ _ Hix k ltac:(eauto)) as (loc & Hl & Ht).
  exists loc. split_and!; try done. by eapply io_entry.
Qed.

(** A second copy on another tier, of a block whose primary is in DRAM. *)
Lemma index_shadow id h h' tb ty k b loc :
  index_ok id h tb -> ty <> kDram -> tb !! k = Some loc -> tier loc = kDram ->
  h' ty = h ty \/ h' ty = <[k := b]> (h ty) -> (forall ty', ty' <> ty -> h' ty' = h ty') ->
  index_ok id h' tb /\ forall k', value h' tb k' = value h tb k'.
Proof.
  intros [He Hd] Hty Hk Hloc Hh Ho. split.
  - split.
    + intros k' loc' Hk'. destruct (He k' loc' Hk') as [? Hs]. split; [done|].
      destruct (decide (tier loc' = ty)) as [E'|]; [rewrite E' in *|by rewrite Ho]. destruct Hh as [->| ->]; [done|].
      rewrite lookup_insert. by case_decide.
    + intros k'. rewrite Ho by done. apply Hd.
  - intros k'. unfold value. destruct (tb !! k') as [loc'|] eqn:E; [|done]. cbn.
    destruct (decide (tier loc' = ty)) as [E'|]; [rewrite E' in *|by rewrite Ho]. destruct Hh as [->| ->]; [done|].
    rewrite lookup_insert_ne; [done|]. intros <-. congruence.
Qed.

(** The primary moves from DRAM to another tier that now holds it. *)
Lemma index_moved id h h' tb ty k b loc hd :
  index_ok id h tb -> ty <> kDram -> tb !! k = Some loc -> tier loc = kDram -> h kDram !! k = Some b ->
  h' kDram = delete k (h kDram) -> h' ty = <[k := b]> (h ty) ->
  (forall ty', ty' <> ty -> ty' <> kDram -> h' ty' = h ty') ->
  let tb' := <[k := mkLocation (node_id loc) ty hd]> tb in
  index_ok id h' tb' /\ forall k', value h' tb' k' = value h tb k'.
Proof.
  intros [He Hd] Hty Hk Hloc Hb Hdel Hins Ho tb'.
  assert (forall ty' k', k' <> k -> h' ty' !! k' = h ty' !! k') as Hother.
  { intros ty' k' Hne. destruct (decide (ty' = ty)) as [->|]; [by rewrite Hins, lookup_insert_ne|].
    destruct (decide (ty' = kDram)) as [->|]; [by rewrite Hdel, lookup_delete_ne|by rewrite Ho]. }
  split; [split|].
  - intros k' loc' [[<- <-]|[Hne Hk']]%lookup_insert_Some.
    + cbn. split; [by eapply He|]. rewrite Hins, lookup_insert_eq. eauto.
    + rewrite Hother by done. by apply He.
  - intros k'. destruct (decide (k' = k)) as [->|Hne]; [rewrite Hdel, lookup_delete_eq; by intros [? ?]|].
    rewrite Hother by done. intros (loc' & Hk' & Ht)%Hd. exists loc'. unfold tb'. by rewrite lookup_insert_ne.
  - intros k'. unfold value, tb'. destruct (decide (k' = k)) as [->|Hne].
    + rewrite lookup_insert_eq, Hk. cbn. by rewrite Hins, lookup_insert_eq, Hloc, Hb.
    + rewrite lookup_insert_ne by done. destruct (tb !! k') as [loc'|]; [|done]. cbn. by apply Hother.
Qed.

(** ** One demotion *)

(** Either one block has moved from DRAM to the sink, or nothing visible has
    changed. *)
Record demoted (excluded : option BlockKey) (n : node) (s : Status) (n' : node) : Prop := {
  de_inv : node_inv n';
  de_evolves : evolves n n';
  de_table : forall k, Some k = excluded \/ held (tiers_ n) kDram !! k = None ->
    table n' !! k = table n !! k /\ held (tiers_ n') kSsd !! k = held (tiers_ n) kSsd !! k;
  de_dram : if ok s then
              exists v b, Some v <> excluded /\ held (tiers_ n) kDram !! v = Some b
                          /\ held (tiers_ n') kDram = delete v (held (tiers_ n) kDram)
            else held (tiers_ n') kDram = held (tiers_ n) kDram
}.

(** The tiers after an attempt: same places, same types, same capacities. *)
Record same_places (ts ts' : list (option T)) : Prop := {
  sp_find : forall ty, find_tier ty ts' = find_tier ty ts;
  sp_capacity : forall ty t', tier_of ts' ty = Some t' ->
    exists t, tier_of ts ty = Some t /\ capacity_bytes (tier_Stats t') = capacity_bytes (tier_Stats t)
}.

Lemma same_places_refl ts : same_places ts ts.
Proof. split; [done|]. eauto. Qed.

Lemma same_places_upd ts ty i t t' :
  tier_at ts ty i t -> tier_frame t t' -> same_places ts (<[i := Some t']> ts).
Proof.
  intros Hat (_ & Hty & _ & Hc). split; [intros; by eapply find_tier_upd|].
  intros ty' u. rewrite (tier_of_upd ts ty i t t') by done. case_decide; [|eauto].
  intros [= <-]. subst. exists t. split; [by eapply tier_at_of|done].
Qed.

Lemma same_places_trans ts1 ts2 ts3 : same_places ts1 ts2 -> same_places ts2 ts3 -> same_places ts1 ts3.
Proof.
  intros [A1 A2] [B1 B2]. split; [intros; by rewrite B1|].
  intros ty t3 Ht3. destruct (B2 _ _ Ht3) as (t2 & Ht2 & E2). destruct (A2 _ _ Ht2) as (t1 & Ht1 & E1).
  exists t1. split; [done|congruence].
Qed.

(** An attempt that was given up: the sink may hold a second copy. *)
Lemma demotion_abandoned excluded n ts' p' s sink k b :
  node_inv n -> ready_ n = true -> is_Some (eviction_ n) -> ok s = false ->
  sink <> kDram -> held (tiers_ n) kDram !! k = Some b -> Some k <> excluded ->
  tiers_ok true ts' -> same_places (tiers_ n) ts' ->
  (forall ty, ty <> sink -> held ts' ty = held (tiers_ n) ty) ->
  held ts' sink = held (tiers_ n) sink \/ held ts' sink = <[k := b]> (held (tiers_ n) sink) ->
  ep_inv p' -> ep_reserved p' = None -> ep_resident p' = dom (held (tiers_ n) kDram) ->
  demoted excluded n s (set_eviction (Some p') (set_tiers ts' n)).
Proof.
  intros Hn Hr Hev Hs Hsink Hk Hex Hts Hsp Ho Hcopy Pi Pr Pres.
  pose proof (ni_index n Hn Hr) as Hix.
  destruct (index_dram_entry _ _ _ _ _ Hix Hk) as (loc & Hl & Ht & _).
  destruct (index_shadow _ _ (held ts') _ sink k b loc Hix Hsink Hl Ht Hcopy ltac:(eauto)) as [Hix' Hv].
  split; cbn.
  - split; cbn; [by rewrite Hr| |done]. intros p [= <-]. split_and!; try done. by rewrite Ho.
  - destruct Hsp as [Hf Hc]. by split.
  - intros k' Hk'. split; [done|]. assert (k <> k') as Hne by (intros ->; naive_solver).
    change (held ts' kSsd !! k' = held (tiers_ n) kSsd !! k').
    destruct (decide (kSsd = sink)) as [<-|]; [|by rewrite Ho].
    destruct Hcopy as [->| ->]; [done|by rewrite lookup_insert_ne].
  - rewrite Hs. by apply Ho.
Qed.

(** A committed demotion. *)
Lemma demotion_committed excluded n ts' ix' p' st sink k b loc hd :
  node_inv n -> ready_ n = true -> is_Some (eviction_ n) ->
  sink <> kDram -> held (tiers_ n) kDram !! k = Some b -> Some k <> excluded ->
  table n !! k = Some loc -> tier loc = kDram ->
  tiers_ok true ts' -> same_places (tiers_ n) ts' ->
  held ts' kDram = delete k (held (tiers_ n) kDram) ->
  held ts' sink = <[k := b]> (held (tiers_ n) sink) ->
  (forall ty, ty <> sink -> ty <> kDram -> held ts' ty = held (tiers_ n) ty) ->
  LocalIndex.table_ ix' = <[k := mkLocation (node_id loc) sink hd]> (table n) ->
  ep_inv p' -> ep_reserved p' = None -> ep_resident p' = dom (held (tiers_ n) kDram) ∖ {[k]} ->
  demoted excluded n Ok (set_stats st (set_eviction (Some p') (set_index ix' (set_tiers ts' n)))).
Proof.
  intros Hn Hr Hev Hsink Hk Hex Hl Ht Hts Hsp Hd Hi Ho Hix' Pi Pr Pres.
  pose proof (ni_index n Hn Hr) as Hix.
  destruct (index_moved _ _ (held ts') _ sink k b loc hd Hix Hsink Hl Ht Hk Hd Hi Ho) as [Hok Hv].
  split; cbn.
  - split; cbn; [by rewrite Hr| |by rewrite Hix'].
    intros p [= <-]. split_and!; try done. by rewrite Hd, dom_delete_L.
  - destruct Hsp as [Hf Hc]. split; try done.
    intros k'. unfold serves. cbn. by rewrite Hix'.
  - intros k' Hk'. rewrite Hix'. assert (k <> k') as Hne by (intros ->; naive_solver).
    split; [by apply lookup_insert_ne|]. change (held ts' kSsd !! k' = held (tiers_ n) kSsd !! k').
    destruct (decide (kSsd = sink)) as [<-|]; [by rewrite Hi, lookup_insert_ne|].
    by rewrite Ho.
  - rewrite ok_Ok. by exists k, b.
Qed.

(** The bookkeeping of a policy that reserved or released a victim. *)
Lemma demotion_none excluded n p' s :
  node_inv n -> is_Some (eviction_ n) -> ok s = false ->
  ep_inv p' -> ep_reserved p' = None -> ep_resident p' = dom (held (tiers_ n) kDram) ->
  demoted excluded n s (set_eviction (Some p') n).
Proof.
  intros [Hts Hpol Hix] Hev Hs Pi Pr Pres. split; cbn; [| |done|by rewrite Hs].
  - split; cbn; try done. intros p [= <-]. done.
  - split; cbn; try done. eauto.
Qed.

Section demote.
Context (n : node) (p : P) (dram sink : nat) (d snk : T) (excluded : option BlockKey).
Context (Hn : node_inv n) (Hr : ready_ n = true) (Hev : eviction_ n = Some p).
Context (Hd : tier_at (tiers_ n) kDram dram d) (Hs : tier_at (tiers_ n) kSsd sink snk).

Lemma demote_tier_ok ty i t : tier_at (tiers_ n) ty i t -> tier_inv t /\ tier_IsReady t = true.
Proof.
  intros Hat%tier_at_of. pose proof (ni_tiers n Hn) as Hts. rewrite Hr in Hts.
  split; [by eapply to_inv|by eapply to_ready].
Qed.

(** From the point where the victim has been read and validated. *)
Lemma wp_demote_commit v b loc p1 d1 :
  ep_inv p1 -> ep_reserved p1 = Some v -> ep_resident p1 = dom (held (tiers_ n) kDram) ->
  Some v <> excluded -> tier_contents d !! v = Some b -> table n !! v = Some loc -> tier loc = kDram ->
  tier_frame d d1 -> tier_contents d1 = tier_contents d ->
  wp (stored ← on_tier sink (tier_Put v b);
      match stored with
      | Error s => CancelVictimOrInternal v s "demotion SSD Put"
      | Value sink_handle =>
          on_tier dram (tier_EraseExisting v) ;;
          sink_type ← tier_get sink tier_type;
          on_index (LocalIndex.RelocateExisting v kDram sink_type sink_handle) ;;
          on_policy (ep_CommitVictim v) ;;
          count 0 0 0 1 0 (size_bytes b) (size_bytes b) ;;
          mret Ok
      end)
     (fun s n' => demoted excluded n s n') (upd_tier dram d1 (set_eviction (Some p1) n)).
Proof.
  intros Pi Pr Pres Hex Hb Hl Ht Fd Cd. destruct (demote_tier_ok _ _ _ Hd) as [Id Rd].
  destruct (demote_tier_ok _ _ _ Hs) as [Is Rs]. pose proof (ni_tiers n Hn) as Hts. rewrite Hr in Hts.
  pose proof Fd as (Id1 & Yd1 & _ & _).
  assert (held (tiers_ n) kDram = tier_contents d) as Eh by (by eapply held_at).
  assert (kDram <> kSsd) as Hne by done.
  pose proof (tier_at_upd_other _ _ _ _ _ Hd Yd1 kSsd _ _ ltac:(done) Hs) as Hs1.
  pose proof (tier_at_upd _ _ _ _ _ Hd Yd1) as Hd1.
  pose proof (tiers_same _ _ _ _ _ _ Hts Hd Fd Cd) as Hts1.
  pose proof (same_places_upd _ _ _ _ _ Hd Fd) as Hsp1.
  wp_steps. eapply wp_on_tier; [exact (proj2 Hs1)|].
  eapply wp_mono; [apply tier_Put_law; [done..|by eapply (tier_contents_wf d)]|].
  intros r s1 [Fs HQ]. pose proof Fs as (Is1 & Ys1 & _ & _).
  pose proof (tiers_upd _ _ _ _ _ s1 Hts1 Hs1 Fs ltac:(done)) as Hts2.
  pose proof (same_places_trans _ _ _ Hsp1 (same_places_upd _ _ _ _ _ Hs1 Fs)) as Hsp2.
  assert (forall ty, held (<[sink := Some s1]> (<[dram := Some d1]> (tiers_ n))) ty
                     = if decide (ty = kSsd) then tier_contents s1 else held (tiers_ n) ty) as Hh2.
  { intros ty. rewrite (held_upd _ _ _ _ _ ty Hs1 Ys1). case_decide; [done|].
    by apply (held_same _ kDram _ d). }
  destruct r as [hd|st].
  - wp_steps. pose proof (tier_at_upd_other _ _ _ _ _ Hs1 Ys1 kDram _ _ ltac:(done) Hd1) as Hd2.
    eapply wp_on_tier; [exact (proj2 Hd2)|].
    eapply wp_mono; [apply tier_EraseExisting_law with b; [done|by eapply tier_at_type|by rewrite Cd]|].
    intros [] d3 [Fd3 Cd3]. pose proof Fd3 as (_ & Yd3 & _ & _).
    pose proof (tier_at_upd_other _ _ _ _ _ Hd2 Yd3 kSsd _ _ ltac:(done) (tier_at_upd _ _ _ _ _ Hs1 Ys1)) as Hs3.
    assert (tiers_ok true (<[dram := Some d3]> (<[sink := Some s1]> (<[dram := Some d1]> (tiers_ n))))) as Hts3.
    { eapply (tiers_upd _ _ _ _ _ d3 Hts2 Hd2 Fd3). intros _ Hcap. rewrite Cd3, Cd.
      rewrite (total_bytes_delete _ v b Hb). pose proof (zlen_nonneg (data b)) as Hz.
      pose proof (to_capacity _ _ Hts2 d1 ltac:(by eapply tier_at_of) Hcap) as Hc. rewrite Cd in Hc.
      unfold size_bytes. lia. }
    pose proof (same_places_trans _ _ _ Hsp2 (same_places_upd _ _ _ _ _ Hd2 Fd3)) as Hsp3.
    assert (forall ty, held (<[dram := Some d3]> (<[sink := Some s1]> (<[dram := Some d1]> (tiers_ n)))) ty
                       = if decide (ty = kDram) then tier_contents d3
                         else if decide (ty = kSsd) then tier_contents s1 else held (tiers_ n) ty) as Hh3.
    { intros ty. rewrite (held_upd _ _ _ _ _ ty Hd2 Yd3). case_decide; [done|]. apply Hh2. }
    wp_steps. eapply wp_tier_get; [exact (proj2 Hs3)|]. rewrite (tier_at_type _ _ _ _ Hs3).
    wp_steps. apply wp_on_index. eapply LocalIndex.wp_RelocateExisting; [exact Hl|done|].
    wp_steps. eapply wp_on_policy; [done|]. eapply wp_mono; [by apply ep_CommitVictim_law|].
    intros [] p2 (Pi2 & Pres2 & Pr2). unfold count. wp_steps.
    apply (demotion_committed excluded n
             (<[dram := Some d3]> (<[sink := Some s1]> (<[dram := Some d1]> (tiers_ n))))
             _ p2 _ kSsd v b loc hd); try done.
    + by rewrite Eh.
    + rewrite Hh3, decide_True by done. by rewrite Cd3, Cd, Eh.
    + rewrite Hh3, decide_False, decide_True by done. rewrite HQ. by rewrite (held_at _ _ _ _ Hs).
    + intros ty ??. by rewrite Hh3, !decide_False.
    + by rewrite Pres2, Pres.
  - destruct HQ as [Hst HQ]. eapply wp_mono; [by apply (wp_CancelVictimOrInternal _ p1)|].
    intros st' n' (-> & p2 & -> & Pi2 & Pr2 & Pres2).
    apply (demotion_abandoned excluded n (<[sink := Some s1]> (<[dram := Some d1]> (tiers_ n))) p2 st kSsd v b);
      try done.
    + by rewrite Eh.
    + intros ty ?. by rewrite Hh2, decide_False.
    + rewrite Hh2, decide_True by done. rewrite (held_at _ _ _ _ Hs). destruct HQ as [->|[_ ->]]; auto.
    + by rewrite Pres2, Pres.
Qed.

Lemma wp_DemoteOneVictimLocked :
  wp (DemoteOneVictimLocked dram sink excluded) (fun s n' => demoted excluded n s n') n.
Proof.
  destruct (demote_tier_ok _ _ _ Hd) as [Id Rd]. pose proof (ni_tiers n Hn) as Hts. rewrite Hr in Hts.
  assert (held (tiers_ n) kDram = tier_contents d) as Eh by (by eapply held_at).
  destruct (ni_policy n Hn p Hev) as (Pi & Pr & Pres).
  unfold DemoteOneVictimLocked. wp_steps. rewrite Hev. wp_steps.
  eapply wp_on_policy; [done|]. eapply wp_mono; [by apply ep_SelectVictim_law|].
  intros [v|st] p1 (Pi1 & Pres1 & HQ); cbv beta iota in HQ; wp_steps.
  2: { destruct HQ as (Hst & Hr1 & _). apply demotion_none; try done; congruence. }
  destruct HQ as (_ & Hv & Hex & Pr1). rewrite Pres, Eh in Hv. apply elem_of_dom in Hv as [b Hb].
  assert (ep_resident p1 = dom (held (tiers_ n) kDram)) as Pres1' by congruence.
  destruct (index_dram_entry _ _ _ v b (ni_index n Hn Hr) ltac:(by rewrite Eh)) as (loc & Hl & Ht & _).
  cbn [index_ set_eviction].
  rewrite (proj2 (LocalIndex.ValidateRelocate_ok (index_ n) v kDram)) by eauto. cbn [negb]. wp_steps.
  eapply wp_mono; [eapply (wp_ReadBlockLocked (set_eviction (Some p1) n) kDram dram d);
                   [done..|by eapply (tier_contents_wf d)]|].
  intros r n2 (d1 & -> & Fd & Cd & HQ). pose proof Fd as (Id1 & Yd1 & _ & _).
  pose proof (tier_at_upd _ _ _ _ _ Hd Yd1) as Hd1.
  destruct r as [b'|st].
  - rewrite Hb in HQ. simplify_eq. wp_steps. eapply wp_tier_get; [exact (proj2 Hd1)|].
    rewrite (proj2 (tier_ValidateEraseExisting_law d1 v Id1 (tier_at_type _ _ _ _ Hd1))) by (rewrite Cd; eauto).
    cbn [negb]. wp_steps. eapply wp_policy_get; [done|].
    rewrite (proj2 (ep_ValidateVictimCommit_law p1 v Pi1) Pr1). cbn [negb]. by eapply wp_demote_commit.
  - eapply wp_mono; [by apply (wp_CancelVictimOrInternal _ p1)|].
    intros st' n' (-> & p2 & -> & Pi2 & Pr2 & Pres2).
    apply (demotion_abandoned excluded n (<[dram := Some d1]> (tiers_ n)) p2 st kSsd v b); try done.
    + by rewrite Eh.
    + by eapply tiers_same.
    + by eapply same_places_upd.
    + intros ty _. by eapply held_same.
    + left. by eapply held_same.
    + congruence.
Qed.
End demote.

(** ** The loop *)

(** The bytes of the block being overwritten. *)
Definition replaced_ok (ts : list (option T)) (replacing : option BlockKey) (replaced : Z) : Prop :=
  match replacing with
  | Some k => exists b, held ts kDram !! k = Some b /\ replaced = size_bytes b
  | None => replaced = 0
  end.

(** The node after making room: blocks may have moved, the one being replaced
    and those outside DRAM have not, nor have their copies on the sink, and on
    success the incoming block fits. *)
Record room_made (replacing : option BlockKey) (replaced incoming : Z) (n : node) (s : Status) (n' : node) : Prop := {
  rm_inv : node_inv n';
  rm_evolves : evolves n n';
  rm_table : forall k, Some k = replacing \/ held (tiers_ n) kDram !! k = None ->
    table n' !! k = table n !! k /\ held (tiers_ n') kDram !! k = held (tiers_ n) kDram !! k
    /\ held (tiers_ n') kSsd !! k = held (tiers_ n) kSsd !! k;
  rm_fits : ok s = true -> forall d, tier_of (tiers_ n') kDram = Some d -> capacity_bytes (tier_Stats d) <> 0 ->
    total_bytes (tier_contents d) - replaced + incoming <= capacity_bytes (tier_Stats d)
}.

Lemma room_refused replacing replaced incoming n s :
  node_inv n -> ok s = false -> room_made replacing replaced incoming n s n.
Proof. intros Hn Hs. split; [done|apply evolves_refl|done|]. congruence. Qed.

Lemma room_after_demotion replacing replaced incoming n s1 n1 s n' :
  demoted replacing n s1 n1 -> room_made replacing replaced incoming n1 s n' ->
  room_made replacing replaced incoming n s n'.
Proof.
  intros [D1 D2 D3 D4] [R1 R2 R3 R4]. split; [done|by eapply evolves_trans| |done].
  intros k Hk. destruct (D3 k Hk) as [Dt Dc].
  assert (held (tiers_ n1) kDram !! k = held (tiers_ n) kDram !! k) as E.
  { destruct (ok s1); [|by rewrite D4]. destruct D4 as (v & b & Hex & Hv & ->).
    apply lookup_delete_ne. intros ->. naive_solver. }
  destruct (R3 k ltac:(rewrite E; done)) as (-> & -> & ->). done.
Qed.

Lemma demoted_size excluded n s n' :
  demoted excluded n s n' -> ok s = true ->
  size (held (tiers_ n) kDram) = S (size (held (tiers_ n') kDram)).
Proof.
  intros [_ _ _ Hd] Hs. rewrite Hs in Hd. destruct Hd as (v & b & _ & Hv & ->).
  rewrite map_size_delete_Some by eauto.
  destruct (size (held (tiers_ n) kDram)) eqn:E; [|done].
  apply map_size_empty_inv in E. by rewrite E, lookup_empty in Hv.
Qed.

Lemma replaced_after_demotion excluded n s n' replaced :
  demoted excluded n s n' -> replaced_ok (tiers_ n) excluded replaced -> replaced_ok (tiers_ n') excluded replaced.
Proof.
  intros [_ _ _ Hd]. destruct excluded as [k|]; [|done]. intros (b & Hb & ->). exists b. split; [|done].
  destruct (ok s); [|by rewrite Hd]. destruct Hd as (v & b' & Hex & Hv & ->).
  rewrite lookup_delete_ne; [done|]. congruence.
Qed.

Lemma dram_used n d :
  node_inv n -> tier_of (tiers_ n) kDram = Some d -> capacity_bytes (tier_Stats d) <> 0 ->
  used_bytes (tier_Stats d) = total_bytes (tier_contents d).
Proof.
  intros Hn Hd Hc. pose proof (ni_tiers n Hn) as Hts. pose proof (to_inv _ _ Hts _ _ Hd) as Hi.
  assert (tier_type d = kDram) as Hty by (apply tier_of_Some in Hd as [i Hat]; by eapply tier_at_type).
  destruct (tier_Stats_law d Hi Hty) as [-> _]. apply wrap_small.
  pose proof (to_capacity _ _ Hts d Hd Hc). pose proof (tier_capacity_range d Hi).
  pose proof (total_bytes_nonneg (tier_contents d)). unfold in_range in *. lia.
Qed.

Lemma evolves_tier_at n n' ty i t :
  evolves n n' -> tier_at (tiers_ n) ty i t -> exists t', tier_at (tiers_ n') ty i t'.
Proof. intros He [Hf _]. apply find_tier_at. by rewrite (ev_find _ _ He). Qed.

Lemma wp_make_room_loop fuel n dram d replacing replaced incoming :
  node_inv n -> ready_ n = true -> tier_at (tiers_ n) kDram dram d ->
  replaced_ok (tiers_ n) replacing replaced -> 0 <= incoming ->
  (size (held (tiers_ n) kDram) < fuel)%nat ->
  wp (make_room_loop fuel dram replaced incoming replacing) (room_made replacing replaced incoming n) n.
Proof.
  revert n d. induction fuel as [|fuel IH]; intros n d Hn Hr Hd Hrep Hin Hfuel; [lia|].
  cbn [make_room_loop]. wp_steps. eapply wp_tier_get; [apply Hd|].
  pose proof (tier_at_of _ _ _ _ Hd) as Hof.
  destruct (capacity_bytes (tier_Stats d) =? 0) eqn:Hc; boolZ.
  { wp_steps. split; [done|apply evolves_refl|done|]. intros _ d' Hd' Hc'. congruence. }
  rewrite (dram_used n d) by done. unfold ProjectedBytes.
  destruct (_ <? replaced) eqn:H1'; [wp_steps; by apply room_refused|].
  destruct (_ <? incoming) eqn:H2'; [wp_steps; by apply room_refused|]. boolZ.
  destruct (_ <=? capacity_bytes (tier_Stats d)) eqn:H3'; boolZ.
  { wp_steps. split; [done|apply evolves_refl|done|]. intros _ d' Hd' Hc'. simplify_eq. lia. }
  wp_steps. destruct (eviction_ n) as [p|] eqn:Hev; [|wp_steps; by apply room_refused].
  destruct (ColderTierLocked n) as [sink|] eqn:Hsk; [|wp_steps; by apply room_refused].
  apply find_tier_at in Hsk as [snk Hsk]. wp_steps.
  eapply wp_mono; [by eapply wp_DemoteOneVictimLocked|]. intros s1 n1 D1. cbv beta in D1.
  pose proof (de_inv _ _ _ _ D1) as Hn1. pose proof (de_evolves _ _ _ _ D1) as E1.
  destruct (ok s1) eqn:Es; cbn [negb].
  2: { case_decide; wp_steps; (eapply room_after_demotion; [done|]); by apply room_refused. }
  destruct (evolves_tier_at _ _ _ _ _ E1 Hd) as [d1 Hd1]. wp_steps. eapply wp_tier_get; [apply Hd1|].
  pose proof (demoted_size _ _ _ _ D1 Es) as Hsz.
  pose proof (to_inv _ _ (ni_tiers n Hn) _ _ Hof) as Id. pose proof (tier_at_type _ _ _ _ Hd) as Yd.
  pose proof (to_inv _ _ (ni_tiers n1 Hn1) _ _ (tier_at_of _ _ _ _ Hd1)) as Id1.
  pose proof (tier_at_type _ _ _ _ Hd1) as Yd1.
  rewrite (proj2 (tier_Stats_law d Id Yd)), (proj2 (tier_Stats_law d1 Id1 Yd1)).
  rewrite <- (held_at _ _ _ _ Hd), <- (held_at _ _ _ _ Hd1), Hsz.
  rewrite (proj2 (Z.leb_gt (Z.of_nat (S _)) _)) by lia. rewrite andb_false_r.
  eapply wp_mono.
  - eapply (IH n1 d1); try done; [by rewrite (ev_ready _ _ E1)|by eapply replaced_after_demotion|lia].
  - intros s n' R. by eapply room_after_demotion.
Qed.

(** A tier's own bookkeeping is invisible. *)
Lemma tier_quiet n ty i t t' :
  node_inv n -> tier_at (tiers_ n) ty i t -> tier_frame t t' -> tier_contents t' = tier_contents t ->
  node_inv (upd_tier i t' n) /\ evolves n (upd_tier i t' n)
  /\ forall ty', held (tiers_ (upd_tier i t' n)) ty' = held (tiers_ n) ty'.
Proof.
  intros [Hts Hpol Hix] Hat Hf Hc.
  assert (forall ty', held (<[i := Some t']> (tiers_ n)) ty' = held (tiers_ n) ty') as Hh
    by (intros; eapply held_same; [done|apply Hf|done]).
  split_and!; [| |done].
  - split; cbn; [by eapply tiers_same|by apply (policy_same _ (tiers_ n))|].
    intros Hr. apply (index_ext _ (held (tiers_ n))); [done|by apply Hix].
  - destruct (same_places_upd _ _ _ _ _ Hat Hf) as [Hfind Hcap]. split; cbn; try done.
    intros k. by apply value_ext.
Qed.

Lemma wp_MakeDramRoomForLocked n incoming replacing :
  node_inv n -> ready_ n = true -> 0 <= incoming ->
  (forall k, replacing = Some k -> is_Some (held (tiers_ n) kDram !! k)) ->
  wp (MakeDramRoomForLocked incoming replacing) (fun s n' =>
    exists replaced, replaced_ok (tiers_ n) replacing replaced
                     /\ room_made replacing replaced incoming n s n') n.
Proof.
  intros Hn Hr Hin Hrep. unfold MakeDramRoomForLocked. wp_steps. unfold TierOfLocked.
  destruct (find_tier kDram (tiers_ n)) as [dram|] eqn:Hf.
  2: { wp_steps. pose proof (find_tier_None _ _ Hf) as Hno. destruct replacing as [k|].
       - destruct (Hrep k eq_refl) as [b Hb]. unfold held in Hb. rewrite Hno in Hb. cbn in Hb. by rewrite lookup_empty in Hb.
       - exists 0. split; [done|]. split; [done|apply evolves_refl|done|]. intros _ d. by rewrite Hno. }
  apply find_tier_at in Hf as [d Hd]. pose proof (ni_tiers n Hn) as Hts. rewrite Hr in Hts.
  pose proof (tier_at_of _ _ _ _ Hd) as Hof. pose proof (to_inv _ _ Hts _ _ Hof) as Id.
  pose proof (to_ready _ _ Hts eq_refl _ _ Hof) as Rd. pose proof (tier_at_type _ _ _ _ Hd) as Yd.
  apply wp_bind, (wp_mono _ (fun r n1 => exists d1 x, n1 = upd_tier dram d1 n /\ tier_frame d d1
    /\ tier_contents d1 = tier_contents d /\ r = Value x /\ replaced_ok (tiers_ n) replacing x)).
  { destruct replacing as [k|]; wp_steps.
    - destruct (Hrep k eq_refl) as [b Hb]. rewrite (held_at _ _ _ _ Hd) in Hb.
      eapply wp_on_tier; [apply Hd|]. eapply wp_mono; [apply tier_Probe_law; [done..|by eapply tier_contents_wf]|].
      intros [i|st] d1 (F1 & C1 & HQ); cbv beta iota in HQ; wp_steps.
      + destruct HQ as (b' & Hb' & _ & Hsz). exists d1, (payload_size i). split_and!; try done.
        exists b'. by rewrite (held_at _ _ _ _ Hd).
      + destruct HQ as (_ & Hn' & _). rewrite Hn' in Hb; [done|by left].
    - exists d, 0. rewrite upd_tier_id by apply Hd. by split_and!. }
  intros r n1 (d1 & x & -> & F1 & C1 & -> & Hx). pose proof F1 as (Id1 & Yd1 & _ & _).
  pose proof (tier_at_upd _ _ _ _ _ Hd Yd1) as Hd1. wp_steps. eapply wp_tier_get; [exact (proj2 Hd1)|].
  destruct (tier_quiet n kDram dram d d1 Hn Hd F1 C1) as (Hn1 & E1 & Hh1).
  rewrite (proj2 (tier_Stats_law d1 Id1 (tier_at_type _ _ _ _ Hd1))), Nat2Z.id. eapply wp_mono.
  - eapply (wp_make_room_loop _ (upd_tier dram d1 n) dram d1); try done.
    + unfold replaced_ok in *. destruct replacing; [|done]. by rewrite Hh1.
    + rewrite Hh1, (held_at _ _ _ _ Hd), C1. lia.
  - intros s n' [R1 R2 R3 R4]. exists x. split; [done|]. split; [done|by eapply evolves_trans| |done].
    intros k Hk. destruct (R3 k) as (-> & -> & ->); [by rewrite Hh1|]. by rewrite !Hh1.
Qed.
End room.
