(* ===== verification/NodePut.v ===== *)
(** * Storage node: Put

    The three placements of [StorageNode::Put] (into DRAM, around a full DRAM,
    and without DRAM): a successful [Put] makes the node serve the new block
    and changes no other key; a failed one leaves the old block in place, or the
    new one when the backend applied a write it reported as failed. *)

From S2P Require Import Prelude Api BlockKeys EvictionPolicy LocalIndex Tier StorageNode NodeInv NodeRoom.
Import StorageNode.

Section put.
Context {T P : Type} `{TierLaws T} `{EvictionPolicyLaws P}.

Abbreviation node := (StorageNode T P).
Abbreviation table n := (LocalIndex.table_ (index_ n)).

(** ** The index and what the tiers hold *)

(** A block written to one tier and recorded there. *)
Lemma index_put id h h' tb ty k b loc :
  index_ok id h tb -> node_id loc = id -> tier loc = ty ->
  h' ty = <[k := b]> (h ty) ->
  (forall ty', ty' <> ty -> h' ty' = h ty' \/ h' ty' = delete k (h ty')) ->
  (ty <> kDram -> h' kDram !! k = None) ->
  index_ok id h' (<[k := loc]> tb)
  /\ value h' (<[k := loc]> tb) k = Some b
  /\ forall k', k' <> k -> value h' (<[k := loc]> tb) k' = value h tb k'.
Proof.
  intros [He Hd] Hid Hloc Hw Ho Hdr.
  assert (forall ty' k', k' <> k -> h' ty' !! k' = h ty' !! k') as Hother.
  { intros ty' k' Hne. destruct (decide (ty' = ty)) as [->|]; [by rewrite Hw, lookup_insert_ne|].
    destruct (Ho ty') as [->| ->]; [done|done|by rewrite lookup_delete_ne]. }
  split_and!; [split|..].
  - intros k' loc' [[<- <-]|[Hne Hk']]%lookup_insert_Some.
    + split; [done|]. rewrite Hloc, Hw, lookup_insert_eq. eauto.
    + rewrite Hother by done. by apply He.
  - intros k' Hk'. destruct (decide (k' = k)) as [->|Hne].
    + exists loc. rewrite lookup_insert_eq. split; [done|]. destruct (decide (ty = kDram)); [congruence|].
      rewrite Hdr in Hk' by done. by destruct Hk'.
    + rewrite Hother in Hk' by done. destruct (Hd k' Hk') as (loc' & ? & ?). exists loc'.
      by rewrite lookup_insert_ne.
  - unfold value. rewrite lookup_insert_eq. cbn. by rewrite Hloc, Hw, lookup_insert_eq.
  - intros k' Hne. unfold value. rewrite lookup_insert_ne by done.
    destruct (tb !! k'); [|done]. cbn. by apply Hother.
Qed.

(** A write that was reported as failed, with the index as before. *)
Lemma index_unacknowledged id h h' tb ty k b :
  index_ok id h tb -> ty <> kDram ->
  h' ty = h ty \/ h' ty = <[k := b]> (h ty) -> (forall ty', ty' <> ty -> h' ty' = h ty') ->
  index_ok id h' tb
  /\ (value h' tb k = value h tb k \/ value h' tb k = Some b)
  /\ forall k', k' <> k -> value h' tb k' = value h tb k'.
Proof.
  intros [He Hd] Hty Hw Ho.
  assert (forall ty' k', k' <> k -> h' ty' !! k' = h ty' !! k') as Hother.
  { intros ty' k' Hne. destruct (decide (ty' = ty)) as [->|]; [|by rewrite Ho].
    destruct Hw as [->| ->]; [done|by rewrite lookup_insert_ne]. }
  assert (forall ty', h' ty' !! k = h ty' !! k \/ h' ty' !! k = Some b) as Hsame.
  { intros ty'. destruct (decide (ty' = ty)) as [->|]; [|rewrite Ho; auto].
    destruct Hw as [->| ->]; [auto|rewrite lookup_insert_eq; auto]. }
  split_and!; [split|..].
  - intros k' loc' Hk'. destruct (He k' loc' Hk') as [? Hs]. split; [done|].
    destruct (decide (k' = k)) as [->|]; [|by rewrite Hother].
    destruct (Hsame (tier loc')) as [->| ->]; eauto.
  - intros k'. rewrite Ho by done. apply Hd.
  - unfold value. destruct (tb !! k); [|by left]. apply Hsame.
  - intros k' Hne. unfold value. destruct (tb !! k'); [|done]. cbn. by apply Hother.
Qed.

(** ** The outcome of a Put *)

Record put_result (k : BlockKey) (b : Block) (n : node) (s : Status) (n' : node) : Prop := {
  pr_inv : node_inv n';
  pr_id : id_ n' = id_ n;
  pr_ready : ready_ n' = ready_ n;
  pr_key : if ok s then serves n' k = Some b else serves n' k = serves n k \/ serves n' k = Some b;
  pr_others : forall k', k' <> k -> serves n' k' = serves n k'
}.

Lemma put_unchanged k b n s : node_inv n -> ok s = false -> put_result k b n s n.
Proof. intros Hn Hs. split; try done. rewrite Hs. by left. Qed.

Lemma put_after_evolution k b n n1 s n' : evolves n n1 -> put_result k b n1 s n' -> put_result k b n s n'.
Proof.
  intros [E1 E2 _ _ _ E6] [R1 R2 R3 R4 R5]. split; try congruence.
  - by rewrite <- (E6 k).
  - intros k' Hk'. rewrite <- (E6 k'). by apply R5.
Qed.

(** The new block is in place and recorded. *)
Lemma put_committed k b n ts' ix' ev' st ty loc :
  node_inv n -> ready_ n = true ->
  tiers_ok true ts' -> policy_ok ev' ts' ->
  node_id loc = id_ n -> tier loc = ty -> LocalIndex.table_ ix' = <[k := loc]> (table n) ->
  held ts' ty = <[k := b]> (held (tiers_ n) ty) ->
  (forall ty', ty' <> ty -> held ts' ty' = held (tiers_ n) ty' \/ held ts' ty' = delete k (held (tiers_ n) ty')) ->
  (ty <> kDram -> held ts' kDram !! k = None) ->
  put_result k b n Ok (mkNode (id_ n) ts' ev' ix' (ready_ n) st).
Proof.
  intros Hn Hr Hts Hpol Hid Hty Hix Hw Ho Hdr.
  destruct (index_put _ _ (held ts') _ ty k b loc (ni_index n Hn Hr) Hid Hty Hw Ho Hdr) as (Hok & Hk & Hk').
  split; cbn; try done.
  - split; cbn; [by rewrite Hr|done|by rewrite Hix].
  - rewrite ok_Ok. unfold serves. cbn. by rewrite Hix.
  - intros k' Hne. unfold serves. cbn. rewrite Hix. by apply Hk'.
Qed.

(** The write was refused; the tier may nevertheless hold the new block. *)
Lemma put_refused k b n ts' ix' s ty :
  node_inv n -> ready_ n = true -> ok s = false -> ty <> kDram ->
  tiers_ok true ts' -> LocalIndex.table_ ix' = table n ->
  held ts' ty = held (tiers_ n) ty \/ held ts' ty = <[k := b]> (held (tiers_ n) ty) ->
  (forall ty', ty' <> ty -> held ts' ty' = held (tiers_ n) ty') ->
  put_result k b n s (mkNode (id_ n) ts' (eviction_ n) ix' (ready_ n) (stats_ n)).
Proof.
  intros Hn Hr Hs Hty Hts Hix Hw Ho.
  destruct (index_unacknowledged _ _ (held ts') _ ty k b (ni_index n Hn Hr) Hty Hw Ho) as (Hok & Hk & Hk').
  split; cbn; try done.
  - split; cbn; [by rewrite Hr| |by rewrite Hix].
    eapply policy_same; [|apply (ni_policy n Hn)]. by apply Ho.
  - rewrite Hs. unfold serves. cbn. by rewrite Hix.
  - intros k' Hne. unfold serves. cbn. rewrite Hix. by apply Hk'.
Qed.

(** A write to one tier and its counterpart on the node. *)
Lemma wp_node_tier_Put n ty i t k b (Q : Result Z -> node -> Prop) :
  tiers_ok true (tiers_ n) -> tier_at (tiers_ n) ty i t -> storable k b ->
  (forall r t', tier_frame t t' ->
     match r with
     | Value _ => tier_contents t' = <[k := b]> (tier_contents t)
     | Error s => ok s = false
                  /\ (tier_contents t' = tier_contents t
                      \/ ty <> kDram /\ tier_contents t' = <[k := b]> (tier_contents t))
     end -> Q r (upd_tier i t' n)) ->
  wp (on_tier i (tier_Put k b)) Q n.
Proof.
  intros Hts Hat Hw HQ. eapply wp_on_tier; [apply Hat|]. pose proof (tier_at_of _ _ _ _ Hat) as Hof.
  eapply wp_mono; [apply tier_Put_law; [by eapply to_inv|by eapply to_ready|done]|].
  intros r t' [Hf Hr]. apply HQ; [done|]. by rewrite <- (tier_at_type _ _ _ _ Hat).
Qed.

Lemma set_index_id (n : node) : set_index (index_ n) n = n.
Proof. by destruct n. Qed.

Lemma Location_eta loc : mkLocation (node_id loc) (tier loc) (handle loc) = loc.
Proof. by destruct loc. Qed.

Lemma validate_known (n : node) k loc :
  table n !! k = Some loc -> ok (LocalIndex.ValidateRelocate k (tier loc) (index_ n)) = true.
Proof. intros Hk. apply LocalIndex.ValidateRelocate_ok. eauto. Qed.

Lemma no_dram ts hot :
  layout_ok ts -> ts !! 0%nat = Some (Some hot) -> tier_type hot <> kDram -> held ts kDram = ∅.
Proof.
  intros Hl Hh Hty. unfold held. rewrite find_tier_None; [done|].
  destruct (find_tier kDram ts) as [i|] eqn:E; [|done]. pose proof (lo_dram _ Hl i E) as ->.
  apply find_tier_Some in E as (t & Ht & Htt). congruence.
Qed.

(** ** Put without DRAM *)

Lemma wp_PutWithoutDramLocked (n : node) hot k b :
  node_inv n -> ready_ n = true -> tiers_ n !! 0%nat = Some (Some hot) -> tier_type hot <> kDram ->
  storable k b -> wp (PutWithoutDramLocked k b (table n !! k)) (put_result k b n) n.
Proof.
  intros Hn Hr Hhot Hty Hw. pose proof (ni_tiers n Hn) as Hts. rewrite Hr in Hts.
  pose proof (no_dram _ _ (to_layout _ _ Hts) Hhot Hty) as Hnd.
  assert (tier_at (tiers_ n) (tier_type hot) 0%nat hot) as Hat by (split; [by apply (to_layout _ _ Hts)|done]).
  unfold PutWithoutDramLocked. wp_steps. eapply wp_tier_get; [done|].
  (* the state once the index has been prepared *)
  apply wp_bind, (wp_mono _ (fun s n1 =>
    if ok s then
      exists ix1 loc1, n1 = set_index ix1 n /\ LocalIndex.table_ ix1 = <[k := loc1]> (table n)
        /\ node_id loc1 = id_ n /\ tier loc1 = tier_type hot
        /\ forall old, table n !! k = Some old -> node_id loc1 = node_id old
    else n1 = n)).
  { destruct (table n !! k) as [old|] eqn:E; wp_steps.
    - rewrite (validate_known n k old E). cbn [negb]. wp_steps. apply wp_on_index.
      eapply LocalIndex.wp_RelocateExisting; [done..|]. wp_steps. ok_simpl.
      destruct (io_entry _ _ _ (ni_index n Hn Hr) k old E) as [Hid _].
      do 2 eexists. split_and!; [done|cbn; reflexivity|done..|]. intros old' E'. by simplify_eq.
    - apply wp_on_index. eapply wp_mono; [apply LocalIndex.wp_Upsert|]. intros s ix H'. cbv beta in H'.
      destruct (ok s); [|subst; apply set_index_id]. exists ix, (mkLocation (id_ n) (tier_type hot) 0).
      by split_and!. }
  intros s n1 H1'. cbv beta in H1'. destruct (ok s) eqn:Es; cbn [negb]; [|subst; wp_steps; by apply put_unchanged].
  destruct H1' as (ix1 & loc1 & -> & Hix1 & Hid1 & Hty1 & Hold). wp_steps.
  eapply (wp_node_tier_Put _ (tier_type hot) _ hot); [done..|]. intros r t' Hf HQ.
  pose proof Hf as (_ & Yt & _ & _).
  pose proof (tiers_upd _ _ _ _ _ t' Hts Hat Hf ltac:(done)) as Hts'.
  assert (forall ty, held (<[0%nat := Some t']> (tiers_ n)) ty
                     = if decide (ty = tier_type hot) then tier_contents t' else held (tiers_ n) ty) as Hh
    by (intros; by eapply held_upd).
  destruct r as [hd|st]; wp_steps.
  - apply wp_on_index. eapply LocalIndex.wp_RelocateExisting; [cbn; rewrite Hix1; apply lookup_insert_eq|done|].
    unfold count. wp_steps.
    apply (put_committed k b n (<[0%nat := Some t']> (tiers_ n)) _ (eviction_ n) _ (tier_type hot)
             (mkLocation (node_id loc1) (tier_type hot) hd)); try done.
    + eapply policy_same; [|apply (ni_policy n Hn)]. by rewrite Hh, decide_False.
    + cbn. by rewrite Hix1, insert_insert_eq.
    + rewrite Hh, decide_True by done. by rewrite HQ, (held_at _ _ _ _ Hat).
    + intros ty' Hne. left. by rewrite Hh, decide_False.
    + intros _. by rewrite Hh, decide_False, Hnd, lookup_empty.
  - destruct HQ as [Hst HQ].
    assert (forall ix', LocalIndex.table_ ix' = table n ->
      put_result k b n st (set_index ix' (upd_tier 0 t' (set_index ix1 n)))) as Hback.
    { intros ix' Hix'. apply (put_refused k b n (<[0%nat := Some t']> (tiers_ n)) ix' st (tier_type hot)); try done.
      - rewrite Hh, decide_True by done. rewrite (held_at _ _ _ _ Hat). naive_solver.
      - intros ty' Hne. by rewrite Hh, decide_False. }
    destruct (table n !! k) as [old|] eqn:E; wp_steps; apply wp_on_index.
    + eapply LocalIndex.wp_RelocateExisting; [cbn; rewrite Hix1; apply lookup_insert_eq|done|]. wp_steps.
      apply Hback. cbn. rewrite Hix1, insert_insert_eq, (Hold old eq_refl), Location_eta. by apply insert_id.
    + eapply LocalIndex.wp_RemoveExisting; [cbn; rewrite Hix1; apply lookup_insert_eq|]. wp_steps.
      apply Hback. cbn. by rewrite Hix1, delete_insert_id.
Qed.

(** ** Put around DRAM *)

Section oversized.
Context (n : node) (d snk : T) (sink : nat) (k : BlockKey) (b : Block).
Context (Hn : node_inv n) (Hr : ready_ n = true) (Hw : storable k b).
Context (Hd : tier_at (tiers_ n) kDram 0%nat d) (Hs : tier_at (tiers_ n) kSsd sink snk).

Lemma not_in_dram : (forall loc, table n !! k = Some loc -> tier loc <> kDram) -> held (tiers_ n) kDram !! k = None.
Proof.
  intros Hno. destruct (held (tiers_ n) kDram !! k) eqn:E; [|done].
  destruct (io_dram _ _ _ (ni_index n Hn Hr) k ltac:(eauto)) as (loc & Hl & Ht). by destruct (Hno loc Hl).
Qed.

(** From here on the sink holds the block. *)
Context (s1 : T) (Hf : tier_frame snk s1) (Hc : tier_contents s1 = <[k := b]> (tier_contents snk)).

Lemma sink_tiers : tiers_ok true (<[sink := Some s1]> (tiers_ n)).
Proof. pose proof (ni_tiers n Hn) as Hts. rewrite Hr in Hts. by eapply tiers_upd. Qed.

Lemma sink_held ty :
  held (<[sink := Some s1]> (tiers_ n)) ty
  = if decide (ty = kSsd) then <[k := b]> (held (tiers_ n) kSsd) else held (tiers_ n) ty.
Proof.
  rewrite (held_upd _ _ _ _ _ ty Hs) by apply Hf. case_decide; [|done]. by rewrite Hc, (held_at _ _ _ _ Hs).
Qed.

Lemma sink_dram_at : tier_at (<[sink := Some s1]> (tiers_ n)) kDram 0%nat d.
Proof. eapply tier_at_upd_other; [done|apply Hf|done..]. Qed.

(** Without an older DRAM copy only the index is left to do. *)
Lemma oversized_plain ix2 loc st :
  (forall loc, table n !! k = Some loc -> tier loc <> kDram) ->
  node_id loc = id_ n -> tier loc = kSsd -> LocalIndex.table_ ix2 = <[k := loc]> (table n) ->
  put_result k b n Ok (mkNode (id_ n) (<[sink := Some s1]> (tiers_ n)) (eviction_ n) ix2 (ready_ n) st).
Proof.
  intros Hno Hid Hloc Hix2. apply (put_committed k b n _ ix2 _ _ kSsd loc); try done.
  - apply sink_tiers.
  - eapply policy_same; [|apply (ni_policy n Hn)]. by rewrite sink_held, decide_False.
  - by rewrite sink_held, decide_True.
  - intros ty' Hne. left. by rewrite sink_held, decide_False.
  - intros _. rewrite sink_held, decide_False by done. by apply not_in_dram.
Qed.

(** An older DRAM copy is erased, and forgotten by the policy. *)
Section replaced.
Context (old : Location) (b0 : Block) (d1 : T).
Context (Hid : node_id old = id_ n) (Hb0 : tier_contents d !! k = Some b0).
Context (Fd : tier_frame d d1) (Cd : tier_contents d1 = delete k (tier_contents d)).

Let ts2 := <[0%nat := Some d1]> (<[sink := Some s1]> (tiers_ n)).

Lemma replaced_tiers : tiers_ok true ts2.
Proof.
  eapply tiers_upd; [apply sink_tiers|apply sink_dram_at|done|].
  intros _ Hcap. rewrite Cd, (total_bytes_delete _ k b0 Hb0).
  pose proof (to_capacity _ _ (ni_tiers n Hn) d ltac:(by eapply tier_at_of) Hcap).
  pose proof (zlen_nonneg (data b0)). unfold size_bytes. lia.
Qed.

Lemma replaced_held ty :
  held ts2 ty = if decide (ty = kDram) then delete k (held (tiers_ n) kDram)
                else held (<[sink := Some s1]> (tiers_ n)) ty.
Proof.
  unfold ts2. rewrite (held_upd _ kDram _ d d1 ty sink_dram_at) by apply Fd. case_decide; [|done].
  by rewrite Cd, (held_at _ _ _ _ Hd).
Qed.

Lemma oversized_replaced ev' hd st :
  policy_ok ev' ts2 ->
  put_result k b n Ok (mkNode (id_ n) ts2 ev'
    (LocalIndex.mkIndex (<[k := mkLocation (node_id old) kSsd hd]> (table n))) (ready_ n) st).
Proof.
  intros Hpol. apply (put_committed k b n _ _ ev' _ kSsd (mkLocation (node_id old) kSsd hd)); try done.
  - apply replaced_tiers.
  - by rewrite replaced_held, decide_False, sink_held, decide_True.
  - intros ty' Hne. rewrite replaced_held. case_decide as Et; [subst; by right|left].
    by rewrite sink_held, decide_False.
  - intros _. rewrite replaced_held, decide_True by done. apply lookup_delete_eq.
Qed.

Lemma replaced_policy p p' :
  eviction_ n = Some p -> ep_inv p' -> ep_resident p' = ep_resident p ∖ {[k]} ->
  ep_reserved p' = None -> policy_ok (Some p') ts2.
Proof.
  intros Hev Pi Pres Pr q [= <-]. destruct (ni_policy n Hn p Hev) as (_ & _ & E).
  split_and!; try done. by rewrite replaced_held, decide_True, dom_delete_L, Pres, E by done.
Qed.
End replaced.

Definition oversized_finish (hd : Z) : comp node Status :=
  match table n !! k with
  | Some old =>
      (if decide (tier old = kDram) then
         on_tier 0 (tier_EraseExisting k) ;;
         n ← get;
         match eviction_ n with Some _ => on_policy (ep_OnRemove k) | None => mret tt end
       else mret tt) ;;
      on_index (LocalIndex.RelocateExisting k (tier old) kSsd hd)
  | None => on_index (LocalIndex.RelocateExisting k kSsd kSsd hd)
  end ;;
  count 0 0 0 0 0 0 (size_bytes b) ;;
  mret Ok.

Lemma wp_oversized_finish ix1 hd :
  match table n !! k with
  | Some old => ix1 = index_ n
  | None => exists loc1, LocalIndex.table_ ix1 = <[k := loc1]> (table n) /\ node_id loc1 = id_ n /\ tier loc1 = kSsd
  end ->
  wp (oversized_finish hd) (put_result k b n) (upd_tier sink s1 (set_index ix1 n)).
Proof.
  intros Hix. unfold oversized_finish. destruct (table n !! k) as [old|] eqn:E.
  2: { destruct Hix as (loc1 & Hix1 & Hid1 & Hty1). wp_steps. apply wp_on_index.
       eapply LocalIndex.wp_RelocateExisting; [cbn; rewrite Hix1; apply lookup_insert_eq|done|].
       unfold count. wp_steps. apply (oversized_plain _ (mkLocation (node_id loc1) kSsd hd)); try done; [congruence|].
       cbn. by rewrite Hix1, insert_insert_eq. }
  subst ix1. destruct (io_entry _ _ _ (ni_index n Hn Hr) k old E) as [Hid [b0 Hb0]].
  wp_steps. case_decide as Ht; wp_steps.
  2: { apply wp_on_index. eapply LocalIndex.wp_RelocateExisting; [exact E|done|]. unfold count. wp_steps.
       apply (oversized_plain _ (mkLocation (node_id old) kSsd hd)); try done. intros loc' E'. congruence. }
  rewrite Ht, (held_at _ _ _ _ Hd) in Hb0. eapply wp_on_tier; [exact (proj2 sink_dram_at)|].
  eapply wp_mono; [apply tier_EraseExisting_law with b0; [|by eapply tier_at_type|done]|].
  { eapply to_inv; [apply (ni_tiers n Hn)|by eapply tier_at_of]. }
  intros [] d1 [Fd Cd]. wp_steps. cbn [eviction_ upd_tier set_tiers set_index].
  destruct (eviction_ n) as [p|] eqn:Hev; wp_steps.
  - eapply wp_on_policy; [done|]. destruct (ni_policy n Hn p Hev) as (Pi & Pr & _).
    eapply wp_mono; [by apply ep_OnRemove_law|]. intros [] p' (Pi' & Pres' & Pr' & _).
    apply wp_on_index. eapply LocalIndex.wp_RelocateExisting; [exact E|done|]. unfold count. wp_steps.
    eapply oversized_replaced; try done. eapply replaced_policy; try done. rewrite Pr'; congruence.
  - apply wp_on_index. eapply LocalIndex.wp_RelocateExisting; [exact E|done|]. unfold count. wp_steps.
    by apply (oversized_replaced old b0 d1 Hid Hb0 Fd Cd (eviction_ n)); rewrite Hev.
Qed.
End oversized.

Lemma wp_PutOversizedLocked (n : node) d snk sink k b :
  node_inv n -> ready_ n = true -> storable k b ->
  tier_at (tiers_ n) kDram 0%nat d -> tier_at (tiers_ n) kSsd sink snk ->
  wp (PutOversizedLocked k b 0%nat sink (table n !! k)) (put_result k b n) n.
Proof.
  intros Hn Hr Hw Hd Hs. pose proof (ni_tiers n Hn) as Hts. rewrite Hr in Hts.
  unfold PutOversizedLocked. wp_steps. eapply wp_tier_get; [apply Hs|]. rewrite (tier_at_type _ _ _ _ Hs).
  apply wp_bind, (wp_mono _ (fun s n1 =>
    if ok s then
      exists ix1, n1 = set_index ix1 n
        /\ match table n !! k with
           | Some old => ix1 = index_ n
           | None => exists loc1, LocalIndex.table_ ix1 = <[k := loc1]> (table n)
                                  /\ node_id loc1 = id_ n /\ tier loc1 = kSsd
           end
    else n1 = n)).
  { destruct (table n !! k) as [old|] eqn:E; wp_steps.
    - rewrite (validate_known n k old E). cbn [negb].
      destruct (io_entry _ _ _ (ni_index n Hn Hr) k old E) as [_ [b0 Hb0]]. case_decide as Ht; wp_steps.
      + rewrite Ht, (held_at _ _ _ _ Hd) in Hb0. eapply wp_tier_get; [apply Hd|].
        rewrite (proj2 (tier_ValidateEraseExisting_law d k (to_inv _ _ Hts _ _ (tier_at_of _ _ _ _ Hd))
                          (tier_at_type _ _ _ _ Hd))) by eauto.
        exists (index_ n). by rewrite set_index_id.
      + ok_simpl. exists (index_ n). by rewrite set_index_id.
    - apply wp_on_index. eapply wp_mono; [apply LocalIndex.wp_Upsert|]. intros s ix H'. cbv beta in H'.
      destruct (ok s); [|subst; apply set_index_id]. exists ix. split; [done|]. by eexists. }
  intros s n1 H1'. cbv beta in H1'. destruct (ok s) eqn:Es; cbn [negb]; [|subst; wp_steps; by apply put_unchanged].
  destruct H1' as (ix1 & -> & Hix). wp_steps.
  eapply (wp_node_tier_Put _ kSsd _ snk); [done..|]. intros r s1 Hf HQ. destruct r as [hd|st].
  - exact (wp_oversized_finish n d snk sink k b Hn Hr Hd Hs s1 Hf HQ ix1 hd Hix).
  - destruct HQ as [Hst HQ].
    assert (forall ix', LocalIndex.table_ ix' = table n ->
      put_result k b n st (set_index ix' (upd_tier sink s1 (set_index ix1 n)))) as Hback.
    { intros ix' Hix'. apply (put_refused k b n (<[sink := Some s1]> (tiers_ n)) ix' st kSsd); try done.
      - by eapply tiers_upd.
      - rewrite (held_upd _ _ _ _ _ _ Hs), decide_True by (done || apply Hf).
        rewrite (held_at _ _ _ _ Hs). naive_solver.
      - intros ty' Hne. by rewrite (held_upd _ _ _ _ _ _ Hs), decide_False by (done || apply Hf). }
    destruct (table n !! k) as [old|] eqn:E; wp_steps.
    + subst ix1. rewrite <- (set_index_id (upd_tier _ _ _)). by apply Hback.
    + destruct Hix as (loc1 & Hix1 & _). apply wp_on_index.
      eapply LocalIndex.wp_RemoveExisting; [cbn; rewrite Hix1; apply lookup_insert_eq|]. wp_steps.
      apply Hback. cbn. by rewrite Hix1, delete_insert_id.
Qed.

(** ** Put into DRAM *)

(** A [Put] on the DRAM path: when it succeeds the index names DRAM, and a copy
    of the key on the SSD tier is as it was. *)
Definition in_dram (k : BlockKey) (n : node) : Prop := exists loc, table n !! k = Some loc /\ tier loc = kDram.

Definition dram_result (k : BlockKey) (b : Block) (n : node) (s : Status) (n' : node) : Prop :=
  put_result k b n s n'
  /\ (ok s = true -> in_dram k n' /\ held (tiers_ n') kSsd !! k = held (tiers_ n) kSsd !! k).

Lemma dram_failed k b n s n' : ok s = false -> put_result k b n s n' -> dram_result k b n s n'.
Proof. intros Hs R. split; [done|congruence]. Qed.

Lemma dram_after_evolution k b n n1 s n' : 
  evolves n n1 -> held (tiers_ n1) kSsd !! k = held (tiers_ n) kSsd !! k ->
  dram_result k b n1 s n' -> dram_result k b n s n'.
Proof. intros E Ec [R1 R2]. split; [by eapply put_after_evolution|]. by rewrite <- Ec. Qed.

Section dram.
Context (n : node) (d : T) (k : BlockKey) (b : Block).
Context (Hn : node_inv n) (Hr : ready_ n = true) (Hw : storable k b).
Context (Hd : tier_at (tiers_ n) kDram 0%nat d).

(** A DRAM write that was undone. *)
Lemma put_rolled_back s ev' ix' d' :
  ok s = false -> tier_frame d d' -> tier_contents d' = tier_contents d -> policy_ok ev' (tiers_ n) ->
  LocalIndex.table_ ix' = table n ->
  put_result k b n s (mkNode (id_ n) (<[0%nat := Some d']> (tiers_ n)) ev' ix' (ready_ n) (stats_ n)).
Proof.
  intros Hs Hf Hc Hpol Hix.
  assert (forall ty, held (<[0%nat := Some d']> (tiers_ n)) ty = held (tiers_ n) ty) as Hh
    by (intros; eapply held_same; [done|apply Hf|done]).
  assert (forall k', value (held (<[0%nat := Some d']> (tiers_ n))) (LocalIndex.table_ ix') k' = serves n k') as Hv
    by (intros; rewrite Hix; by apply value_ext).
  split; try done; cbn.
  - split; cbn.
    + eapply tiers_same; [apply (ni_tiers n Hn)|done..].
    + by apply (policy_same _ (tiers_ n)).
    + intros _. rewrite Hix. apply (index_ext _ (held (tiers_ n))); [done|by apply (ni_index n Hn)].
  - rewrite Hs. left. apply Hv.
  - intros k' _. apply Hv.
Qed.

Context (Hfits : capacity_bytes (tier_Stats d) <> 0 ->
  total_bytes (<[k := b]> (tier_contents d)) <= capacity_bytes (tier_Stats d)).
Context (d1 : T) (Hf : tier_frame d d1) (Hc : tier_contents d1 = <[k := b]> (tier_contents d)).

Let ts1 := <[0%nat := Some d1]> (tiers_ n).

Lemma dram_written_at : tier_at ts1 kDram 0%nat d1.
Proof. eapply tier_at_upd; [done|apply Hf]. Qed.

Lemma dram_written_held ty :
  held ts1 ty = if decide (ty = kDram) then <[k := b]> (held (tiers_ n) kDram) else held (tiers_ n) ty.
Proof.
  unfold ts1. rewrite (held_upd _ _ _ _ _ ty Hd) by apply Hf. case_decide; [|done]. by rewrite Hc, (held_at _ _ _ _ Hd).
Qed.

Lemma dram_written_tiers : tiers_ok true ts1.
Proof.
  pose proof (ni_tiers n Hn) as Hts. rewrite Hr in Hts. eapply tiers_upd; [done..|]. intros _. by rewrite Hc.
Qed.

(** The write is recorded in the index. *)
Lemma dram_committed ev' ix' loc st :
  policy_ok ev' ts1 -> node_id loc = id_ n -> tier loc = kDram ->
  LocalIndex.table_ ix' = <[k := loc]> (table n) ->
  dram_result k b n Ok (mkNode (id_ n) ts1 ev' ix' (ready_ n) st).
Proof.
  intros Hpol Hid Ht Hix. split.
  2: { intros _. split; [exists loc; cbn; by rewrite Hix, lookup_insert_eq|]. cbn [tiers_]. by rewrite dram_written_held, decide_False. }
  apply (put_committed k b n ts1 ix' ev' st kDram loc); try done.
  - apply dram_written_tiers.
  - by rewrite dram_written_held, decide_True.
  - intros ty' Hne. left. by rewrite dram_written_held, decide_False.
Qed.

(** The policy follows the write. *)
Lemma dram_policy p p' :
  eviction_ n = Some p -> ep_inv p' -> ep_reserved p' = None -> ep_resident p' = {[k]} ∪ ep_resident p ->
  policy_ok (Some p') ts1.
Proof.
  intros Hev Pi Pr Pres q [= <-]. destruct (ni_policy n Hn p Hev) as (_ & _ & E).
  split_and!; try done. by rewrite dram_written_held, decide_True, dom_insert_L, Pres, E by done.
Qed.

(** Undoing the write of a key that was not in DRAM. *)
Lemma wp_undo_dram_put (m : node) :
  tiers_ m = ts1 -> tier_contents d !! k = None ->
  wp (undo_dram_put 0%nat k) (fun _ m' =>
    exists d', m' = set_tiers (<[0%nat := Some d']> (tiers_ n)) m
               /\ tier_frame d d' /\ tier_contents d' = tier_contents d) m.
Proof.
  intros Hm Hk. pose proof dram_written_at as Hat. pose proof Hf as (Id1 & Yd1 & _ & _).
  unfold undo_dram_put. wp_steps. eapply wp_tier_get; [rewrite Hm; apply Hat|].
  rewrite (proj2 (tier_ValidateEraseExisting_law d1 k Id1 (tier_at_type _ _ _ _ Hat)))
    by (rewrite Hc, lookup_insert_eq; eauto).
  cbn [negb]. wp_steps. eapply wp_on_tier; [rewrite Hm; apply Hat|].
  eapply wp_mono; [apply tier_EraseExisting_law with b; [done|by eapply tier_at_type|by rewrite Hc, lookup_insert_eq]|].
  intros [] d2 [(I2 & Y2 & R2 & C2) Cd2]. exists d2. split_and!.
  - unfold upd_tier. rewrite Hm. unfold ts1. by rewrite list_insert_insert_eq.
  - destruct Hf as (? & ? & ? & ?). split_and!; congruence.
  - by rewrite Cd2, Hc, delete_insert_id.
Qed.

(** The policy that goes with the written tiers, whether or not there is one. *)
Definition followed (ev' : option P) : Prop :=
  match eviction_ n with
  | Some p => exists p', ev' = Some p' /\ ep_inv p' /\ ep_reserved p' = None
                         /\ ep_resident p' = {[k]} ∪ ep_resident p
  | None => ev' = None
  end.

Lemma followed_ok ev' : followed ev' -> policy_ok ev' ts1.
Proof.
  unfold followed. destruct (eviction_ n) as [p|] eqn:Hev; [|by intros ->].
  intros (p' & -> & ? & ? & ?). by eapply dram_policy.
Qed.

(** Recording a block that was not in DRAM before, or undoing everything. *)
Definition dram_record (hd : Z) (has_policy : bool) : comp node Status :=
  indexed ← match table n !! k with
            | Some old => on_index (LocalIndex.RelocateExisting k (tier old) kDram hd) ;; mret Ok
            | None => on_index (LocalIndex.Upsert k (mkLocation (id_ n) kDram hd))
            end;
  if negb (ok indexed) then (
    (if has_policy then on_policy (ep_OnRemove k) else mret tt) ;;
    undo_dram_put 0%nat k ;;
    mret indexed)
  else (
    mret tt ;;
    count 0 0 0 0 0 0 (size_bytes b) ;;
    mret Ok).

Lemma wp_dram_record hd ev' has_policy :
  tier_contents d !! k = None -> followed ev' ->
  has_policy = match eviction_ n with Some _ => true | None => false end ->
  wp (dram_record hd has_policy) (dram_result k b n) (set_eviction ev' (upd_tier 0 d1 n)).
Proof.
  intros Hk Hfol Hhp. unfold dram_record. wp_steps. destruct (table n !! k) as [old|] eqn:E.
  - destruct (io_entry _ _ _ (ni_index n Hn Hr) k old E) as [Hid _]. wp_steps. apply wp_on_index.
    eapply LocalIndex.wp_RelocateExisting; [exact E|done|]. wp_steps. ok_simpl. cbn [negb]. unfold count. wp_steps.
    apply (dram_committed ev' _ (mkLocation (node_id old) kDram hd)); [by apply followed_ok|done..].
  - apply wp_on_index. eapply wp_mono; [apply LocalIndex.wp_Upsert|]. intros s ix Hix. cbv beta in Hix.
    destruct (ok s) eqn:Es; cbn [negb]; [unfold count; wp_steps|].
    { apply (dram_committed ev' ix (mkLocation (id_ n) kDram hd)); [by apply followed_ok|done..]. }
    subst ix. rewrite set_index_id.
    enough (forall ev2, policy_ok ev2 (tiers_ n) ->
      wp (undo_dram_put 0%nat k) (fun _ s' => wp (mret s) (dram_result k b n) s')
         (set_eviction ev2 (upd_tier 0 d1 n))) as Hundo.
    { unfold followed in Hfol. destruct (eviction_ n) as [p|] eqn:Hev; subst has_policy; wp_steps.
      - destruct Hfol as (p' & -> & Pi & Pr & Pres). eapply wp_on_policy; [done|].
        eapply wp_mono; [by apply ep_OnRemove_law|]. intros [] p2 (Pi2 & Pres2 & Pr2 & _).
        wp_steps. apply (Hundo (Some p2)). intros q [= <-]. destruct (ni_policy n Hn p Hev) as (_ & _ & E2).
        split_and!; [done|rewrite Pr2; congruence|]. rewrite Pres2, Pres, E2, (held_at _ _ _ _ Hd).
        apply not_elem_of_dom in Hk. set_solver.
      - subst ev'. by apply (Hundo None). }
    intros ev2 Hpol. eapply wp_mono; [by apply wp_undo_dram_put|].
    intros [] m' (d' & -> & Hf' & Hc'). wp_steps. by apply dram_failed, put_rolled_back.
Qed.

(** From the DRAM write on. *)
Definition dram_finish (hd : Z) : comp node Status :=
  let old_in_dram := match table n !! k with Some old => bool_decide (tier old = kDram) | None => false end in
  m ← get;
  let has_policy := match eviction_ m with Some _ => true | None => false end in
  inserted ← (if negb old_in_dram && has_policy then on_policy (ep_OnInsert k (size_bytes b)) else mret Ok);
  if negb (ok inserted) then (undo_dram_put 0%nat k ;; mret inserted)
  else (
    indexed ← match table n !! k with
              | Some old => on_index (LocalIndex.RelocateExisting k (tier old) kDram hd) ;; mret Ok
              | None => on_index (LocalIndex.Upsert k (mkLocation (id_ m) kDram hd))
              end;
    if negb (ok indexed) then (
      (if has_policy then on_policy (ep_OnRemove k) else mret tt) ;;
      undo_dram_put 0%nat k ;;
      mret indexed)
    else (
      (if old_in_dram && has_policy then on_policy (ep_OnAccess k) else mret tt) ;;
      count 0 0 0 0 0 0 (size_bytes b) ;;
      mret Ok)).

Lemma wp_dram_finish_overwrite hd old :
  table n !! k = Some old -> tier old = kDram -> wp (dram_finish hd) (dram_result k b n) (upd_tier 0 d1 n).
Proof.
  intros E Ht. destruct (io_entry _ _ _ (ni_index n Hn Hr) k old E) as [Hid Hk].
  unfold dram_finish. rewrite E, bool_decide_true by done. cbn [negb andb]. wp_steps. ok_simpl. cbn [negb]. wp_steps.
  apply wp_on_index. eapply LocalIndex.wp_RelocateExisting; [exact E|done|]. wp_steps. ok_simpl. cbn [negb].
  unfold count. cbn [eviction_ upd_tier set_tiers]. destruct (eviction_ n) as [p|] eqn:Hev; wp_steps.
  - destruct (ni_policy n Hn p Hev) as (Pi & Pr & Pres). eapply wp_on_policy; [done|].
    rewrite Ht in Hk. apply elem_of_dom in Hk.
    eapply wp_mono; [apply ep_OnAccess_law; [done|by rewrite Pres]|]. intros [] p' (Pi' & Pres' & Pr').
    wp_steps. apply (dram_committed (Some p') _ (mkLocation (node_id old) kDram hd)); [|done..].
    eapply dram_policy; try done; [congruence|]. rewrite Pres', Pres. set_solver.
  - apply (dram_committed (eviction_ n) _ (mkLocation (node_id old) kDram hd)); [|done..]. by rewrite Hev.
Qed.

Lemma wp_dram_finish_new hd :
  (forall old, table n !! k = Some old -> tier old <> kDram) ->
  wp (dram_finish hd) (dram_result k b n) (upd_tier 0 d1 n).
Proof.
  intros Hno. pose proof (not_in_dram n k Hn Hr Hno) as Hk. rewrite (held_at _ _ _ _ Hd) in Hk.
  assert (match table n !! k with Some old => bool_decide (tier old = kDram) | None => false end = false) as Hod.
  { destruct (table n !! k) eqn:E; [|done]. apply bool_decide_false. by apply Hno. }
  unfold dram_finish. rewrite Hod. cbn [negb andb]. wp_steps. cbn [eviction_ id_ upd_tier set_tiers].
  destruct (eviction_ n) as [p|] eqn:Hev.
  - destruct (ni_policy n Hn p Hev) as (Pi & Pr & Pres). eapply wp_on_policy; [done|].
    eapply wp_mono; [by apply ep_OnInsert_law|]. intros s p' (Pi' & Pr' & HQ).
    destruct (ok s) eqn:Es; cbn [negb].
    + apply (wp_dram_record hd (Some p') true); [done| |by rewrite Hev]. unfold followed. rewrite Hev.
      exists p'. split_and!; try done. congruence.
    + wp_steps. eapply wp_mono; [by apply wp_undo_dram_put|]. intros [] m' (d' & -> & Hf' & Hc'). wp_steps.
      apply dram_failed, put_rolled_back; try done. intros q [= <-]. split_and!; [done|congruence..].
  - wp_steps. ok_simpl. cbn [negb].
    replace (upd_tier 0 d1 n) with (set_eviction None (upd_tier 0 d1 n)) by (unfold set_eviction; destruct n; cbn in *; by subst).
    apply (wp_dram_record hd None false); [done| |by rewrite Hev]. unfold followed. by rewrite Hev.
Qed.
End dram.

Lemma wp_PutDram (n : node) d k b :
  node_inv n -> ready_ n = true -> storable k b -> tier_at (tiers_ n) kDram 0%nat d ->
  wp (PutDram k b (table n !! k)) (dram_result k b n) n.
Proof.
  intros Hn Hr Hw Hd. unfold PutDram.
  set (old_in_dram := match table n !! k with Some old => bool_decide (tier old = kDram) | None => false end).
  assert (if old_in_dram then exists old, table n !! k = Some old /\ tier old = kDram
          else forall old, table n !! k = Some old -> tier old <> kDram) as Hod.
  { unfold old_in_dram. destruct (table n !! k) as [old|]; [|done]. case_bool_decide; [eauto|naive_solver]. }
  wp_steps. eapply wp_mono.
  { apply (wp_MakeDramRoomForLocked n); try done; [apply zlen_nonneg|].
    intros k' Hk'. destruct old_in_dram; [|done]. simplify_eq. destruct Hod as (old & E & Ht).
    rewrite <- Ht. by apply (io_entry _ _ _ (ni_index n Hn Hr) k' old E). }
  intros s n1 (replaced & Hrep & [Hn1 E1 Htb Hfits]).
  destruct (ok s) eqn:Es; cbn [negb]; [|wp_steps; apply dram_failed, (put_after_evolution _ _ _ n1); try done; by apply put_unchanged].
  assert (table n1 !! k = table n !! k /\ held (tiers_ n1) kDram !! k = held (tiers_ n) kDram !! k
          /\ held (tiers_ n1) kSsd !! k = held (tiers_ n) kSsd !! k) as (Et & Eh & Ec).
  { apply Htb. destruct old_in_dram; [by left|right]. by apply not_in_dram. }
  destruct (evolves_tier_at _ _ _ _ _ E1 Hd) as [d1 Hd1].
  assert (ready_ n1 = true) as Hr1 by (by rewrite (ev_ready _ _ E1)).
  pose proof (ni_tiers n1 Hn1) as Hts1. rewrite Hr1 in Hts1.
  wp_steps. rewrite <- Et.
  assert (ok (match table n1 !! k with
              | Some old => LocalIndex.ValidateRelocate k (tier old) (index_ n1) | None => Ok end) = true) as ->
    by (destruct (table n1 !! k) eqn:E; [by apply validate_known|done]).
  cbn [negb]. wp_steps. eapply (wp_node_tier_Put _ kDram _ d1); [done..|]. intros r d2 Hf HQ.
  assert (capacity_bytes (tier_Stats d1) <> 0 ->
          total_bytes (<[k := b]> (tier_contents d1)) <= capacity_bytes (tier_Stats d1)) as Hcap.
  { intros Hc. specialize (Hfits eq_refl d1 (tier_at_of _ _ _ _ Hd1) Hc).
    rewrite (held_at _ _ _ _ Hd1), (held_at _ _ _ _ Hd) in Eh. destruct old_in_dram.
    - destruct Hrep as (b0 & Hb0 & ->). rewrite (held_at _ _ _ _ Hd) in Hb0.
      rewrite (total_bytes_replace _ k b0) by congruence. lia.
    - cbn in Hrep. subst replaced. pose proof (not_in_dram n k Hn Hr Hod) as Hk.
      rewrite (held_at _ _ _ _ Hd) in Hk. rewrite total_bytes_insert by congruence. lia. }
  destruct r as [hd|st]; [|wp_steps].
  - eapply wp_mono; [|intros s' n' R; by eapply dram_after_evolution].
    unfold old_in_dram. rewrite <- ?Et. change (wp (dram_finish n1 k b hd) (dram_result k b n1) (upd_tier 0 d2 n1)).
    rewrite <- Et in Hod. destruct old_in_dram; [destruct Hod as (old & ? & ?); by eapply wp_dram_finish_overwrite|].
    by eapply wp_dram_finish_new.
  - destruct HQ as [Hst [HQ|[? _]]]; [|done]. apply dram_failed, (put_after_evolution _ _ _ n1); try done.
    apply (put_rolled_back n1 d1); try done. apply (ni_policy n1 Hn1).
Qed.

(** The whole operation: on a DRAM node, a block that fits ends up in DRAM. *)
Definition fits_dram (b : Block) (n : node) : Prop :=
  exists d, tier_at (tiers_ n) kDram 0%nat d
            /\ (capacity_bytes (tier_Stats d) = 0 \/ size_bytes b <= capacity_bytes (tier_Stats d)).

Lemma wp_Put_written (n : node) k b :
  node_inv n -> storable k b ->
  wp (Put k b) (fun s n' => put_result k b n s n'
    /\ (fits_dram b n -> ok s = true -> in_dram k n' /\ held (tiers_ n') kSsd !! k = held (tiers_ n) kSsd !! k)) n.
Proof.
  intros Hn Hw. unfold Put. wp_steps. destruct (ready_ n) eqn:Hr; cbn [negb]; [|wp_steps; split; [by apply put_unchanged|done]].
  pose proof (ni_tiers n Hn) as Hts. pose proof (to_layout _ _ Hts) as Hl. destruct (lo_hot _ Hl) as [hot Hhot].
  assert (exists rest, tiers_ n = Some hot :: rest) as [rest Ets].
  { destruct (tiers_ n); cbn in Hhot; simplify_eq. eauto. }
  match goal with |- wp _ ?q _ => set (Q := q) end. rewrite Ets.
  enough (wp (if decide (tier_type hot = kDram) then
                if negb (capacity_bytes (tier_Stats hot) =? 0) && (capacity_bytes (tier_Stats hot) <? size_bytes b) then
                  match ColderTierLocked n with
                  | None => mret (mkStatus kOutOfCapacity "block is larger than DRAM capacity and no SSD sink exists")
                  | Some sink => PutOversizedLocked k b 0%nat sink (table n !! k)
                  end
                else PutDram k b (table n !! k)
              else PutWithoutDramLocked k b (table n !! k)) Q n) as Hgo.
  { unfold LocalIndex.Find. destruct (table n !! k); [exact Hgo|]. rewrite decide_True by done. exact Hgo. }
  assert (forall s n', put_result k b n s n' -> ~ fits_dram b n -> Q s n') as Hnot by (intros; split; [done|tauto]).
  case_decide as Hty.
  2: { eapply wp_mono; [by eapply wp_PutWithoutDramLocked|]. intros s n' R. apply Hnot; [done|].
       intros (d & Hd & _). pose proof (tier_at_type _ _ _ _ Hd). destruct Hd as [_ Hd]. congruence. }
  assert (tier_at (tiers_ n) kDram 0%nat hot) as Hd by (split; [rewrite <- Hty; by apply (lo_unique _ Hl)|done]).
  destruct (_ && _)%bool eqn:Eo; [|eapply wp_mono; [by eapply wp_PutDram|intros s n' [R1 R2]; split; [done|intros _; exact R2]]].
  assert (~ fits_dram b n) as Hno.
  { intros (d & [_ Hd'] & Hf). rewrite Hhot in Hd'. boolZ. destruct Hf; simplify_eq; lia. }
  destruct (ColderTierLocked n) as [sink|] eqn:Hsk; [|wp_steps; by apply Hnot, Hno; apply put_unchanged].
  apply find_tier_at in Hsk as [snk Hs]. eapply wp_mono; [by eapply wp_PutOversizedLocked|]. auto.
Qed.

Lemma wp_Put_placed (n : node) k b :
  node_inv n -> storable k b ->
  wp (Put k b) (fun s n' => put_result k b n s n' /\ (fits_dram b n -> ok s = true -> in_dram k n')) n.
Proof.
  intros Hn Hw. eapply wp_mono; [by apply wp_Put_written|]. intros s n' [R Hd]. split; [done|]. intros Hf Hs. by apply Hd.
Qed.

Lemma wp_Put (n : node) k b :
  node_inv n -> storable k b -> wp (Put k b) (put_result k b n) n.
Proof. intros Hn Hw. eapply wp_mono; [by apply wp_Put_placed|]. by intros s n' [R _]. Qed.
End put.
