(* ===== verification/NodeGet.v ===== *)
(** * Storage node: Get and promotion

    [StorageNode::Get] returns the block the node serves for a key; promoting it
    to DRAM is best effort and changes neither the result nor what any key
    maps to. *)

From S2P Require Import Prelude Api BlockKeys EvictionPolicy LocalIndex Tier StorageNode NodeInv NodeRoom NodePut.
Import StorageNode.

Section get.
Context {T P : Type} `{TierLaws T} `{EvictionPolicyLaws P}.

Abbreviation node := (StorageNode T P).
Abbreviation table n := (LocalIndex.table_ (index_ n)).

(** Same node, same map. *)
Record preserves (n n' : node) : Prop := {
  ps_inv : node_inv n';
  ps_id : id_ n' = id_ n;
  ps_ready : ready_ n' = ready_ n;
  ps_serves : forall k, serves n' k = serves n k
}.

Lemma preserves_refl n : node_inv n -> preserves n n.
Proof. by split. Qed.

Lemma preserves_trans n1 n2 n3 : preserves n1 n2 -> preserves n2 n3 -> preserves n1 n3.
Proof. intros [A1 A2 A3 A4] [B1 B2 B3 B4]. split; congruence. Qed.

Lemma evolves_preserves n n' : node_inv n' -> evolves n n' -> preserves n n'.
Proof. intros Hn [E1 E2 _ _ _ E6]. by split. Qed.

(** Writing the block a key already maps to changes nothing. *)
Lemma put_same k b n s n' : serves n k = Some b -> put_result k b n s n' -> preserves n n'.
Proof.
  intros Hk [R1 R2 R3 R4 R5]. split; try done. intros k'. destruct (decide (k' = k)) as [->|]; [|by apply R5].
  destruct (ok s); [congruence|]. destruct R4; congruence.
Qed.

Lemma count_preserves n dh sh ms de pr br bw :
  node_inv n -> preserves n (set_stats (add_stats dh sh ms de pr br bw (stats_ n)) n).
Proof. intros [I1 I2 I3]. split; cbn; try done. Qed.

Lemma wp_count n dh sh ms de pr br bw (Q : unit -> node -> Prop) :
  Q tt (set_stats (add_stats dh sh ms de pr br bw (stats_ n)) n) -> wp (count dh sh ms de pr br bw) Q n.
Proof. intros HQ. unfold count. by wp_steps. Qed.

(** ** Promotion *)

Section promote.
Context (n : node) (d : T) (p : P) (k : BlockKey) (b : Block) (loc : Location).
Context (Hn : node_inv n) (Hr : ready_ n = true) (Hw : storable k b).
Context (Hd : tier_at (tiers_ n) kDram 0%nat d) (Hev : eviction_ n = Some p).
Context (Hl : table n !! k = Some loc) (Hty : tier loc = kSsd) (Hk : tier_contents d !! k = None).
Context (Hfits : capacity_bytes (tier_Stats d) <> 0 ->
  total_bytes (<[k := b]> (tier_contents d)) <= capacity_bytes (tier_Stats d)).

(** Once there is room: store, tell the policy, switch the index. *)
Lemma wp_promote_commit :
  wp (stored ← on_tier 0 (tier_Put k b);
      match stored with
      | Error _ => mret tt
      | Value h =>
          policy ← on_policy (ep_OnPromotionCommitted k (size_bytes b));
          if negb (ok policy) then undo_dram_put 0 k
          else (
            on_index (LocalIndex.RelocateExisting k kSsd kDram h) ;;
            count 0 0 0 0 1 0 (size_bytes b))
      end) (fun _ n' => exists s, put_result k b n s n') n.
Proof.
  pose proof (ni_tiers n Hn) as Hts. rewrite Hr in Hts.
  destruct (ni_policy n Hn p Hev) as (Pi & Pr & Pres).
  destruct (io_entry _ _ _ (ni_index n Hn Hr) k loc Hl) as [Hid _]. wp_steps.
  eapply (wp_node_tier_Put _ kDram _ d); [done..|]. intros r d1 Hf HQ. destruct r as [hd|st].
  2: { destruct HQ as [Hst [HQ|[? _]]]; [|done]. wp_steps. exists st.
       apply (put_rolled_back n d); try done. apply (ni_policy n Hn). }
  wp_steps. eapply wp_on_policy; [done|]. eapply wp_mono; [by apply ep_OnPromotionCommitted_law|].
  intros s p' (Pi' & Pr' & HP). destruct (ok s) eqn:Es; cbn [negb].
  - wp_steps. apply wp_on_index. eapply LocalIndex.wp_RelocateExisting; [exact Hl|done|].
    apply wp_count. exists Ok.
    apply (dram_committed n d k b Hn Hr Hd Hfits d1 Hf HQ (Some p') _ (mkLocation (node_id loc) kDram hd)); try done.
    eapply dram_policy; try done. congruence.
  - eapply wp_mono; [eapply (wp_undo_dram_put n d k b Hd d1 Hf HQ); done|].
    intros [] m' (d' & -> & Hf' & Hc'). exists s. apply (put_rolled_back n d); try done.
    intros q [= <-]. split_and!; [done|congruence..].
Qed.
End promote.

Lemma wp_TryPromoteToDramLocked (n : node) k b loc view payload :
  node_inv n -> ready_ n = true -> table n !! k = Some loc -> held (tiers_ n) (tier loc) !! k = Some b ->
  bv_metadata view = metadata b -> payload = data b ->
  wp (TryPromoteToDramLocked k view payload) (fun _ n' => preserves n n') n.
Proof.
  intros Hn Hr Hl Hb Hm ->. assert (serves n k = Some b) as Hsv by (unfold serves, value; by rewrite Hl; cbn).
  pose proof (ni_tiers n Hn) as Hts. rewrite Hr in Hts.
  assert (mkBlock (bv_metadata view) (data b) = b) as Eb by (rewrite Hm; by destruct b).
  unfold TryPromoteToDramLocked, TierOfLocked. wp_steps.
  destruct (find_tier kDram (tiers_ n)) as [dram|] eqn:Hf; [|wp_steps; by apply preserves_refl].
  destruct (eviction_ n) as [p|] eqn:Hev; [|wp_steps; by apply preserves_refl].
  pose proof (lo_dram _ (to_layout _ _ Hts) _ Hf) as ->. apply find_tier_at in Hf as [d Hd].
  pose proof (tier_at_of _ _ _ _ Hd) as Hof. pose proof (tier_at_type _ _ _ _ Hd) as Yd.
  wp_steps. eapply wp_tier_get; [apply Hd|]. destruct (_ && _)%bool; [wp_steps; by apply preserves_refl|].
  destruct (ok (LocalIndex.ValidateRelocate k kSsd (index_ n))) eqn:Ev; cbn [negb]; [|wp_steps; by apply preserves_refl].
  apply LocalIndex.ValidateRelocate_ok in Ev as (loc' & El & Ht). rewrite Hl in El. symmetry in El. simplify_eq.
  assert (storable k b) as Hw.
  { unfold held in Hb. destruct (tier_of (tiers_ n) (tier loc)) as [t|] eqn:E; cbn in Hb; [|by rewrite lookup_empty in Hb].
    eapply (tier_contents_wf t); [by eapply to_inv|done]. }
  wp_steps. eapply wp_on_tier; [apply Hd|].
  eapply wp_mono; [apply tier_Probe_law; [by eapply to_inv|by eapply to_ready|apply Hw]|].
  intros [i|st] d1 (F1 & C1 & HQ); cbv beta iota in HQ;
    destruct (tier_quiet n _ _ _ d1 Hn Hd F1 C1) as (Hn1 & E1 & Hh1); pose proof (evolves_preserves _ _ Hn1 E1) as P1;
    [by wp_steps|].
  destruct HQ as (_ & Hnone & _). specialize (Hnone (or_introl Yd)).
  pose proof (tier_at_upd _ _ _ _ _ Hd (proj1 (proj2 F1))) as Hd1.
  case_decide; [by wp_steps|]. wp_steps; [|done]. rewrite Eb.
  eapply wp_mono; [apply (wp_MakeDramRoomForLocked (upd_tier 0 d1 n) (size_bytes b) None); try done; apply zlen_nonneg|].
  intros s n2 (replaced & -> & [Hn2 E2 Htb Hfits]).
  pose proof (preserves_trans _ _ _ P1 (evolves_preserves _ _ Hn2 E2)) as P2.
  destruct (ok s) eqn:Es; cbn [negb]; [|by wp_steps].
  destruct (Htb k) as (Et & Eh & _); [right; by rewrite (held_at _ _ _ _ Hd1), C1|].
  destruct (evolves_tier_at _ _ _ _ _ E2 Hd1) as [d2 Hd2].
  rewrite (held_at _ _ _ _ Hd1), (held_at _ _ _ _ Hd2), C1, Hnone in Eh.
  destruct (proj2 (ev_policy _ _ E2) ltac:(eauto)) as [p2 Hev2].
  eapply wp_mono; [eapply (wp_promote_commit n2 d2 p2 k b loc); try done|].
  - by rewrite (ps_ready _ _ P2).
  - by rewrite Et.
  - intros Hc. specialize (Hfits eq_refl d2 (tier_at_of _ _ _ _ Hd2) Hc).
    rewrite total_bytes_insert by done. lia.
  - intros [] n' [s' R]. eapply preserves_trans; [done|]. eapply put_same; [|done].
    by rewrite (ps_serves _ _ P2).
Qed.

(** ** Get *)

Lemma serves_Some (n : node) k loc b :
  table n !! k = Some loc -> held (tiers_ n) (tier loc) !! k = Some b -> serves n k = Some b.
Proof. intros Hl Hb. unfold serves, value. by rewrite Hl. Qed.

Lemma serves_None (n : node) k : table n !! k = None -> serves n k = None.
Proof. intros Hl. unfold serves, value. by rewrite Hl. Qed.

(** An indexed key: its tier, found by [TierOfLocked], holds the block. *)
Lemma indexed_owner (n : node) k loc :
  node_inv n -> ready_ n = true -> table n !! k = Some loc ->
  exists i t b, tier_at (tiers_ n) (tier loc) i t /\ tier_inv t /\ tier_IsReady t = true
                /\ tier_contents t !! k = Some b /\ serves n k = Some b.
Proof.
  intros Hn Hr Hl. pose proof (ni_tiers n Hn) as Hts. rewrite Hr in Hts.
  destruct (io_entry _ _ _ (ni_index n Hn Hr) k loc Hl) as [_ [b Hb]]. pose proof Hb as Hb'.
  unfold held in Hb. destruct (tier_of (tiers_ n) (tier loc)) as [t|] eqn:E; cbn in Hb; [|by rewrite lookup_empty in Hb].
  pose proof (to_inv _ _ Hts _ _ E). pose proof (to_ready _ _ Hts eq_refl _ _ E).
  apply tier_of_Some in E as [i Hat]. exists i, t, b. split_and!; try done. by eapply serves_Some.
Qed.

(** The policy learns of a hit. *)
Lemma wp_touch (n : node) k (Q : unit -> node -> Prop) :
  node_inv n -> is_Some (held (tiers_ n) kDram !! k) -> (forall n', preserves n n' -> Q tt n') ->
  wp (n' ← get; match eviction_ n' with Some _ => on_policy (ep_OnAccess k) | None => mret tt end) Q n.
Proof.
  intros Hn Hk HQ. wp_steps. destruct (eviction_ n) as [p|] eqn:Hev; [|wp_steps; by apply HQ, preserves_refl].
  destruct (ni_policy n Hn p Hev) as (Pi & Pr & Pres). eapply wp_on_policy; [done|].
  eapply wp_mono; [apply ep_OnAccess_law; [done|by rewrite Pres, elem_of_dom]|].
  intros [] p' (Pi' & Pr' & Pres'). apply HQ.
  destruct Hn as [I1 I2 I3]. split; try done. split; try done. intros q [= <-]. split_and!; cbn [tiers_ set_eviction]; [done|congruence..].
Qed.

(** What [Get] returns: the block served, or an error that leaves the
    destination alone; a block in DRAM is always delivered into a buffer that
    can hold it. *)
Record get_result (k : BlockKey) (dst : MutableBuffer) (out : bool) (n : node)
    (r : Status * MutableBuffer * BlockView) (n' : node) : Prop := {
  gr_preserves : preserves n n';
  gr_ok : ok r.1.1 = true -> ready_ n = true /\ exists b,
    serves n k = Some b /\ bv_metadata r.2 = metadata b /\ bv_size r.2 = size_bytes b
    /\ view_bytes r.1.2 r.2 = data b /\ size_bytes b <= mb_capacity dst;
  gr_error : ok r.1.1 = false -> r.1.2 = dst /\ r.2 = BlockView_default;
  gr_not_ready : ready_ n = false -> code r.1.1 = kUnavailable;
  gr_miss : ready_ n = true -> code r.1.1 = kNotFound <-> serves n k = None;
  gr_dram : forall loc b, ready_ n = true -> out = true -> (mb_data dst = None -> mb_capacity dst = 0) ->
    table n !! k = Some loc -> tier loc = kDram -> serves n k = Some b ->
    size_bytes b <= mb_capacity dst -> ok r.1.1 = true
}.

Lemma get_failed k dst out n s n' :
  preserves n n' -> ok s = false -> (ready_ n = false -> code s = kUnavailable) ->
  (ready_ n = true -> code s = kNotFound <-> serves n k = None) ->
  (forall loc b, ready_ n = true -> out = true -> (mb_data dst = None -> mb_capacity dst = 0) ->
    table n !! k = Some loc -> tier loc = kDram -> serves n k = Some b -> mb_capacity dst < size_bytes b) ->
  get_result k dst out n (s, dst, BlockView_default) n'.
Proof.
  intros Hp Hs Hu Hm Hd. split; cbn [fst snd]; try done; [congruence|].
  intros loc b R O D L K S B. specialize (Hd _ _ R O D L K S). lia.
Qed.

Lemma wp_Get (n : node) k dst out :
  node_inv n -> BlockKey_wf k -> wp (Get k dst out) (get_result k dst out n) n.
Proof.
  intros Hn Hk. unfold Get. wp_steps. destruct (ready_ n) eqn:Hr; cbn [negb].
  2: { wp_steps. apply get_failed; first [done|by apply preserves_refl|congruence]. }
  unfold LocalIndex.Find. destruct (table n !! k) as [loc|] eqn:Hl.
  2: { wp_steps. apply wp_count. wp_steps. pose proof (serves_None n k Hl).
       apply get_failed; first [done|by apply count_preserves|congruence]. }
  destruct (indexed_owner n k loc Hn Hr Hl) as (i & t & b & Hat & Ti & Tr & Hb & Hsv).
  unfold TierOfLocked. rewrite (proj1 Hat). wp_steps. eapply wp_on_tier; [apply Hat|].
  eapply wp_mono; [by apply tier_Get_law|]. intros [[s dst'] v] t1 (F1 & C1 & _ & _ & HQ).
  destruct (tier_quiet n _ _ _ t1 Hn Hat F1 C1) as (Hn1 & E1 & Hh1). pose proof (evolves_preserves _ _ Hn1 E1) as P1.
  destruct (ok s) eqn:Es; cbn [negb].
  2: { destruct HQ as (-> & -> & Hnf & Hdr). assert (code s <> kNotFound) as Hc by (intros E; rewrite Hnf in Hb; done).
       rewrite decide_False by done. wp_steps. apply get_failed; try done; [congruence|naive_solver|].
       intros loc' b' _ O D Hl' Hty S. simplify_eq. eapply Hdr; try done.
       by rewrite (tier_at_type _ _ _ _ Hat). }
  destruct HQ as (_ & b' & Hb' & Hcap & Hsz & Hmd & Hv). rewrite Hb in Hb'. injection Hb' as <-.
  assert (forall n', preserves n n' -> get_result k dst out n (Ok, dst', v) n') as Hdone.
  { intros n' Hp. split; cbn [fst snd]; try done; [intros _; split; [done|]; by exists b|congruence|].
    intros _. split; [done|congruence]. }
  wp_steps. apply wp_count. set (n1 := set_stats _ _).
  assert (preserves n n1) as P2 by (eapply preserves_trans; [exact P1|by apply count_preserves]).
  assert (held (tiers_ n1) (tier loc) !! k = Some b) as Hheld.
  { change (held (tiers_ n1)) with (held (tiers_ (upd_tier i t1 n))). by rewrite Hh1, (held_at _ _ _ _ Hat). }
  case_decide as Hty.
  - wp_steps. apply wp_count. rewrite Hty in Hheld.
    apply wp_touch; [apply (count_preserves _ _ _ _ _ _ _ _ (ps_inv _ _ P2))|by eexists|].
    intros n' P3. wp_steps. apply Hdone. eapply preserves_trans; [|exact P3].
    eapply preserves_trans; [exact P2|]. apply count_preserves, P2.
  - wp_steps. apply wp_count. set (n2 := set_stats _ n1).
    assert (preserves n n2) as P3 by (eapply preserves_trans; [exact P2|]; apply count_preserves, P2).
    eapply wp_mono; [eapply (wp_TryPromoteToDramLocked n2 k b loc); first [done|apply P3|by rewrite (ps_ready _ _ P3)|idtac]|].
    intros [] n' P4. wp_steps. apply Hdone. by eapply preserves_trans.
Qed.

(** ** Queries *)

Lemma wp_Probe (n : node) k :
  node_inv n -> BlockKey_wf k ->
  wp (Probe k) (fun r n' => preserves n n' /\ match r with
    | Value i => exists b, serves n k = Some b /\ bi_metadata i = metadata b /\ payload_size i = size_bytes b
    | Error s => ok s = false /\ (ready_ n = true -> code s = kNotFound -> serves n k = None)
                 /\ (forall loc, ready_ n = true -> table n !! k = Some loc -> tier loc <> kDram)
    end) n.
Proof.
  intros Hn Hk. unfold Probe. wp_steps. destruct (ready_ n) eqn:Hr; cbn [negb].
  2: { wp_steps. split; [by apply preserves_refl|]. split_and!; try done; congruence. }
  unfold LocalIndex.Find. destruct (table n !! k) as [loc|] eqn:Hl.
  2: { wp_steps. split; [by apply preserves_refl|]. split_and!; try done. intros _ _. by apply serves_None. }
  destruct (indexed_owner n k loc Hn Hr Hl) as (i & t & b & Hat & Ti & Tr & Hb & Hsv).
  unfold TierOfLocked. rewrite (proj1 Hat). eapply wp_on_tier; [apply Hat|].
  eapply wp_mono; [by apply tier_Probe_law|]. intros r t1 (F1 & C1 & HQ).
  destruct (tier_quiet n _ _ _ t1 Hn Hat F1 C1) as (Hn1 & E1 & Hh1).
  split; [by apply evolves_preserves|]. destruct r as [info|s]; [naive_solver|].
  destruct HQ as (Hs & Hnone & _). rewrite Hb in Hnone. split_and!; [done|naive_solver|].
  intros loc' _ [= <-] Hty. discriminate Hnone. left. by rewrite (tier_at_type _ _ _ _ Hat).
Qed.
End get.
