(* ===== verification/NodeOpen.v ===== *)
(** * Storage node: lifecycle and recovery

    [StorageNode::Open] opens every tier, rebuilds the index from what the
    tiers hold (the hottest copy of a key wins) and rolls back on the first
    failure; [Close] closes the tiers in reverse order.  Neither changes what
    the tiers hold. *)

From S2P Require Import Prelude Api BlockKeys EvictionPolicy LocalIndex Tier StorageNode NodeInv NodeRoom NodePut NodeGet.
Import StorageNode.

(** ** The hottest copy of a key *)

Section hottest.
Context {T : Type} `{TierLaws T}.

(** The type of the first tier of the list that holds a key, and its block. *)
Fixpoint owner (ts : list (option T)) (k : BlockKey) : option TierType :=
  match ts with
  | [] => None
  | None :: rest => owner rest k
  | Some t :: rest => if tier_contents t !! k is Some _ then Some (tier_type t) else owner rest k
  end.

Fixpoint hottest (ts : list (option T)) (k : BlockKey) : option Block :=
  match ts with
  | [] => None
  | None :: rest => hottest rest k
  | Some t :: rest => match tier_contents t !! k with Some b => Some b | None => hottest rest k end
  end.

Lemma owner_app ts t k :
  owner (ts ++ [Some t]) k =
    match owner ts k with
    | Some ty => Some ty
    | None => if tier_contents t !! k is Some _ then Some (tier_type t) else None
    end.
Proof. induction ts as [|[u|] ts IH]; cbn; [done| |done]. by destruct (tier_contents u !! k). Qed.

(** The owner is a tier of the list that holds the hottest copy. *)
Lemma owner_lookup ts k :
  match owner ts k with
  | Some ty => exists i t b, ts !! i = Some (Some t) /\ tier_type t = ty
                             /\ tier_contents t !! k = Some b /\ hottest ts k = Some b
  | None => hottest ts k = None
  end.
Proof.
  induction ts as [|[t|] ts IH]; cbn [owner hottest]; [done| |].
  - destruct (tier_contents t !! k) as [b|] eqn:E; [exists 0%nat, t, b; naive_solver|].
    destruct (owner ts k); [|done]. destruct IH as (i & u & b & Hi & ?). by exists (S i), u, b.
  - destruct (owner ts k); [|done]. destruct IH as (i & u & b & Hi & ?). by exists (S i), u, b.
Qed.

Lemma owner_held ts k :
  layout_ok ts -> hottest ts k = (ty ← owner ts k; held ts ty !! k)
                  /\ (forall ty, owner ts k = Some ty -> is_Some (held ts ty !! k)).
Proof.
  intros Hl. pose proof (owner_lookup ts k) as Ho. destruct (owner ts k) as [ty|]; [|by split].
  destruct Ho as (i & t & b & Hi & <- & Hb & Hh).
  assert (held ts (tier_type t) = tier_contents t) as E.
  { apply (held_at _ _ i). split; [by apply lo_unique|done]. }
  split; [cbn; by rewrite E, Hh|]. intros ty [= <-]. rewrite E. by exists b.
Qed.

Lemma owner_none ts k ty : owner ts k = None -> held ts ty !! k = None.
Proof.
  intros Ho. unfold held. destruct (tier_of ts ty) as [t|] eqn:E; cbn; [|apply lookup_empty].
  apply tier_of_Some in E as (i & _ & Hi). clear ty. revert i Hi.
  induction ts as [|[u|] ts IH]; intros i Hi; [done|..]; cbn in Ho; destruct i as [|i]; simplify_eq/=; try by eapply IH.
  - by destruct (tier_contents t !! k).
  - eapply IH; [|done]. by destruct (tier_contents u !! k).
Qed.

(** DRAM comes first. *)
Lemma owner_dram ts k : layout_ok ts -> is_Some (held ts kDram !! k) -> owner ts k = Some kDram.
Proof.
  intros Hl [b Hb]. unfold held in Hb. destruct (tier_of ts kDram) as [d|] eqn:E; cbn in Hb; [|by rewrite lookup_empty in Hb].
  apply tier_of_Some in E as [i Hat]. pose proof (lo_dram _ Hl _ (proj1 Hat)) as ->.
  pose proof (tier_at_type _ _ _ _ Hat) as Ht. destruct Hat as [_ Hi]. destruct ts as [|[u|] ts]; simplify_eq/=.
  by rewrite Hb, Ht.
Qed.
End hottest.

(** ** Opening and closing tiers *)

Section lifecycle.
Context {T P : Type} `{TierLaws T} `{EvictionPolicyLaws P}.

Abbreviation node := (StorageNode T P).
Abbreviation table n := (LocalIndex.table_ (index_ n)).

(** What [Open] and [Close] of a tier keep. *)
Definition same_tier (t t' : T) : Prop :=
  (tier_inv t -> tier_inv t') /\ tier_type t' = tier_type t /\ tier_contents t' = tier_contents t
  /\ capacity_bytes (tier_Stats t') = capacity_bytes (tier_Stats t).

#[local] Instance same_tier_preorder : PreOrder same_tier.
Proof. split; [by intros t|]. intros t1 t2 t3 (? & ? & ? & ?) (? & ? & ? & ?). split_and!; [naive_solver|congruence..]. Qed.

Definition same_tiers : list (option T) -> list (option T) -> Prop := Forall2 (option_Forall2 same_tier).

#[local] Instance same_tiers_preorder : PreOrder same_tiers.
Proof. unfold same_tiers. split; apply _. Qed.

Lemma same_tiers_find ts ts' ty : same_tiers ts ts' -> find_tier ty ts' = find_tier ty ts.
Proof. induction 1 as [|o o' ts ts' Ho _ IH]; [done|]. destruct Ho as [t t' (_ & E & _)|]; cbn; by rewrite ?E, IH. Qed.

Lemma same_tiers_lookup ts ts' i t' :
  same_tiers ts ts' -> ts' !! i = Some (Some t') -> exists t, ts !! i = Some (Some t) /\ same_tier t t'.
Proof.
  intros Hs Hi. destruct (Forall2_lookup_r _ _ _ _ _ Hs Hi) as (o & Ho & Hs'). inversion Hs'; subst. eauto.
Qed.

Lemma same_tiers_of ts ts' ty t' :
  same_tiers ts ts' -> tier_of ts' ty = Some t' -> exists t, tier_of ts ty = Some t /\ same_tier t t'.
Proof.
  intros Hs (i & Hf & Hi)%tier_of_Some. rewrite (same_tiers_find _ _ _ Hs) in Hf.
  destruct (same_tiers_lookup _ _ _ _ Hs Hi) as (t & Ht & ?). exists t. split; [|done]. apply tier_of_Some. by exists i.
Qed.

Lemma same_tiers_held ts ts' ty : same_tiers ts ts' -> held ts' ty = held ts ty.
Proof.
  intros Hs. unfold held, tier_of. rewrite (same_tiers_find _ _ _ Hs).
  destruct (find_tier ty ts) as [i|]; [|done]. cbn.
  pose proof (proj1 (Forall2_lookup _ _ _) Hs i) as Hi. destruct (ts !! i) as [o|], (ts' !! i) as [o'|]; inversion Hi as [?? Ho|]; [|done].
  by destruct Ho as [?? (_ & _ & E & _)|]; subst; cbn.
Qed.

Lemma same_tiers_layout ts ts' : same_tiers ts ts' -> layout_ok ts -> layout_ok ts'.
Proof.
  intros Hs [[h Hh] Hu Hd]. split.
  - destruct (Forall2_lookup_l _ _ _ _ _ Hs Hh) as (o & Ho & Hs'). inversion Hs'; subst. eauto.
  - intros i t' Hi. destruct (same_tiers_lookup _ _ _ _ Hs Hi) as (t & Ht & _ & E & _).
    rewrite (same_tiers_find _ _ _ Hs), E. by apply Hu.
  - intros i. rewrite (same_tiers_find _ _ _ Hs). apply Hd.
Qed.

(** The tiers of a node after [Open] or [Close] of some of them. *)
Lemma same_tiers_ok r ts ts' : same_tiers ts ts' -> tiers_ok r ts -> tiers_ok false ts'.
Proof.
  intros Hs [Hl Hi _ Hc]. split; [by eapply same_tiers_layout| |done|].
  - intros ty t' (t & Ht & I & _)%(same_tiers_of _ _ _ _ Hs). eapply I, Hi, Ht.
  - intros d' (d & Hd & _ & _ & -> & ->)%(same_tiers_of _ _ _ _ Hs). by apply Hc.
Qed.

Lemma same_tiers_hottest ts ts' k : same_tiers ts ts' -> hottest ts' k = hottest ts k.
Proof. induction 1 as [|o o' ts ts' Ho _ IH]; [done|]. destruct Ho as [t t' (_ & _ & E & _)|]; cbn; by rewrite ?E, IH. Qed.

Lemma tier_at_index r ts i t : tiers_ok r ts -> ts !! i = Some (Some t) -> tier_at ts (tier_type t) i t /\ tier_inv t.
Proof.
  intros Hts Hi. assert (tier_at ts (tier_type t) i t) as Hat by (split; [by apply lo_unique, Hi; apply Hts|done]).
  split; [done|]. eapply to_inv; [done|by eapply tier_at_of].
Qed.

Lemma same_tiers_insert ts i t t' :
  ts !! i = Some (Some t) -> same_tier t t' -> same_tiers ts (<[i := Some t']> ts).
Proof.
  intros Hi Ht. rewrite <- (list_insert_id ts i (Some t)) at 1 by done. apply Forall2_insert; [|by constructor].
  change (same_tiers ts ts). done.
Qed.

(** A node whose tiers were opened or closed: nothing else differs. *)
Definition reopened (n n' : node) : Prop := same_tiers (tiers_ n) (tiers_ n') /\ n' = set_tiers (tiers_ n') n.

Lemma reopened_refl n : reopened n n.
Proof. split; [done|by destruct n]. Qed.

Lemma reopened_trans n1 n2 n3 : reopened n1 n2 -> reopened n2 n3 -> reopened n1 n3.
Proof. intros [S1 E1] [S2 E2]. split; [by etrans|]. destruct n1, n2, n3. unfold set_tiers in *. cbn in *. by simplify_eq. Qed.

Lemma reopened_upd n i t t' : tiers_ n !! i = Some (Some t) -> same_tier t t' -> reopened n (upd_tier i t' n).
Proof. intros Hi Ht. split; [by eapply same_tiers_insert|done]. Qed.

Lemma reopened_inv n n' : reopened n n' -> node_inv n -> node_inv (set_ready false n').
Proof.
  intros [Hs ->] [Hts Hpol _]. split; cbn; [by eapply same_tiers_ok| |done].
  eapply policy_same; [|done]. by apply same_tiers_held.
Qed.

(** Closing or opening one tier. *)
Lemma wp_lifecycle n r i t (m : comp T Status) (Q : Status -> node -> Prop) :
  tiers_ok r (tiers_ n) -> tiers_ n !! i = Some (Some t) ->
  (tier_inv t -> wp m (fun _ t' => tier_inv t' /\ tier_type t' = tier_type t /\ tier_contents t' = tier_contents t
      /\ capacity_bytes (tier_Stats t') = capacity_bytes (tier_Stats t)) t) ->
  (forall s t', reopened n (upd_tier i t' n) -> Q s (upd_tier i t' n)) ->
  wp (on_tier i m) Q n.
Proof.
  intros Hts Hi Hm HQ. eapply wp_on_tier; [done|]. destruct (tier_at_index _ _ _ _ Hts Hi) as [_ Ht].
  eapply wp_mono; [by apply Hm|]. intros s t' (I & Y & C & K). apply HQ. by eapply reopened_upd.
Qed.

Lemma reopened_tiers r n n' : reopened n n' -> tiers_ok r (tiers_ n) -> tiers_ok false (tiers_ n').
Proof. intros [Hs _]. by apply same_tiers_ok. Qed.

(** ** Closing loops *)

Lemma wp_close_tiers i : forall (n : node) first_error r,
  tiers_ok r (tiers_ n) ->
  wp (close_tiers i first_error) (fun _ n' => reopened n n') n.
Proof.
  induction i as [|i IH]; intros n e r Hts; cbn [close_tiers]; wp_steps; [apply reopened_refl|].
  destruct (tiers_ n !! i) as [[t|]|] eqn:Hi; [|by eapply IH..]. wp_steps.
  eapply wp_lifecycle; [done..|by apply tier_Close_law|]. intros s t' Hre.
  eapply wp_mono; [eapply IH, reopened_tiers; done|]. intros s' n'. by apply reopened_trans.
Qed.

Lemma wp_rollback_tiers i : forall (n : node) message r,
  tiers_ok r (tiers_ n) ->
  wp (rollback_tiers i message) (fun _ n' => reopened n n') n.
Proof.
  induction i as [|i IH]; intros n e r Hts; cbn [rollback_tiers]; wp_steps; [apply reopened_refl|].
  destruct (tiers_ n !! i) as [[t|]|] eqn:Hi; [|by eapply IH..]. wp_steps.
  eapply wp_lifecycle; [done..|by apply tier_Close_law|]. intros s t' Hre.
  eapply wp_mono; [eapply IH, reopened_tiers; done|]. intros s' n'. by apply reopened_trans.
Qed.

(** ** The opening loop *)

(** The tiers below [i] are there and ready. *)
Definition ready_upto (i : nat) (ts : list (option T)) : Prop :=
  forall j, (j < i)%nat -> exists t, ts !! j = Some (Some t) /\ tier_IsReady t = true.

Lemma ready_upto_extend i ts t :
  ready_upto i ts -> ts !! i = Some (Some t) -> tier_IsReady t = true -> ready_upto (S i) ts.
Proof. intros Hr Hi Ht j Hj. destruct (decide (j = i)) as [->|]; [eauto|]. apply Hr. lia. Qed.

Lemma ready_upto_insert i ts t : ready_upto i ts -> ready_upto i (<[i := Some t]> ts).
Proof. intros Hr j Hj. rewrite list_lookup_insert_ne by lia. by apply Hr. Qed.

Lemma wp_open_tiers todo : forall (n : node) i r,
  tiers_ok r (tiers_ n) -> ready_upto i (tiers_ n) ->
  wp (open_tiers todo i i) (fun x n' =>
    reopened n n' /\ (ok x.1.1 = true -> ready_upto (i + todo) (tiers_ n') /\ x.1.2 = (i + todo)%nat)) n.
Proof.
  induction todo as [|todo IH]; intros n i r Hts Hr; cbn [open_tiers]; wp_steps.
  { split; [apply reopened_refl|]. by rewrite Nat.add_0_r. }
  destruct (tiers_ n !! i) as [[t|]|] eqn:Hi; [|wp_steps; by split; [apply reopened_refl|]..]. wp_steps.
  eapply wp_lifecycle; [done..|by apply tier_Open_law|]. intros s t' Hre.
  destruct (ok s) eqn:Es; cbn [negb]; [|wp_steps; split; [done|cbn; congruence]].
  assert (tiers_ (upd_tier i t' n) !! i = Some (Some t')) as Hi'
    by (apply list_lookup_insert_eq; by eapply lookup_lt_Some).
  wp_steps. eapply wp_tier_get; [done|]. destruct (tier_IsReady t') eqn:Ert; cbn [negb]; [|by wp_steps; split].
  eapply wp_mono.
  - eapply (IH (upd_tier i t' n) (S i)); [by eapply reopened_tiers|].
    eapply ready_upto_extend; [|done..]. by apply ready_upto_insert.
  - intros x n' [Hre' HQ]. split; [by eapply reopened_trans|]. by rewrite Nat.add_succ_r.
Qed.

(** ** The recovery loop *)

(** The index [tb] names, for each key, the first tier of [ts] that holds it. *)
Definition recovered_ok (id : string) (ts : list (option T)) (tb : gmap BlockKey Location) : Prop :=
  forall k, (fun l => (node_id l, tier l)) <$> tb !! k = pair id <$> owner ts k.

(** The same while a tier of type [ty] is being scanned, [S] seen so far. *)
Definition scanning (id : string) (ts : list (option T)) (t : T) (S : gset BlockKey) (v : LocalIndex.LocalIndex) : Prop :=
  S ⊆ dom (tier_contents t) /\
  forall k, (fun l => (node_id l, tier l)) <$> LocalIndex.table_ v !! k =
    pair id <$> (if owner ts k is Some ty then Some ty else if decide (k ∈ S) then Some (tier_type t) else None).

Lemma wp_recover_entry id ts t S k info b v :
  scanning id ts t S v -> k ∉ S -> tier_contents t !! k = Some b ->
  wp (recover_entry id (tier_type t) k info) (fun s v' => ok s = true -> scanning id ts t ({[k]} ∪ S) v') v.
Proof.
  intros [HS Hv] Hk Hb. unfold recover_entry. wp_steps; [|done].
  eapply wp_mono; [apply LocalIndex.wp_InsertIfAbsent|]. intros s v' HQ Hs. cbv beta in HQ. rewrite Hs in HQ. split.
  - apply elem_of_dom_2 in Hb. set_solver.
  - intros x. rewrite HQ. specialize (Hv x) as Hx. destruct (decide (x = k)) as [->|Hne].
    + rewrite (decide_True (P := k ∈ _)) by set_solver. rewrite (decide_False (P := k ∈ S)) in Hx by done.
      case_decide as Hin; [|rewrite lookup_insert_eq].
      * rewrite Hx. destruct Hin as [l Hl]. rewrite Hl in Hx. by destruct (owner ts k).
      * apply eq_None_not_Some in Hin. rewrite Hin in Hx. by destruct (owner ts k).
    + replace (if decide (x ∈ {[k]} ∪ S) then Some (tier_type t) else None)
        with (if decide (x ∈ S) then Some (tier_type t) else None) by (repeat case_decide; set_solver).
      rewrite <- Hx. clear HQ Hx. destruct (decide (is_Some _)); [done|]. by rewrite lookup_insert_ne.
Qed.

Lemma scanning_done id ts t v :
  scanning id ts t (dom (tier_contents t)) v -> recovered_ok id (ts ++ [Some t]) (LocalIndex.table_ v).
Proof.
  intros [_ Hv] k. rewrite Hv, owner_app. destruct (owner ts k); [done|].
  case_decide as Hin; [|apply not_elem_of_dom in Hin; by rewrite Hin].
  apply elem_of_dom in Hin as [b ->]. done.
Qed.

Lemma wp_visit_tier (n : node) r i t recovered :
  tiers_ok r (tiers_ n) -> tiers_ n !! i = Some (Some t) -> tier_IsReady t = true ->
  recovered_ok (id_ n) (take i (tiers_ n)) (LocalIndex.table_ recovered) ->
  wp (visit_tier i recovered) (fun x n' =>
    exists t', n' = upd_tier i t' n /\ tier_frame t t' /\ tier_contents t' = tier_contents t
      /\ (ok x.1 = true -> recovered_ok (id_ n) (take i (tiers_ n) ++ [Some t]) (LocalIndex.table_ x.2))) n.
Proof.
  intros Hts Hi Ht Hrec al. unfold visit_tier. rewrite Hi. destruct (tier_at_index _ _ _ _ Hts Hi) as [_ Hti].
  assert (scanning (id_ n) (take i (tiers_ n)) t ∅ recovered) as H0'.
  { split; [set_solver|]. intros k. rewrite (Hrec k). by destruct (owner _ k). }
  pose proof (tier_VisitEntries_law _ (recover_entry (id_ n) (tier_type t))
    (scanning (id_ n) (take i (tiers_ n)) t) t recovered Hti Ht H0'
    (fun S k info b v' Hv Hk Hb => wp_recover_entry _ _ _ _ _ info _ _ Hv Hk Hb) al) as HQ.
  destruct (tier_VisitEntries _ _ _ _) as [[[s [t' v]] al']|]; [|done]. destruct HQ as (F & C & HQ). cbn in F, C, HQ.
  exists t'. split_and!; [done..|]. intros Hs. by apply scanning_done, HQ.
Qed.

Lemma same_tiers_owner ts ts' k : same_tiers ts ts' -> owner ts' k = owner ts k.
Proof. induction 1 as [|o o' ts ts' Ho _ IH]; [done|]. destruct Ho as [t t' (_ & Y & C & _)|]; cbn; by rewrite ?Y, ?C, IH. Qed.

Lemma recovered_same id ts ts' tb : same_tiers ts ts' -> recovered_ok id ts tb -> recovered_ok id ts' tb.
Proof. intros Hs Hr k. by rewrite (same_tiers_owner _ _ _ Hs). Qed.

Lemma frame_same_tier t t' : tier_frame t t' -> tier_contents t' = tier_contents t -> same_tier t t'.
Proof. intros (I & Y & _ & K) C. by split_and!. Qed.

Lemma ready_upto_visit m ts i t t' :
  ready_upto m ts -> ts !! i = Some (Some t) -> tier_frame t t' -> ready_upto m (<[i := Some t']> ts).
Proof.
  intros Hr Hi (_ & _ & F & _) j Hj. destruct (Hr j Hj) as (u & Hu & Ru). destruct (decide (j = i)) as [->|].
  - rewrite list_lookup_insert_eq by (by eapply lookup_lt_Some). exists t'. split; [done|]. simplify_eq. by rewrite F.
  - rewrite list_lookup_insert_ne by done. eauto.
Qed.

Lemma wp_recover_tiers todo : forall (n : node) r i recovered,
  tiers_ok r (tiers_ n) -> ready_upto (i + todo) (tiers_ n) ->
  recovered_ok (id_ n) (take i (tiers_ n)) (LocalIndex.table_ recovered) ->
  wp (recover_tiers todo i recovered) (fun x n' =>
    reopened n n' /\ ready_upto (i + todo) (tiers_ n')
    /\ (ok x.1.1 = true -> recovered_ok (id_ n) (take (i + todo) (tiers_ n')) (LocalIndex.table_ x.1.2))) n.
Proof.
  induction todo as [|todo IH]; intros n r i recovered Hts Hr Hrec; cbn [recover_tiers]; wp_steps.
  { rewrite Nat.add_0_r in *. by split_and!; [apply reopened_refl|..]. }
  destruct (Hr i ltac:(lia)) as (t & Hi & Ht).
  eapply wp_mono; [by eapply wp_visit_tier|]. intros [s rec'] n1 (t' & -> & F & C & HQ). cbn [fst snd] in HQ.
  pose proof (reopened_upd n i t t' Hi (frame_same_tier _ _ F C)) as Hre.
  assert (ready_upto (i + S todo) (tiers_ (upd_tier i t' n))) as Hr' by (by eapply ready_upto_visit).
  destruct (ok s) eqn:Es; cbn [negb]; [|wp_steps; by split_and!; [..|cbn; congruence]].
  rewrite Nat.add_succ_r in *. eapply wp_mono.
  - eapply (IH (upd_tier i t' n) _ (S i)); [by eapply reopened_tiers|done|]. cbn [id_ upd_tier set_tiers tiers_].
    eapply recovered_same; [|by apply HQ].
    rewrite (take_S_r _ i (Some t')) by (apply list_lookup_insert_eq; by eapply lookup_lt_Some).
    rewrite take_insert_ge by lia. apply Forall2_app; [change (same_tiers (take i (tiers_ n)) (take i (tiers_ n))); done|].
    constructor; [|constructor]. constructor. by apply frame_same_tier.
  - intros x n' (R1 & R2 & R3). split_and!; [by eapply reopened_trans|done..].
Qed.

(** ** Open and Close *)

(** What [Open] and [Close] leave: the same tiers with the same blocks. *)
Record lifecycle_result (n n' : node) : Prop := {
  lr_inv : node_inv n';
  lr_id : id_ n' = id_ n;
  lr_policy : eviction_ n' = eviction_ n;
  lr_held : forall ty, held (tiers_ n') ty = held (tiers_ n) ty;
  lr_hottest : forall k, hottest (tiers_ n') k = hottest (tiers_ n) k;
  lr_index : ready_ n' = false -> index_ n' = index_ n
}.

Lemma reopened_result n n' : reopened n n' -> node_inv n -> lifecycle_result n (set_ready false n').
Proof.
  intros Hre Hn. pose proof (reopened_inv _ _ Hre Hn) as Hi. destruct Hre as [Hs E].
  split; [done|by rewrite E|by rewrite E|intros; by apply same_tiers_held|intros; by apply same_tiers_hottest|intros _; by rewrite E].
Qed.

Lemma wp_Close (n : node) :
  node_inv n -> wp Close (fun _ n' => lifecycle_result n n' /\ ready_ n' = false) n.
Proof.
  intros Hn. unfold Close. wp_steps. eapply wp_mono; [eapply wp_close_tiers, Hn|]. intros s n1 Hre. wp_steps.
  split; [by apply reopened_result|done].
Qed.

(** The index a successful recovery installs. *)
Lemma recovered_index id ts tb :
  layout_ok ts -> recovered_ok id ts tb ->
  index_ok id (held ts) tb /\ forall k, value (held ts) tb k = hottest ts k.
Proof.
  intros Hl Hr. split; [split|].
  - intros k loc E. specialize (Hr k). rewrite E in Hr. cbn in Hr. symmetry in Hr.
    apply fmap_Some in Hr as (ty & Ho & [= Hid Hty]). split; [done|]. rewrite Hty. by apply (proj2 (owner_held ts k Hl)).
  - intros k Hk. specialize (Hr k). rewrite (owner_dram ts k Hl Hk) in Hr.
    apply fmap_Some in Hr as (loc & -> & [= _ Hty]). eauto.
  - intros k. rewrite (proj1 (owner_held ts k Hl)). specialize (Hr k). unfold value.
    destruct (tb !! k) as [loc|], (owner ts k) as [ty|]; simplify_eq/=; done.
Qed.

Lemma ready_upto_all n ts : layout_ok ts -> ready_upto n ts -> n = length ts ->
  forall ty t, tier_of ts ty = Some t -> tier_IsReady t = true.
Proof.
  intros Hl Hr -> ty t (i & _ & Hi)%tier_of_Some. destruct (Hr i) as (u & Hu & Ru); [by eapply lookup_lt_Some|]. congruence.
Qed.

Section open.
Context (n : node) (Hn : node_inv n) (Hr : ready_ n = false).

(** The result of an [Open] that did something. *)
Definition open_result (s : Status) (n' : node) : Prop :=
  lifecycle_result n n' /\ ready_ n' = ok s
  /\ (ok s = true -> forall k, serves n' k = hottest (tiers_ n) k).

Lemma wp_open_failed n1 opened message c :
  reopened n n1 -> c <> kOk ->
  wp (m ← rollback_tiers opened message; modify (set_ready false) ;; mret (mkStatus c m)) open_result n1.
Proof.
  intros Hre Hc. wp_steps. eapply wp_mono.
  { eapply wp_rollback_tiers, reopened_tiers; [done|apply Hn]. }
  intros m n2 Hre2. wp_steps. assert (ok (mkStatus c m) = false) as Hs by (unfold ok; cbn; by rewrite bool_decide_false).
  split_and!; [|by rewrite Hs|by rewrite Hs]. apply reopened_result; [by eapply reopened_trans|done].
Qed.

Lemma open_committed n1 rec :
  reopened n n1 -> ready_upto (length (tiers_ n)) (tiers_ n1) ->
  recovered_ok (id_ n) (tiers_ n1) (LocalIndex.table_ rec) ->
  open_result Ok (set_ready true (set_index rec n1)).
Proof.
  intros Hre Hup Hrec. pose proof (reopened_tiers _ _ _ Hre (ni_tiers n Hn)) as Hts. pose proof Hre as [Hs E].
  destruct (recovered_index _ _ _ (to_layout _ _ Hts) Hrec) as [Hix Hval].
  destruct (reopened_result _ _ Hre Hn) as [[_ Hpol _] L2 L3 L4 L5 _].
  split_and!; [split|done|]; try done.
  - split; [|done|intros _; cbn in L2 |- *; by rewrite L2]. destruct Hts as [A B _ D]. split; try done. intros _. cbn.
    eapply ready_upto_all; [done..|]. by eapply Forall2_length, Hs.
  - intros _ k. rewrite <- (same_tiers_hottest _ _ k Hs). apply Hval.
Qed.

Lemma wp_Open_closed : wp Open open_result n.
Proof.
  pose proof (ni_tiers n Hn) as Hts. unfold Open. wp_steps. rewrite Hr.
  destruct (tiers_ n) as [|o ts] eqn:Et; [destruct (lo_hot _ (to_layout _ _ Hts)) as [h [=]]|].
  rewrite <- Et in *. set (len := length (tiers_ n)). wp_steps.
  eapply wp_mono; [eapply (wp_open_tiers len n 0 _ Hts); intros j Hj; lia|].
  intros [[s opened] idx] n1 [Hre1 HQ1]. cbn [fst snd Nat.add] in HQ1.
  destruct (ok s) eqn:Es.
  2: { wp_steps. rewrite Es. cbn [negb]. apply wp_bind, wp_get. apply wp_open_failed; [done|].
       intros E. unfold ok in Es. by rewrite bool_decide_true in Es. }
  destruct (HQ1 eq_refl) as [Hup _]. eapply wp_bind, wp_mono.
  { eapply (wp_recover_tiers len n1 false 0); [by eapply reopened_tiers|done|]. intros k. cbn. by rewrite lookup_empty. }
  intros [[failure rec] idx'] n2 (Hre2 & Hup2 & Hrec). cbn [fst snd Nat.add] in Hrec.
  pose proof (reopened_trans _ _ _ Hre1 Hre2) as Hre.
  destruct (ok failure) eqn:Ef; cbn [negb].
  2: { apply wp_bind, wp_get. apply wp_open_failed; [done|]. intros E. unfold ok in Ef. by rewrite bool_decide_true in Ef. }
  wp_steps. apply wp_on_index. unfold LocalIndex.Swap. wp_steps. apply open_committed; [done..|].
  replace (id_ n) with (id_ n1) by (by rewrite (proj2 Hre1)).
  pose proof (Forall2_length _ _ _ (proj1 Hre)) as Hlen. rewrite take_ge in Hrec by (unfold len; lia). by apply Hrec.
Qed.
End open.

Lemma wp_Open (n : node) :
  node_inv n ->
  wp Open (fun s n' => if ready_ n then s = Ok /\ n' = n else open_result n s n') n.
Proof.
  intros Hn. destruct (ready_ n) eqn:Hr; [|by apply wp_Open_closed]. unfold Open. wp_steps. rewrite Hr. by wp_steps.
Qed.
End lifecycle.
