(* ===== verification/NodeSpec.v ===== *)
(** * Storage node: abstract specification and refinement

    A storage node promises to be a map from keys to blocks that can be opened
    and closed.  The specification is a transition system on that map; the
    theorems show that every sequence of calls on a fresh node, whatever the
    allocator and the tiers' failures, is one of its runs, and that the node's
    own bookkeeping agrees with its tiers in every reachable state. *)

From S2P Require Import Prelude Api BlockKeys EvictionPolicy LocalIndex Tier StorageNode NodeInv NodeRoom NodePut NodeGet NodeOpen.
Import StorageNode.

(** ** Calls and replies *)

Inductive op : Type :=
  | OpOpen
  | OpClose
  | OpPut (k : BlockKey) (b : Block)
  | OpGet (k : BlockKey) (dst : MutableBuffer) (out : bool)
  | OpProbe (k : BlockKey).

Inductive reply : Type :=
  | RStatus (s : Status)
  | RView (s : Status) (dst : MutableBuffer) (v : BlockView)
  | RInfo (r : Result BlockInfo).

(** Arguments are values of their C++ types. *)
Definition op_wf (o : op) : Prop :=
  match o with
  | OpPut k b => storable k b
  | OpGet k _ _ | OpProbe k => BlockKey_wf k
  | OpOpen | OpClose => True
  end.

(** ** The specification *)

Record spec : Type := mkSpec { sp_ready : bool; sp_map : BlockKey -> option Block }.

Definition same_spec (σ σ' : spec) : Prop :=
  sp_ready σ' = sp_ready σ /\ forall k, sp_map σ' k = sp_map σ k.

(** A failed [Put] of a persistent tier may have reached the disk: the key then
    has its old value or the new one.  An [Open] keeps every block served before
    and may bring such a block back.  A [Get] of a key that is absent is a
    miss. *)
Definition spec_step (σ : spec) (o : op) (r : reply) (σ' : spec) : Prop :=
  match o, r with
  | OpOpen, RStatus s =>
      sp_ready σ' = ok s
      /\ (sp_ready σ = true -> s = Ok /\ same_spec σ σ')
      /\ (forall k, ok s = false \/ is_Some (sp_map σ k) -> sp_map σ' k = sp_map σ k)
  | OpClose, RStatus _ => sp_ready σ' = false /\ forall k, sp_map σ' k = sp_map σ k
  | OpPut k b, RStatus s =>
      sp_ready σ' = sp_ready σ
      /\ (forall k', k' <> k -> sp_map σ' k' = sp_map σ k')
      /\ (if sp_ready σ then
            if ok s then sp_map σ' k = Some b else sp_map σ' k = sp_map σ k \/ sp_map σ' k = Some b
          else code s = kUnavailable /\ sp_map σ' k = sp_map σ k)
  | OpGet k dst _, RView s dst' v =>
      same_spec σ σ'
      /\ (if sp_ready σ then
            if ok s then
              exists b, sp_map σ k = Some b /\ bv_metadata v = metadata b /\ bv_size v = size_bytes b
                        /\ view_bytes dst' v = data b /\ size_bytes b <= mb_capacity dst
            else dst' = dst /\ v = BlockView_default /\ (code s = kNotFound <-> sp_map σ k = None)
          else code s = kUnavailable /\ dst' = dst /\ v = BlockView_default)
  | OpProbe k, RInfo r =>
      same_spec σ σ'
      /\ match r with
         | Value i => sp_ready σ = true /\ exists b, sp_map σ k = Some b /\ bi_metadata i = metadata b
                                                    /\ payload_size i = size_bytes b
         | Error s => ok s = false /\ (sp_ready σ = true -> code s = kNotFound -> sp_map σ k = None)
         end
  | _, _ => False
  end.

Fixpoint spec_run (σ : spec) (os : list op) (rs : list reply) (σ' : spec) : Prop :=
  match os, rs with
  | [], [] => same_spec σ σ'
  | o :: os, r :: rs => exists σ1, spec_step σ o r σ1 /\ spec_run σ1 os rs σ'
  | _, _ => False
  end.

Section refinement.
Context {T P : Type} `{TierLaws T} `{EvictionPolicyLaws P}.

Abbreviation node := (StorageNode T P).
Abbreviation table n := (LocalIndex.table_ (index_ n)).

Definition run_op (o : op) : comp node reply :=
  match o with
  | OpOpen => s ← Open; mret (RStatus s)
  | OpClose => s ← Close; mret (RStatus s)
  | OpPut k b => s ← Put k b; mret (RStatus s)
  | OpGet k dst out => x ← Get k dst out; mret (RView x.1.1 x.1.2 x.2)
  | OpProbe k => r ← Probe k; mret (RInfo r)
  end.

Fixpoint run_ops (os : list op) : comp node (list reply) :=
  match os with
  | [] => mret []
  | o :: os => r ← run_op o; rs ← run_ops os; mret (r :: rs)
  end.

(** The abstraction of a node. *)
Definition abs (n : node) : spec := mkSpec (ready_ n) (serves n).

(** The invariant, with the index right also while the node is closed. *)
Record node_ok (n : node) : Prop := {
  nk_inv : node_inv n;
  nk_index : index_ok (id_ n) (held (tiers_ n)) (table n)
}.

Lemma ready_ok n : node_inv n -> ready_ n = true -> node_ok n.
Proof. intros Hn Hr. split; [done|]. by apply ni_index. Qed.

(** ** A fresh node *)

(** Tiers as constructed: DRAM is empty and within no policy's view yet. *)
Record fresh (ts : list (option T)) (ev : option P) : Prop := {
  fr_layout : layout_ok ts;
  fr_inv : forall ty t, tier_of ts ty = Some t -> tier_inv t;
  fr_dram : held ts kDram = ∅;
  fr_policy : forall p, ev = Some p -> ep_inv p /\ ep_reserved p = None /\ ep_resident p = ∅
}.

Lemma fresh_ok id ts ev : fresh ts ev -> node_ok (make id ts ev).
Proof.
  intros [Hl Hi Hd Hp]. split; [split|]; cbn.
  - split; try done. intros d E Hc. unfold held in Hd. rewrite E in Hd. cbn in Hd. rewrite Hd, total_bytes_empty.
    apply tier_capacity_range; by eapply Hi.
  - intros p Ep. rewrite Hd, dom_empty_L. by apply Hp.
  - done.
  - split; [intros k loc; by rewrite lookup_empty|]. intros k. rewrite Hd, lookup_empty. by intros [].
Qed.

Lemma fresh_serves id ts (ev : option P) k : serves (make id ts ev) k = None.
Proof. apply serves_None. cbn. apply lookup_empty. Qed.

(** ** One call *)

(** No GPU tier exists: [kGpu] is reserved. *)
Hypothesis tier_kinds : forall t : T, tier_type t = kDram \/ tier_type t = kSsd.

(** What the index names is the hottest copy. *)
Lemma served_hottest (n : node) k b :
  layout_ok (tiers_ n) -> index_ok (id_ n) (held (tiers_ n)) (table n) ->
  serves n k = Some b -> hottest (tiers_ n) k = Some b.
Proof.
  intros Hl Hix (loc & Hk & Hb)%bind_Some. destruct (owner_held (tiers_ n) k Hl) as [-> Ho].
  pose proof (owner_lookup (tiers_ n) k) as Hlk. destruct (decide (tier loc = kDram)) as [E|E].
  { rewrite E in Hb. rewrite owner_dram by eauto. done. }
  assert (tier loc = kSsd) as Ht.
  { unfold held in Hb. destruct (tier_of (tiers_ n) (tier loc)) as [t|] eqn:Et; cbn in Hb; [|by rewrite lookup_empty in Hb].
    apply tier_of_Some in Et as [i Hat]. apply tier_at_type in Hat. destruct (tier_kinds t); congruence. }
  assert (owner (tiers_ n) k <> Some kDram) as Hnd.
  { intros Eo. destruct (io_dram _ _ _ Hix k (Ho _ Eo)) as (l & ? & ?). congruence. }
  destruct (owner (tiers_ n) k) as [ty|] eqn:Eo.
  - destruct Hlk as (i & t & b' & Hi & <- & _). destruct (tier_kinds t) as [Et|Et]; [congruence|].
    cbn. rewrite Et. by rewrite Ht in Hb.
  - by rewrite (owner_none _ _ (tier loc) Eo) in Hb.
Qed.

(** What a call must establish: the invariant and a step of the specification. *)
Definition refines (n : node) (o : op) (r : reply) (n' : node) : Prop :=
  node_ok n' /\ spec_step (abs n) o r (abs n').

Lemma preserves_ok n n' : preserves n n' -> ready_ n = true -> node_ok n' /\ same_spec (abs n) (abs n').
Proof. intros [I1 I2 I3 I4] Hr. split; [apply ready_ok; congruence|by split]. Qed.

Lemma refines_Put n k b : node_ok n -> storable k b -> wp (run_op (OpPut k b)) (refines n (OpPut k b)) n.
Proof.
  intros [Hn Hix] Hw. cbn [run_op]. destruct (ready_ n) eqn:Hr; wp_steps.
  - eapply wp_mono; [by apply wp_Put|]. intros s n' [R1 R2 R3 R4 R5]. wp_steps.
    split; [apply ready_ok; congruence|]. cbn. rewrite Hr. by split_and!; [congruence|..].
  - unfold Put. wp_steps. rewrite Hr. cbn [negb]. wp_steps. split; [done|]. cbn. by rewrite Hr.
Qed.

Lemma refines_Get n k dst out :
  node_ok n -> BlockKey_wf k -> wp (run_op (OpGet k dst out)) (refines n (OpGet k dst out)) n.
Proof.
  intros [Hn Hix] Hw. cbn [run_op]. destruct (ready_ n) eqn:Hr; wp_steps.
  - eapply wp_mono; [by apply wp_Get|]. intros [[s dst'] v] n' [R1 R2 R3 R4 R5 _]. cbn [fst snd] in *. wp_steps.
    destruct (preserves_ok _ _ R1 Hr) as [Hok Hsame]. split; [done|]. split; [done|]. cbn. rewrite Hr.
    destruct (ok s); [by apply R2|]. destruct (R3 eq_refl) as [-> ->]. split_and!; [done..|by apply R5].
  - unfold Get. wp_steps. rewrite Hr. cbn [negb]. wp_steps. split; [done|]. cbn. by rewrite Hr.
Qed.

Lemma refines_Probe n k : node_ok n -> BlockKey_wf k -> wp (run_op (OpProbe k)) (refines n (OpProbe k)) n.
Proof.
  intros [Hn Hix] Hw. cbn [run_op]. destruct (ready_ n) eqn:Hr; wp_steps.
  - eapply wp_mono; [by apply wp_Probe|]. intros r n' [R1 R2]. wp_steps.
    destruct (preserves_ok _ _ R1 Hr) as [Hok Hsame]. split; [done|]. split; [done|]. cbn.
    destruct r as [i|s]; [done|]. destruct R2 as (? & ? & _). auto.
  - unfold Probe. wp_steps. rewrite Hr. cbn [negb]. wp_steps. split; [done|]. cbn. by rewrite Hr.
Qed.

(** The index and the map of a node whose tiers still hold the same blocks. *)
Lemma same_index (n n' : node) :
  id_ n' = id_ n -> index_ n' = index_ n -> (forall ty, held (tiers_ n') ty = held (tiers_ n) ty) ->
  index_ok (id_ n) (held (tiers_ n)) (table n) ->
  index_ok (id_ n') (held (tiers_ n')) (table n') /\ forall k, serves n' k = serves n k.
Proof.
  intros E1 E2 Eh Hix. rewrite E1, E2. split; [by eapply index_ext|]. intros k. unfold serves. rewrite E2. by apply value_ext.
Qed.

Lemma refines_Close n : node_ok n -> wp (run_op OpClose) (refines n OpClose) n.
Proof.
  intros [Hn Hix]. cbn [run_op]. wp_steps. eapply wp_mono; [by apply wp_Close|].
  intros s n' ([L1 L2 L3 L4 L5 L6] & Hr). wp_steps. destruct (same_index n n' L2 (L6 Hr) L4 Hix) as [A B].
  by split; [split|].
Qed.

Lemma refines_Open n : node_ok n -> wp (run_op OpOpen) (refines n OpOpen) n.
Proof.
  intros [Hn Hix]. cbn [run_op]. wp_steps. eapply wp_mono; [by apply wp_Open|].
  intros s n' HQ. wp_steps. destruct (ready_ n) eqn:Hr.
  { destruct HQ as [-> ->]. split; [done|]. by split_and!. }
  destruct HQ as ([L1 L2 L3 L4 L5 L6] & Hr' & Hs). destruct (ok s) eqn:Es.
  - split; [by apply ready_ok|]. cbn. split_and!; [congruence..|]. intros k [?|[b Hb]]; [congruence|].
    rewrite Hs, Hb by done. apply served_hottest; try done. apply (to_layout _ _ (ni_tiers n Hn)).
  - destruct (same_index n n' L2 (L6 Hr') L4 Hix) as [A B].
    split; [by split|]. cbn. split_and!; [congruence..|]. intros k _. apply B.
Qed.

Lemma refines_op n o : node_ok n -> op_wf o -> wp (run_op o) (refines n o) n.
Proof.
  intros Hn Ho. destruct o; [by apply refines_Open|by apply refines_Close|by apply refines_Put
                            |by apply refines_Get|by apply refines_Probe].
Qed.

Lemma refines_ops os : forall n, node_ok n -> Forall op_wf os ->
  wp (run_ops os) (fun rs n' => node_ok n' /\ spec_run (abs n) os rs (abs n')) n.
Proof.
  induction os as [|o os IH]; intros n Hn Hos; cbn [run_ops]; wp_steps; [done|].
  apply Forall_cons in Hos as [Ho Hos]. eapply wp_mono; [by apply refines_op|]. intros r n1 [Hn1 Hs]. wp_steps.
  eapply wp_mono; [by apply IH|]. intros rs n' [Hn' Hrs]. wp_steps. split; [done|]. by exists (abs n1).
Qed.
End refinement.
