(* ===== verification/NodeTheorems.v ===== *)
(** * Storage node: what a node guarantees

    The theorems of the node, for any tiers and any eviction policy that keep
    their contracts, and their instances on a node with a DRAM tier, an SSD tier
    and an LRU policy. *)

From S2P Require Import Prelude Api BlockKeys EvictionPolicy Lru LocalIndex Tier DramTier SsdTier AnyTier.
From S2P Require Import StorageNode NodeInv NodeRoom NodePut NodeGet NodeOpen NodeSpec.
Import StorageNode.

(** ** Reachable nodes *)

Section theorems.
Context {T P : Type} `{TierLaws T} `{EvictionPolicyLaws P}.

Abbreviation node := (StorageNode T P).
Abbreviation table n := (LocalIndex.table_ (index_ n)).

(** The states a node can be in: constructed from fresh tiers, then any calls
    with any arguments, any allocation failures and any tier failures. *)
Inductive reachable (id : string) : node -> Prop :=
  | reach_make ts ev : fresh ts ev -> reachable id (make id ts ev)
  | reach_call n o al r n' al' :
      reachable id n -> op_wf o -> run_op o n al = Done (r, n', al') -> reachable id n'.

Lemma run_ok (kinds : forall t : T, tier_type t = kDram \/ tier_type t = kSsd) n o al r n' al' :
  node_ok n -> op_wf o -> run_op o n al = Done (r, n', al') -> node_ok n'.
Proof. intros Hn Ho E. eapply (wp_run _ _ _ _ _ _ _ (refines_op kinds n o Hn Ho) E). Qed.

Lemma reachable_ok (kinds : forall t : T, tier_type t = kDram \/ tier_type t = kSsd) id n :
  reachable id n -> node_ok n.
Proof. induction 1 as [ts ev Hf|]; [by apply fresh_ok|by eapply run_ok]. Qed.

(** A call keeps the node's name. *)
Lemma run_id n o al r n' al' : node_ok n -> op_wf o -> run_op o n al = Done (r, n', al') -> id_ n' = id_ n.
Proof.
  intros [Hn _] Ho. apply (wp_run _ (fun _ n' => id_ n' = id_ n)).
  destruct o; cbn [run_op]; wp_steps; (eapply wp_mono; [first
    [by apply wp_Open|by apply wp_Close|by apply wp_Put|by apply wp_Get|by apply wp_Probe]|]); intros a m HQ; wp_steps.
  - destruct (ready_ n); [by destruct HQ as [_ ->]|]. apply HQ.
  - apply HQ.
  - apply HQ.
  - apply HQ.
  - apply HQ.
Qed.

Lemma reachable_id (kinds : forall t : T, tier_type t = kDram \/ tier_type t = kSsd) id n :
  reachable id n -> id_ n = id.
Proof.
  induction 1 as [|n o al r n' al' Hn IH Ho E]; [done|]. rewrite <- IH.
  eapply run_id; [by eapply reachable_ok|done..].
Qed.

(** C1 (refinement): a storage node is a map of blocks.  For every sequence of
    [Open], [Close], [Put], [Get] and [Probe] calls on a fresh node, whatever
    allocations and tier operations fail, no call reaches [std::terminate()] and
    the replies are those of the specification started closed and empty:
    a successful [Put] sets exactly its key; a failed one changes nothing but
    possibly that key, and then to the new block; a successful [Get] delivers
    the key's block, a failed one leaves the caller's buffer and view untouched and
    is a miss exactly when the key is absent; promotion, demotion and closing
    change no key; opening keeps every block that was served. *)
Theorem node_refines_map (id : string) (ts : list (option T)) (ev : option P) (os : list op)
    (kinds : forall t : T, tier_type t = kDram \/ tier_type t = kSsd)
    (Hf : fresh ts ev) (Hos : Forall op_wf os) :
  wp (run_ops os) (fun rs n' => spec_run (mkSpec false (fun _ => None)) os rs (abs n')) (make id ts ev).
Proof.
  eapply wp_mono; [apply (refines_ops kinds); [by apply fresh_ok|done]|]. intros rs n' [_ HQ]. exact HQ.
Qed.

(** C3 (invariant): the bookkeeping of a node agrees with its tiers in every
    reachable state.  A bounded DRAM tier is within its capacity; the eviction
    policy tracks exactly the blocks in DRAM and holds no reservation between
    calls; on an open node, what [Locate] returns names this node and a tier
    that holds the block the node serves. *)
Theorem node_bookkeeping (id : string) (n : node)
    (kinds : forall t : T, tier_type t = kDram \/ tier_type t = kSsd) (Hn : reachable id n) :
  (forall d, tier_of (tiers_ n) kDram = Some d -> capacity_bytes (tier_Stats d) <> 0 ->
     used_bytes (tier_Stats d) = total_bytes (tier_contents d)
     /\ used_bytes (tier_Stats d) <= capacity_bytes (tier_Stats d))
  /\ (forall p, eviction_ n = Some p ->
        ep_reserved p = None /\ ep_resident p = dom (held (tiers_ n) kDram))
  /\ (forall k loc, Locate k n = Value loc ->
        node_id loc = id /\ exists t b, tier_of (tiers_ n) (tier loc) = Some t
                                        /\ tier_contents t !! k = Some b /\ serves n k = Some b).
Proof.
  pose proof (reachable_ok kinds id n Hn) as [Hi Hix]. split_and!.
  - intros d Hd Hc. rewrite (dram_used n d) by done. split; [done|]. by apply (to_capacity _ _ (ni_tiers n Hi)).
  - intros p Hp. destruct (ni_policy n Hi p Hp) as (_ & ? & ?). done.
  - intros k loc. unfold Locate, LocalIndex.Find. destruct (ready_ n) eqn:Hr; [|done]. cbn [negb].
    destruct (table n !! k) as [loc'|] eqn:Hl; [|done]. intros [= ->].
    destruct (io_entry _ _ _ Hix k loc Hl) as [-> _]. split; [by apply reachable_id|].
    destruct (indexed_owner n k loc Hi Hr Hl) as (i & t & b & Hat & _ & _ & Hb & Hs).
    exists t, b. split_and!; [by eapply tier_at_of|done..].
Qed.

(** ** Put and Get *)

(** Store a block, then read it. *)
Definition put_then_get (k : BlockKey) (b : Block) (dst : MutableBuffer)
  : comp node (Status * option (Status * MutableBuffer * BlockView)) :=
  s ← Put k b;
  if ok s then x ← Get k dst true; mret (s, Some x) else mret (s, None).

(** C2 (functional): what is stored can be read.  On an open node with DRAM, a
    block no larger than DRAM's capacity whose [Put] succeeded is found by the
    next [Get] with a large enough buffer: the call succeeds and returns its
    payload and metadata.  When the [Put] failed, every other key keeps its
    block and this key has its old block or the new one. *)
Theorem node_put_then_get (n : node) (k : BlockKey) (b : Block) (dst : MutableBuffer)
    (Hn : node_inv n) (Hr : ready_ n = true) (Hw : storable k b) (Hfit : fits_dram b n)
    (Hdst : is_Some (mb_data dst)) (Hcap : size_bytes b <= mb_capacity dst) :
  wp (put_then_get k b dst) (fun r n' =>
    node_inv n' /\ (forall k', k' <> k -> serves n' k' = serves n k')
    /\ match r with
       | (s, Some (st, dst', v)) =>
           ok s = true /\ ok st = true /\ view_bytes dst' v = data b /\ bv_metadata v = metadata b
           /\ serves n' k = Some b
       | (s, None) => ok s = false /\ (serves n' k = serves n k \/ serves n' k = Some b)
       end) n.
Proof.
  unfold put_then_get. wp_steps. eapply wp_mono; [by apply wp_Put_placed|].
  intros s n1 [[R1 R2 R3 R4 R5] Hplace]. destruct (ok s) eqn:Es; wp_steps; [|by split_and!].
  destruct (Hplace Hfit eq_refl) as (loc & Hl & Ht).
  eapply wp_mono; [apply wp_Get; [done|apply Hw]|]. intros [[st dst'] v] n2 [G1 G2 _ _ _ G6]. cbn [fst snd] in *. wp_steps.
  assert (ok st = true) as Hst.
  { apply (G6 loc b); try done; [congruence|]. destruct Hdst as [x ->]. done. }
  destruct (G2 Hst) as (_ & b' & Hb & Hm & _ & Hv & _). rewrite R4 in Hb. injection Hb as <-.
  split_and!; [apply G1| |done..|].
  - intros k' Hk'. rewrite (ps_serves _ _ G1). by apply R5.
  - by rewrite (ps_serves _ _ G1).
Qed.

(** ** Making room *)

(** The bytes a block of DRAM gives back when it is overwritten. *)
Definition bytes_replaced (n : node) (replacing : option BlockKey) : Z :=
  match replacing with
  | Some k => from_option size_bytes 0 (held (tiers_ n) kDram !! k)
  | None => 0
  end.

Lemma replaced_bytes n replacing replaced :
  replaced_ok (tiers_ n) replacing replaced -> replaced = bytes_replaced n replacing.
Proof. destruct replacing as [k|]; cbn; [|done]. by intros (b & -> & ->). Qed.

(** C8 (termination): [MakeDramRoomForLocked] always returns.  Its demotion
    loop ends (each round removes a block from DRAM, so the number of blocks
    bounds the rounds), it never reaches [std::terminate()], and whatever it
    returns no key's block changes and the block being replaced stays where it
    is; when it returns [Ok] the incoming block fits into a bounded DRAM. *)
Theorem make_room_returns (n : node) (incoming : Z) (replacing : option BlockKey)
    (Hn : node_inv n) (Hr : ready_ n = true) (Hin : 0 <= incoming)
    (Hrep : forall k, replacing = Some k -> is_Some (held (tiers_ n) kDram !! k)) :
  wp (MakeDramRoomForLocked incoming replacing) (fun s n' =>
    node_inv n' /\ (forall k, serves n' k = serves n k)
    /\ (forall k, replacing = Some k -> held (tiers_ n') kDram !! k = held (tiers_ n) kDram !! k)
    /\ (ok s = true -> forall d, tier_of (tiers_ n') kDram = Some d -> capacity_bytes (tier_Stats d) <> 0 ->
          used_bytes (tier_Stats d) - bytes_replaced n replacing + incoming <= capacity_bytes (tier_Stats d))) n.
Proof.
  eapply wp_mono; [by apply wp_MakeDramRoomForLocked|]. intros s n' (replaced & Hre & [R1 R2 R3 R4]).
  rewrite <- (replaced_bytes _ _ _ Hre). split_and!; [done|apply R2|..].
  - intros k ->. by apply R3; left.
  - intros Hs d Hd Hc. rewrite (dram_used n') by done. by apply R4.
Qed.

(** C6 (safety): demotion is atomic.  [DemoteOneVictimLocked] moves exactly one
    block other than the excluded one out of DRAM, or fails and leaves DRAM as it
    was; in both cases no key's block changes, the policy is left without a
    reservation, and the index, the policy and the tiers agree. *)
Theorem demotion_atomic (n : node) (p : P) (dram sink : nat) (d snk : T) (excluded : option BlockKey)
    (Hn : node_inv n) (Hr : ready_ n = true) (Hev : eviction_ n = Some p)
    (Hd : tier_at (tiers_ n) kDram dram d) (Hs : tier_at (tiers_ n) kSsd sink snk) :
  wp (DemoteOneVictimLocked dram sink excluded) (fun s n' =>
    node_inv n' /\ (forall k, serves n' k = serves n k)
    /\ (forall q, eviction_ n' = Some q -> ep_reserved q = None)
    /\ if ok s then
         exists v b, Some v <> excluded /\ held (tiers_ n) kDram !! v = Some b
                     /\ held (tiers_ n') kDram = delete v (held (tiers_ n) kDram)
                     /\ serves n' v = Some b
       else held (tiers_ n') kDram = held (tiers_ n) kDram) n.
Proof.
  eapply wp_mono; [by eapply wp_DemoteOneVictimLocked|]. intros s n' [D1 D2 D3 D4].
  split_and!; [done|apply D2|intros q Hq; by apply (ni_policy n' D1 q Hq)|].
  destruct (ok s); [|done]. destruct D4 as (v & b & Hex & Hv & Hdel). exists v, b. split_and!; try done.
  rewrite (ev_serves _ _ D2). destruct (index_dram_entry _ _ _ v b (ni_index n Hn Hr) Hv) as (loc & Hl & Ht & _).
  eapply serves_Some; [done|]. by rewrite Ht.
Qed.

(** ** Opening *)

(** C7 (functional): [Open] rebuilds the directory.  On a closed node it never
    reaches [std::terminate()] and keeps the blocks of every tier; when it
    succeeds the node is open and serves, for each key, the copy of the hottest
    tier that has one, and nothing else; when it fails the node stays closed. *)
Theorem open_rebuilds_index (n : node) (Hn : node_inv n) (Hr : ready_ n = false) :
  wp Open (fun s n' =>
    node_inv n' /\ ready_ n' = ok s
    /\ (forall ty, held (tiers_ n') ty = held (tiers_ n) ty)
    /\ (ok s = true -> forall k, serves n' k = hottest (tiers_ n) k)) n.
Proof.
  eapply wp_mono; [by apply wp_Open|]. intros s n' HQ. rewrite Hr in HQ. destruct HQ as ([L1 _ _ L4 _ _] & L6 & L7).
  by split_and!.
Qed.
End theorems.

(** ** A node on DRAM and SSD *)

Lemma AnyTier_kinds {D} `{LevelDB D} (t : AnyTier D) : tier_type t = kDram \/ tier_type t = kSsd.
Proof. destruct t; auto. Qed.

Lemma dram_ssd_fresh {D P} `{LevelDBLaws D} `{EvictionPolicyLaws P} cap ssd (ev : option P) :
  u64 cap -> SsdTier.inv ssd -> (forall p, ev = Some p -> ep_inv p /\ ep_reserved p = None /\ ep_resident p = ∅) ->
  fresh [Some (Dram (DramTier.make cap)); Some (Ssd ssd)] ev.
Proof.
  intros Hc Hi Hp. split; [split| |done|done].
  - by eexists.
  - intros [|[|i]] t; cbn; intros; simplify_eq; done.
  - intros [|i]; cbn; [done|]. rewrite decide_True by done. done.
  - intros ty t ([|[|i]] & _ & Hlk)%tier_of_Some; simplify_eq/=; [by apply DramTier.dram_inv_make|exact Hi].
Qed.

(** C16 (functional): a restart.  A new node process, with an empty DRAM tier
    and the SSD tier of an earlier one, serves after a successful [Open] exactly
    the valid records on the SSD, whatever the eviction policy. *)
Theorem restart_serves_ssd {D P} `{LevelDBLaws D} `{EvictionPolicyLaws P}
    (id : string) (cap : Z) (ssd : SsdTier.SsdTier D) (ev : option P)
    (Hcap : u64 cap) (Hssd : SsdTier.inv ssd)
    (Hev : forall p, ev = Some p -> ep_inv p /\ ep_reserved p = None /\ ep_resident p = ∅) :
  wp Open (fun s n' => ok s = true -> forall k, serves n' k = SsdTier.contents ssd !! k)
     (make id [Some (Dram (DramTier.make cap)); Some (Ssd ssd)] ev).
Proof.
  pose proof (fresh_ok id _ _ (dram_ssd_fresh cap ssd ev Hcap Hssd Hev)) as [Hn _].
  eapply wp_mono; [by apply wp_Open|]. intros s n' (_ & _ & HQ) Hs k. rewrite HQ by done. cbn.
  by destruct (SsdTier.contents ssd !! k).
Qed.

(** ** A concrete node *)

Abbreviation ex_state := (StorageNode (AnyTier SsdTier.MemDb) Lru.LruEviction).

(** DRAM of four bytes, an empty database, LRU. *)
Definition ex_node : ex_state :=
  make "node-0" [Some (Dram (DramTier.make 4)); Some (Ssd (SsdTier.make "/var/tidepool" (SsdTier.mkMemDb ∅)))]
       (Some Lru.empty).

Definition ex_key (i : Z) : BlockKey := mkBlockKey 11 i 7.
Definition ex_block (i : Z) : Block := mkBlock (mkBlockMetadata i 4 2 8 5 7) [byte.of_Z i; byte.of_Z 2].
Definition ex_dst : MutableBuffer := mkMutableBuffer (Some (replicate 4 Byte.x00)) 4.

(** Three blocks on a node whose DRAM holds two. *)
Definition ex_ops : list op :=
  [OpOpen; OpPut (ex_key 1) (ex_block 1); OpPut (ex_key 2) (ex_block 2); OpPut (ex_key 3) (ex_block 3)].

Definition ex_after (os : list op) : ex_state :=
  match run_ops os ex_node [] with Done (_, n, _) => n | Terminated => ex_node end.

Lemma ex_storable i : (i = 1 \/ i = 2 \/ i = 3 \/ i = 4) -> storable (ex_key i) (ex_block i).
Proof. intros [->|[->|[->| ->]]]; repeat split; vm_compute; done. Qed.

Lemma ex_ssd_inv (db : SsdTier.MemDb) : SsdTier.inv (SsdTier.make "/var/tidepool" db).
Proof. split; [done|split; cbn; lia]. Qed.

Lemma ex_policy : forall p, Some Lru.empty = Some p -> ep_inv p /\ ep_reserved p = None /\ ep_resident p = ∅.
Proof. intros p [= <-]. split_and!; [apply Lru.inv_empty|done|done]. Qed.

Lemma ex_fresh : fresh (tiers_ ex_node) (eviction_ ex_node).
Proof. apply dram_ssd_fresh; [split; lia|apply ex_ssd_inv|apply ex_policy]. Qed.

Lemma ex_ok os : Forall op_wf os -> node_ok (ex_after os).
Proof.
  intros Hos. pose proof (refines_ops AnyTier_kinds os _ (fresh_ok "node-0" _ _ ex_fresh) Hos []) as HQ.
  unfold ex_after. fold ex_node in HQ. change (make "node-0" _ _) with ex_node in HQ.
  destruct (run_ops os ex_node []) as [[[rs n] al]|]; [apply HQ|done].
Qed.

Lemma ex_ops_wf : Forall op_wf ex_ops.
Proof. unfold ex_ops. repeat apply Forall_cons_2; [done|apply ex_storable; lia..|by apply Forall_nil]. Qed.

Lemma ex_inv : node_inv (ex_after ex_ops) /\ ready_ (ex_after ex_ops) = true.
Proof. split; [apply ex_ok, ex_ops_wf|vm_compute; reflexivity]. Qed.

(** A cold read promotes the block and demotes another; closing and opening
    again keeps everything. *)
Definition ex_session : list op :=
  ex_ops ++ [OpGet (ex_key 1) ex_dst true; OpClose; OpOpen; OpProbe (ex_key 2); OpGet (ex_key 4) ex_dst true].

Definition all_ok (rs : list reply) : list bool :=
  map (fun r => match r with RStatus s | RView s _ _ | RInfo (Error s) => ok s | RInfo (Value _) => true end) rs.

Lemma node_refines_map_witness :
  match run_ops ex_session ex_node [] with
  | Done (rs, n, _) => all_ok rs = [true; true; true; true; true; true; true; true; false]
                       /\ demotions (stats_ n) = 2 /\ promotions (stats_ n) = 1
  | Terminated => False
  end
  /\ wp (run_ops ex_session) (fun rs n' => spec_run (mkSpec false (fun _ => None)) ex_session rs (abs n')) ex_node.
Proof.
  split; [vm_compute; split_and!; reflexivity|].
  apply (node_refines_map "node-0" _ _ ex_session AnyTier_kinds ex_fresh).
  unfold ex_session. apply Forall_app. split; [exact ex_ops_wf|].
  repeat apply Forall_cons_2; [apply ex_storable; lia|done|done|apply ex_storable; lia|apply ex_storable; lia|by apply Forall_nil].
Defined.

Lemma reach_ops {T P} `{TierLaws T} `{EvictionPolicyLaws P} id os : forall (n : StorageNode T P) al rs n' al',
  reachable id n -> Forall op_wf os -> run_ops os n al = Done (rs, n', al') -> reachable id n'.
Proof.
  induction os as [|o os IH]; intros n al rs n' al' Hn Hos E; [by injection E as _ <- _|].
  apply Forall_cons in Hos as [Ho Hos]. cbn [run_ops] in E. unfold mbind, comp_bind in E.
  destruct (run_op o n al) as [[[r n1] al1]|] eqn:E1; [|done].
  destruct (run_ops os n1 al1) as [[[rs' n2] al2]|] eqn:E2; [|done]. injection E as <- <- <-.
  eapply IH; [|done..]. by eapply reach_call.
Qed.

Lemma node_bookkeeping_witness :
  reachable "node-0" (ex_after ex_ops)
  /\ exists d, tier_of (tiers_ (ex_after ex_ops)) kDram = Some d
               /\ capacity_bytes (tier_Stats d) = 4 /\ used_bytes (tier_Stats d) <= 4.
Proof.
  assert (Hre : reachable "node-0" (ex_after ex_ops)).
  { eapply (reach_ops "node-0" ex_ops ex_node []); [apply (reach_make "node-0"), ex_fresh|exact ex_ops_wf|].
    vm_compute. reflexivity. }
  split; [exact Hre|]. destruct (tier_of (tiers_ (ex_after ex_ops)) kDram) as [d|] eqn:E; [|vm_compute in E; done].
  exists d. assert (Hc : capacity_bytes (tier_Stats d) = 4) by (vm_compute in E; injection E as <-; reflexivity).
  split; [reflexivity|]. split; [exact Hc|]. rewrite <- Hc.
  apply (node_bookkeeping "node-0" (ex_after ex_ops) AnyTier_kinds Hre); [exact E|]. rewrite Hc. done.
Defined.

Lemma ex_tiers : exists d snk, tiers_ (ex_after ex_ops) = [Some d; Some snk]
  /\ tier_type d = kDram /\ tier_type snk = kSsd /\ capacity_bytes (tier_Stats d) = 4.
Proof. vm_compute. do 2 eexists. split_and!; reflexivity. Qed.

Lemma ex_fits i : fits_dram (ex_block i) (ex_after ex_ops).
Proof.
  destruct ex_tiers as (d & snk & E & Hd & _ & Hc). exists d. rewrite E, Hc.
  split; [split; [cbn; by rewrite decide_True|done]|right; done].
Qed.

Lemma node_put_then_get_witness :
  fits_dram (ex_block 4) (ex_after ex_ops)
  /\ wp (put_then_get (ex_key 4) (ex_block 4) ex_dst) (fun r n' =>
       match r with
       | (_, Some (st, dst', v)) => ok st = true /\ view_bytes dst' v = data (ex_block 4)
       | (s, None) => ok s = false
       end) (ex_after ex_ops)
  /\ match put_then_get (ex_key 4) (ex_block 4) ex_dst (ex_after ex_ops) [] with
     | Done (_, Some (st, _, _), _, _) => st = Ok
     | _ => False
     end.
Proof.
  split; [apply ex_fits|]. split; [|vm_compute; reflexivity]. eapply wp_mono.
  - apply (node_put_then_get (ex_after ex_ops) (ex_key 4) (ex_block 4) ex_dst); try apply ex_inv.
    + apply ex_storable. lia.
    + apply ex_fits.
    + by eexists.
    + done.
  - intros [s [[[st dst'] v]|]] n' (_ & _ & HQ); [split|]; apply HQ.
Defined.

Lemma make_room_returns_witness :
  wp (MakeDramRoomForLocked 2 (Some (ex_key 3))) (fun s n' => node_inv n' /\ serves n' (ex_key 1) = Some (ex_block 1))
     (ex_after ex_ops)
  /\ is_Some (held (tiers_ (ex_after ex_ops)) kDram !! ex_key 3).
Proof.
  assert (Hk : is_Some (held (tiers_ (ex_after ex_ops)) kDram !! ex_key 3)) by (vm_compute; by eexists).
  split; [|exact Hk]. eapply wp_mono.
  - apply (make_room_returns (ex_after ex_ops) 2 (Some (ex_key 3))); try apply ex_inv; [done|]. intros k [= <-]. exact Hk.
  - intros s n' (HQ & Hs & _). split; [exact HQ|]. rewrite Hs. vm_compute. reflexivity.
Defined.

Lemma demotion_atomic_witness :
  exists p d snk, eviction_ (ex_after ex_ops) = Some p /\ tier_at (tiers_ (ex_after ex_ops)) kDram 0 d
    /\ tier_at (tiers_ (ex_after ex_ops)) kSsd 1 snk
    /\ wp (DemoteOneVictimLocked 0 1 None) (fun s n' => serves n' (ex_key 2) = Some (ex_block 2)) (ex_after ex_ops).
Proof.
  destruct (eviction_ (ex_after ex_ops)) as [p|] eqn:Ep; [|vm_compute in Ep; discriminate Ep].
  destruct ex_tiers as (d & snk & E & Hd & Hs & _). rewrite E.
  assert (Ad : tier_at [Some d; Some snk] kDram 0 d) by (split; [cbn [find_tier]; by rewrite decide_True|done]).
  assert (As : tier_at [Some d; Some snk] kSsd 1 snk)
    by (split; [cbn [find_tier]; rewrite decide_False by congruence; by rewrite decide_True|done]).
  exists p, d, snk. split; [reflexivity|]. split; [exact Ad|]. split; [exact As|]. rewrite <- E in Ad, As.
  eapply wp_mono.
  - exact (demotion_atomic (ex_after ex_ops) p 0 1 d snk None (proj1 ex_inv) (proj2 ex_inv) Ep Ad As).
  - intros s n' (_ & HQ & _). rewrite HQ. vm_compute. reflexivity.
Defined.

Lemma open_rebuilds_index_witness :
  wp Open (fun s n' => ready_ n' = ok s /\ (ok s = true -> serves n' (ex_key 1) = Some (ex_block 1)))
     (ex_after (ex_ops ++ [OpClose])).
Proof.
  eapply wp_mono.
  - apply (open_rebuilds_index (ex_after (ex_ops ++ [OpClose]))); [|vm_compute; reflexivity].
    apply ex_ok, Forall_app. split; [exact ex_ops_wf|repeat constructor].
  - intros s n' (_ & HQ & _ & Hk). split; [exact HQ|]. intros Hs. rewrite Hk by exact Hs. vm_compute. reflexivity.
Defined.

(** A database left by an earlier process. *)
Definition ex_disk : SsdTier.MemDb :=
  match SsdTier.Put SsdTier.ssd_key SsdTier.ssd_block SsdTier.open_empty [] with
  | Done (_, s, _) => SsdTier.disk s
  | Terminated => SsdTier.mkMemDb ∅
  end.

Definition ex_restarted : ex_state :=
  make "node-0" [Some (Dram (DramTier.make 4)); Some (Ssd (SsdTier.make "/var/tidepool" ex_disk))] (Some Lru.empty).

Lemma restart_serves_ssd_witness :
  match Open ex_restarted [] with Done (s, _, _) => s = Ok | Terminated => False end
  /\ wp Open (fun s n' => ok s = true -> serves n' SsdTier.ssd_key = Some SsdTier.ssd_block) ex_restarted.
Proof.
  split; [vm_compute; reflexivity|]. eapply wp_mono.
  - apply (restart_serves_ssd "node-0" 4 (SsdTier.make "/var/tidepool" ex_disk) (Some Lru.empty));
      [split; lia|apply ex_ssd_inv|exact ex_policy].
  - intros s n' HQ Hs. rewrite (HQ Hs). vm_compute. reflexivity.
Defined.
