(* ===== verification/NodeStats.v ===== *)
(** * Storage node: statistics

    [StorageNode::Stats]: what the counters count.  The hit and miss counters move
    in [Get] only, once per answered read; demotions and promotions that a call
    triggers do not touch them.  The frame facts are closed under composition and
    live in the hint database [stays]. *)

From S2P Require Import Prelude Api BlockKeys EvictionPolicy LocalIndex Tier StorageNode NodeInv NodePut NodeGet NodeOpen NodeSpec.
From S2P Require Import Lru DramTier SsdTier AnyTier NodeTheorems.
Import StorageNode.

(** ** Frames *)

(** Every finished run of [m] relates its start to its end by [R]. *)
Definition stays {S A} (R : S -> S -> Prop) (m : comp S A) : Prop :=
  forall s al a s' al', m s al = Done (a, s', al') -> R s s'.

Create HintDb stays.

Section frames.
Context {S : Type} (R : S -> S -> Prop) `{!PreOrder R}.

Lemma stays_ret {A} (a : A) : stays R (mret a).
Proof. by intros s al a' s' al' [= _ <- _]. Qed.

Lemma stays_get : stays R get.
Proof. by intros s al a' s' al' [= _ <- _]. Qed.

Lemma stays_terminate {A} : stays R (terminate : comp S A).
Proof. by intros s al a' s' al' [=]. Qed.

Lemma stays_alloc_fails : stays R alloc_fails.
Proof. by intros s [|b al] a' s' al' [= _ <- _]. Qed.

Lemma stays_bind {A B} (m : comp S A) (k : A -> comp S B) :
  stays R m -> (forall a, stays R (k a)) -> stays R (m ≫= k).
Proof.
  intros Hm Hk s al b s' al'. unfold mbind, comp_bind. destruct (m s al) as [[[a s1] al1]|] eqn:E; [|done].
  intros E'. etrans; [by eapply Hm|by eapply Hk].
Qed.
End frames.

#[export] Hint Resolve stays_ret stays_get stays_terminate stays_alloc_fails stays_bind : stays.
#[export] Hint Extern 1 (stays _ (match ?x with _ => _ end)) => destruct x : stays.
#[export] Hint Extern 2 (stays _ (let '(_, _) := ?x in _)) => destruct x : stays.

(** The frame of a computation, from the frames of its calls. *)
Ltac frame :=
  cbv zeta;
  repeat match goal with
  | |- forall _, _ => intro
  | |- stays _ _ => solve [auto with stays]
  | |- stays _ (_ ≫= _) => apply stays_bind; [exact _| |]
  | |- stays _ (let '(_, _) := ?x in _) => destruct x
  | |- stays _ (match ?x with _ => _ end) => destruct x; cbv beta iota zeta
  end.

(** Taking a finished run apart. *)
Lemma bind_Done {S A B} (m : comp S A) (k : A -> comp S B) s al b s' al' :
  (m ≫= k) s al = Done (b, s', al') ->
  exists a s1 al1, m s al = Done (a, s1, al1) /\ k a s1 al1 = Done (b, s', al').
Proof. unfold mbind, comp_bind. destruct (m s al) as [[[a s1] al1]|]; [eauto|done]. Qed.

(** A [wp] and a frame together. *)
Lemma wp_stays {S A} (R : S -> S -> Prop) (m : comp S A) (Q : A -> S -> Prop) s :
  stays R m -> wp m Q s -> wp m (fun a s' => Q a s' /\ R s s') s.
Proof.
  intros Hm Hw al. specialize (Hw al). destruct (m s al) as [[[a s'] al']|] eqn:E; [|done]. split; [done|by eapply Hm].
Qed.

(** ** Counters *)

Definition stats_wf (s : StorageNodeStats) : Prop :=
  u64 (dram_hits s) /\ u64 (ssd_hits s) /\ u64 (node_misses s) /\ u64 (demotions s) /\ u64 (promotions s)
  /\ u64 (bytes_read s) /\ u64 (bytes_written s).

Lemma add_stats_wf dh sh ms de pr br bw s : stats_wf (add_stats dh sh ms de pr br bw s).
Proof. by repeat split; apply wrap_range. Qed.

Section stats.
Context {T P : Type} `{Tier T} `{EvictionPolicy P}.

Abbreviation node := (StorageNode T P).

(** The read counters advance by [dh], [sh] and [ms]. *)
Definition counted (dh sh ms : Z) (n n' : node) : Prop :=
  stats_wf (stats_ n) -> stats_wf (stats_ n')
  /\ dram_hits (stats_ n') = wrap 64 (dram_hits (stats_ n) + dh)
  /\ ssd_hits (stats_ n') = wrap 64 (ssd_hits (stats_ n) + sh)
  /\ node_misses (stats_ n') = wrap 64 (node_misses (stats_ n) + ms).

Abbreviation quiet := (counted 0 0 0).

Lemma wrap_add_0 x : u64 x -> wrap 64 (x + 0) = x.
Proof. intros Hx. rewrite Z.add_0_r. by apply wrap_small. Qed.

Lemma counted_trans d1 s1 m1 d2 s2 m2 n1 n2 n3 :
  counted d1 s1 m1 n1 n2 -> counted d2 s2 m2 n2 n3 -> counted (d1 + d2) (s1 + s2) (m1 + m2) n1 n3.
Proof.
  intros H1 H2 Hwf. destruct (H1 Hwf) as (W1 & A1 & B1 & C1). destruct (H2 W1) as (W2 & A2 & B2 & C2).
  split; [done|]. rewrite A2, B2, C2, A1, B1, C1. unfold wrap. rewrite !Z.add_mod_idemp_l by done.
  by rewrite !Z.add_assoc.
Qed.

#[export] Instance counted_preorder : PreOrder quiet.
Proof.
  split; [|intros n1 n2 n3; apply (counted_trans 0 0 0 0 0 0)].
  intros n Hwf. split; [done|]. destruct Hwf as (? & ? & ? & _). by rewrite !wrap_add_0.
Qed.

Lemma same_stats (n n' : node) : stats_ n' = stats_ n -> quiet n n'.
Proof. intros E Hwf. rewrite E. by apply (reflexivity (R := quiet) n). Qed.

Lemma stays_on_tier {A} i (m : comp T A) : stays quiet (on_tier i m).
Proof.
  intros n al a n' al'. unfold on_tier. destruct (tiers_ n !! i) as [[t|]|]; try done.
  destruct (m t al) as [[[? ?] ?]|]; intros [=]; subst. by apply same_stats.
Qed.

Lemma stays_on_policy {A} (m : comp P A) : stays quiet (on_policy m).
Proof.
  intros n al a n' al'. unfold on_policy. destruct (eviction_ n) as [p|]; try done.
  destruct (m p al) as [[[? ?] ?]|]; intros [=]; subst. by apply same_stats.
Qed.

Lemma stays_on_index {A} (m : comp LocalIndex.LocalIndex A) : stays quiet (on_index m).
Proof.
  intros n al a n' al'. unfold on_index, zoom. destruct (m _ al) as [[[? ?] ?]|]; intros [=]; subst. by apply same_stats.
Qed.

Lemma stays_visit_tier i recovered : stays quiet (visit_tier i recovered).
Proof.
  intros n al a n' al'. unfold visit_tier. destruct (tiers_ n !! i) as [[t|]|]; try done.
  destruct (tier_VisitEntries _ _ _ al) as [[[? ?] ?]|]; intros [=]; subst. by apply same_stats.
Qed.

Lemma stays_set_ready b : stays quiet (modify (set_ready b)).
Proof. intros n al a n' al' [= _ <- _]. by apply same_stats. Qed.

Lemma stays_count dh sh ms de pr br bw : stays (counted dh sh ms) (count dh sh ms de pr br bw).
Proof. intros n al a n' al' [= _ <- _] Hwf. split; [apply add_stats_wf|done]. Qed.

Lemma stays_tier_get {A} i (f : T -> A) : stays quiet (tier_get i f).
Proof. apply stays_on_tier. Qed.

Lemma stays_policy_get {A} (f : P -> A) : stays quiet (policy_get f).
Proof. apply stays_on_policy. Qed.

#[local] Hint Resolve stays_on_tier stays_on_policy stays_on_index stays_visit_tier stays_set_ready stays_count
  stays_tier_get stays_policy_get : stays.
#[local] Hint Resolve counted_preorder : stays.

Lemma stays_Cancel k s c : stays quiet (CancelVictimOrInternal k s c).
Proof. unfold CancelVictimOrInternal. frame. Qed.

Lemma stays_ReadBlock i k : stays quiet (ReadBlockLocked i k).
Proof. unfold ReadBlockLocked. frame. Qed.

#[local] Hint Resolve stays_Cancel stays_ReadBlock : stays.

Lemma stays_Demote d snk ex : stays quiet (DemoteOneVictimLocked d snk ex).
Proof. unfold DemoteOneVictimLocked. frame. Qed.

#[local] Hint Resolve stays_Demote : stays.

Lemma stays_make_room fuel d r i rp : stays quiet (make_room_loop fuel d r i rp).
Proof. induction fuel as [|fuel IH]; cbn [make_room_loop]; frame. Qed.

#[local] Hint Resolve stays_make_room : stays.

Lemma stays_MakeDramRoom i rp : stays quiet (MakeDramRoomForLocked i rp).
Proof. unfold MakeDramRoomForLocked. frame. Qed.

Lemma stays_undo d k : stays quiet (undo_dram_put d k).
Proof. unfold undo_dram_put. frame. Qed.

#[local] Hint Resolve stays_MakeDramRoom stays_undo : stays.

Lemma stays_promote k v p : stays quiet (TryPromoteToDramLocked k v p).
Proof. unfold TryPromoteToDramLocked. frame. Qed.

#[local] Hint Resolve stays_promote : stays.

Lemma stays_Put k b : stays quiet (Put k b).
Proof. unfold Put, PutDram, PutOversizedLocked, PutWithoutDramLocked. frame. Qed.

Lemma stays_Probe k : stays quiet (Probe k).
Proof. unfold Probe. frame. Qed.

Lemma stays_open_tiers todo : forall i o, stays quiet (open_tiers todo i o).
Proof. induction todo as [|todo IH]; intros i o; cbn [open_tiers]; frame. Qed.

Lemma stays_recover_tiers todo : forall i r, stays quiet (recover_tiers todo i r).
Proof. induction todo as [|todo IH]; intros i r; cbn [recover_tiers]; frame. Qed.

Lemma stays_rollback o : forall m, stays quiet (rollback_tiers o m).
Proof. induction o as [|o IH]; intros m; cbn [rollback_tiers]; frame. Qed.

Lemma stays_close_tiers i : forall e, stays quiet (close_tiers i e).
Proof. induction i as [|i IH]; intros e; cbn [close_tiers]; frame. Qed.

#[local] Hint Resolve stays_open_tiers stays_recover_tiers stays_rollback stays_close_tiers : stays.

Lemma stays_Open : stays quiet Open.
Proof. unfold Open. frame. Qed.

Lemma stays_Close : stays quiet Close.
Proof. unfold Close. frame. Qed.

(** ** Reads *)

(** How a read counts, from where the key is located and what [Get] returns. *)
Definition read_count (n : node) (k : BlockKey) (s : Status) : Z * Z * Z :=
  match Locate k n with
  | Value loc =>
      if ok s then if decide (tier loc = kDram) then (1, 0, 0) else (0, 1, 0)
      else if decide (code s = kNotFound) then (0, 0, 1) else (0, 0, 0)
  | Error _ => if ready_ n then (0, 0, 1) else (0, 0, 0)
  end.

(** A quiet step after one that counts. *)
Lemma counted_quiet d s m n1 n2 n3 : counted d s m n1 n2 -> quiet n2 n3 -> counted d s m n1 n3.
Proof. intros A B. pose proof (counted_trans _ _ _ _ _ _ _ _ _ A B) as C. by rewrite !Z.add_0_r in C. Qed.

Lemma Get_counts k dst out n al s dst' v n' al' :
  Get k dst out n al = Done (s, dst', v, n', al') ->
  counted (read_count n k s).1.1 (read_count n k s).1.2 (read_count n k s).2 n n'.
Proof.
  unfold Get, read_count, Locate. intros (n0 & n1 & al1 & [= <- <- <-] & E)%bind_Done.
  destruct (ready_ n); cbn [negb] in *; [|by injection E as <- <- <- <- <-].
  destruct (LocalIndex.Find k (index_ n)) as [loc|st].
  2: { apply bind_Done in E as ([] & n1 & al1 & E1 & [= <- <- <- <- <-]). by eapply stays_count. }
  destruct (TierOfLocked (tier loc) n) as [i|]; [|by injection E as <- <- <- <- <-].
  apply bind_Done in E as ([[fetched d1] v1] & n1 & al1 & Q1%stays_on_tier & E).
  destruct (ok fetched) eqn:Ef; cbn [negb] in E.
  - apply bind_Done in E as ([] & n2 & al2 & Q2%stays_count & E). pose proof (counted_quiet _ _ _ _ _ _ Q1 Q2) as Q12.
    apply bind_Done in E as ([] & n3 & al3 & E3 & [= <- <- <- <- <-]). ok_simpl.
    case_decide; apply bind_Done in E3 as ([] & n4 & al4 & Q4%stays_count & E3).
    + eapply counted_quiet; [exact (counted_trans _ _ _ _ _ _ _ _ _ Q12 Q4)|]. revert E3.
      enough (stays quiet (n ← get; match eviction_ n with Some _ => on_policy (ep_OnAccess k) | None => mret tt end))
        as Hs by apply Hs. frame.
    + eapply counted_quiet; [exact (counted_trans _ _ _ _ _ _ _ _ _ Q12 Q4)|]. by eapply stays_promote.
  - apply bind_Done in E as ([] & n2 & al2 & E2 & [= <- <- <- <- <-]). rewrite Ef. case_decide.
    + exact (counted_trans 0 0 0 0 0 1 _ _ _ Q1 (stays_count _ _ _ _ _ _ _ _ _ _ _ _ E2)).
    + by injection E2 as <- <-.
Qed.
End stats.

(** ** The counters of a run *)

(** A reply that reports a hit, or a miss. *)
Definition hit (r : reply) : Z := match r with RView s _ _ => if ok s then 1 else 0 | _ => 0 end.
Definition miss (r : reply) : Z := match r with RView s _ _ => if decide (code s = kNotFound) then 1 else 0 | _ => 0 end.

Definition total (f : reply -> Z) (rs : list reply) : Z := foldr (fun r acc => f r + acc) 0 rs.

Section runs.
Context {T P : Type} `{TierLaws T} `{EvictionPolicyLaws P}.
Context (kinds : forall t : T, tier_type t = kDram \/ tier_type t = kSsd).

Abbreviation node := (StorageNode T P).

(** The hits and misses of replies [rs] have been counted. *)
Definition tallied (rs : list reply) (n n' : node) : Prop :=
  exists dh sh, counted dh sh (total miss rs) n n' /\ dh + sh = total hit rs.

Lemma tallied_nil n : tallied [] n n.
Proof. exists 0, 0. split; [by apply (reflexivity (R := counted 0 0 0))|done]. Qed.

Lemma tallied_cons r rs n1 n2 n3 : tallied [r] n1 n2 -> tallied rs n2 n3 -> tallied (r :: rs) n1 n3.
Proof.
  intros (d1 & s1 & C1 & E1) (d2 & s2 & C2 & E2). exists (d1 + d2), (s1 + s2).
  change (total ?f (r :: rs)) with (f r + total f rs). change (total ?f [r]) with (f r + 0) in *.
  rewrite Z.add_0_r in C1, E1. split; [by apply (counted_trans _ _ _ _ _ _ _ _ _ C1 C2)|lia].
Qed.

Lemma tallied_quiet r (n n' : node) : hit r = 0 -> miss r = 0 -> counted 0 0 0 n n' -> tallied [r] n n'.
Proof. intros Hh Hm C. exists 0, 0. cbn. by rewrite Hh, Hm. Qed.

(** What the status of a [Get] says about the located key. *)
Lemma read_count_status (n : node) k dst out s dst' v n' :
  node_inv n -> get_result k dst out n (s, dst', v) n' ->
  (read_count n k s).1.1 + (read_count n k s).1.2 = hit (RView s dst' v) /\ (read_count n k s).2 = miss (RView s dst' v).
Proof.
  intros Hn R. pose proof (gr_not_ready _ _ _ _ _ _ R) as Hu. pose proof (gr_miss _ _ _ _ _ _ R) as Hm. cbn [fst snd] in *.
  unfold read_count, Locate, LocalIndex.Find. cbn. destruct (ready_ n) eqn:Hr; cbn [negb].
  - destruct (LocalIndex.table_ (index_ n) !! k) as [loc|] eqn:El; cbn.
    + destruct (ok s) eqn:Eok; [|by case_decide].
      assert (code s <> kNotFound) by (apply ok_iff in Eok; congruence). rewrite (decide_False (P := code s = kNotFound)) by done.
      by case_decide.
    + pose proof (proj2 (Hm eq_refl) (serves_None n k El)) as Es. rewrite (proj2 (ok_false_iff s)) by congruence.
      by rewrite decide_True.
  - specialize (Hu eq_refl). rewrite (proj2 (ok_false_iff s)) by congruence. by rewrite decide_False by congruence.
Qed.

Lemma op_tallied n o : node_ok n -> op_wf o -> wp (run_op o) (fun r n' => tallied [r] n n') n.
Proof.
  intros [Hn _] Ho. destruct o; cbn [run_op]; wp_steps.
  - eapply wp_mono; [apply (wp_stays (counted 0 0 0)), wp_Open; [apply stays_Open|done]|]. intros s n' [_ Q]. wp_steps. by apply tallied_quiet.
  - eapply wp_mono; [apply (wp_stays (counted 0 0 0)), wp_Close; [apply stays_Close|done]|]. intros s n' [_ Q]. wp_steps. by apply tallied_quiet.
  - eapply wp_mono; [apply (wp_stays (counted 0 0 0)), wp_Put; [apply stays_Put|done|done]|]. intros s n' [_ Q]. wp_steps. by apply tallied_quiet.
  - intros al. pose proof (wp_Get n k dst out Hn Ho al) as HG.
    destruct (Get k dst out n al) as [[[[[s dst'] v] n'] al']|] eqn:E; [|done]. cbn.
    destruct (read_count_status n k dst out s dst' v n' Hn HG) as [Eh Em]. apply Get_counts in E.
    exists (read_count n k s).1.1, (read_count n k s).1.2. change (total ?f [_]) with (f (RView s dst' v) + 0). rewrite !Z.add_0_r, <- Em. split; [exact E|done].
  - eapply wp_mono; [apply (wp_stays (counted 0 0 0)), wp_Probe; [apply stays_Probe|done|done]|].
    intros s n' [_ Q]. wp_steps. by apply tallied_quiet.
Qed.

Lemma ops_tallied os : forall n, node_ok n -> Forall op_wf os ->
  wp (run_ops os) (fun rs n' => node_ok n' /\ tallied rs n n') n.
Proof.
  induction os as [|o os IH]; intros n Hn Hos; cbn [run_ops]; wp_steps; [split; [done|apply tallied_nil]|].
  apply Forall_cons in Hos as [Ho Hos]. eapply wp_mono; [apply wp_and; [by apply (refines_op kinds)|by apply op_tallied]|].
  intros r n1 [[Hn1 _] T1]. wp_steps. eapply wp_mono; [by apply IH|]. intros rs n2 [Hn2 T2]. wp_steps.
  split; [done|]. by eapply tallied_cons.
Qed.
End runs.

(** C12 (invariant): the counters are exact.  After any sequence of calls on a fresh
    node, whatever fails, the miss counter is the number of [Get]s answered
    [kNotFound] and the DRAM and SSD hit counters together are the number answered
    [Ok], as 64-bit counters; no demotion, promotion, [Put] or [Open] moves them. *)
Theorem counters_exact {T P : Type} `{TierLaws T} `{EvictionPolicyLaws P} (id : string) (ts : list (option T))
    (ev : option P) (os : list op) (kinds : forall t : T, tier_type t = kDram \/ tier_type t = kSsd)
    (Hf : fresh ts ev) (Hos : Forall op_wf os) :
  wp (run_ops os)
    (fun rs n' => stats_wf (Stats n')
       /\ node_misses (Stats n') = wrap 64 (total miss rs)
       /\ wrap 64 (dram_hits (Stats n') + ssd_hits (Stats n')) = wrap 64 (total hit rs)) (make id ts ev).
Proof.
  eapply wp_mono; [apply (ops_tallied kinds); [by apply fresh_ok|done]|]. intros rs n' (_ & dh & sh & C & E).
  destruct C as (Hwf & Ed & Es & Em); [repeat split; by vm_compute|]. cbn in Ed, Es, Em. unfold Stats.
  split_and!; [done..|]. rewrite Ed, Es, <- E. unfold wrap. by rewrite <- Z.add_mod.
Qed.

(** Two hits in DRAM, a promoted read from SSD and a miss. *)
Definition ex_reads : list op :=
  ex_ops ++ [OpGet (ex_key 2) ex_dst true; OpGet (ex_key 3) ex_dst true; OpGet (ex_key 1) ex_dst true; OpGet (ex_key 4) ex_dst true].

Lemma ex_reads_wf : Forall op_wf ex_reads.
Proof.
  unfold ex_reads. apply Forall_app. split; [exact ex_ops_wf|].
  repeat apply Forall_cons_2; [apply ex_storable; lia..|by apply Forall_nil].
Qed.

Lemma counters_exact_witness :
  match run_ops ex_reads ex_node [] with
  | Done (rs, n, _) => (dram_hits (Stats n), ssd_hits (Stats n), node_misses (Stats n), total hit rs, total miss rs) = (2, 1, 1, 3, 1)
  | Terminated => False
  end
  /\ wp (run_ops ex_reads) (fun rs n' => node_misses (Stats n') = wrap 64 (total miss rs)) ex_node.
Proof.
  split; [vm_compute; reflexivity|].
  eapply wp_mono; [apply (counters_exact "node-0" _ _ ex_reads AnyTier_kinds ex_fresh ex_reads_wf)|]. by intros rs n' (_ & ? & _).
Defined.
