(* ===== verification/NodeFrames.v ===== *)
(** * Storage node: facts that outlast a call

    A node with a DRAM tier, an SSD tier and an LRU policy.  Given a fact about
    what DRAM holds, one about the policy and one about the directory, each kept by
    the member calls on one key, this file shows that [Put], [Get] and [Probe] on
    that key keep all three, with the database open. *)

From S2P Require Import Prelude Api BlockKeys EvictionPolicy Lru LocalIndex Tier DramTier SsdTier AnyTier.
From S2P Require Import StorageNode NodeStats.
Import StorageNode.

(** ** Properties as frames *)

Definition implied {S} (Q : S -> Prop) (s s' : S) : Prop := Q s -> Q s'.

#[export] Instance implied_preorder {S} (Q : S -> Prop) : PreOrder (implied Q).
Proof. unfold implied. split; [intros s; exact id|]. intros s1 s2 s3 A B HQ. by apply B, A. Qed.

Lemma stays_modify {S} (R : S -> S -> Prop) (f : S -> S) : (forall s, R s (f s)) -> stays R (modify f).
Proof. by intros Hf s al a s' al' [= _ <- _]. Qed.

Lemma wp_implied {S A} (Q : S -> Prop) (m : comp S A) : (forall s, Q s -> wp m (fun _ => Q) s) -> stays (implied Q) m.
Proof. intros Hw s al a s' al' E HQ. exact (wp_run _ _ _ _ _ _ _ (Hw s HQ) E). Qed.

#[export] Hint Resolve implied_preorder : stays.
#[export] Hint Extern 1 (stays _ (modify _)) => apply stays_modify; intros ? : stays.
#[export] Hint Extern 1 (implied _ _ _) => red; cbn : stays.

Section kept.
Context {D : Type} `{LevelDB D}.

Abbreviation node := (StorageNode (AnyTier D) Lru.LruEviction).
Abbreviation table n := (LocalIndex.table_ (index_ n)).

Context (WD : gmap BlockKey DramTier.Entry -> Prop).
Context (WP : Lru.LruEviction -> Prop).
Context (WI : gmap BlockKey Location -> Prop).

Record lasting (n : node) (d : DramTier.DramTier) (s : SsdTier.SsdTier D) (p : Lru.LruEviction) : Prop := {
  la_tiers : tiers_ n = [Some (Dram d); Some (Ssd s)];
  la_eviction : eviction_ n = Some p;
  la_dram : WD (DramTier.store_ d);
  la_open : SsdTier.db_ s = true;
  la_policy : WP p;
  la_index : WI (table n)
}.

Definition lasts (n : node) : Prop := exists d s p, lasting n d s p.

Abbreviation kept := (implied lasts).
Abbreviation dram_kept := (implied (fun d => WD (DramTier.store_ d))).
Abbreviation ssd_open := (implied (fun s : SsdTier.SsdTier D => SsdTier.db_ s = true)).

(** ** Calls into the members *)

Lemma kept_tier {A} i (m : comp DramTier.DramTier A) (m' : comp (SsdTier.SsdTier D) A) :
  stays dram_kept m -> stays ssd_open m' -> stays kept (on_tier i (dispatch m m')).
Proof.
  intros Hm Hm' n al a n' al' E (d & s & p & [Ht He Hd Ho Hp Hi]). unfold on_tier, dispatch in E. rewrite Ht in E.
  destruct i as [|[|i]]; cbn in E; [..|done].
  - destruct (m d al) as [[[? d'] ?]|] eqn:Em; [|done]. injection E as _ <- _. apply Hm in Em.
    exists d', s, p. split; cbn; try done; by apply Em.
  - destruct (m' s al) as [[[? s'] ?]|] eqn:Em; [|done]. injection E as _ <- _. apply Hm' in Em.
    exists d, s', p. split; cbn; try done; by apply Em.
Qed.

Lemma kept_tier_get {A} i (f : AnyTier D -> A) : stays kept (tier_get i f).
Proof.
  intros n al a n' al'. unfold tier_get, on_tier, gets. destruct (tiers_ n !! i) as [[t|]|] eqn:E; try done.
  intros [= _ <- _]. rewrite list_insert_id by done. by destruct n.
Qed.

Lemma kept_policy {A} (m : comp Lru.LruEviction A) : stays (implied WP) m -> stays kept (on_policy m).
Proof.
  intros Hm n al a n' al' E (d & s & p & [Ht He Hd Ho Hp Hi]). unfold on_policy in E. rewrite He in E.
  destruct (m p al) as [[[? p'] ?]|] eqn:Em; [|done]. injection E as _ <- _. apply Hm in Em.
  exists d, s, p'. split; cbn; try done; by apply Em.
Qed.

Lemma kept_index {A} (m : comp LocalIndex.LocalIndex A) :
  stays (implied (fun ix => WI (LocalIndex.table_ ix))) m -> stays kept (on_index m).
Proof.
  intros Hm n al a n' al' E (d & s & p & [Ht He Hd Ho Hp Hi]). unfold on_index, zoom in E.
  destruct (m (index_ n) al) as [[[? ix] ?]|] eqn:Em; [|done]. injection E as _ <- _. apply Hm in Em.
  exists d, s, p. split; cbn; try done; by apply Em.
Qed.

Lemma kept_count dh sh ms de pr br bw : stays kept (count dh sh ms de pr br bw).
Proof. intros n al a n' al' [= _ <- _] (d & s & p & []). by exists d, s, p. Qed.

(** The SSD tier stays open. *)

Lemma open_db_call {A} (f : D -> A * D) : stays ssd_open (SsdTier.db_call f).
Proof. unfold SsdTier.db_call. frame. Qed.

#[local] Hint Resolve open_db_call : stays.

Lemma open_Probe k : stays ssd_open (SsdTier.Probe k).
Proof. unfold SsdTier.Probe. frame. Qed.

Lemma open_Put k b : stays ssd_open (SsdTier.Put k b).
Proof. unfold SsdTier.Put. frame. Qed.

Lemma open_Get k dst out : stays ssd_open (SsdTier.Get k dst out).
Proof. unfold SsdTier.Get. frame. Qed.

(** Reading DRAM moves no block. *)

Lemma dram_kept_Probe k : stays dram_kept (DramTier.Probe k).
Proof. unfold DramTier.Probe. frame. Qed.

Lemma dram_kept_Get k dst out : stays dram_kept (DramTier.Get k dst out).
Proof. unfold DramTier.Get. frame. Qed.

Lemma kept_tier_Probe i k : stays kept (on_tier i (tier_Probe k)).
Proof. apply (kept_tier i (DramTier.Probe k) (SsdTier.Probe k)); [apply dram_kept_Probe|apply open_Probe]. Qed.

Lemma kept_tier_Get i k dst out : stays kept (on_tier i (tier_Get k dst out)).
Proof. apply (kept_tier i (DramTier.Get k dst out) (SsdTier.Get k dst out)); [apply dram_kept_Get|apply open_Get]. Qed.

(** Demotion, for facts that blocks leaving DRAM, the policy and the directory
    cannot break: a demoted block is written to the SSD tier only. *)
Section leaving.
Context (WD_leave : forall m v, WD m -> WD (delete v m)).
Context (WP_any : forall p, WP p) (WI_any : forall m, WI m).

Lemma leaving_Erase i v : stays kept (on_tier i (tier_EraseExisting v)).
Proof.
  apply (kept_tier i (DramTier.EraseExisting v) (SsdTier.EraseExisting v)); [|apply stays_terminate].
  unfold DramTier.EraseExisting. frame.
Qed.

Lemma leaving_sink v b : stays kept (on_tier 1 (tier_Put v b)).
Proof.
  intros n al a n' al' E (d & s & p & [Ht He Hd Ho Hp Hi]). unfold on_tier in E. rewrite Ht in E. cbn in E.
  destruct (SsdTier.Put v b s al) as [[[? s'] ?]|] eqn:Em; [|done]. injection E as _ <- _. apply open_Put in Em.
  exists d, s', p. split; cbn; try done. by apply Em.
Qed.

Lemma leaving_policy {A} (m : comp Lru.LruEviction A) : stays kept (on_policy m).
Proof. apply kept_policy. by intros p al a p' al' _ _. Qed.

Lemma leaving_index {A} (m : comp LocalIndex.LocalIndex A) : stays kept (on_index m).
Proof. apply kept_index. by intros p al a p' al' _ _. Qed.

Lemma leaving_policy_get {A} (f : Lru.LruEviction -> A) : stays kept (policy_get f).
Proof. apply leaving_policy. Qed.

#[local] Hint Resolve leaving_Erase leaving_sink leaving_policy leaving_index leaving_policy_get kept_tier_get kept_count
  kept_tier_Probe kept_tier_Get : stays.

Lemma leaving_Demote excluded : stays kept (DemoteOneVictimLocked 0 1 excluded).
Proof. unfold DemoteOneVictimLocked, CancelVictimOrInternal, ReadBlockLocked. frame. Qed.

(** What a computation reads of the state it starts in may be used. *)
Lemma stays_at {A} (m : comp node A) :
  (forall n, lasts n -> exists m', (forall al, m n al = m' n al) /\ stays kept m') -> stays kept m.
Proof.
  intros Hm n al a n' al' E W. destruct (Hm n W) as (m' & Em & Hs). rewrite Em in E. exact (Hs _ _ _ _ _ E W).
Qed.

Lemma lasts_sink n : lasts n -> is_Some (eviction_ n) /\ ColderTierLocked n = Some 1%nat /\ TierOfLocked kDram n = Some 0%nat.
Proof.
  intros (d & s & p & [Ht He _ _ _ _]). unfold ColderTierLocked, TierOfLocked. rewrite Ht, He. by eauto.
Qed.

Lemma leaving_room_loop fuel replaced incoming replacing : stays kept (make_room_loop fuel 0 replaced incoming replacing).
Proof.
  induction fuel as [|fuel IH]; cbn [make_room_loop]; [apply stays_terminate|].
  apply stays_bind; [exact _|apply kept_tier_get|]. intros before. destruct (_ =? 0); [apply stays_ret; exact _|].
  destruct (ProjectedBytes _ _ _); [|apply stays_ret; exact _]. destruct (_ <=? _); [apply stays_ret; exact _|].
  apply stays_at. intros n W. destruct (lasts_sink n W) as ([p Hp] & Hs & _). eexists. split.
  - intros al. unfold mbind at 1, comp_bind at 1, get. rewrite Hp, Hs. reflexivity.
  - apply stays_bind; [exact _|apply leaving_Demote|]. frame.
Qed.

Lemma leaving_room incoming replacing : stays kept (MakeDramRoomForLocked incoming replacing).
Proof.
  apply stays_at. intros n W. destruct (lasts_sink n W) as (_ & _ & Hd). eexists. split.
  - intros al. unfold MakeDramRoomForLocked, mbind at 1, comp_bind at 1, get. rewrite Hd. reflexivity.
  - frame; apply leaving_room_loop.
Qed.
End leaving.

(** ** One key *)

Context (k : BlockKey).
Context (WD_insert : forall m e, WD m -> WD (<[k := e]> m)) (WD_delete : forall m, WD m -> WD (delete k m)).
Context (WI_insert : forall m loc, WI m -> WI (<[k := loc]> m)) (WI_delete : forall m, WI m -> WI (delete k m)).
Context (WP_access : stays (implied WP) (Lru.OnAccess k)) (WP_insert : forall z, stays (implied WP) (Lru.OnInsert k z)).
Context (WP_remove : stays (implied WP) (Lru.OnRemove k)).
Context (room : forall incoming (r : bool), stays kept (MakeDramRoomForLocked incoming (if r then Some k else None))).

Lemma dram_kept_Put b : stays dram_kept (DramTier.Put k b).
Proof. unfold DramTier.Put. frame. Qed.

Lemma dram_kept_Erase : stays dram_kept (DramTier.EraseExisting k).
Proof. unfold DramTier.EraseExisting. frame. Qed.

Lemma kept_tier_Put i b : stays kept (on_tier i (tier_Put k b)).
Proof. apply (kept_tier i (DramTier.Put k b) (SsdTier.Put k b)); [apply dram_kept_Put|apply open_Put]. Qed.

Lemma kept_tier_Erase i : stays kept (on_tier i (tier_EraseExisting k)).
Proof.
  apply (kept_tier i (DramTier.EraseExisting k) (SsdTier.EraseExisting k)); [apply dram_kept_Erase|apply stays_terminate].
Qed.

Lemma kept_OnAccess : stays kept (on_policy (ep_OnAccess k)).
Proof. by apply kept_policy. Qed.

Lemma kept_OnInsert z : stays kept (on_policy (ep_OnInsert k z)).
Proof. apply kept_policy, WP_insert. Qed.

Lemma kept_OnPromotion z : stays kept (on_policy (ep_OnPromotionCommitted k z)).
Proof. apply kept_policy, WP_insert. Qed.

Lemma kept_OnRemove : stays kept (on_policy (ep_OnRemove k)).
Proof. by apply kept_policy. Qed.

Lemma kept_Upsert loc : stays kept (on_index (LocalIndex.Upsert k loc)).
Proof. apply kept_index. unfold LocalIndex.Upsert. frame. Qed.

Lemma kept_Relocate t t' h : stays kept (on_index (LocalIndex.RelocateExisting k t t' h)).
Proof. apply kept_index. unfold LocalIndex.RelocateExisting. frame. Qed.

Lemma kept_Remove : stays kept (on_index (LocalIndex.RemoveExisting k)).
Proof. apply kept_index. unfold LocalIndex.RemoveExisting. frame. Qed.

Lemma kept_room_new incoming : stays kept (MakeDramRoomForLocked incoming None).
Proof. exact (room incoming false). Qed.

#[local] Hint Resolve kept_tier_get kept_count kept_tier_Probe kept_tier_Get kept_tier_Put kept_tier_Erase kept_OnAccess
  kept_OnInsert kept_OnPromotion kept_OnRemove kept_Upsert kept_Relocate kept_Remove kept_room_new : stays.
#[local] Hint Resolve room : stays.

Lemma kept_undo i : stays kept (undo_dram_put i k).
Proof. unfold undo_dram_put. frame. Qed.

#[local] Hint Resolve kept_undo : stays.

Lemma kept_promote v payload : stays kept (TryPromoteToDramLocked k v payload).
Proof. unfold TryPromoteToDramLocked. frame. Qed.

#[local] Hint Resolve kept_promote : stays.

Lemma kept_Put b : stays kept (Put k b).
Proof. unfold Put, PutDram, PutOversizedLocked, PutWithoutDramLocked. frame. Qed.

Lemma kept_Get dst out : stays kept (Get k dst out).
Proof. unfold Get. frame. Qed.
End kept.

Section probe.
Context {D : Type} `{LevelDB D} (WD : gmap BlockKey DramTier.Entry -> Prop) (WP : Lru.LruEviction -> Prop).
Context (WI : gmap BlockKey Location -> Prop).

Lemma kept_Probe k : stays (implied (lasts (D := D) WD WP WI)) (Probe k).
Proof. unfold Probe. frame; apply kept_tier_Probe. Qed.
End probe.
