(* ===== verification/NodeFindings.v ===== *)
(** * Storage node: where its components' contracts do not meet

    Two consequences of what [Put] does not check and does not write.  The DRAM
    path accepts a block whose metadata contradicts its key, which the SSD tier
    refuses to take: under LRU such a block blocks every demotion.  And it never
    touches the key's record on the SSD, so that a superseded block comes back when
    the process starts again. *)

From S2P Require Import Prelude Api BlockKeys EvictionPolicy Lru LocalIndex Tier DramTier SsdTier AnyTier.
From S2P Require Import StorageNode NodeInv NodeRoom NodePut NodeGet NodeOpen NodeSpec NodeTheorems NodeStats NodeFrames.
Import StorageNode.

(** ** Recency lists with a fixed end *)

Lemma last_filter {A} (Q : A -> Prop) `{forall x, Decision (Q x)} (l : list A) x :
  last l = Some x -> Q x -> last (filter Q l) = Some x.
Proof.
  intros (l' & ->)%last_Some Hx. rewrite filter_app, filter_cons_True, filter_nil by done. apply last_snoc.
Qed.

Lemma last_touch k k' l : last l = Some k -> k' <> k -> last (Lru.touch k' l) = Some k.
Proof.
  intros Hl Hne. unfold Lru.touch. rewrite last_cons, (last_filter _ _ k) by done. done.
Qed.

(** The policy would evict [k] next. *)
Record next_victim (k : BlockKey) (p : Lru.LruEviction) : Prop := {
  nv_inv : Lru.inv p;
  nv_free : Lru.reserved_ p = None;
  nv_last : last (keys (Lru.order_ p)) = Some k
}.

Section next_victim.
Context (k k' : BlockKey) (Hne : k' <> k).

Lemma victim_OnAccess : stays (implied (next_victim k)) (Lru.OnAccess k').
Proof.
  apply wp_implied. intros p [Hi Hr Hl]. eapply wp_mono; [by apply Lru.wp_lru_OnAccess|].
  intros [] p' (Hi' & _ & Hr' & Ho). split; [done|congruence|]. rewrite Ho. case_decide; [by apply last_touch|done].
Qed.

Lemma victim_OnInsert z : stays (implied (next_victim k)) (Lru.OnInsert k' z).
Proof.
  apply wp_implied. intros p [Hi Hr Hl]. eapply wp_mono; [by apply Lru.wp_lru_OnInsert|].
  intros st p' (Hi' & Hr' & Ho). destruct (ok st); [|by subst]. destruct Ho as [_ Ho].
  split; [done|congruence|]. rewrite Ho. by apply last_touch.
Qed.

Lemma victim_OnRemove : stays (implied (next_victim k)) (Lru.OnRemove k').
Proof.
  apply wp_implied. intros p [Hi Hr Hl]. eapply wp_mono; [by apply Lru.wp_lru_OnRemove|].
  intros [] p' (Hi' & _ & Hr' & Ho). split; [done|by rewrite Hr', Hr, decide_False|].
  rewrite Ho. by apply last_filter.
Qed.
End next_victim.

(** ** A block the SSD tier will not take *)

Section wedge.
Context {D : Type} `{LevelDBLaws D}.

Abbreviation node := (StorageNode (AnyTier D) Lru.LruEviction).
Abbreviation table n := (LocalIndex.table_ (index_ n)).

(** The metadata contradicts the key. *)
Definition mismatched (k : BlockKey) (b : Block) : Prop := ok (SsdTier.ValidateMetadata k (metadata b)) = false.

Context (k : BlockKey) (b : Block) (Hbad : mismatched k b).

Definition holds_block (m : gmap BlockKey DramTier.Entry) : Prop := DramTier.block <$> m !! k = Some b.
Definition named_dram (tb : gmap BlockKey Location) : Prop := exists loc, tb !! k = Some loc /\ tier loc = kDram.

(** DRAM holds the block, and it is the one that has to go next. *)
Abbreviation wedge := (lasting (D := D) holds_block (next_victim k) named_dram).
Definition wedged (n : node) : Prop := lasts holds_block (next_victim k) named_dram n.

Definition refused (s : Status) : Prop := code s = kInvalidArgument \/ code s = kOutOfCapacity.

Lemma refused_not_ok s : refused s -> ok s = false.
Proof. intros Hs. apply ok_false_iff. destruct Hs; congruence. Qed.

Lemma wp_dram {A} (m : comp DramTier.DramTier A) m' (Q : A -> node -> Prop) n d s :
  tiers_ n = [Some (Dram d); Some (Ssd s)] ->
  wp m (fun a d' => Q a (set_tiers [Some (Dram d'); Some (Ssd s)] n)) d -> wp (on_tier 0 (dispatch m m')) Q n.
Proof.
  intros Ht Hw. apply (wp_on_tier _ (Dram d)); [by rewrite Ht|]. apply wp_dispatch_dram. unfold upd_tier. by rewrite Ht.
Qed.

(** Reading it back from DRAM. *)
Lemma wp_read_wedge WP n d s p :
  lasting holds_block WP named_dram n d s p ->
  wp (ReadBlockLocked (Some 0%nat) k) (fun r n' =>
    exists d', lasting holds_block WP named_dram n' d' s p
               /\ match r with Value b' => metadata b' = metadata b | Error st => code st = kOutOfCapacity end) n.
Proof.
  intros W. destruct (W) as [Ht He Hd Ho Hp Hi]. unfold holds_block in Hd.
  destruct (DramTier.store_ d !! k) as [e|] eqn:Ek; [|done]. injection Hd as Eb.
  unfold ReadBlockLocked. wp_steps. apply (wp_dram (DramTier.Probe k) _ _ n d s Ht). unfold DramTier.Probe. wp_steps.
  rewrite Ek. wp_steps. cbn [payload_size].
  apply (wp_mono _ (fun _ m => m = set_tiers [Some (Dram d); Some (Ssd s)] n)); [destruct (_ =? _); by wp_steps|].
  intros fails m ->. assert (lasting holds_block WP named_dram (set_tiers [Some (Dram d); Some (Ssd s)] n) d s p) as W1.
  { split; try done. unfold holds_block. rewrite Ek. cbn. by rewrite Eb. }
  destruct fails; wp_steps; [by exists d|]. set (dst := mkMutableBuffer _ _).
  apply (wp_dram (DramTier.Get k dst true) _ _ _ d s (la_tiers _ _ _ _ _ _ _ W1)). unfold DramTier.Get. cbn [negb].
  assert (bool_decide (mb_data dst = None) && negb (mb_capacity dst =? 0) = false) as ->.
  { unfold dst. cbn [mb_data mb_capacity]. by destruct (_ =? _). }
  wp_steps. rewrite Ek, (proj2 (Z.ltb_ge (mb_capacity dst) _)) by (unfold dst; cbn; lia). wp_steps.
  cbn [bv_size]. rewrite Z.eqb_refl. cbn [negb]. wp_steps. eexists. split; [|cbn; by rewrite Eb].
  split; try done. unfold holds_block. cbn. rewrite Ek. cbn. by rewrite Eb.
Qed.

(** While it is reserved. *)
Definition reserved_victim (p : Lru.LruEviction) : Prop :=
  Lru.inv p /\ Lru.reserved_ p = Some k /\ last (keys (Lru.order_ p)) = Some k.

Lemma wp_give_back n d s p cause context :
  lasting holds_block reserved_victim named_dram n d s p -> refused cause ->
  wp (CancelVictimOrInternal k cause context) (fun st n' => refused st /\ wedged n') n.
Proof.
  intros [Ht He Hd Ho (Pi & Pr & Pl) Hi] Hc. unfold CancelVictimOrInternal. wp_steps.
  eapply wp_on_policy; [done|]. eapply wp_mono; [by apply Lru.wp_lru_CancelVictim|].
  intros st p' (-> & -> & Pi'). wp_steps. split; [done|]. by exists d, s, (Lru.set_reserved None p).
Qed.

(** The SSD tier refuses it before it looks at the database. *)
Lemma wp_sink_refuses n d s p WP b' :
  lasting holds_block WP named_dram n d s p -> metadata b' = metadata b ->
  wp (on_tier 1 (tier_Put k b')) (fun r n' =>
    n' = n /\ match r with Value _ => False | Error st => code st = kInvalidArgument end) n.
Proof.
  intros [Ht He Hd Ho Hp Hi] Hm. apply (wp_on_tier _ (Ssd s)); [by rewrite Ht|].
  apply (wp_dispatch_ssd (DramTier.Put k b') (SsdTier.Put k b')). unfold SsdTier.Put. wp_steps. rewrite Ho, Hm. cbn [negb].
  unfold mismatched in Hbad. rewrite Hbad. cbn [negb]. wp_steps. split; [|done]. apply upd_tier_id. by rewrite Ht.
Qed.

(** No demotion gets past it. *)
Lemma wp_demote_wedged n excluded :
  wedged n -> excluded <> Some k ->
  wp (DemoteOneVictimLocked 0 1 excluded) (fun st n' => refused st /\ wedged n') n.
Proof.
  intros (d & s & p & [Ht He Hd Ho [Pi Pr Pl] (loc & Hl & Hty)]) Hex. unfold DemoteOneVictimLocked. wp_steps. rewrite He.
  wp_steps. eapply wp_on_policy; [done|]. eapply wp_mono; [by apply Lru.wp_lru_SelectVictim|].
  assert (last (filter (fun x => Some x <> excluded) (keys (Lru.order_ p))) = Some k) as Hv by (apply last_filter; [done|congruence]).
  intros [v|st] p1 (Pi1 & Ep1 & Eo1 & HQ); [|destruct HQ as (_ & _ & HQ); destruct (HQ Pr); congruence].
  destruct HQ as (_ & Pr1 & El). rewrite Hv in El. injection El as <-. wp_steps. cbn [index_ set_eviction].
  rewrite (proj2 (LocalIndex.ValidateRelocate_ok (index_ n) k kDram)) by eauto. cbn [negb]. wp_steps.
  eapply wp_mono; [apply (wp_read_wedge reserved_victim _ d s p1)|].
  { split; try done; [by split_and!; rewrite ?Eo1|by exists loc]. }
  intros r n2 (d2 & W2 & HQ). pose proof W2 as [Ht2 He2 Hd2 Ho2 Hp2 Hi2].
  destruct r as [b'|st]; [|eapply wp_give_back; [done|by right]].
  wp_steps. apply (wp_tier_get _ (Dram d2)); [by rewrite Ht2|].
  assert (ok (tier_ValidateEraseExisting k (Dram d2)) = true) as ->.
  { cbn. unfold DramTier.ValidateEraseExisting. unfold holds_block in Hd2. by destruct (DramTier.store_ d2 !! k). }
  cbn [negb]. wp_steps. eapply wp_policy_get; [done|]. cbn [ep_ValidateVictimCommit Lru.LruEviction_policy].
  rewrite (proj2 (Lru.lru_ValidateVictimCommit_spec p1 k Pi1) Pr1). cbn [negb]. wp_steps.
  eapply wp_mono; [by eapply wp_sink_refuses|]. intros [h|st] n3 [-> Hst]; [done|].
  eapply wp_give_back; [done|by left].
Qed.
(** Making room either finds it already, and changes nothing, or fails. *)
Lemma wp_room_loop_wedged fuel n replaced incoming replacing :
  wedged n -> replacing <> Some k ->
  wp (make_room_loop (S fuel) 0 replaced incoming replacing) (fun st n' =>
    wedged n' /\ (ok st = true /\ n' = n \/ refused st)) n.
Proof.
  intros W Hne. pose proof W as (d & s & p & [Ht He Hd Ho Hp Hi]). cbn [make_room_loop]. wp_steps.
  apply (wp_tier_get _ (Dram d)); [by rewrite Ht|]. destruct (_ =? 0); [wp_steps; auto|].
  destruct (ProjectedBytes _ _ _) as [x|]; [|wp_steps; split; [done|by right; right]].
  destruct (_ <=? _); [wp_steps; auto|]. wp_steps. unfold ColderTierLocked, TierOfLocked. rewrite He, Ht.
  cbn [find_tier]. rewrite decide_False, decide_True by done. cbn [fmap option_fmap option_map]. wp_steps.
  eapply wp_mono; [by apply wp_demote_wedged|]. intros st n' [Hst Hw]. rewrite (refused_not_ok st Hst). cbn [negb].
  rewrite decide_False by (destruct Hst; congruence). wp_steps. auto.
Qed.

Lemma held_dram (n : node) d s :
  tiers_ n = [Some (Dram d); Some (Ssd s)] -> held (tiers_ n) kDram = DramTier.contents d.
Proof. intros ->. done. Qed.

Lemma wp_room_wedged n incoming replacing :
  wedged n -> replacing <> Some k ->
  wp (MakeDramRoomForLocked incoming replacing) (fun st n' =>
    wedged n' /\ (ok st = true /\ n' = n
                  \/ ok st = false /\ ((forall k', replacing = Some k' -> is_Some (held (tiers_ n) kDram !! k')) -> refused st))) n.
Proof.
  intros W Hne. pose proof W as (d & s & p & [Ht He Hd Ho Hp Hi]). unfold MakeDramRoomForLocked. wp_steps.
  unfold TierOfLocked. rewrite Ht. cbn [find_tier]. rewrite decide_True by done.
  assert (set_tiers [Some (Dram d); Some (Ssd s)] n = n) as Hid by (destruct n; cbn in *; by subst).
  assert (forall x, wp (stats ← tier_get 0 tier_Stats;
      make_room_loop (S (Z.to_nat (num_blocks stats))) 0 x incoming replacing) (fun st n' =>
    wedged n' /\ (ok st = true /\ n' = n
                  \/ ok st = false /\ ((forall k', replacing = Some k' -> is_Some (held (tiers_ n) kDram !! k')) -> refused st))) n)
    as Hloop.
  { intros x. wp_steps. apply (wp_tier_get _ (Dram d)); [by rewrite Ht|]. eapply wp_mono; [by apply wp_room_loop_wedged|].
    intros st n' [W' [?|Hst]]; split; try done; [by left|right; split; [by apply refused_not_ok|done]]. }
  rewrite <- Ht. apply wp_bind. destruct replacing as [k'|]; [|apply wp_ret, Hloop]. apply wp_bind.
  apply (wp_dram (DramTier.Probe k') _ _ n d s Ht). unfold DramTier.Probe. apply wp_bind, wp_get.
  destruct (DramTier.store_ d !! k') as [e|] eqn:Ek; apply wp_ret, wp_ret; rewrite Hid; [apply Hloop|apply wp_ret].
  split; [done|]. right. split; [done|]. intros Hin. destruct (Hin k' eq_refl) as [b' Hb'].
  by rewrite (held_dram n d s Ht), DramTier.contents_lookup, Ek in Hb'.
Qed.

(** ** Calls on other keys *)

Section other.
Context (k' : BlockKey) (Hne : k' <> k).

Lemma wedge_room incoming (r : bool) :
  stays (implied wedged) (MakeDramRoomForLocked incoming (if r then Some k' else None)).
Proof.
  apply wp_implied. intros n W. eapply wp_mono; [apply wp_room_wedged; [done|]|by intros st n' [? _]].
  destruct r; [congruence|done].
Qed.

Lemma wedge_insert_dram m e : holds_block m -> holds_block (<[k' := e]> m).
Proof. unfold holds_block. by rewrite lookup_insert_ne. Qed.
Lemma wedge_delete_dram m : holds_block m -> holds_block (delete k' m).
Proof. unfold holds_block. by rewrite lookup_delete_ne. Qed.
Lemma wedge_insert_index m loc : named_dram m -> named_dram (<[k' := loc]> m).
Proof. unfold named_dram. by rewrite lookup_insert_ne. Qed.
Lemma wedge_delete_index m : named_dram m -> named_dram (delete k' m).
Proof. unfold named_dram. by rewrite lookup_delete_ne. Qed.

Lemma wedge_Put b' : stays (implied wedged) (Put k' b').
Proof.
  apply kept_Put; [exact wedge_insert_dram|exact wedge_delete_dram|exact wedge_insert_index|exact wedge_delete_index
    |by apply victim_OnAccess|by apply victim_OnInsert|by apply victim_OnRemove|exact wedge_room].
Qed.

Lemma wedge_Get dst out : stays (implied wedged) (Get k' dst out).
Proof.
  apply kept_Get; [exact wedge_insert_dram|exact wedge_delete_dram|exact wedge_insert_index
    |by apply victim_OnAccess|by apply victim_OnInsert|exact wedge_room].
Qed.

(** The block would fit into DRAM, but not next to what it holds. *)
Definition no_room (b' : Block) (n : node) : Prop :=
  exists d, tier_of (tiers_ n) kDram = Some d /\ capacity_bytes (tier_Stats d) <> 0
            /\ size_bytes b' <= capacity_bytes (tier_Stats d) < total_bytes (<[k' := b']> (tier_contents d)).

Lemma wp_Put_no_room n b' :
  node_inv n -> ready_ n = true -> wedged n -> no_room b' n -> wp (Put k' b') (fun st _ => refused st) n.
Proof.
  intros Hn Hr W (d0 & Hd0 & Hc & Hfit & Hover). pose proof W as (d & s & p & [Ht He Hd Ho Hp Hi]).
  pose proof Hd0 as Ed. rewrite Ht in Ed. cbn in Ed. injection Ed as <-.
  assert (wp (PutDram k' b' (table n !! k')) (fun st _ => refused st) n) as Hput.
  { unfold PutDram. set (old_in_dram := match table n !! k' with Some _ => _ | None => _ end).
    assert (if old_in_dram then is_Some (held (tiers_ n) kDram !! k') else held (tiers_ n) kDram !! k' = None) as Hod.
    { unfold old_in_dram. destruct (table n !! k') as [loc|] eqn:E; [case_bool_decide as Hb|].
      - rewrite <- Hb. by apply (io_entry _ _ _ (ni_index n Hn Hr) k' loc E).
      - apply not_in_dram; [done..|]. intros l El. by simplify_eq.
      - apply not_in_dram; [done..|]. intros l El. by simplify_eq. }
    assert (forall kk, (if old_in_dram then Some k' else None) = Some kk -> is_Some (held (tiers_ n) kDram !! kk)) as Hin.
    { intros kk Hkk. destruct old_in_dram; [by injection Hkk as <-|done]. }
    wp_steps. eapply wp_mono; [apply wp_and|].
    - apply wp_room_wedged; [done|]. destruct old_in_dram; congruence.
    - apply wp_MakeDramRoomForLocked; [done..|apply zlen_nonneg|exact Hin].
    - intros st n1 [[_ [[Hst ->]|[Hst Hre]]] (replaced & Hrep & [_ _ _ Hfits])]; [|rewrite Hst; cbn [negb]; wp_steps; by apply Hre].
      exfalso. specialize (Hfits Hst _ Hd0 Hc). rewrite (held_dram n d s Ht) in Hod.
      change (tier_contents (Dram d)) with (DramTier.contents d) in *. destruct old_in_dram.
      + destruct Hrep as (b0 & Hb0 & ->). rewrite (held_dram n d s Ht) in Hb0.
        rewrite (total_bytes_replace _ k' b0) in Hover by done. lia.
      + cbn in Hrep. subst replaced. rewrite total_bytes_insert in Hover by done. lia. }
  unfold Put. wp_steps. rewrite Hr, Ht. cbn [negb].
  assert ((negb (capacity_bytes (tier_Stats (Dram d)) =? 0)
           && (capacity_bytes (tier_Stats (Dram d)) <? size_bytes b')) = false) as Eo
    by (rewrite (proj2 (Z.ltb_ge _ (size_bytes b'))) by lia; apply andb_false_r).
  unfold LocalIndex.Find. destruct (table n !! k') as [loc|].
  - rewrite decide_True by done. by rewrite Eo.
  - rewrite !decide_True by done. by rewrite Eo.
Qed.
End other.

(** Any call but one that writes or reads this key, or a restart. *)
Definition spares (o : op) : Prop :=
  op_wf o /\ match o with
             | OpPut k' _ | OpGet k' _ _ => k' <> k
             | OpProbe _ => True
             | OpOpen | OpClose => False
             end.

Lemma wedge_op o : spares o -> stays (implied wedged) (run_op o).
Proof.
  intros [_ Ho]. destruct o; try done; cbn [run_op]; (apply stays_bind; [exact _| |intros; apply stays_ret; exact _]).
  - by apply wedge_Put.
  - by apply wedge_Get.
  - apply kept_Probe.
Qed.

Lemma spares_ready (n : node) o r (n' : node) : spares o -> refines n o r n' -> ready_ n' = ready_ n.
Proof. intros [_ Ho] [_ Hs]. destruct o, r; try done; apply Hs. Qed.

Lemma wp_ops_wedged os : forall n : node,
  node_ok n -> ready_ n = true -> wedged n -> Forall spares os ->
  wp (run_ops os) (fun _ n' => node_ok n' /\ ready_ n' = true /\ wedged n') n.
Proof.
  induction os as [|o os IH]; intros n Hn Hr W Hos; cbn [run_ops]; wp_steps; [done|].
  apply Forall_cons in Hos as [Ho Hos]. eapply wp_mono.
  { apply (wp_stays (implied wedged)); [by apply wedge_op|apply (refines_op AnyTier_kinds); [done|apply Ho]]. }
  intros r n1 [Hr1 Hw1]. wp_steps. eapply wp_mono; [apply IH|by intros; wp_steps].
  - apply Hr1.
  - by rewrite (spares_ready _ _ _ _ Ho Hr1).
  - by apply Hw1.
  - done.
Qed.

(** ** How it gets there *)

Definition only_key (m : gmap BlockKey DramTier.Entry) : Prop := dom m ⊆ {[k]}.

Lemma only_key_Put : stays (implied (lasts (D := D) only_key (fun _ => True) (fun _ => True))) (Put k b).
Proof.
  apply kept_Put; unfold only_key; try done; try (by intros ? ? ? ? ? ? ?).
  - intros m e Hm. rewrite dom_insert_L. set_solver.
  - intros m Hm. rewrite dom_delete_L. set_solver.
  - intros incoming r. apply leaving_room; try done. intros m v Hm. rewrite dom_delete_L. set_solver.
Qed.

Lemma sole_resident p : Lru.inv p -> Lru.resident p = {[k]} -> last (keys (Lru.order_ p)) = Some k.
Proof.
  intros Hi Hres. assert (forall x, x ∈ keys (Lru.order_ p) <-> x = k) as Hk.
  { intros x. rewrite (Lru.elem_of_keys p x Hi). rewrite <- elem_of_dom. change (dom (Lru.pos_ p)) with (Lru.resident p).
    rewrite Hres. apply elem_of_singleton. }
  destruct (last (keys (Lru.order_ p))) as [x|] eqn:E; [f_equal; by apply Hk, last_Some_elem_of|].
  apply last_None in E. pose proof (proj2 (Hk k) eq_refl) as Hin. rewrite E in Hin. by apply elem_of_nil in Hin.
Qed.

Lemma wp_wedging_Put (n : node) d s p :
  node_inv n -> ready_ n = true -> tiers_ n = [Some (Dram d); Some (Ssd s)] -> eviction_ n = Some p ->
  DramTier.store_ d = ∅ -> storable k b -> fits_dram b n ->
  wp (Put k b) (fun st n' => node_ok n' /\ ready_ n' = true /\ (ok st = true -> wedged n')) n.
Proof.
  intros Hn Hr Ht He Hd Hw Hfit. eapply wp_mono; [eapply wp_stays; [exact only_key_Put|by apply wp_Put_placed]|].
  intros st n' [[[R1 R2 R3 R4 R5] Hplace] Hkept]. assert (ready_ n' = true) as Hr' by congruence.
  split; [by apply ready_ok|]. split; [done|]. intros Hst. rewrite Hst in R4.
  destruct (Hplace Hfit Hst) as (loc & Hl & Hty).
  assert (SsdTier.db_ s = true) as Hopen.
  { pose proof (ni_tiers n Hn) as Hts. rewrite Hr in Hts. apply (to_ready _ _ Hts eq_refl kSsd (Ssd s)). by rewrite Ht. }
  destruct Hkept as (d' & s' & p' & [Ht' He' Hd' Ho' _ _]).
  { exists d, s, p. split; try done. unfold only_key. rewrite Hd, dom_empty_L. set_solver. }
  assert (DramTier.contents d' !! k = Some b) as Hk.
  { unfold serves, value in R4. rewrite Hl in R4. cbn in R4. by rewrite Hty, (held_dram n' d' s' Ht') in R4. }
  destruct (ni_policy n' R1 p' He') as (Pi & Pr & Pres). exists d', s', p'. split; try done; [|split; try done|by exists loc].
  - unfold holds_block. by rewrite <- DramTier.contents_lookup.
  - apply sole_resident; [done|]. change (Lru.resident p') with (ep_resident p'). rewrite Pres, (held_dram n' d' s' Ht').
    unfold DramTier.contents. rewrite dom_fmap_L. apply (anti_symm subseteq); [exact Hd'|].
    apply singleton_subseteq_l, elem_of_dom. rewrite DramTier.contents_lookup in Hk. by destruct (DramTier.store_ d' !! k).
Qed.
End wedge.

(** ** The theorems *)

(** Store a block, make other calls, then store one more block: the first status,
    the node before the last call and the last status. *)
Definition put_then_later {T P} `{Tier T} `{EvictionPolicy P} (k : BlockKey) (b : Block) (os : list op) (k' : BlockKey)
    (b' : Block) : comp (StorageNode T P) (Status * StorageNode T P * Status) :=
  s ← Put k b;
  run_ops os ;;
  n ← get;
  s' ← Put k' b';
  mret (s, n, s').

(** C37 (error): one mismatched block wedges a DRAM + SSD node with LRU eviction.
    [Put] accepts into an empty DRAM a block whose metadata contradicts its key,
    because only [SsdTier::Put] checks this.  From then on, whatever is stored, read
    and probed under other keys and whatever fails, the block stays in DRAM as the
    next victim, and every [Put] under another key that would fit into DRAM but needs
    room is refused, with [kInvalidArgument] unless memory runs out first, although that
    block may be perfectly valid. *)
Theorem mismatched_block_wedges_dram {D : Type} `{LevelDBLaws D} (n : StorageNode (AnyTier D) Lru.LruEviction)
    (d : DramTier.DramTier) (ssd : SsdTier.SsdTier D) (p : Lru.LruEviction)
    (k k' : BlockKey) (b b' : Block) (os : list op)
    (Hn : node_inv n) (Hr : ready_ n = true) (Ht : tiers_ n = [Some (Dram d); Some (Ssd ssd)])
    (He : eviction_ n = Some p) (Hempty : DramTier.store_ d = ∅)
    (Hw : storable k b) (Hfit : fits_dram b n) (Hbad : mismatched k b)
    (Hos : Forall (spares k) os) (Hne : k' <> k) (Hw' : storable k' b') :
  wp (put_then_later k b os k' b') (fun r _ =>
    let '(s, n1, s') := r in
    ok s = true ->
    held (tiers_ n1) kDram !! k = Some b
    /\ (no_room k' b' n1 -> code s' = kInvalidArgument \/ code s' = kOutOfCapacity)) n.
Proof.
  unfold put_then_later. wp_steps. eapply wp_mono; [by eapply (wp_wedging_Put k b Hbad n)|]. intros s n0 (Hn0 & Hr0 & Hw0). wp_steps.
  destruct (ok s) eqn:Es.
  - eapply wp_mono; [by apply (wp_ops_wedged k b Hbad os n0 Hn0 Hr0 (Hw0 eq_refl))|]. intros rs n1 (Hn1 & Hr1 & W1). wp_steps.
    assert (held (tiers_ n1) kDram !! k = Some b) as Hk.
    { destruct W1 as (d1 & s1 & p1 & [Ht1 _ Hd1 _ _ _]). by rewrite (held_dram n1 d1 s1 Ht1), DramTier.contents_lookup. }
    intros al. pose proof (wp_Put n1 k' b' (nk_inv _ Hn1) Hw' al) as Htot.
    destruct (Put k' b' n1 al) as [[[s' n2] al']|] eqn:E; [|done]. wp_steps. intros _. split; [done|]. intros Hno.
    exact (wp_run _ _ _ _ _ _ _ (wp_Put_no_room k b Hbad k' Hne n1 b' (nk_inv _ Hn1) Hr1 W1 Hno) E).
  - assert (Forall op_wf os) as Hos' by (eapply Forall_impl; [exact Hos|]; by intros o [Ho _]).
    eapply wp_mono; [by apply (refines_ops AnyTier_kinds)|]. intros rs n1 [Hn1 _]. wp_steps.
    eapply wp_mono; [apply wp_Put; [apply Hn1|done]|]. intros s' n2 _. wp_steps. by rewrite Es.
Qed.

(** ** An overwritten block and a restart *)

(** A new process opens the database and reads a key. *)
Definition open_then_get {T P} `{Tier T} `{EvictionPolicy P} (k : BlockKey) (dst : MutableBuffer)
  : comp (StorageNode T P) (Status * (Status * MutableBuffer * BlockView)) :=
  s ← Open;
  x ← Get k dst true;
  mret (s, x).

(** The process ends; one with an empty DRAM starts on what is on the disk. *)
Definition restarted {D P : Type} (id path : string) (cap : Z) (disk : D) (ev : option P) : StorageNode (AnyTier D) P :=
  make id [Some (Dram (DramTier.make cap)); Some (Ssd (SsdTier.make path disk))] ev.

(** C38 (error): a superseded block comes back after a restart.  When the SSD tier
    has a record of a key, because the key was demoted, whether or not it was
    promoted again, a successful [Put] of that key that fits into DRAM makes the
    node serve the new block and leaves the record as it is: a process that starts on
    the same database, with any capacity and any policy, serves the old block once
    it has opened, and its reads that succeed return the old payload. *)
Theorem superseded_block_after_restart {D P P' : Type} `{LevelDBLaws D} `{EvictionPolicyLaws P} `{EvictionPolicyLaws P'}
    (n : StorageNode (AnyTier D) P) (k : BlockKey) (b old : Block) (dst : MutableBuffer)
    (id path : string) (cap : Z) (ev : option P')
    (Hn : node_inv n) (Hr : ready_ n = true) (Hw : storable k b) (Hfit : fits_dram b n)
    (Hold : held (tiers_ n) kSsd !! k = Some old) (Hcap : u64 cap)
    (Hev : forall p, ev = Some p -> ep_inv p /\ ep_reserved p = None /\ ep_resident p = ∅) :
  wp (Put k b) (fun s n1 => ok s = true ->
    serves n1 k = Some b
    /\ exists t, tier_of (tiers_ n1) kSsd = Some (Ssd t)
       /\ wp (open_then_get k dst) (fun r n2 =>
            let '(opened, (st, dst', v)) := r in
            ok opened = true ->
            serves n2 k = Some old
            /\ (ok st = true -> view_bytes dst' v = data old /\ bv_metadata v = metadata old))
           (restarted id path cap (SsdTier.disk t) ev)) n.
Proof.
  eapply wp_mono; [by apply wp_Put_written|]. intros s n1 [[R1 _ _ R4 _] Hput] Hs. rewrite Hs in R4. split; [done|].
  destruct (Hput Hfit Hs) as [_ Hcold]. rewrite Hold in Hcold.
  assert (exists t, tier_of (tiers_ n1) kSsd = Some (Ssd t) /\ SsdTier.contents t !! k = Some old) as (t & Et & Hk).
  { unfold held in Hcold. destruct (tier_of (tiers_ n1) kSsd) as [t|] eqn:Et; cbn in Hcold; [|by rewrite lookup_empty in Hcold].
    pose proof Et as Ety. apply tier_of_Some in Ety as [i Hi%tier_at_type]. destruct t as [t|t]; [done|]. by exists t. }
  exists t. split; [done|]. unfold open_then_get. wp_steps.
  pose proof (dram_ssd_fresh cap (SsdTier.make path (SsdTier.disk t)) ev Hcap (SsdTier.ssd_inv_make path _) Hev) as Hf.
  destruct (fresh_ok id _ _ Hf) as [Hi _]. eapply wp_mono; [by apply wp_Open|]. intros so n2 ([L1 _ _ _ _ _] & _ & HQ). wp_steps.
  eapply wp_mono; [apply wp_Get; [done|apply Hw]|]. intros [[st dst'] v] n3 [G1 G2 _ _ _ _]. cbn [fst snd] in *. wp_steps.
  intros Ho. assert (serves n2 k = Some old) as Hsv.
  { rewrite HQ by done. unfold SsdTier.contents in Hk. cbn. unfold SsdTier.contents. cbn. by rewrite Hk. }
  split; [by rewrite (ps_serves _ _ G1)|]. intros Hst. destruct (G2 Hst) as (_ & b' & Hb & Hm & _ & Hv & _).
  rewrite Hsv in Hb. by injection Hb as <-.
Qed.

(** ** Concrete runs *)

(** The metadata names model 9, the key model 7. *)
Definition foreign_block : Block := mkBlock (mkBlockMetadata 1 4 2 8 5 9) [Byte.x01; Byte.x02].

Definition ex_other_calls : list op :=
  [OpPut (ex_key 2) (ex_block 2); OpProbe (ex_key 1); OpGet (ex_key 2) ex_dst true].

Lemma ex_opened : node_inv (ex_after [OpOpen]) /\ ready_ (ex_after [OpOpen]) = true.
Proof. split; [apply ex_ok; repeat constructor|vm_compute; reflexivity]. Qed.

Lemma ex_opened_parts : exists d ssd p, tiers_ (ex_after [OpOpen]) = [Some (Dram d); Some (Ssd ssd)]
  /\ eviction_ (ex_after [OpOpen]) = Some p /\ DramTier.store_ d = ∅ /\ capacity_bytes (DramTier.stats_ d) = 4.
Proof. vm_compute. do 3 eexists. split_and!; reflexivity. Qed.

Lemma ex_fits_in (n : ex_state) d ssd b :
  tiers_ n = [Some (Dram d); Some (Ssd ssd)] -> size_bytes b <= capacity_bytes (DramTier.stats_ d) -> fits_dram b n.
Proof. intros Ht Hb. exists (Dram d). rewrite Ht. split; [split; [cbn; by rewrite decide_True|done]|by right]. Qed.

(** [no_room], evaluated. *)
Definition no_roomb (k : BlockKey) (b : Block) (n : ex_state) : bool :=
  match tiers_ n with
  | Some (Dram d) :: _ =>
      negb (capacity_bytes (DramTier.stats_ d) =? 0) && (size_bytes b <=? capacity_bytes (DramTier.stats_ d))
      && (capacity_bytes (DramTier.stats_ d) <? total_bytes (<[k := b]> (DramTier.contents d)))
  | _ => false
  end.

Lemma no_roomb_ok k b (n : ex_state) : no_roomb k b n = true -> no_room k b n.
Proof.
  unfold no_roomb, no_room, tier_of. destruct (tiers_ n) as [|[[d|s]|] rest]; try done. intros Hb. boolZ.
  exists (Dram d). split_and!; first [done|lia].
Qed.

Definition outcome_of (b : Block) : option (StatusCode * bool * StatusCode) :=
  match put_then_later (ex_key 1) b ex_other_calls (ex_key 3) (ex_block 3) (ex_after [OpOpen]) [] with
  | Done (s, n1, s', _, _) => Some (code s, no_roomb (ex_key 3) (ex_block 3) n1, code s')
  | Terminated => None
  end.

(** With a valid first block the same calls all succeed. *)
Lemma mismatched_block_wedges_dram_witness :
  outcome_of foreign_block = Some (kOk, true, kInvalidArgument)
  /\ outcome_of (ex_block 1) = Some (kOk, true, kOk)
  /\ wp (put_then_later (ex_key 1) foreign_block ex_other_calls (ex_key 3) (ex_block 3)) (fun r _ =>
       let '(s, n1, s') := r in
       ok s = true -> no_roomb (ex_key 3) (ex_block 3) n1 = true -> code s' = kInvalidArgument \/ code s' = kOutOfCapacity)
     (ex_after [OpOpen]).
Proof.
  split; [vm_compute; reflexivity|]. split; [vm_compute; reflexivity|].
  destruct ex_opened as [Hn Hr]. destruct ex_opened_parts as (d & ssd & p & Ht & He & Hd & Hc). eapply wp_mono.
  - apply (mismatched_block_wedges_dram (ex_after [OpOpen]) d ssd p (ex_key 1) (ex_key 3) foreign_block (ex_block 3)
      ex_other_calls Hn Hr Ht He Hd).
    + repeat split; vm_compute; done.
    + eapply ex_fits_in; [exact Ht|]. rewrite Hc. done.
    + reflexivity.
    + repeat apply Forall_cons_2; [..|by apply Forall_nil]; (split; [|done]).
      * apply ex_storable. lia.
      * repeat split; vm_compute; done.
      * repeat split; vm_compute; done.
    + done.
    + apply ex_storable. lia.
  - intros [[s n1] s'] n2 HQ Hs Hno. apply HQ; [exact Hs|exact (no_roomb_ok _ _ _ Hno)].
Defined.

(** The block of key 1 was demoted and promoted again. *)
Definition ex_promoted : list op := ex_ops ++ [OpGet (ex_key 1) ex_dst true].

Lemma superseded_block_after_restart_witness :
  match Locate (ex_key 1) (ex_after ex_promoted) with Value loc => tier loc = kDram | Error _ => False end
  /\ match open_then_get (ex_key 1) ex_dst
           (restarted "node-0" "/var/tidepool" 4
              (match tiers_ (ex_after (ex_promoted ++ [OpPut (ex_key 1) (ex_block 4)])) with
               | [_; Some (Ssd t)] => SsdTier.disk t
               | _ => SsdTier.mkMemDb ∅
               end) (Some Lru.empty)) [] with
     | Done (s, (st, dst', v), _, _) => s = Ok /\ st = Ok /\ view_bytes dst' v = data (ex_block 1)
     | Terminated => False
     end
  /\ wp (Put (ex_key 1) (ex_block 4)) (fun s n1 => ok s = true ->
       exists t, tier_of (tiers_ n1) kSsd = Some (Ssd t)
         /\ wp (open_then_get (ex_key 1) ex_dst) (fun r n2 =>
              let '(opened, _) := r in ok opened = true -> serves n2 (ex_key 1) = Some (ex_block 1))
             (restarted "node-0" "/var/tidepool" 4 (SsdTier.disk t) (Some Lru.empty))) (ex_after ex_promoted).
Proof.
  split; [vm_compute; reflexivity|]. split; [vm_compute; split_and!; reflexivity|]. eapply wp_mono.
  - apply (superseded_block_after_restart (ex_after ex_promoted) (ex_key 1) (ex_block 4) (ex_block 1) ex_dst
      "node-0" "/var/tidepool" 4 (Some Lru.empty)).
    + apply ex_ok, Forall_app. split; [exact ex_ops_wf|]. apply Forall_cons_2; [apply ex_storable; lia|by apply Forall_nil].
    + vm_compute. reflexivity.
    + repeat split; vm_compute; done.
    + assert (exists d ssd, tiers_ (ex_after ex_promoted) = [Some (Dram d); Some (Ssd ssd)]
              /\ capacity_bytes (DramTier.stats_ d) = 4) as (d & ssd & Ht & Hc)
        by (vm_compute; do 2 eexists; split; reflexivity).
      eapply ex_fits_in; [exact Ht|]. rewrite Hc. done.
    + vm_compute. reflexivity.
    + split; lia.
    + exact ex_policy.
  - intros s n1 HQ Hs. destruct (HQ Hs) as (_ & t & Et & Hopen). exists t. split; [exact Et|].
    eapply wp_mono; [exact Hopen|]. intros [opened [[st dst'] v]] n2 HQ' Ho. apply HQ', Ho.
Defined.
