(* ===== verification/SsdStub.v ===== *)
(** * The build without LevelDB

    [src/store/tier/ssd/ssd_tier.cpp] compiled with [TIDEPOOL_WITH_LEVELDB] off,
    the default of the build: the [#else] branches.  The tier never becomes ready
    and refuses every call, so a storage node that was given one never opens. *)

From S2P Require Import Prelude Api BlockKeys EvictionPolicy LocalIndex Tier DramTier StorageNode NodeInv NodeSpec.

Module SsdStub.

(** [db_] stays null: nothing assigns it. *)
Record SsdTier : Type := mkSsd { db_path_ : string; stats_ : TierStats }.

Definition make (db_path : string) : SsdTier := mkSsd db_path (mkTierStats 0 0 0 0 0 0 0 0).

Definition Open : comp SsdTier Status := mret (NotImplemented "SsdTier requires -DTIDEPOOL_WITH_LEVELDB=ON").
Definition Close : comp SsdTier Status := mret Ok.
Definition IsReady (s : SsdTier) : bool := false.

Definition Probe (k : BlockKey) : comp SsdTier (Result BlockInfo) :=
  mret (Error (NotImplemented "SsdTier::Probe requires -DTIDEPOOL_WITH_LEVELDB=ON")).

Definition Put (k : BlockKey) (b : Block) : comp SsdTier (Result Z) :=
  mret (Error (NotImplemented "SsdTier::Put requires -DTIDEPOOL_WITH_LEVELDB=ON")).

Definition Get (k : BlockKey) (dst : MutableBuffer) (out : bool) : comp SsdTier (Status * MutableBuffer * BlockView) :=
  let refuse (s : Status) := mret (s, dst, BlockView_default) in
  if negb out then refuse (InvalidArgument "SsdTier::Get: out is null")
  else if bool_decide (mb_data dst = None) && negb (mb_capacity dst =? 0) then
    refuse (InvalidArgument "SsdTier::Get: dst.data is null with non-zero capacity")
  else refuse (NotImplemented "SsdTier::Get requires -DTIDEPOOL_WITH_LEVELDB=ON").

Definition Evict (k : BlockKey) : comp SsdTier Status :=
  mret (NotImplemented "SsdTier::Evict requires -DTIDEPOOL_WITH_LEVELDB=ON").

Definition ValidateEraseExisting (k : BlockKey) (s : SsdTier) : Status :=
  NotImplemented "SsdTier does not support volatile commit erasure".

Definition EraseExisting (k : BlockKey) : comp SsdTier unit := terminate.

Definition VisitEntries (V : Type) (visitor : BlockKey -> BlockInfo -> comp V Status) : comp (SsdTier * V) Status :=
  mret (NotImplemented "SsdTier::VisitEntries requires -DTIDEPOOL_WITH_LEVELDB=ON").

Definition Stats (s : SsdTier) : TierStats := stats_ s.

#[global] Instance SsdStub_tier : Tier SsdTier := {|
  tier_type := fun _ => kSsd;
  tier_Open := Open;
  tier_Close := Close;
  tier_IsReady := IsReady;
  tier_Probe := Probe;
  tier_Put := Put;
  tier_Get := Get;
  tier_Evict := Evict;
  tier_ValidateEraseExisting := ValidateEraseExisting;
  tier_EraseExisting := EraseExisting;
  tier_VisitEntries := VisitEntries;
  tier_Stats := Stats
|}.
End SsdStub.

(** ** A node on DRAM and the stub *)

Section sum.
Context {T U : Type} `{Tier T} `{Tier U}.

(** The virtual call, for two classes of tiers. *)
Definition either_tier {A} (m : comp T A) (m' : comp U A) : comp (T + U) A := fun s al =>
  match s with
  | inl t => match m t al with Done (a, t', al') => Done (a, inl t', al') | Terminated => Terminated end
  | inr t => match m' t al with Done (a, t', al') => Done (a, inr t', al') | Terminated => Terminated end
  end.

Definition either_visit {V} (visitor : BlockKey -> BlockInfo -> comp V Status) : comp ((T + U) * V) Status := fun s al =>
  match s with
  | (inl t, v) =>
      match tier_VisitEntries V visitor (t, v) al with
      | Done (a, tv, al') => Done (a, (inl tv.1, tv.2), al')
      | Terminated => Terminated
      end
  | (inr t, v) =>
      match tier_VisitEntries V visitor (t, v) al with
      | Done (a, tv, al') => Done (a, (inr tv.1, tv.2), al')
      | Terminated => Terminated
      end
  end.

#[export] Instance sum_tier : Tier (T + U) := {|
  tier_type := fun s => match s with inl t => tier_type t | inr t => tier_type t end;
  tier_Open := either_tier tier_Open tier_Open;
  tier_Close := either_tier tier_Close tier_Close;
  tier_IsReady := fun s => match s with inl t => tier_IsReady t | inr t => tier_IsReady t end;
  tier_Probe := fun k => either_tier (tier_Probe k) (tier_Probe k);
  tier_Put := fun k b => either_tier (tier_Put k b) (tier_Put k b);
  tier_Get := fun k dst out => either_tier (tier_Get k dst out) (tier_Get k dst out);
  tier_Evict := fun k => either_tier (tier_Evict k) (tier_Evict k);
  tier_ValidateEraseExisting := fun k s =>
    match s with inl t => tier_ValidateEraseExisting k t | inr t => tier_ValidateEraseExisting k t end;
  tier_EraseExisting := fun k => either_tier (tier_EraseExisting k) (tier_EraseExisting k);
  tier_VisitEntries := fun V visitor => either_visit visitor;
  tier_Stats := fun s => match s with inl t => tier_Stats t | inr t => tier_Stats t end
|}.
End sum.

(** What such a node answers. *)
Definition refused (o : op) (r : reply) : Prop :=
  match o, r with
  | OpOpen, RStatus s => code s = kNotImplemented
  | OpClose, RStatus s => s = Ok
  | OpPut _ _, RStatus s => code s = kUnavailable
  | OpGet _ dst _, RView s dst' v => code s = kUnavailable /\ dst' = dst /\ v = BlockView_default
  | OpProbe _, RInfo (Error s) => code s = kUnavailable
  | _, _ => False
  end.

Definition default_node {P} (id : string) (cap : Z) (path : string) (ev : option P)
  : StorageNode.StorageNode (DramTier.DramTier + SsdStub.SsdTier) P :=
  StorageNode.make id [Some (inl (DramTier.make cap)); Some (inr (SsdStub.make path))] ev.

Lemma default_node_refuses {P} `{EvictionPolicy P} id cap path (ev : option P) o al :
  exists r, run_op o (default_node id cap path ev) al = Done (r, default_node id cap path ev, al) /\ refused o r.
Proof. by destruct o; eexists. Qed.

(** The default build has no SSD tier.  Compiled without LevelDB, a node
    that was given an SSD tier answers every [Open] with [kNotImplemented], after
    rolling back the tiers it had opened, and every [Put], [Get] and [Probe] with
    [kUnavailable]; no sequence of calls changes its state or stores anything. *)
Lemma default_build_refuses {P : Type} `{EvictionPolicy P} (id : string) (cap : Z) (path : string) (ev : option P)
    (os : list op) (al : Alloc) :
  exists rs, run_ops os (default_node id cap path ev) al = Done (rs, default_node id cap path ev, al) /\ Forall2 refused os rs.
Proof.
  induction os as [|o os (rs & E & Hrs)]; [by exists []|]. destruct (default_node_refuses id cap path ev o al) as (r & Er & Hr).
  exists (r :: rs). split; [|by constructor]. cbn [run_ops]. unfold mbind, comp_bind. by rewrite Er, E.
Qed.
