(* ===== verification/Factory.v ===== *)
(** * Store factories

    [include/tidepool/store/factory.h]: how applications build the parts of a
    storage node without naming their classes.  A [std::unique_ptr<EvictionPolicy>]
    is a sum of the three policies, as [AnyTier] is of the two tiers; the contract
    of the interface holds for it because it holds for each. *)

From S2P Require Import Prelude Api BlockKeys EvictionPolicy Lru Arc CostAware LocalIndex Tier DramTier SsdTier AnyTier.
From S2P Require Import StorageNode NodeInv NodePut NodeGet NodeOpen NodeSpec NodeTheorems.

(** ** Dynamic dispatch *)

Inductive AnyPolicy : Type :=
| LruPolicy (p : Lru.LruEviction)
| ArcPolicy (p : Arc.ArcEviction)
| CostAwarePolicy (p : CostAware.CostAwareEviction).

(** The virtual call. *)
Definition call_policy {A} (m1 : comp Lru.LruEviction A) (m2 : comp Arc.ArcEviction A)
    (m3 : comp CostAware.CostAwareEviction A) : comp AnyPolicy A := fun s al =>
  match s with
  | LruPolicy p => match m1 p al with Done (a, p', al') => Done (a, LruPolicy p', al') | Terminated => Terminated end
  | ArcPolicy p => match m2 p al with Done (a, p', al') => Done (a, ArcPolicy p', al') | Terminated => Terminated end
  | CostAwarePolicy p =>
      match m3 p al with Done (a, p', al') => Done (a, CostAwarePolicy p', al') | Terminated => Terminated end
  end.

Definition view_policy {A} (f1 : Lru.LruEviction -> A) (f2 : Arc.ArcEviction -> A) (f3 : CostAware.CostAwareEviction -> A)
    (s : AnyPolicy) : A :=
  match s with
  | LruPolicy p => f1 p
  | ArcPolicy p => f2 p
  | CostAwarePolicy p => f3 p
  end.

#[export] Instance AnyPolicy_policy : EvictionPolicy AnyPolicy := {|
  ep_OnAccess := fun k => call_policy (ep_OnAccess k) (ep_OnAccess k) (ep_OnAccess k);
  ep_OnInsert := fun k n => call_policy (ep_OnInsert k n) (ep_OnInsert k n) (ep_OnInsert k n);
  ep_OnPromotionCommitted := fun k n =>
    call_policy (ep_OnPromotionCommitted k n) (ep_OnPromotionCommitted k n) (ep_OnPromotionCommitted k n);
  ep_OnRemove := fun k => call_policy (ep_OnRemove k) (ep_OnRemove k) (ep_OnRemove k);
  ep_SelectVictim := fun ex => call_policy (ep_SelectVictim ex) (ep_SelectVictim ex) (ep_SelectVictim ex);
  ep_ValidateVictimCommit := fun k =>
    view_policy (ep_ValidateVictimCommit k) (ep_ValidateVictimCommit k) (ep_ValidateVictimCommit k);
  ep_CommitVictim := fun k => call_policy (ep_CommitVictim k) (ep_CommitVictim k) (ep_CommitVictim k);
  ep_CancelVictim := fun k => call_policy (ep_CancelVictim k) (ep_CancelVictim k) (ep_CancelVictim k)
|}.

Lemma wp_call_policy {A} (m1 : comp Lru.LruEviction A) m2 m3 (Q : A -> AnyPolicy -> Prop) s :
  match s with
  | LruPolicy p => wp m1 (fun a p' => Q a (LruPolicy p')) p
  | ArcPolicy p => wp m2 (fun a p' => Q a (ArcPolicy p')) p
  | CostAwarePolicy p => wp m3 (fun a p' => Q a (CostAwarePolicy p')) p
  end -> wp (call_policy m1 m2 m3) Q s.
Proof.
  intros Hw al. destruct s as [p|p|p]; specialize (Hw al); unfold call_policy;
    [destruct (m1 p al) as [[[a p'] al']|]|destruct (m2 p al) as [[[a p'] al']|]|destruct (m3 p al) as [[[a p'] al']|]]; done.
Qed.

#[export] Instance AnyPolicy_laws : EvictionPolicyLaws AnyPolicy.
Proof.
  refine {| ep_inv := view_policy ep_inv ep_inv ep_inv;
            ep_resident := view_policy ep_resident ep_resident ep_resident;
            ep_reserved := view_policy ep_reserved ep_reserved ep_reserved |};
    cbn [ep_OnAccess ep_OnInsert ep_OnPromotionCommitted ep_OnRemove ep_SelectVictim ep_ValidateVictimCommit
         ep_CommitVictim ep_CancelVictim AnyPolicy_policy].
  - intros [p|p|p] k; apply ep_reserved_resident.
  - intros [p|p|p] k Hi Hk; apply wp_call_policy; by apply ep_OnAccess_law.
  - intros [p|p|p] k n Hi; apply wp_call_policy; by apply ep_OnInsert_law.
  - intros [p|p|p] k n Hi; apply wp_call_policy; by apply ep_OnPromotionCommitted_law.
  - intros [p|p|p] k Hi; apply wp_call_policy; by apply ep_OnRemove_law.
  - intros [p|p|p] ex Hi; apply wp_call_policy; by apply ep_SelectVictim_law.
  - intros [p|p|p] k; apply ep_ValidateVictimCommit_law.
  - intros [p|p|p] k Hi Hk; apply wp_call_policy; by apply ep_CommitVictim_law.
  - intros [p|p|p] k Hi Hk; apply wp_call_policy; by apply ep_CancelVictim_law.
Defined.

(** ** The factories *)

Definition MakeLruEviction : AnyPolicy := LruPolicy Lru.empty.
Definition MakeArcEviction (capacity_blocks : Z) : AnyPolicy := ArcPolicy (Arc.make capacity_blocks).
Definition MakeCostAwareEviction : AnyPolicy := CostAwarePolicy (CostAware.mkCostAware ∅ 0).

Section tiers.
Context {D : Type} `{LevelDB D}.

Definition MakeDramTier (capacity_bytes : Z) : AnyTier D := Dram (DramTier.make capacity_bytes).

(** [disk] is what the file system holds at [db_path]. *)
Definition MakeSsdTier (db_path : string) (disk : D) : AnyTier D := Ssd (SsdTier.make db_path disk).
End tiers.

(** What an application can ask for. *)
Inductive made : AnyPolicy -> Prop :=
| made_lru : made MakeLruEviction
| made_arc c : made (MakeArcEviction c)
| made_cost_aware : made MakeCostAwareEviction.

Lemma made_fresh p : made p -> ep_inv p /\ ep_reserved p = None /\ ep_resident p = ∅.
Proof. intros [|c|]; split_and!; try done; [apply Lru.inv_empty|apply Arc.inv_make]. Qed.

Lemma assembled_fresh {D} `{LevelDBLaws D} (cap : Z) (path : string) (disk : D) (p : AnyPolicy) :
  u64 cap -> made p -> fresh [Some (MakeDramTier cap); Some (MakeSsdTier path disk)] (Some p).
Proof.
  intros Hc Hp. apply dram_ssd_fresh; [done|apply SsdTier.ssd_inv_make|]. intros q [= <-]. by apply made_fresh.
Qed.
