(* ===== verification/Float64.v ===== *)
(** * Doubles

    The binary64 arithmetic of the benchmark, on the [spec_float] of the standard
    library (round to nearest, ties to even): conversions, comparisons, [std::ceil],
    [std::min], [std::max], decimal literals and the text of [printf]'s [%.Nf].  The
    lemmas say that integers below [2^53] are exact and bound a rounded product. *)

From Stdlib Require Import SpecFloat.
From stdpp Require Import sorting.
From S2P Require Import Prelude BlockKeys.

Module F64.

Abbreviation f64 := spec_float.

(** ** Operations *)

Definition add : f64 -> f64 -> f64 := SFadd 53 1024.
Definition sub : f64 -> f64 -> f64 := SFsub 53 1024.
Definition mul : f64 -> f64 -> f64 := SFmul 53 1024.
Definition div : f64 -> f64 -> f64 := SFdiv 53 1024.

(** [a < b] *)
Definition lt : f64 -> f64 -> bool := SFltb.

Definition f_zero : f64 := S754_zero false.

(** [static_cast<double>] of an integer *)
Definition of_Z (z : Z) : f64 := binary_normalize 53 1024 z 0 false.

(** The literal [num / den], rounded once: both are exact. *)
Definition literal (num den : Z) : f64 := div (of_Z num) (of_Z den).

(** [std::min(a, b)] and [std::max(a, b)] *)
Definition min (a b : f64) : f64 := if lt b a then b else a.
Definition max (a b : f64) : f64 := if lt a b then b else a.

(** Rounded up quotient. *)
Definition cdiv (a b : Z) : Z := - ((- a) / b).

(** [std::ceil] *)
Definition ceil (x : f64) : f64 :=
  match x with
  | S754_finite s m e =>
      if 0 <=? e then x
      else
        let c := cdiv (cond_Zopp s (Zpos m)) (2 ^ (- e)) in
        if c =? 0 then S754_zero s else of_Z c
  | _ => x
  end.

(** [static_cast<size_t>]; undefined when the truncated value does not fit. *)
Definition to_u64 (x : f64) : option Z :=
  match x with
  | S754_zero _ => Some 0
  | S754_finite s m e =>
      let t := if 0 <=? e then Zpos m * 2 ^ e else Zpos m / 2 ^ (- e) in
      let v := cond_Zopp s t in
      if (0 <=? v) && (v <? 2 ^ 64) then Some v else None
  | _ => None
  end.

Definition not_nan (x : f64) : Prop := x <> S754_nan.

(** ** Text *)

(** [a / b] to the nearest integer, ties to even. *)
Definition round_div (a b : Z) : Z :=
  let q := a / b in
  match 2 * (a mod b) ?= b with
  | Lt => q
  | Gt => q + 1
  | Eq => if Z.even q then q else q + 1
  end.

(** The digits of [n / 10^d] *)
Definition decimal (d : nat) (n : Z) : chars :=
  let p := 10 ^ Z.of_nat d in
  print_unsigned 10 (n / p) ++ "."%char :: pad_zero d (print_unsigned 10 (n mod p)).

Definition sign_chars (s : bool) : chars := if s then ["-"%char] else [].

(** [m * 2^e * 10^d], rounded. *)
Definition scaled (d : nat) (m : positive) (e : Z) : Z :=
  let p := 10 ^ Z.of_nat d in
  if 0 <=? e then Zpos m * 2 ^ e * p else round_div (Zpos m * p) (2 ^ (- e)).

(** [%.Nf] for a positive [N]. *)
Definition fixed (d : nat) (x : f64) : chars :=
  match x with
  | S754_zero s => sign_chars s ++ decimal d 0
  | S754_infinity s => sign_chars s ++ ["i"; "n"; "f"]%char
  | S754_nan => ["n"; "a"; "n"]%char
  | S754_finite s m e => sign_chars s ++ decimal d (scaled d m e)
  end.

Example fixed_half : fixed 3 (literal 5 10000) = list_ascii_of_string "0.001".
Proof. vm_compute. reflexivity. Qed.

Example fixed_tie : fixed 3 (literal 125 2000) = list_ascii_of_string "0.062".
Proof. vm_compute. reflexivity. Qed.

Example literal_95 : literal 95 100 = S754_finite false 8556839292003942 (-53).
Proof. vm_compute. reflexivity. Qed.

(** ** Digits and shifts *)

Lemma digits2_log2 m : Zpos (digits2_pos m) = Z.log2 (Zpos m) + 1.
Proof.
  induction m as [m IH|m IH|]; cbn [digits2_pos]; [| |done]; rewrite Pos2Z.inj_succ, IH.
  - change (Zpos m~1) with (2 * Zpos m + 1). rewrite Z.log2_succ_double by lia. lia.
  - change (Zpos m~0) with (2 * Zpos m). rewrite Z.log2_double by lia. lia.
Qed.

Lemma Zdigits2_log2 z : 0 < z -> Zdigits2 z = Z.log2 z + 1.
Proof. destruct z; [lia|intros _; apply digits2_log2|lia]. Qed.

(** What [shr] leaves of [m] after [k] steps. *)
Definition shifted (m k : Z) : shr_record :=
  if k =? 0 then Build_shr_record m false false
  else Build_shr_record (m / 2 ^ k) (Z.odd (m / 2 ^ (k - 1))) (negb (m mod 2 ^ (k - 1) =? 0)).

Lemma shr_1_eq m r s : 0 <= m -> shr_1 (Build_shr_record m r s) = Build_shr_record (m / 2) (Z.odd m) (r || s).
Proof.
  rewrite <- Z.div2_div. by destruct m as [|[m|m|]|m]; [|..|lia].
Qed.

Lemma mod_double m k : 1 <= k -> m mod 2 ^ k = m mod 2 ^ (k - 1) + 2 ^ (k - 1) * ((m / 2 ^ (k - 1)) mod 2).
Proof. intros Hk. rewrite <- Z.rem_mul_r by lia. rewrite Z.mul_comm, <- Z.pow_succ_r by lia. do 2 f_equal. lia. Qed.

Lemma shr_1_shifted m k : 0 <= m -> 0 <= k -> shr_1 (shifted m k) = shifted m (k + 1).
Proof.
  intros Hm Hk. unfold shifted at 2. rewrite (proj2 (Z.eqb_neq (k + 1) 0)), Z.add_simpl_r by lia.
  unfold shifted. destruct (Z.eqb_spec k 0) as [->|Hne].
  - rewrite shr_1_eq by done. cbn [orb]. by rewrite Z.div_1_r, Z.mod_1_r.
  - rewrite shr_1_eq by (apply Z.div_pos; lia). rewrite Z.div_div, Z.pow_add_r by lia. f_equal.
    rewrite (mod_double m k), Zmod_odd by lia. pose proof (Z.pow_pos_nonneg 2 (k - 1)). pose proof (Z.mod_pos_bound m (2 ^ (k - 1))).
    destruct (Z.odd _), (Z.eqb_spec (m mod 2 ^ (k - 1)) 0); cbn [orb negb]; symmetry;
      [apply negb_true_iff, Z.eqb_neq|apply negb_true_iff, Z.eqb_neq|apply negb_false_iff, Z.eqb_eq|apply negb_true_iff, Z.eqb_neq]; lia.
Qed.

Lemma iter_shr m p : forall k, 0 <= m -> 0 <= k -> SpecFloat.iter_pos shr_1 p (shifted m k) = shifted m (k + Zpos p).
Proof.
  induction p as [p IH|p IH|]; intros k Hm Hk; cbn [SpecFloat.iter_pos].
  - rewrite shr_1_shifted, !IH by lia. f_equal. lia.
  - rewrite !IH by lia. f_equal. lia.
  - by apply shr_1_shifted.
Qed.

Lemma shr_exact m e k : 0 <= m -> 0 <= k -> shr (Build_shr_record m false false) e k = (shifted m k, e + k).
Proof.
  intros Hm Hk. destruct k as [|p|p]; [by cbn; rewrite Z.add_0_r| |lia]. cbn [shr].
  change (Build_shr_record m false false) with (shifted m 0). by rewrite iter_shr.
Qed.

(** Rounding a shifted mantissa: at most one unit up, and only when bits were lost. *)
Lemma round_shifted m k : 0 <= m -> 0 <= k ->
  m / 2 ^ k <= round_nearest_even (shr_m (shifted m k)) (loc_of_shr_record (shifted m k))
    <= m / 2 ^ k + (if m mod 2 ^ k =? 0 then 0 else 1).
Proof.
  intros Hm Hk. unfold shifted. destruct (Z.eqb_spec k 0) as [->|Hne]; [cbn; rewrite Z.div_1_r, Z.mod_1_r; cbn; lia|].
  rewrite (mod_double m k), Zmod_odd by lia. pose proof (Z.pow_pos_nonneg 2 (k - 1)). pose proof (Z.mod_pos_bound m (2 ^ (k - 1))) as Hb. cbn [shr_m].
  destruct (Z.odd _), (Z.eqb_spec (m mod 2 ^ (k - 1)) 0); cbn [negb loc_of_shr_record round_nearest_even];
    match goal with |- context [?a =? 0] => destruct (Z.eqb_spec a 0) end; try destruct (Z.even _); lia.
Qed.

(** A rounded quotient respects the integers on either side. *)
Lemma round_shifted_le m k n :
  0 <= m -> 0 <= k -> m <= n * 2 ^ k -> round_nearest_even (shr_m (shifted m k)) (loc_of_shr_record (shifted m k)) <= n.
Proof.
  intros Hm Hk Hn. pose proof (round_shifted m k Hm Hk) as [_ Hr]. pose proof (Z.pow_pos_nonneg 2 k).
  pose proof (Z.div_mod m (2 ^ k)) as Hd. pose proof (Z.mod_pos_bound m (2 ^ k)) as Hb.
  destruct (Z.eqb_spec (m mod 2 ^ k) 0); nia.
Qed.

Lemma round_shifted_ge m k n :
  0 <= m -> 0 <= k -> n * 2 ^ k <= m -> n <= round_nearest_even (shr_m (shifted m k)) (loc_of_shr_record (shifted m k)).
Proof.
  intros Hm Hk Hn. pose proof (round_shifted m k Hm Hk) as [Hr _].
  etrans; [|exact Hr]. apply Z.div_le_lower_bound; lia.
Qed.

(** ** Rounding *)

Abbreviation rounded m k := (round_nearest_even (shr_m (shifted m k)) (loc_of_shr_record (shifted m k))).

Lemma fexp_normal e : -1021 <= e -> fexp 53 1024 e = e - 53.
Proof. unfold fexp, emin. lia. Qed.

Lemma log2_mantissa m k : 0 < m -> 0 <= k -> Z.log2 m = 52 + k -> 2 ^ 52 * 2 ^ k <= m < 2 ^ 53 * 2 ^ k.
Proof.
  intros Hm Hk E. pose proof (Z.log2_spec m Hm) as Hs. rewrite E in Hs.
  rewrite <- !Z.pow_add_r by lia. by replace (53 + k) with (Z.succ (52 + k)) by lia.
Qed.

(** A mantissa of at least 53 bits, in the normal range. *)
Lemma round_aux_spec m e k :
  0 < m -> 0 <= k -> Z.log2 m = 52 + k -> -1074 <= e + k <= 970 ->
  exists M E, binary_round_aux 53 1024 false m e loc_Exact = S754_finite false M E
    /\ Zpos M * 2 ^ (E - (e + k)) = rounded m k /\ e + k <= E <= e + k + 1 /\ 2 ^ 52 <= Zpos M.
Proof.
  intros Hm Hk El He. destruct (log2_mantissa m k Hm Hk El) as [Hlo Hhi].
  pose proof (round_shifted_ge m k (2 ^ 52) ltac:(lia) Hk Hlo) as Rlo.
  pose proof (round_shifted_le m k (2 ^ 53) ltac:(lia) Hk ltac:(lia)) as Rhi.
  unfold binary_round_aux, shr_fexp at 1. rewrite Zdigits2_log2, fexp_normal, El by lia. cbn [shr_record_of_loc].
  replace (52 + k + 1 + e - 53 - e) with k by lia. rewrite shr_exact by lia. set (r := rounded m k) in *. clearbody r.
  unfold shr_fexp. rewrite Zdigits2_log2 by lia. cbn [shr_record_of_loc]. destruct (Z.eq_dec r (2 ^ 53)) as [->|Hne].
  - change (Z.log2 (2 ^ 53)) with 53. rewrite fexp_normal by lia. replace (53 + 1 + (e + k) - 53 - (e + k)) with 1 by lia.
    rewrite shr_exact by lia. cbn [shifted Z.eqb shr_m]. change (2 ^ 53 / 2 ^ 1) with (Zpos (2 ^ 52)).
    rewrite (proj2 (Z.leb_le _ _)) by lia. eexists _, _. split; [done|]. split; [|lia].
    replace (e + k + 1 - (e + k)) with 1 by lia. reflexivity.
  - assert (Z.log2 r = 52) as -> by (apply Z.log2_unique; [lia|change (2 ^ Z.succ 52) with (2 ^ 53); lia]).
    rewrite fexp_normal by lia. replace (52 + 1 + (e + k) - 53 - (e + k)) with 0 by lia. cbn [shr shr_m].
    destruct r as [|p|p]; [lia| |lia]. rewrite (proj2 (Z.leb_le _ _)) by lia. eexists _, _. split; [done|].
    rewrite Z.sub_diag, Z.mul_1_r. split; [done|lia].
Qed.

(** ** Integers *)

(** The double of an integer in [[1, 2^53)]. *)
Definition fint (v : Z) : f64 := S754_finite false (Z.to_pos (v * 2 ^ (52 - Z.log2 v))) (Z.log2 v - 52).

Lemma log2_small v : 1 <= v < 2 ^ 53 -> 0 <= Z.log2 v <= 52.
Proof.
  intros Hv. split; [apply Z.log2_nonneg|]. apply Z.lt_succ_r, Z.log2_lt_pow2; [lia|]. change (2 ^ Z.succ 52) with (2 ^ 53). lia.
Qed.

Lemma fint_mantissa v : 1 <= v < 2 ^ 53 -> 2 ^ 52 <= v * 2 ^ (52 - Z.log2 v) < 2 ^ 53.
Proof.
  intros Hv. destruct (log2_small v Hv). pose proof (Z.log2_spec v ltac:(lia)) as [H1 H2].
  replace (2 ^ 52) with (2 ^ Z.log2 v * 2 ^ (52 - Z.log2 v)) by (rewrite <- Z.pow_add_r by lia; f_equal; lia).
  replace (2 ^ 53) with (2 ^ Z.succ (Z.log2 v) * 2 ^ (52 - Z.log2 v)) by (rewrite <- Z.pow_add_r by lia; f_equal; lia).
  pose proof (Z.pow_pos_nonneg 2 (52 - Z.log2 v)). nia.
Qed.

(** A mantissa whose value is an integer below [2^53] rounds to that integer. *)
Lemma round_aux_exact M k e :
  2 ^ 52 <= M < 2 ^ 53 -> 0 <= k -> -1074 <= e + k <= 970 ->
  binary_round_aux 53 1024 false (M * 2 ^ k) e loc_Exact = S754_finite false (Z.to_pos M) (e + k).
Proof.
  intros HM Hk He. pose proof (Z.pow_pos_nonneg 2 k ltac:(lia) Hk). assert (0 < M * 2 ^ k) as Hpos by nia.
  assert (Z.log2 M = 52) as El by (apply Z.log2_unique; [lia|change (2 ^ Z.succ 52) with (2 ^ 53); lia]).
  destruct (round_aux_spec (M * 2 ^ k) e k) as (M' & E & -> & HV & HE & HM'); try done.
  { rewrite Z.log2_mul_pow2 by lia. lia. }
  pose proof (round_shifted (M * 2 ^ k) k ltac:(lia) Hk) as Hr. rewrite Z.div_mul, Z.mod_mul in Hr by lia. cbn [Z.eqb] in Hr.
  rewrite <- HV in Hr. clear HV. assert (E - (e + k) = 0 \/ E - (e + k) = 1) as [Ee|Ee] by lia; rewrite Ee in Hr.
  - f_equal; [|lia]. change (2 ^ 0) with 1 in Hr. lia.
  - exfalso. change (2 ^ 1) with 2 in Hr. lia.
Qed.

Lemma iter_xO m p : Zpos (Pos.iter xO m p) = Zpos m * 2 ^ Zpos p.
Proof.
  induction p as [|p IH] using Pos.peano_ind; [cbn; lia|].
  rewrite Pos.iter_succ, Pos2Z.inj_succ, Z.pow_succ_r by lia. change (Zpos (Pos.iter xO m p)~0) with (2 * Zpos (Pos.iter xO m p)). lia.
Qed.

Lemma shl_align_down m e e' : e' <= e -> Zpos (shl_align m e e').1 = Zpos m * 2 ^ (e - e').
Proof.
  intros He. unfold shl_align. destruct (e' - e) as [|p|p] eqn:E; [| |]; [|lia|]; cbn [fst].
  - replace (e - e') with 0 by lia. lia.
  - rewrite iter_xO. do 2 f_equal. lia.
Qed.

Lemma round_exact m v k :
  1 <= v < 2 ^ 53 -> 0 <= k <= 1000 -> Zpos m = v * 2 ^ k -> binary_round 53 1024 false m (- k) = fint v.
Proof.
  intros Hv Hk Em. destruct (log2_small v Hv) as [Hl0 Hl]. pose proof (fint_mantissa v Hv) as HM. unfold fint.
  unfold binary_round. rewrite digits2_log2, Em, Z.log2_mul_pow2 by lia. rewrite fexp_normal by lia.
  replace (k + Z.log2 v + 1 + - k - 53) with (Z.log2 v - 52) by lia.
  destruct (Z.le_gt_cases (Z.log2 v - 52) (- k)) as [Hle|Hgt].
  - destruct (shl_align m (- k) (Z.log2 v - 52)) as [mz ez] eqn:Es.
    assert (ez = Z.log2 v - 52) as -> by (revert Es; unfold shl_align; case_match; intros [= <- <-]; lia).
    pose proof (shl_align_down m (- k) (Z.log2 v - 52) Hle) as Hz. rewrite Es in Hz. cbn [fst] in Hz.
    rewrite Hz, Em, <- Z.mul_assoc, <- Z.pow_add_r by lia. replace (k + (- k - (Z.log2 v - 52))) with (52 - Z.log2 v) by lia.
    pose proof (round_aux_exact (v * 2 ^ (52 - Z.log2 v)) 0 (Z.log2 v - 52) HM) as Hr. rewrite Z.mul_1_r, Z.add_0_r in Hr. apply Hr; lia.
  - unfold shl_align. destruct (Z.log2 v - 52 - - k) as [|p|p] eqn:Ep; [lia| |lia].
    rewrite Em. replace k with ((52 - Z.log2 v) + (k - (52 - Z.log2 v))) at 1 by lia. rewrite Z.pow_add_r, Z.mul_assoc by lia.
    rewrite round_aux_exact by lia. f_equal. lia.
Qed.

Lemma normalize_exact v k : 1 <= v < 2 ^ 53 -> 0 <= k <= 1000 -> binary_normalize 53 1024 (v * 2 ^ k) (- k) false = fint v.
Proof.
  intros Hv Hk. pose proof (Z.pow_pos_nonneg 2 k). destruct (v * 2 ^ k) as [|p|p] eqn:E; [nia| |nia]. cbn [binary_normalize]. by apply round_exact.
Qed.

Lemma of_Z_fint v : 1 <= v < 2 ^ 53 -> of_Z v = fint v.
Proof. intros Hv. unfold of_Z. rewrite <- (Z.mul_1_r v) at 1. by apply (normalize_exact v 0). Qed.

Lemma sub_fint a b : 1 <= b <= a -> a < 2 ^ 53 -> sub (fint a) (fint b) = of_Z (a - b).
Proof.
  intros Hb Ha. destruct (log2_small a ltac:(lia)), (log2_small b ltac:(lia)).
  pose proof (fint_mantissa a ltac:(lia)). pose proof (fint_mantissa b ltac:(lia)).
  unfold sub, fint, SFsub. set (ez := Z.min (Z.log2 a - 52) (Z.log2 b - 52)).
  cbn [cond_Zopp]. rewrite !shl_align_down, !Z2Pos.id by lia. rewrite <- !Z.mul_assoc, <- !Z.pow_add_r by lia.
  replace (52 - Z.log2 a + _) with (- ez) by lia. replace (52 - Z.log2 b + _) with (- ez) by lia. rewrite <- Z.mul_sub_distr_r.
  destruct (Z.eq_dec a b) as [->|Hne]; [by rewrite Z.sub_diag|].
  rewrite of_Z_fint by lia. replace ez with (- - ez) at 2 by lia. apply normalize_exact; lia.
Qed.

Lemma lt_fint a b : 1 <= a < 2 ^ 53 -> 1 <= b < 2 ^ 53 -> lt (fint a) (fint b) = (a <? b).
Proof.
  intros Ha Hb. destruct (log2_small a Ha), (log2_small b Hb).
  pose proof (fint_mantissa a Ha) as HA. pose proof (fint_mantissa b Hb) as HB.
  unfold lt, fint, SFltb, SFcompare. destruct (Z.compare_spec (Z.log2 a - 52) (Z.log2 b - 52)) as [E|E|E].
  - change (Pos.compare_cont Eq) with Pos.compare. replace (Z.log2 b) with (Z.log2 a) in * by lia.
    pose proof (Z.pow_pos_nonneg 2 (52 - Z.log2 a)).
    assert (forall x y, 0 < x -> 0 < y -> Pos.compare (Z.to_pos x) (Z.to_pos y) = Z.compare x y) as -> by (intros [] []; done || lia).
    + unfold Z.ltb. rewrite (Zmult_compare_compat_r a b (2 ^ (52 - Z.log2 a))) by lia. by destruct (_ ?= _).
    + lia.
    + lia.
  - symmetry. apply Z.ltb_lt, Z.log2_lt_cancel. lia.
  - symmetry. apply Z.ltb_ge, Z.lt_le_incl, Z.log2_lt_cancel. lia.
Qed.

Lemma to_u64_fint v : 1 <= v < 2 ^ 53 -> to_u64 (fint v) = Some v.
Proof.
  intros Hv. destruct (log2_small v Hv). pose proof (fint_mantissa v Hv). unfold fint, to_u64, cond_Zopp.
  pose proof (Z.pow_pos_nonneg 2 (52 - Z.log2 v)).
  assert ((if 0 <=? Z.log2 v - 52 then Zpos (Z.to_pos (v * 2 ^ (52 - Z.log2 v))) * 2 ^ (Z.log2 v - 52)
    else Zpos (Z.to_pos (v * 2 ^ (52 - Z.log2 v))) / 2 ^ (- (Z.log2 v - 52))) = v) as ->.
  { rewrite Z2Pos.id by lia. destruct (Z.leb_spec 0 (Z.log2 v - 52)).
    - replace (Z.log2 v) with 52 by lia. change (2 ^ (52 - 52)) with 1. lia.
    - replace (- (Z.log2 v - 52)) with (52 - Z.log2 v) by lia. apply Z.div_mul. lia. }
  rewrite (proj2 (Z.leb_le _ _)), (proj2 (Z.ltb_lt _ _)) by lia. done.
Qed.

Lemma lt_of_Z a b : 0 <= a < 2 ^ 53 -> 0 <= b < 2 ^ 53 -> lt (of_Z a) (of_Z b) = (a <? b).
Proof.
  intros Ha Hb. destruct (Z.eq_dec a 0) as [->|Ha0], (Z.eq_dec b 0) as [->|Hb0]; [done|..].
  - rewrite (of_Z_fint b) by lia. symmetry. apply Z.ltb_lt. lia.
  - rewrite (of_Z_fint a) by lia. symmetry. apply Z.ltb_ge. lia.
  - rewrite !of_Z_fint by lia. apply lt_fint; lia.
Qed.

Lemma to_u64_of_Z v : 0 <= v < 2 ^ 53 -> to_u64 (of_Z v) = Some v.
Proof. intros Hv. destruct (Z.eq_dec v 0) as [->|Hv0]; [done|]. rewrite of_Z_fint by lia. apply to_u64_fint. lia. Qed.

Lemma sub_of_Z a b : 1 <= b <= a -> a < 2 ^ 53 -> sub (of_Z a) (of_Z b) = of_Z (a - b).
Proof. intros Hb Ha. rewrite (of_Z_fint a), (of_Z_fint b) by lia. by apply sub_fint. Qed.

Lemma min_of_Z a b : 0 <= a < 2 ^ 53 -> 0 <= b < 2 ^ 53 -> min (of_Z a) (of_Z b) = of_Z (Z.min a b).
Proof. intros Ha Hb. unfold min. rewrite lt_of_Z by done. destruct (Z.ltb_spec b a); f_equal; lia. Qed.

(** ** A quantile of a count *)

Lemma cdiv_unique a b c : 0 < b -> (c - 1) * b < a <= c * b -> cdiv a b = c.
Proof.
  intros Hb Ha. unfold cdiv. assert (- c = (- a) / b); [|lia].
  apply (Z.div_unique (- a) b (- c) (- a - b * - c)); [left|]; lia.
Qed.

(** The product of a double in [[1/2, 1)] and a count, rounded, then rounded up:
    when the double is [num / 100] rounded down and the count is below [2^44], this
    is [num * n / 100] rounded up, as if nothing had been rounded on the way. *)
Lemma ceil_mul_quantile mq num n :
  2 ^ 52 <= Zpos mq < 2 ^ 53 -> 100 * Zpos mq <= num * 2 ^ 53 < 100 * Zpos mq + 100 -> 1 <= n < 2 ^ 44 ->
  ceil (mul (S754_finite false mq (-53)) (of_Z n)) = of_Z ((num * n + 99) / 100).
Proof.
  intros Hmq Hq Hn. set (K := (num * n + 99) / 100).
  assert (100 * (K - 1) < num * n <= 100 * K) as HK by (unfold K; Z.to_euclidean_division_equations; lia).
  destruct (log2_small n ltac:(lia)) as [Hl0 _]. pose proof (fint_mantissa n ltac:(lia)) as HM.
  assert (Z.log2 n <= 43) as Hl by (apply Z.lt_succ_r, Z.log2_lt_pow2; [lia|]; change (2 ^ Z.succ 43) with (2 ^ 44); lia).
  assert (2 ^ Z.log2 n <= n) as HLn by (apply Z.log2_spec; lia).
  rewrite of_Z_fint by lia. unfold mul, fint. set (L := Z.log2 n) in *. set (M := n * 2 ^ (52 - L)) in *. cbn [SFmul xorb].
  rewrite Pos2Z.inj_mul, Z2Pos.id by lia. set (P := Zpos mq * M). assert (2 ^ 52 * 2 ^ 52 <= P < 2 ^ 53 * 2 ^ 53) as HP by (unfold P; nia).
  set (k := Z.log2 P - 52).
  assert (52 <= k <= 53) as Hk.
  { unfold k. assert (104 <= Z.log2 P) by (apply Z.log2_le_pow2; lia). assert (Z.log2 P < 106) by (apply Z.log2_lt_pow2; lia). lia. }
  destruct (round_aux_spec P (-53 + (L - 52)) k) as (M' & E & -> & HV & HE & HM'); [lia..|].
  set (t := 105 - L - k). replace (-53 + (L - 52) + k) with (- t) in * by lia. clear HM'.
  assert (P = Zpos mq * n * 2 ^ (52 - L)) as EP by (unfold P, M; lia).
  assert (2 ^ t * 2 ^ k = 2 ^ 53 * 2 ^ (52 - L)) as Et by (rewrite <- !Z.pow_add_r by lia; f_equal; lia).
  assert (2 ^ k <= 2 ^ (52 - L) * (2 * 2 ^ L)) as Ek.
  { rewrite <- Z.pow_succ_r, <- Z.pow_add_r by lia. apply Z.pow_le_mono_r; lia. }
  pose proof (Z.pow_pos_nonneg 2 (52 - L)). pose proof (Z.pow_pos_nonneg 2 t).
  assert (rounded P k <= K * 2 ^ t) as Hup by (apply round_shifted_le; [lia..|]; rewrite <- Z.mul_assoc, Et, EP; nia).
  assert ((K - 1) * 2 ^ t + 1 <= rounded P k) as Hlo.
  { apply round_shifted_ge; [lia..|]. rewrite Z.mul_add_distr_r, <- Z.mul_assoc, Et, EP. nia. }
  rewrite <- HV in Hup, Hlo. clear HV EP. unfold ceil. rewrite (proj2 (Z.leb_gt 0 E)) by lia. cbn [cond_Zopp].
  assert (2 ^ t = 2 ^ (- E) * 2 ^ (E - - t)) as E2 by (rewrite <- Z.pow_add_r by lia; f_equal; lia). rewrite E2 in Hup, Hlo.
  pose proof (Z.pow_pos_nonneg 2 (E - - t)). pose proof (Z.pow_pos_nonneg 2 (- E)).
  rewrite (cdiv_unique _ _ K); [destruct (Z.eqb_spec K 0) as [E0|]; [nia|done]|lia|].
  rewrite Z.mul_assoc in Hup, Hlo. split; [apply (Z.mul_lt_mono_pos_r (2 ^ (E - - t))); lia|].
  apply (Z.mul_le_mono_pos_r _ _ (2 ^ (E - - t))); lia.
Qed.

(** ** Numbers that are not NaN *)

Lemma shr_m_nonneg r e n : 0 <= shr_m r -> 0 <= shr_m (shr r e n).1.
Proof.
  intros Hr. destruct n as [|p|p]; [done| |done]. cbn [shr fst]. revert r Hr.
  assert (forall r, 0 <= shr_m r -> 0 <= shr_m (shr_1 r)) as H1.
  { intros [m b s] Hm. cbn [shr_m] in Hm. rewrite shr_1_eq by done. cbn [shr_m]. apply Z.div_pos; lia. }
  induction p as [p IH|p IH|]; intros r Hr; cbn [SpecFloat.iter_pos]; auto.
Qed.

Lemma round_aux_not_nan s m e l : 0 <= m -> not_nan (binary_round_aux 53 1024 s m e l).
Proof.
  intros Hm. unfold binary_round_aux, shr_fexp. set (n1 := _ - e). set (r0 := shr_record_of_loc m l).
  assert (0 <= shr_m r0) as H0 by (unfold r0; by destruct l as [|[]]).
  apply (shr_m_nonneg _ e n1) in H0. destruct (shr r0 e n1) as [r1 e1]. cbn [fst] in H0.
  set (m1 := round_nearest_even _ _).
  assert (0 <= m1) as H1 by (unfold m1, round_nearest_even; repeat case_match; lia).
  set (n2 := _ - e1). pose proof (shr_m_nonneg (shr_record_of_loc m1 loc_Exact) e1 n2 H1) as H2.
  destruct (shr _ e1 n2) as [r2 e2]. cbn [fst] in H2. destruct (shr_m r2); [done| |lia]. by case_match.
Qed.

Lemma of_Z_not_nan z : not_nan (of_Z z).
Proof.
  unfold of_Z, binary_normalize, binary_round. destruct z as [|m|m]; [done|..]; destruct (shl_align _ _ _) as [mz ez]; by apply round_aux_not_nan.
Qed.

Lemma div_not_nan x s m e : not_nan x -> not_nan (div x (S754_finite s m e)).
Proof.
  intros Hx. destruct x as [sx|sx| |sx mx ex]; try done. unfold div. cbn [SFdiv].
  destruct (SFdiv_core_binary _ _ _ _ _ _) as [[q e'] l] eqn:E. apply round_aux_not_nan.
  revert E. unfold SFdiv_core_binary. set (m' := match _ with Z0 => _ | Zpos _ => _ | Zneg _ => _ end).
  assert (0 <= m') as Hm by (unfold m'; repeat case_match; try lia; apply Z.shiftl_nonneg; lia).
  pose proof (Z.div_pos m' (Zpos m) Hm ltac:(lia)) as Hq. unfold Z.div in Hq. destruct (Z.div_eucl m' (Zpos m)). by intros [= <- _ _].
Qed.

(** ** Order *)

(** A number by sign and magnitude; comparison is lexicographic. *)
Definition order_key (x : f64) : Z * Z * Z :=
  match x with
  | S754_zero _ => (0, 0, 0)
  | S754_infinity s => (if s then -2 else 2, 0, 0)
  | S754_nan => (3, 0, 0)
  | S754_finite false m e => (1, e, Zpos m)
  | S754_finite true m e => (-1, - e, - Zpos m)
  end.

Definition key_lt (a b : Z * Z * Z) : Prop :=
  a.1.1 < b.1.1 \/ (a.1.1 = b.1.1 /\ (a.1.2 < b.1.2 \/ (a.1.2 = b.1.2 /\ a.2 < b.2))).

Lemma lt_key x y : not_nan x -> not_nan y -> lt x y = true <-> key_lt (order_key x) (order_key y).
Proof.
  intros Hx Hy. unfold lt, SFltb, SFcompare, key_lt.
  destruct x as [sx|sx| |sx mx ex], y as [sy|sy| |sy my ey]; try done;
    try (destruct sx); try (destruct sy); cbn [order_key fst snd]; try ((split; [done|lia]) || (split; [lia|done]));
    change (Pos.compare_cont Eq) with Pos.compare;
    destruct (Z.compare_spec ex ey); cbn [CompOpp]; try destruct (Pos.compare_spec mx my); cbn [CompOpp];
    split; try done; lia.
Qed.

(** [x <= y] as sorting sees it. *)
Definition le (x y : f64) : Prop := lt y x = false.

#[global] Instance le_dec : RelDecision le.
Proof. intros x y. unfold le. apply _. Defined.

#[global] Instance le_total : Total le.
Proof.
  intros x y. unfold le, lt, SFltb, SFcompare.
  destruct x as [sx|sx| |sx mx ex], y as [sy|sy| |sy my ey]; auto; try (destruct sx); try (destruct sy); auto;
    rewrite (Z.compare_antisym ex ey); change (Pos.compare_cont Eq) with Pos.compare; rewrite (Pos.compare_antisym mx my);
    destruct (ex ?= ey); cbn [CompOpp]; auto; destruct (mx ?= my)%positive; cbn [CompOpp]; auto.
Qed.

Lemma le_key x y : not_nan x -> not_nan y -> le x y <-> ~ key_lt (order_key y) (order_key x).
Proof. intros Hx Hy. unfold le. rewrite <- lt_key by done. by rewrite not_true_iff_false. Qed.

Lemma le_trans x y z : not_nan x -> not_nan y -> not_nan z -> le x y -> le y z -> le x z.
Proof. intros Hx Hy Hz. rewrite !le_key by done. unfold key_lt. lia. Qed.

Lemma lt_le_trans x y z : not_nan x -> not_nan y -> not_nan z -> lt x y = true -> le y z -> lt x z = true.
Proof. intros Hx Hy Hz. rewrite le_key, !lt_key by done. unfold key_lt. lia. Qed.
End F64.
