(* ===== verification/BenchStats.v ===== *)
(** * Benchmark: statistics

    [bench/tiered_cache_bench.cpp], lines 109-128: percentiles, the mean and the
    conversion of a duration.  [std::sort] orders the samples by [<], which is
    defined because no sample is NaN; among samples that are not, the sorted order
    is determined up to zeros of either sign. *)

From Stdlib Require Import SpecFloat.
From stdpp Require Import sorting.
From S2P Require Import Prelude BlockKeys Float64.

Module BenchStats.
Import F64(f64).
Local Open Scope tp_scope.

(** [None]: the conversion or the subscript is undefined. *)
Definition Percentile (values : list f64) (quantile : f64) : option f64 :=
  match values with
  | [] => Some F64.f_zero
  | _ =>
      let n := zlen values in
      index ← F64.to_u64 (F64.min (F64.of_Z (n - 1)) (F64.sub (F64.ceil (F64.mul quantile (F64.of_Z n))) (F64.of_Z 1)));
      merge_sort F64.le values !! Z.to_nat index
  end.

Definition Mean (values : list f64) : f64 :=
  match values with
  | [] => F64.f_zero
  | _ => F64.div (fold_left F64.add values F64.f_zero) (F64.of_Z (zlen values))
  end.

(** [std::chrono::duration<double, std::micro>] of nanoseconds, the period of
    [steady_clock]. *)
Definition duration_us (nanoseconds : Z) : f64 := F64.div (F64.of_Z nanoseconds) (F64.of_Z 1000).

Lemma duration_not_nan z : F64.not_nan (duration_us z).
Proof. unfold duration_us. rewrite (F64.of_Z_fint 1000) by lia. apply F64.div_not_nan, F64.of_Z_not_nan. Qed.

(** The samples that satisfy a test. *)
Definition count (p : f64 -> bool) (values : list f64) : Z := zlen (filter (fun x => p x = true) values).

Lemma count_Permutation p l l' : l ≡ₚ l' -> count p l = count p l'.
Proof. intros E. unfold count, zlen. by rewrite E. Qed.

Lemma count_app p l l' : count p (l ++ l') = count p l + count p l'.
Proof. unfold count, zlen. rewrite filter_app, length_app. lia. Qed.

Lemma count_all p l : Forall (fun x => p x = true) l -> count p l = zlen l.
Proof.
  intros Hl. unfold count. induction Hl as [|x l Hx Hl IH]; [done|]. rewrite filter_cons_True by done. unfold zlen in *. cbn [length]. lia.
Qed.

Lemma count_none p l : Forall (fun x => p x = false) l -> count p l = 0.
Proof.
  intros Hl. unfold count. induction Hl as [|x l Hx Hl IH]; [done|]. rewrite filter_cons_False by congruence. done.
Qed.

(** The [k]-th smallest sample: at least [k] samples are not above it and fewer
    than [k] are below. *)
Definition order_statistic (k : Z) (values : list f64) (v : f64) : Prop :=
  v ∈ values /\ count (fun x => F64.lt x v) values < k <= count (fun x => negb (F64.lt v x)) values.

Lemma Sorted_strong (l : list f64) : Forall F64.not_nan l -> Sorted F64.le l -> StronglySorted F64.le l.
Proof.
  intros Hl Hs. induction Hs as [|x l Hs IH Hx]; [constructor|]. apply Forall_cons in Hl as [Hnx Hl]. specialize (IH Hl).
  constructor; [done|]. destruct Hx as [|y l Hxy]; constructor; [done|].
  apply StronglySorted_cons in IH as [Hy _]. apply Forall_cons in Hl as [Hny Hl].
  rewrite Forall_forall in *. intros z Hz. apply (F64.le_trans x y z); auto.
Qed.

Lemma nth_order_statistic values i v :
  Forall F64.not_nan values -> merge_sort F64.le values !! i = Some v -> order_statistic (Z.of_nat i + 1) values v.
Proof.
  intros Hn Hi. set (l := merge_sort F64.le values) in *. assert (l ≡ₚ values) as Hp by apply merge_sort_Permutation.
  assert (Forall F64.not_nan l) as Hnl by by rewrite Hp.
  pose proof (Sorted_strong l Hnl (Sorted_merge_sort _ _)) as Hs. pose proof (lookup_lt_Some _ _ _ Hi) as Hlt.
  split; [rewrite <- Hp; by eapply list_elem_of_lookup_2|].
  rewrite <- !(count_Permutation _ _ _ Hp). rewrite <- (take_drop_middle l i v Hi) in Hs, Hnl |- *.
  apply StronglySorted_app in Hs as (H1 & _ & [H2 _]%StronglySorted_cons). apply Forall_app in Hnl as [Hn1 [Hnv Hn2]%Forall_cons].
  rewrite !count_app. split.
  - rewrite (count_none _ (v :: _)).
    + unfold count, zlen. pose proof (length_filter (fun x => F64.lt x v = true) (take i l)). rewrite length_take in *. lia.
    + constructor; [|done]. by destruct (F64.le_total v v).
  - rewrite (count_all _ (take i l)).
    + change (v :: drop (S i) l) with ([v] ++ drop (S i) l). rewrite count_app, (count_all _ [v]).
      * unfold count, zlen. rewrite length_take. cbn [length]. lia.
      * constructor; [|done]. by destruct (F64.le_total v v) as [->| ->].
    + apply Forall_forall. intros x Hx. apply negb_true_iff. apply H1; [done|by left].
Qed.

(** The quantiles the benchmark asks for. *)
Definition quantiles : list Z := [50; 95; 99].

Lemma quantile_mantissa num : num ∈ quantiles ->
  exists mq, F64.literal num 100 = S754_finite false mq (-53) /\ 2 ^ 52 <= Zpos mq < 2 ^ 53
    /\ 100 * Zpos mq <= num * 2 ^ 53 < 100 * Zpos mq + 100.
Proof.
  unfold quantiles. rewrite !elem_of_cons, elem_of_nil.
  intros [->|[->|[->|[]]]]; eexists; (split; [vm_compute; reflexivity|lia]).
Qed.

Lemma rank_range num n : num ∈ quantiles -> 1 <= n -> 1 <= (num * n + 99) / 100 <= n.
Proof.
  intros Hq Hn. assert (50 <= num <= 99) as Hnum by (unfold quantiles in Hq; set_solver by lia).
  split; [apply Z.div_le_lower_bound; nia|]. apply Z.lt_succ_r, Z.div_lt_upper_bound; nia.
Qed.

(** The position computed in floating point. *)
Lemma Percentile_rank num values :
  num ∈ quantiles -> 1 <= zlen values < 2 ^ 44 ->
  Percentile values (F64.literal num 100) = merge_sort F64.le values !! Z.to_nat ((num * zlen values + 99) / 100 - 1).
Proof.
  intros Hq Hn. destruct (quantile_mantissa num Hq) as (mq & -> & Hm & Hb). unfold Percentile.
  destruct values as [|v values]; [unfold zlen in Hn; cbn [length] in Hn; lia|]. set (l := v :: values) in *. rewrite (F64.ceil_mul_quantile mq num) by done.
  set (K := (num * zlen l + 99) / 100). assert (1 <= K <= zlen l) as HK by (apply rank_range; [done|lia]).
  rewrite F64.sub_of_Z, F64.min_of_Z, F64.to_u64_of_Z by lia. cbn [mbind option_bind]. do 2 f_equal. lia.
Qed.

Lemma Percentile_order_statistic num values :
  num ∈ quantiles -> 1 <= zlen values < 2 ^ 44 -> Forall F64.not_nan values ->
  exists v, Percentile values (F64.literal num 100) = Some v /\ order_statistic ((num * zlen values + 99) / 100) values v.
Proof.
  intros Hq Hn Hv. rewrite Percentile_rank by done. set (K := (num * zlen values + 99) / 100).
  assert (1 <= K <= zlen values) as HK by (apply rank_range; [done|lia]).
  destruct (lookup_lt_is_Some_2 (merge_sort F64.le values) (Z.to_nat (K - 1))) as [v Hi].
  { rewrite merge_sort_Permutation. unfold zlen in HK. lia. }
  exists v. split; [done|]. apply nth_order_statistic in Hi; [|done]. by replace (Z.of_nat (Z.to_nat (K - 1)) + 1) with K in Hi by lia.
Qed.

(** No percentile is undefined. *)
Lemma Percentile_defined num values :
  num ∈ quantiles -> zlen values < 2 ^ 44 -> is_Some (Percentile values (F64.literal num 100)).
Proof.
  intros Hq Hn. destruct values as [|v values]; [done|]. set (l := v :: values) in *. assert (1 <= zlen l) by (unfold l, zlen; cbn; lia).
  rewrite Percentile_rank by done. destruct (rank_range num (zlen l) Hq); [done|].
  apply lookup_lt_is_Some_2. rewrite merge_sort_Permutation. unfold zlen in *. lia.
Qed.

(** ** Properties *)

(** C25 (bounds): percentiles are exact.  The position computed in floating point,
    through a quantile that has no exact double, a rounded product, [ceil] and a
    conversion, is in range for every sample of fewer than [2^44] values, and the
    value returned is the sample of nearest rank: for the quantile [num / 100] of [n]
    samples, the one with at least [num * n / 100] samples (rounded up) not above it
    and fewer than that below.  Without samples it is zero.  The quantiles are the
    three the benchmark asks for, 50, 95 and 99, and no sample is a NaN. *)
Theorem percentile_nearest_rank (num : Z) (values : list f64)
    (Hq : num = 50 \/ num = 95 \/ num = 99) (Hn : zlen values < 2 ^ 44) (Hv : Forall F64.not_nan values) :
  exists v, Percentile values (F64.literal num 100) = Some v
    /\ (values = [] -> v = F64.f_zero)
    /\ (values <> [] -> let k := (num * zlen values + 99) / 100 in
        v ∈ values
        /\ count (fun x => F64.lt x v) values < k
        /\ k <= count (fun x => negb (F64.lt v x)) values).
Proof.
  assert (num ∈ quantiles) as Hin by (unfold quantiles; set_solver).
  destruct values as [|x values]; [by exists F64.f_zero|]. set (l := x :: values) in *.
  destruct (Percentile_order_statistic num l Hin) as (v & E & Hi & Hlo & Hhi); [unfold l, zlen in *; cbn [length] in *; lia|done|].
  by exists v.
Qed.

(** Four latencies; the 95th percentile is the largest, the median the second. *)
Definition ex_samples : list f64 := map duration_us [4500; 1000; 2500; 3000].

Lemma percentile_nearest_rank_witness :
  Percentile ex_samples (F64.literal 50 100) = Some (duration_us 2500)
  /\ Percentile ex_samples (F64.literal 95 100) = Some (duration_us 4500)
  /\ exists v, Percentile ex_samples (F64.literal 99 100) = Some v /\ v ∈ ex_samples.
Proof.
  split; [vm_compute; reflexivity|]. split; [vm_compute; reflexivity|].
  destruct (percentile_nearest_rank 99 ex_samples) as (v & E & _ & Hr).
  - right. right. reflexivity.
  - reflexivity.
  - apply Forall_map, Forall_forall. intros z _. apply duration_not_nan.
  - exists v. split; [exact E|]. apply Hr. discriminate.
Defined.
End BenchStats.
