(* ===== verification/BenchOptions.v ===== *)
(** * Benchmark: command line

    [bench/tiered_cache_bench.cpp], lines 25-107: the options, their defaults and
    their parser.  [std::strtoull] in the C locale is written out: it skips white
    space, accepts a sign, negates modulo [2^64] and saturates on overflow. *)

From S2P Require Import Prelude Api BlockKeys.

Module BenchOptions.
Local Open Scope tp_scope.

Record Options : Type := mkOptions {
  block_size : Z;
  working_set_blocks : Z;
  dram_capacity : Z;
  operations : Z;
  policy : string;
  access_pattern : string;
  simulated_recompute_us : Z;
  db_path : string;
  format : string
}.

Definition defaults : Options := mkOptions 4096 1024 0 100000 "lru" "zipf" 1000 "" "text".

Definition set_block_size (z : Z) (o : Options) : Options :=
  mkOptions z (working_set_blocks o) (dram_capacity o) (operations o) (policy o) (access_pattern o)
    (simulated_recompute_us o) (db_path o) (format o).
Definition set_working_set_blocks (z : Z) (o : Options) : Options :=
  mkOptions (block_size o) z (dram_capacity o) (operations o) (policy o) (access_pattern o)
    (simulated_recompute_us o) (db_path o) (format o).
Definition set_dram_capacity (z : Z) (o : Options) : Options :=
  mkOptions (block_size o) (working_set_blocks o) z (operations o) (policy o) (access_pattern o)
    (simulated_recompute_us o) (db_path o) (format o).
Definition set_operations (z : Z) (o : Options) : Options :=
  mkOptions (block_size o) (working_set_blocks o) (dram_capacity o) z (policy o) (access_pattern o)
    (simulated_recompute_us o) (db_path o) (format o).
Definition set_policy (s : string) (o : Options) : Options :=
  mkOptions (block_size o) (working_set_blocks o) (dram_capacity o) (operations o) s (access_pattern o)
    (simulated_recompute_us o) (db_path o) (format o).
Definition set_access_pattern (s : string) (o : Options) : Options :=
  mkOptions (block_size o) (working_set_blocks o) (dram_capacity o) (operations o) (policy o) s
    (simulated_recompute_us o) (db_path o) (format o).
Definition set_simulated_recompute_us (z : Z) (o : Options) : Options :=
  mkOptions (block_size o) (working_set_blocks o) (dram_capacity o) (operations o) (policy o) (access_pattern o)
    z (db_path o) (format o).
Definition set_db_path (s : string) (o : Options) : Options :=
  mkOptions (block_size o) (working_set_blocks o) (dram_capacity o) (operations o) (policy o) (access_pattern o)
    (simulated_recompute_us o) s (format o).
Definition set_format (s : string) (o : Options) : Options :=
  mkOptions (block_size o) (working_set_blocks o) (dram_capacity o) (operations o) (policy o) (access_pattern o)
    (simulated_recompute_us o) (db_path o) s.

(** ** Numbers *)

Definition isspace (c : ascii) : bool :=
  let n := nat_of_ascii c in ((9 <=? n) && (n <=? 13) || (n =? 32))%nat.

Fixpoint skip_space (text : chars) : chars :=
  match text with
  | c :: rest => if isspace c then skip_space rest else text
  | [] => []
  end.

Definition strip_sign (text : chars) : bool * chars :=
  match text with
  | c :: rest =>
      if Ascii.eqb c "-" then (true, rest) else if Ascii.eqb c "+" then (false, rest) else (false, text)
  | [] => (false, [])
  end.

(** [std::strtoull(text, &end, 10)]: the value and the text from [end] on; without
    digits nothing is consumed. *)
Definition strtoull (text : chars) : Z * chars :=
  let '(negative, body) := strip_sign (skip_space text) in
  let '(ds, tail) := scan_digits 10 body in
  match ds with
  | [] => (0, text)
  | _ =>
      let v := digits_value 10 ds in
      (if u64_max <? v then u64_max else if negative then wrap 64 (- v) else v, tail)
  end.

(** [*end == '\0'] *)
Definition at_end (tail : chars) : bool :=
  match tail with
  | [] => true
  | c :: _ => Ascii.eqb c zero
  end.

Definition ParseUnsigned (text : chars) : option Z :=
  match text with
  | [] => None
  | c :: _ =>
      if Ascii.eqb c "-" then None
      else
        let '(value, tail) := strtoull text in
        if (length tail =? length text)%nat || negb (at_end tail) then None else Some value
  end.

(** ** Options *)

(** [!ParseUnsigned(value, &number) || number == 0] *)
Definition positive (value : chars) : option Z :=
  number ← ParseUnsigned value; if number =? 0 then None else Some number.

(** The branches on [name]. *)
Definition set_option (name : string) (value : chars) (o : Options) : option Options :=
  let text := string_of_list_ascii value in
  if String.eqb name "block-size" then (fun z => set_block_size z o) <$> positive value
  else if String.eqb name "working-set-blocks" then (fun z => set_working_set_blocks z o) <$> positive value
  else if String.eqb name "dram-capacity" then (fun z => set_dram_capacity z o) <$> ParseUnsigned value
  else if String.eqb name "operations" then (fun z => set_operations z o) <$> positive value
  else if String.eqb name "simulated-recompute-us" then
    (fun z => set_simulated_recompute_us z o) <$> ParseUnsigned value
  else if String.eqb name "policy" then Some (set_policy text o)
  else if String.eqb name "access-pattern" then Some (set_access_pattern text o)
  else if String.eqb name "db-path" then Some (set_db_path text o)
  else if String.eqb name "format" then Some (set_format text o)
  else None.

(** The body of the loop over the arguments. *)
Definition parse_argument (arg : string) (o : Options) : option Options :=
  let a := list_ascii_of_string arg in
  match find_char "=" a with
  | None => None
  | Some equal =>
      if negb (String.prefix "--" arg) then None
      else set_option (string_of_list_ascii (substr a 2 (equal - 2))) (drop (equal + 1) a) o
  end.

Fixpoint parse_arguments (args : list string) (o : Options) : option Options :=
  match args with
  | [] => Some o
  | arg :: rest => o' ← parse_argument arg o; parse_arguments rest o'
  end.

Definition one_of (s : string) (choices : list string) : bool := existsb (String.eqb s) choices.

(** [ParseOptions(argc, argv, &options)]: [args] are [argv[1]], [argv[2]], ... *)
Definition ParseOptions (args : list string) : option Options :=
  o ← parse_arguments args defaults;
  if one_of (policy o) ["lru"; "arc"] && one_of (access_pattern o) ["uniform"; "sequential"; "zipf"]
     && one_of (format o) ["text"; "csv"; "json"]
  then Some o else None.

(** ** What is accepted *)

Record options_wf (o : Options) : Prop := {
  ow_block_size : 1 <= block_size o < 2 ^ 64;
  ow_working_set : 1 <= working_set_blocks o < 2 ^ 64;
  ow_capacity : u64 (dram_capacity o);
  ow_operations : 1 <= operations o < 2 ^ 64;
  ow_recompute : u64 (simulated_recompute_us o);
  ow_policy : policy o = "lru" \/ policy o = "arc";
  ow_pattern : access_pattern o = "uniform" \/ access_pattern o = "sequential" \/ access_pattern o = "zipf";
  ow_format : format o = "text" \/ format o = "csv" \/ format o = "json"
}.

Lemma one_of_spec s choices : one_of s choices = true <-> s ∈ choices.
Proof.
  unfold one_of. rewrite existsb_exists. setoid_rewrite String.eqb_eq. rewrite list_elem_of_In. naive_solver.
Qed.

Lemma strtoull_range text : u64 (strtoull text).1.
Proof.
  unfold strtoull. destruct (strip_sign _) as [neg body]. destruct (scan_digits 10 body) as [ds tail] eqn:E.
  destruct ds as [|d ds]; [done|]. cbn [fst]. destruct (Z.ltb_spec u64_max (digits_value 10 (d :: ds))); [done|].
  destruct neg; [by apply wrap_range|]. split; [|unfold u64_max in *; lia].
  apply digits_value_nonneg; [done|]. change (Forall (fun d => 0 <= d) (d :: ds, tail).1). rewrite <- E. by apply scan_digits_nonneg.
Qed.

Lemma option_number_range text z : ParseUnsigned text = Some z -> u64 z.
Proof.
  unfold ParseUnsigned. destruct text as [|c t]; [done|]. destruct (Ascii.eqb c "-"); [done|].
  pose proof (strtoull_range (c :: t)) as Hr. destruct (strtoull (c :: t)) as [v tail]. case_match; [done|]. by intros [= <-].
Qed.

Lemma positive_range text z : positive text = Some z -> 1 <= z < 2 ^ 64.
Proof.
  intros (n & Hn%option_number_range & E)%bind_Some. destruct (Z.eqb_spec n 0); [done|]. injection E as <-.
  unfold in_range in Hn. lia.
Qed.

(** What the loop maintains; the three choices are checked after it. *)
Record numbers_wf (o : Options) : Prop := {
  nw_block_size : 1 <= block_size o < 2 ^ 64;
  nw_working_set : 1 <= working_set_blocks o < 2 ^ 64;
  nw_capacity : u64 (dram_capacity o);
  nw_operations : 1 <= operations o < 2 ^ 64;
  nw_recompute : u64 (simulated_recompute_us o)
}.

Lemma set_option_wf name value o o' : set_option name value o = Some o' -> numbers_wf o -> numbers_wf o'.
Proof.
  unfold set_option. intros E [H1 H2 H3 H4 H5].
  repeat (match type of E with
          | (if ?c then _ else _) = _ => destruct c
          | _ <$> positive _ = _ => apply fmap_Some in E as (z & Hz%positive_range & ->)
          | _ <$> ParseUnsigned _ = _ => apply fmap_Some in E as (z & Hz%option_number_range & ->)
          | Some _ = _ => injection E as <-
          | None = _ => discriminate E
          end); by split.
Qed.

Lemma parse_arguments_wf args : forall o o', parse_arguments args o = Some o' -> numbers_wf o -> numbers_wf o'.
Proof.
  induction args as [|arg args IH]; cbn [parse_arguments]; intros o o'; [by intros [= <-]|].
  intros (o1 & E1 & E2)%bind_Some Hw. apply (IH o1 o' E2). revert E1. unfold parse_argument.
  destruct (find_char "=" _); [|done]. destruct (negb _); [done|]. intros E1. by eapply set_option_wf.
Qed.

Lemma ParseOptions_wf args o : ParseOptions args = Some o -> options_wf o.
Proof.
  unfold ParseOptions. intros (o' & E & Ho)%bind_Some. destruct (one_of (policy o') _ && _ && _) eqn:Ec; [|done].
  injection Ho as ->. apply parse_arguments_wf in E as [H1 H2 H3 H4 H5]; [|by split].
  rewrite !andb_true_iff, !one_of_spec in Ec. destruct Ec as [[C1 C2] C3].
  split; try done; clear -C1 C2 C3; set_solver.
Qed.

(** ** Writing options out *)

Definition option_text (name : string) (value : chars) : string :=
  string_of_list_ascii (["-"; "-"] ++ list_ascii_of_string name ++ "=" :: value)%char.

Definition render (o : Options) : list string :=
  [option_text "block-size" (print_unsigned 10 (block_size o));
   option_text "working-set-blocks" (print_unsigned 10 (working_set_blocks o));
   option_text "dram-capacity" (print_unsigned 10 (dram_capacity o));
   option_text "operations" (print_unsigned 10 (operations o));
   option_text "policy" (list_ascii_of_string (policy o));
   option_text "access-pattern" (list_ascii_of_string (access_pattern o));
   option_text "simulated-recompute-us" (print_unsigned 10 (simulated_recompute_us o));
   option_text "db-path" (list_ascii_of_string (db_path o));
   option_text "format" (list_ascii_of_string (format o))].

Lemma parse_option_text name value o :
  "="%char ∉ list_ascii_of_string name -> parse_argument (option_text name value) o = set_option name value o.
Proof.
  intros Hn. unfold parse_argument, option_text. rewrite list_ascii_of_string_of_list_ascii.
  rewrite app_assoc, find_char_app by (cbn [app]; by rewrite !not_elem_of_cons).
  cbn [app string_of_list_ascii].
  assert (forall s, String.prefix "--" (String "-" (String "-" s)) = true) as -> by (intros []; reflexivity). cbn [negb].
  set (l := list_ascii_of_string name). change (length ("-"%char :: "-"%char :: l)) with (2 + length l)%nat.
  replace (2 + length l - 2)%nat with (length l) by lia. replace (2 + length l + 1)%nat with (2 + (length l + 1))%nat by lia.
  rewrite <- drop_drop. unfold substr. cbn [drop app]. rewrite drop_0, take_app_length, drop_app_ge by lia.
  replace (length l + 1 - length l)%nat with 1%nat by lia. unfold l. by rewrite string_of_list_ascii_of_string.
Qed.

(** A digit is neither white space nor a sign. *)
Lemma digit_char_plain d : 0 <= d < 10 ->
  isspace (digit_char d) = false /\ Ascii.eqb (digit_char d) "-" = false /\ Ascii.eqb (digit_char d) "+" = false.
Proof.
  intros Hd. assert (d ∈ map Z.of_nat (seq 0 10)) as Hin.
  { apply list_elem_of_In, in_map_iff. exists (Z.to_nat d). rewrite in_seq. lia. }
  clear Hd. revert d Hin. apply Forall_forall. vm_compute. repeat constructor.
Qed.

(** Decimal text after white space and a sign. *)
Lemma strtoull_print z sign neg :
  0 <= z -> (forall t, strip_sign (skip_space (sign ++ print_unsigned 10 z ++ t)) = (neg, print_unsigned 10 z ++ t)) ->
  strtoull (sign ++ print_unsigned 10 z) = (if u64_max <? z then u64_max else if neg then wrap 64 (- z) else z, []).
Proof.
  intros Hz Hs. specialize (Hs []). rewrite !app_nil_r in Hs. unfold strtoull. rewrite Hs.
  destruct (print_unsigned_value 10 z) as (ds & E & Hds & Hv & Hne); [lia|done|]. rewrite E, scan_digits_app by done.
  destruct ds as [|d ds]; [done|]. by rewrite Hv.
Qed.

Lemma print_head z : 0 <= z -> exists d t, print_unsigned 10 z = digit_char d :: t /\ 0 <= d < 10.
Proof.
  intros Hz. destruct (print_unsigned_value 10 z) as (ds & E & Hds & Hv & Hne); [lia|done|].
  destruct ds as [|d ds]; [done|]. apply Forall_cons in Hds as [Hd _]. by exists d, (map digit_char ds).
Qed.

Lemma strip_digit d t : 0 <= d < 10 -> strip_sign (skip_space (digit_char d :: t)) = (false, digit_char d :: t).
Proof. intros (E1 & E2 & E3)%digit_char_plain. cbn. rewrite E1. cbn. by rewrite E2, E3. Qed.

(** A decimal number is read back when it fits, and saturates when it does not. *)
Lemma option_number_print z : 0 <= z -> ParseUnsigned (print_unsigned 10 z) = Some (Z.min z u64_max).
Proof.
  intros Hz. destruct (print_head z Hz) as (d & t & E & Hd). pose proof (strtoull_print z [] false Hz) as Hs.
  cbn [app] in Hs. rewrite E in *.
  unfold ParseUnsigned. destruct (digit_char_plain d Hd) as (_ & -> & _). rewrite Hs by (intros t'; by apply strip_digit).
  cbn. f_equal. destruct (Z.ltb_spec u64_max z); lia.
Qed.

Lemma positive_print z : 1 <= z < 2 ^ 64 -> positive (print_unsigned 10 z) = Some z.
Proof.
  intros Hz. unfold positive. rewrite option_number_print by lia. cbn [mbind option_bind].
  rewrite Z.min_l by (unfold u64_max; lia). destruct (Z.eqb_spec z 0); [lia|done].
Qed.

Lemma unsigned_print z : u64 z -> ParseUnsigned (print_unsigned 10 z) = Some z.
Proof. intros [Hz Hu]. rewrite option_number_print by done. f_equal. unfold u64_max. lia. Qed.

Lemma parse_text_cons name value rest o o' :
  "="%char ∉ list_ascii_of_string name -> set_option name value o = Some o' ->
  parse_arguments (option_text name value :: rest) o = parse_arguments rest o'.
Proof. intros Hn E. cbn [parse_arguments]. by rewrite parse_option_text, E. Qed.

Lemma ParseOptions_render o : options_wf o -> ParseOptions (render o) = Some o.
Proof.
  intros [H1 H2 H3 H4 H5 H6 H7 H8]. unfold ParseOptions, render.
  do 9 (erewrite parse_text_cons; [|by rewrite list_elem_of_In; vm_compute; intuition discriminate
                                   |unfold set_option; cbn [String.eqb Ascii.eqb Bool.eqb];
                                    by rewrite ?positive_print, ?unsigned_print by done]).
  cbn [parse_arguments mbind option_bind]. unfold set_format; cbn. rewrite !string_of_list_ascii_of_string. destruct o; cbn in *.
  by destruct H6 as [->| ->], H7 as [->|[->| ->]], H8 as [->|[->| ->]].
Qed.

(** ** NUL-terminated arguments

    The entries of [argv] are C strings: they hold no NUL character. *)

Definition c_string (s : string) : Prop := zero ∉ list_ascii_of_string s.

Lemma c_string_value value : zero ∉ value -> c_string (string_of_list_ascii value).
Proof. unfold c_string. by rewrite list_ascii_of_string_of_list_ascii. Qed.

Lemma set_option_c_string name value o o' :
  set_option name value o = Some o' -> zero ∉ value -> c_string (db_path o) -> c_string (db_path o').
Proof.
  unfold set_option. intros E Hv Ho.
  repeat (match type of E with
          | (if ?c then _ else _) = _ => destruct c
          | _ <$> _ = _ => apply fmap_Some in E as (z & _ & ->)
          | Some _ = _ => injection E as <-
          | None = _ => discriminate E
          end); first [exact Ho|by apply c_string_value].
Qed.

Lemma parse_arguments_c_string args : forall o o',
  parse_arguments args o = Some o' -> Forall c_string args -> c_string (db_path o) -> c_string (db_path o').
Proof.
  induction args as [|arg args IH]; cbn [parse_arguments]; intros o o'; [by intros [= <-]|].
  intros (o1 & E1 & E2)%bind_Some [Ha Hargs]%Forall_cons Ho. apply (IH o1 o' E2 Hargs). revert E1. unfold parse_argument.
  destruct (find_char "=" _) as [i|]; [|done]. destruct (negb _); [done|]. intros E1. eapply set_option_c_string; [done| |done].
  intros Hz. apply Ha. rewrite <- (take_drop (i + 1) (list_ascii_of_string arg)). apply elem_of_app. by right.
Qed.

Lemma ParseOptions_c_string args o : Forall c_string args -> ParseOptions args = Some o -> c_string (db_path o).
Proof.
  unfold ParseOptions. intros Ha (o' & E & Ho)%bind_Some. case_match; [|done]. injection Ho as ->.
  eapply parse_arguments_c_string; [done..|]. unfold c_string. cbn. by intros ?%elem_of_nil.
Qed.

Lemma digit_char_not_zero d : 0 <= d < 10 -> digit_char d <> zero.
Proof.
  intros Hd. assert (d ∈ map Z.of_nat (seq 0 10)) as Hin.
  { apply list_elem_of_In, in_map_iff. exists (Z.to_nat d). rewrite in_seq. lia. }
  clear Hd. revert d Hin. apply Forall_forall. vm_compute. repeat constructor; discriminate.
Qed.

Lemma print_not_zero z : 0 <= z -> zero ∉ print_unsigned 10 z.
Proof.
  intros Hz. destruct (print_unsigned_value 10 z) as (ds & E & Hds & _); [lia|done|]. rewrite E.
  intros Hin. apply list_elem_of_In, in_map_iff in Hin as (d & Ed & Hd%list_elem_of_In).
  rewrite Forall_forall in Hds. by apply (digit_char_not_zero d); [apply Hds|].
Qed.

Lemma option_text_c_string name value : c_string name -> zero ∉ value -> c_string (option_text name value).
Proof. intros Hn Hv. apply c_string_value. rewrite elem_of_app, elem_of_app. set_solver. Qed.

Lemma render_c_string o : options_wf o -> c_string (db_path o) -> Forall c_string (render o).
Proof.
  intros [H1 H2 H3 H4 H5 H6 H7 H8] Hp. unfold in_range in *.
  repeat apply Forall_cons_2; [..|by apply Forall_nil]; (apply option_text_c_string;
    [unfold c_string; rewrite list_elem_of_In; vm_compute; intuition discriminate|]); try (apply print_not_zero; lia); [..|exact Hp|].
  - destruct H6 as [->| ->]; rewrite list_elem_of_In; vm_compute; intuition discriminate.
  - destruct H7 as [->|[->| ->]]; rewrite list_elem_of_In; vm_compute; intuition discriminate.
  - destruct H8 as [->|[->| ->]]; rewrite list_elem_of_In; vm_compute; intuition discriminate.
Qed.

(** ** Properties *)

(** C34 (type): the options are exactly the well-formed ones.  Whatever the
    command line, the options the benchmark runs with have positive sizes and
    counts that fit their 64-bit fields and one of the documented policies,
    patterns and formats; and every such record, with a path a command line can
    carry, is the result of some command line of C strings: of the one that gives
    each field under its own name. *)
Theorem ParseOptions_exact (o : Options) :
  (options_wf o /\ c_string (db_path o) <-> exists args, Forall c_string args /\ ParseOptions args = Some o)
  /\ (options_wf o <-> exists args, ParseOptions args = Some o)
  /\ (options_wf o <-> ParseOptions (render o) = Some o).
Proof.
  split_and!.
  - split; [intros [Hw Hp]; exists (render o); split; [by apply render_c_string|by apply ParseOptions_render]|].
    intros (args & Hc & E). split; [by eapply ParseOptions_wf|by eapply ParseOptions_c_string].
  - split; [eexists; by apply ParseOptions_render|]. intros [args E]. by eapply ParseOptions_wf.
  - split; [apply ParseOptions_render|apply ParseOptions_wf].
Qed.

(** C35 (error): how negative and oversized numbers are read.  A leading minus sign
    is refused, but only as the first character: after white space [strtoull]
    accepts it, so [" -1"] is read as [2^64 - 1]; a number above [2^64 - 1] is not
    refused either, it is read as [2^64 - 1]. *)
Theorem ParseUnsigned_sign_bypass (z : Z) (Hz : u64 z) :
  (forall text, ParseUnsigned ("-"%char :: text) = None)
  /\ ParseUnsigned (" " :: "-" :: print_unsigned 10 z)%char = Some (wrap 64 (- z))
  /\ ParseUnsigned (print_unsigned 10 (2 ^ 64 + z)) = Some u64_max.
Proof.
  destruct Hz as [Hz0 Hz]. split_and!; [done| |].
  - unfold ParseUnsigned. cbn [Ascii.eqb Bool.eqb].
    change (?a :: ?b :: print_unsigned 10 z) with ([a; b] ++ print_unsigned 10 z).
    rewrite (strtoull_print z [" "; "-"]%char true) by done. cbn [at_end negb length app Nat.eqb orb]. f_equal.
    destruct (Z.ltb_spec u64_max z); [unfold u64_max in *; lia|done].
  - rewrite option_number_print by lia. f_equal. unfold u64_max. lia.
Qed.

Lemma ParseUnsigned_sign_bypass_witness :
  ParseUnsigned (list_ascii_of_string "-5") = None
  /\ ParseUnsigned (list_ascii_of_string " -5") = Some 18446744073709551611
  /\ ParseUnsigned (list_ascii_of_string "18446744073709551621") = Some 18446744073709551615.
Proof.
  destruct (ParseUnsigned_sign_bypass 5) as (A & B & C); [done|].
  split_and!; [exact (A ["5"%char])|exact B|exact C].
Defined.
End BenchOptions.
