(* ===== verification/BenchReport.v ===== *)
(** * Benchmark: the report

    [bench/tiered_cache_bench.cpp], lines 37-55 and 172-241: the summary and its text
    in the three formats.  [std::printf] interprets its format as the C library
    does; a conversion that does not match its argument is undefined behaviour.  A
    format of the source is written here with ['] for the escaped double quote and
    without its final line feed. *)

From Stdlib Require Import SpecFloat.
From S2P Require Import Prelude BlockKeys Float64 BenchOptions.

Module BenchReport.
Import BenchOptions F64(f64).
Local Open Scope tp_scope.

Record Summary : Type := mkSummary {
  sm_operations : Z;
  sm_dram_hits : Z;
  sm_ssd_hits : Z;
  sm_misses : Z;
  sm_hit_rate : f64;
  sm_p50_us : f64;
  sm_p95_us : f64;
  sm_p99_us : f64;
  sm_demotions : Z;
  sm_promotions : Z;
  sm_bytes_read : Z;
  sm_bytes_written : Z;
  sm_dram_hit_us : f64;
  sm_ssd_hit_us : f64;
  sm_ssd_promotion_us : f64;
  sm_miss_us : f64;
  sm_simulated_saved_us : f64
}.

(** ** printf *)

Inductive conversion : Type := conv_llu | conv_zu | conv_s | conv_f (digits : nat).

Inductive piece : Type := literal_char (c : ascii) | converted (c : conversion).

(** An argument with its type after promotion. *)
Inductive arg : Type :=
| unsigned_long_long (z : Z)
| size_t (z : Z)
| c_string (s : chars)
| double (x : f64).

Fixpoint strip (prefix text : chars) : option chars :=
  match prefix, text with
  | [], _ => Some text
  | p :: prefix', c :: text' => if Ascii.eqb p c then strip prefix' text' else None
  | _, [] => None
  end.

(** What follows a [%]. *)
Definition parse_conversion (text : chars) : option (conversion * chars) :=
  match strip ["l"; "l"; "u"]%char text, strip ["z"; "u"]%char text, strip ["s"]%char text, strip ["."]%char text with
  | Some rest, _, _, _ => Some (conv_llu, rest)
  | _, Some rest, _, _ => Some (conv_zu, rest)
  | _, _, Some rest, _ => Some (conv_s, rest)
  | _, _, _, Some (c :: f :: rest) =>
      match digit_val c with
      | Some d => if (1 <=? d) && (d <=? 9) && Ascii.eqb f "f" then Some (conv_f (Z.to_nat d), rest) else None
      | None => None
      end
  | _, _, _, _ => None
  end.

Fixpoint parse_format (fuel : nat) (text : chars) : option (list piece) :=
  match fuel, text with
  | _, [] => Some []
  | O, _ => None
  | S fuel', c :: rest =>
      if Ascii.eqb c "%" then
        x ← parse_conversion rest; tail ← parse_format fuel' x.2; Some (converted x.1 :: tail)
      else tail ← parse_format fuel' rest; Some (literal_char c :: tail)
  end.

Definition convert (c : conversion) (a : arg) : option chars :=
  match c, a with
  | conv_llu, unsigned_long_long z => Some (print_unsigned 10 z)
  | conv_zu, size_t z => Some (print_unsigned 10 z)
  | conv_s, c_string s => Some s
  | conv_f d, double x => Some (F64.fixed d x)
  | _, _ => None
  end.

Fixpoint put_pieces (pieces : list piece) (args : list arg) : option chars :=
  match pieces with
  | [] => Some []
  | literal_char c :: rest => text ← put_pieces rest args; Some (c :: text)
  | converted c :: rest =>
      match args with
      | [] => None
      | a :: args' => t ← convert c a; text ← put_pieces rest args'; Some (t ++ text)
      end
  end.

Definition newline : ascii := "010".
Definition double_quote : ascii := "034".

Definition unescape (s : string) : chars :=
  map (fun c => if Ascii.eqb c "'" then double_quote else c) (list_ascii_of_string s).

(** [std::printf(format "\n", args...)] *)
Definition printf (format : string) (args : list arg) : option chars :=
  let text := unescape format ++ [newline] in
  pieces ← parse_format (length text) text; put_pieces pieces args.

(** [s.c_str()] ends at the first null character. *)
Fixpoint until_null (s : chars) : chars :=
  match s with
  | c :: rest => if Ascii.eqb c zero then [] else c :: until_null rest
  | [] => []
  end.

Definition c_str (s : string) : chars := until_null (list_ascii_of_string s).

(** ** The report *)

Definition csv_header : string :=
  "operations,dram_hits,ssd_hits,misses,hit_rate,p50_us,p95_us,p99_us,demotions,promotions,bytes_read,bytes_written,dram_hit_us,ssd_hit_us,ssd_promotion_us,miss_us".

(** The arguments of the csv row and of the json object. *)
Definition row_args (s : Summary) : list arg :=
  [unsigned_long_long (sm_operations s); unsigned_long_long (sm_dram_hits s); unsigned_long_long (sm_ssd_hits s);
   unsigned_long_long (sm_misses s); double (sm_hit_rate s); double (sm_p50_us s); double (sm_p95_us s); double (sm_p99_us s);
   unsigned_long_long (sm_demotions s); unsigned_long_long (sm_promotions s); unsigned_long_long (sm_bytes_read s);
   unsigned_long_long (sm_bytes_written s); double (sm_dram_hit_us s); double (sm_ssd_hit_us s);
   double (sm_ssd_promotion_us s); double (sm_miss_us s)].

Definition print_text (o : Options) (s : Summary) : option chars :=
  t1 ← printf "tidepool phase-1 tiered cache benchmark" [];
  t2 ← printf "policy=%s pattern=%s block_size=%zu working_set=%zu dram_capacity=%llu"
         [c_string (c_str (policy o)); c_string (c_str (access_pattern o));
          size_t (block_size o); size_t (working_set_blocks o); unsigned_long_long (dram_capacity o)];
  t3 ← printf "DRAM hit=%.3f us, LevelDB SSD hit=%.3f us, SSD hit+promotion=%.3f us, complete miss=%.3f us"
         [double (sm_dram_hit_us s); double (sm_ssd_hit_us s); double (sm_ssd_promotion_us s); double (sm_miss_us s)];
  t4 ← printf "operations=%llu dram_hits=%llu ssd_hits=%llu misses=%llu hit_rate=%.6f p50_us=%.3f p95_us=%.3f p99_us=%.3f demotions=%llu promotions=%llu bytes_read=%llu bytes_written=%llu"
         [unsigned_long_long (sm_operations s); unsigned_long_long (sm_dram_hits s); unsigned_long_long (sm_ssd_hits s);
          unsigned_long_long (sm_misses s); double (sm_hit_rate s); double (sm_p50_us s); double (sm_p95_us s);
          double (sm_p99_us s); unsigned_long_long (sm_demotions s); unsigned_long_long (sm_promotions s);
          unsigned_long_long (sm_bytes_read s); unsigned_long_long (sm_bytes_written s)];
  t5 ← printf "simulated recompute only (not a real vLLM/LLM Prefill benchmark): configured=%llu us, mean estimated saved_time=%.3f us per cache hit"
         [unsigned_long_long (simulated_recompute_us o); double (sm_simulated_saved_us s)];
  Some (t1 ++ t2 ++ t3 ++ t4 ++ t5).

Definition print_csv (s : Summary) : option chars :=
  header ← printf csv_header [];
  row ← printf "%llu,%llu,%llu,%llu,%.6f,%.3f,%.3f,%.3f,%llu,%llu,%llu,%llu,%.3f,%.3f,%.3f,%.3f" (row_args s);
  Some (header ++ row).

Definition print_json (s : Summary) : option chars :=
  printf "{'operations':%llu,'dram_hits':%llu,'ssd_hits':%llu,'misses':%llu,'hit_rate':%.6f,'p50_us':%.3f,'p95_us':%.3f,'p99_us':%.3f,'demotions':%llu,'promotions':%llu,'bytes_read':%llu,'bytes_written':%llu,'dram_hit_us':%.3f,'ssd_hit_us':%.3f,'ssd_promotion_us':%.3f,'miss_us':%.3f}"
    (row_args s).

(** [None]: undefined. *)
Definition PrintSummary (o : Options) (s : Summary) : option chars :=
  text ← print_text o s;
  data ← (if String.eqb (format o) "csv" then print_csv s
          else if String.eqb (format o) "json" then print_json s
          else Some []);
  Some (text ++ data).

(** ** Reading a report *)

Fixpoint split_on (c : ascii) (text : chars) : list chars :=
  match text with
  | [] => [[]]
  | x :: rest =>
      if Ascii.eqb x c then [] :: split_on c rest
      else match split_on c rest with
           | h :: t => (x :: h) :: t
           | [] => [[x]]
           end
  end.

(** The last two lines: names and values, as many of one as of the other. *)
Definition read_csv (text : chars) : option (list (chars * chars)) :=
  match rev (split_on newline text) with
  | [] :: row :: header :: _ =>
      let names := split_on "," header in
      let values := split_on "," row in
      if (length names =? length values)%nat then Some (zip names values) else None
  | _ => None
  end.

(** Without its first and last character, which must be as given. *)
Definition unwrap (first last : ascii) (text : chars) : option chars :=
  match text with
  | c :: rest =>
      match rev rest with
      | d :: body => if Ascii.eqb c first && Ascii.eqb d last then Some (rev body) else None
      | [] => None
      end
  | [] => None
  end.

(** A member ["name":value] *)
Definition read_member (text : chars) : option (chars * chars) :=
  match split_on ":" text with
  | [name; value] => n ← unwrap double_quote double_quote name; Some (n, value)
  | _ => None
  end.

(** The last line, an object whose values are numbers. *)
Definition read_json (text : chars) : option (list (chars * chars)) :=
  match rev (split_on newline text) with
  | [] :: object :: _ => body ← unwrap "{" "}" object; mapM read_member (split_on "," body)
  | _ => None
  end.

(** A decimal number, and one with [d] decimals in units of [10^-d]. *)
Definition read_digits (text : chars) : option Z :=
  match scan_digits 10 text with
  | (d :: ds, []) => Some (digits_value 10 (d :: ds))
  | _ => None
  end.

Definition read_decimal (d : nat) (text : chars) : option Z :=
  match split_on "." text with
  | [a; b] =>
      if (length b =? d)%nat then u ← read_digits a; v ← read_digits b; Some (u * 10 ^ Z.of_nat d + v) else None
  | _ => None
  end.

(** The value of a column. *)
Fixpoint column (name : string) (row : list (chars * chars)) : option chars :=
  match row with
  | [] => None
  | (n, v) :: rest => if String.eqb name (string_of_list_ascii n) then Some v else column name rest
  end.

(** [n] units of [10^-d] are [x], to the nearest unit. *)
Definition nearest (d : nat) (n : Z) (x : f64) : Prop :=
  match x with
  | S754_zero _ => n = 0
  | S754_finite false m e =>
      if 0 <=? e then n = Zpos m * 2 ^ e * 10 ^ Z.of_nat d
      else 2 * Z.abs (n * 2 ^ (- e) - Zpos m * 10 ^ Z.of_nat d) <= 2 ^ (- e)
  | _ => False
  end.

(** Neither negative nor infinite nor NaN. *)
Definition nonneg (x : f64) : bool :=
  match x with
  | S754_zero false | S754_finite false _ _ => true
  | _ => false
  end.

(** What both formats carry. *)
Definition fields (s : Summary) : list (chars * chars) :=
  prod_map list_ascii_of_string id <$>
  [("operations", print_unsigned 10 (sm_operations s)); ("dram_hits", print_unsigned 10 (sm_dram_hits s));
   ("ssd_hits", print_unsigned 10 (sm_ssd_hits s)); ("misses", print_unsigned 10 (sm_misses s));
   ("hit_rate", F64.fixed 6 (sm_hit_rate s)); ("p50_us", F64.fixed 3 (sm_p50_us s));
   ("p95_us", F64.fixed 3 (sm_p95_us s)); ("p99_us", F64.fixed 3 (sm_p99_us s));
   ("demotions", print_unsigned 10 (sm_demotions s)); ("promotions", print_unsigned 10 (sm_promotions s));
   ("bytes_read", print_unsigned 10 (sm_bytes_read s)); ("bytes_written", print_unsigned 10 (sm_bytes_written s));
   ("dram_hit_us", F64.fixed 3 (sm_dram_hit_us s)); ("ssd_hit_us", F64.fixed 3 (sm_ssd_hit_us s));
   ("ssd_promotion_us", F64.fixed 3 (sm_ssd_promotion_us s)); ("miss_us", F64.fixed 3 (sm_miss_us s))]%string.

Lemma split_on_app c a b : split_on c (a ++ c :: b) = split_on c a ++ split_on c b.
Proof.
  induction a as [|x a IH]; cbn [app split_on]; [by rewrite Ascii.eqb_refl|]. destruct (Ascii.eqb x c); cbn [app]; rewrite IH; [done|].
  destruct (split_on c a) as [|h t] eqn:E; [|done]. destruct a; cbn in E; repeat case_match; done.
Qed.

Lemma split_on_none c a : c ∉ a -> split_on c a = [a].
Proof.
  induction a as [|x a IH]; cbn [split_on]; [done|]. rewrite not_elem_of_cons. intros [Hx Ha].
  destruct (Ascii.eqb_spec x c); [congruence|]. by rewrite IH.
Qed.

(** Texts with separators between them and [tail] after them. *)
Fixpoint join (c : ascii) (texts : list chars) (tail : chars) : chars :=
  match texts with
  | [] => tail
  | [t] => t ++ tail
  | t :: rest => t ++ c :: join c rest tail
  end.

Lemma join_tail c texts tail : join c texts tail = join c texts [] ++ tail.
Proof.
  induction texts as [|t [|u rest] IH]; cbn [join] in *; [done|by rewrite app_nil_r|]. rewrite IH, <- app_assoc. done.
Qed.

Lemma split_join c texts : texts <> [] -> Forall (fun t => c ∉ t) texts -> split_on c (join c texts []) = texts.
Proof.
  intros Hne Ht. induction Ht as [|t [|u rest] H1 H2 IH]; [done|cbn [join]; rewrite app_nil_r; by apply split_on_none|].
  cbn [join] in *. rewrite split_on_app, IH, split_on_none by done. done.
Qed.

(** ** The characters of a number *)

Definition separator (c : ascii) : bool := Ascii.eqb c "," || Ascii.eqb c ":" || Ascii.eqb c newline.

Definition plain (t : chars) : Prop := Forall (fun c => separator c = false) t.

Lemma plain_not_elem c t : plain t -> separator c = true -> c ∉ t.
Proof. intros Ht Hc Hin. rewrite (proj1 (Forall_forall _ _) Ht c Hin) in Hc. done. Qed.

Lemma plain_app a b : plain (a ++ b) <-> plain a /\ plain b.
Proof. apply Forall_app. Qed.

(** A test that every digit passes. *)
Lemma print_forall (p : ascii -> bool) z :
  forallb p (list_ascii_of_string "0123456789") = true -> 0 <= z -> Forall (fun c => p c = true) (print_unsigned 10 z).
Proof.
  intros Hp Hz. destruct (print_unsigned_value 10 z) as (ds & -> & Hds & _); [lia|done|].
  apply Forall_map. eapply Forall_impl; [exact Hds|]. intros d Hd. cbn beta in Hd.
  change (forallb (fun d => p (digit_char d)) (map Z.of_nat (seq 0 10)) = true) in Hp. rewrite forallb_forall in Hp.
  apply Hp, in_map_iff. exists (Z.to_nat d). rewrite in_seq. lia.
Qed.

Lemma print_plain z : 0 <= z -> plain (print_unsigned 10 z).
Proof.
  intros Hz. eapply Forall_impl; [by apply (print_forall (fun c => negb (separator c)))|]. intros c Hc. by apply negb_true_iff.
Qed.

Lemma decimal_plain d n : 0 <= n -> plain (F64.decimal d n).
Proof.
  intros Hn. unfold F64.decimal, pad_zero. pose proof (Z.pow_pos_nonneg 10 (Z.of_nat d)).
  rewrite plain_app. split; [apply print_plain, Z.div_pos; lia|]. constructor; [done|]. rewrite plain_app. split.
  - by apply Forall_replicate.
  - apply print_plain, Z.mod_pos_bound. lia.
Qed.

Lemma scaled_nonneg d m e : 0 <= F64.scaled d m e.
Proof.
  unfold F64.scaled, F64.round_div. pose proof (Z.pow_pos_nonneg 10 (Z.of_nat d) ltac:(lia) ltac:(lia)). destruct (Z.leb_spec 0 e).
  - pose proof (Z.pow_pos_nonneg 2 e ltac:(lia) ltac:(lia)). nia.
  - assert (0 <= Zpos m * 10 ^ Z.of_nat d / 2 ^ (- e)); [|repeat case_match; lia].
    apply Z.div_pos; [nia|]. apply Z.pow_pos_nonneg; lia.
Qed.

Lemma fixed_plain d x : plain (F64.fixed d x).
Proof.
  destruct x as [s|s| |s m e]; cbn [F64.fixed]; rewrite ?plain_app.
  - split; [by destruct s; repeat constructor|by apply decimal_plain].
  - split; [by destruct s; repeat constructor|by repeat constructor].
  - by repeat constructor.
  - split; [by destruct s; repeat constructor|by apply decimal_plain, scaled_nonneg].
Qed.

(** ** What is printed *)

Definition member (f : chars * chars) : chars := double_quote :: f.1 ++ double_quote :: ":"%char :: f.2.

Lemma print_csv_eq s :
  print_csv s = Some (join "," (map fst (fields s)) (newline :: join "," (map snd (fields s)) [newline])).
Proof. reflexivity. Qed.

Lemma print_json_eq s : print_json s = Some ("{"%char :: join "," (map member (fields s)) ["}"%char; newline]).
Proof. reflexivity. Qed.

Lemma print_text_defined o s : is_Some (print_text o s).
Proof. eexists. reflexivity. Qed.

Record counters_wf (s : Summary) : Prop := {
  cw_operations : u64 (sm_operations s);
  cw_hits : u64 (sm_dram_hits s) /\ u64 (sm_ssd_hits s) /\ u64 (sm_misses s);
  cw_moves : u64 (sm_demotions s) /\ u64 (sm_promotions s);
  cw_bytes : u64 (sm_bytes_read s) /\ u64 (sm_bytes_written s)
}.

Lemma fields_plain s : counters_wf s -> Forall (fun f => plain f.1 /\ plain f.2) (fields s).
Proof.
  intros [[? _] ([? _] & [? _] & [? _]) ([? _] & [? _]) ([? _] & [? _])]. unfold fields.
  repeat (apply Forall_cons; split; [split; cbn [prod_map fst snd id]; [by vm_compute; repeat constructor|by apply print_plain || apply fixed_plain]|]).
  constructor.
Qed.

(** The last line of a text that ends with a line feed. *)
Lemma last_line pre line :
  newline ∉ line -> rev (split_on newline (pre ++ newline :: line ++ [newline])) = [] :: line :: rev (split_on newline pre).
Proof.
  intros Hl. change (line ++ [newline]) with (line ++ newline :: []). rewrite !split_on_app, (split_on_none _ line), !rev_app_distr by done. done.
Qed.

Lemma plain_column (sel : chars * chars -> chars) s c :
  (forall f, plain f.1 /\ plain f.2 -> plain (sel f)) -> counters_wf s -> separator c = true ->
  Forall (fun t => c ∉ t) (map sel (fields s)).
Proof.
  intros Hsel Hs Hc. apply Forall_map. eapply Forall_impl; [by apply fields_plain|]. intros f Hf. by apply plain_not_elem; [apply Hsel|].
Qed.

Lemma join_not_elem x c texts : c <> x -> Forall (fun t => x ∉ t) texts -> x ∉ join c texts [].
Proof.
  intros Hc Ht. induction Ht as [|t [|u rest] H1 H2 IH]; cbn [join] in *; [apply not_elem_of_nil|by rewrite app_nil_r|].
  rewrite not_elem_of_app, not_elem_of_cons. naive_solver.
Qed.

Lemma read_csv_printed pre s :
  counters_wf s ->
  read_csv (pre ++ newline :: join "," (map fst (fields s)) (newline :: join "," (map snd (fields s)) [newline])) = Some (fields s).
Proof.
  intros Hs. rewrite (join_tail _ (map fst _)), (join_tail _ (map snd _) [newline]).
  set (header := join "," (map fst (fields s)) []). set (row := join "," (map snd (fields s)) []).
  assert (newline ∉ header) as Hh by (apply join_not_elem; [done|apply plain_column; [tauto|done..]]).
  assert (newline ∉ row) as Hr by (apply join_not_elem; [done|apply plain_column; [tauto|done..]]).
  unfold read_csv. replace (pre ++ newline :: header ++ newline :: row ++ [newline])
    with ((pre ++ newline :: header) ++ newline :: row ++ [newline]) by by rewrite <- app_assoc.
  rewrite last_line, split_on_app, rev_app_distr, (split_on_none _ header) by done. cbn [rev app].
  unfold header, row. rewrite !split_join by (done || (apply plain_column; [tauto|done..])).
  rewrite !length_map, Nat.eqb_refl. reflexivity.
Qed.

Lemma unwrap_wrapped a b t : unwrap a b (a :: t ++ [b]) = Some t.
Proof. cbn [unwrap]. rewrite rev_app_distr. cbn [rev app]. by rewrite !Ascii.eqb_refl, rev_involutive. Qed.

Lemma read_member_printed f : plain f.1 -> plain f.2 -> read_member (member f) = Some f.
Proof.
  intros H1 H2. unfold read_member, member.
  replace (double_quote :: f.1 ++ double_quote :: ":"%char :: f.2) with ((double_quote :: f.1 ++ [double_quote]) ++ ":"%char :: f.2)
    by (cbn [app]; by rewrite <- app_assoc).
  rewrite split_on_app, (split_on_none _ f.2) by by apply plain_not_elem. rewrite split_on_none.
  - cbn [app]. rewrite unwrap_wrapped. by destruct f.
  - rewrite not_elem_of_cons, not_elem_of_app, list_elem_of_singleton. split_and!; [done| |done]. by apply plain_not_elem.
Qed.

Lemma member_plain c f : plain f.1 /\ plain f.2 -> separator c = true -> c <> ":"%char -> c ∉ member f.
Proof.
  intros [H1 H2] Hc Hne. unfold member. rewrite not_elem_of_cons, not_elem_of_app, !not_elem_of_cons.
  split_and!; [by intros ->|by apply plain_not_elem|by intros ->|done|by apply plain_not_elem].
Qed.

Lemma read_json_printed pre s :
  counters_wf s -> read_json (pre ++ newline :: "{"%char :: join "," (map member (fields s)) ["}"%char; newline]) = Some (fields s).
Proof.
  intros Hs. pose proof (fields_plain s Hs) as Hp. rewrite join_tail. set (body := join "," (map member (fields s)) []).
  assert (forall c, separator c = true -> c <> ":"%char -> Forall (fun t => c ∉ t) (map member (fields s))) as Hc.
  { intros c Hc Hne. apply Forall_map. eapply Forall_impl; [exact Hp|]. intros f Hf. by apply member_plain. }
  change ("{"%char :: body ++ ["}"%char; newline]) with ("{"%char :: body ++ ["}"%char] ++ [newline]). rewrite app_assoc, app_comm_cons.
  unfold read_json. rewrite last_line.
  - rewrite unwrap_wrapped. cbn [mbind option_bind]. unfold body. rewrite split_join by (done || by apply Hc).
    clear -Hp. induction Hp as [|f l [H1 H2] Hl IH]; [done|]. cbn [map mapM]. by rewrite read_member_printed, IH.
  - rewrite not_elem_of_cons, not_elem_of_app, list_elem_of_singleton. split_and!; [done| |done]. by apply join_not_elem, Hc.
Qed.

(** ** Reading numbers *)

Lemma read_digits_pad n z : 0 <= z -> read_digits (pad_zero n (print_unsigned 10 z)) = Some z.
Proof.
  intros Hz. destruct (print_unsigned_value 10 z) as (ds & E & Hds & Hv & Hne); [lia|done|].
  unfold pad_zero. rewrite E. set (k := (n - _)%nat).
  assert (replicate k "0"%char = map digit_char (replicate k 0)) as -> by (clear; induction k as [|k IH]; [done|]; cbn; by rewrite IH).
  rewrite <- map_app. unfold read_digits. rewrite scan_digits_app; [|lia|].
  - destruct (replicate k 0 ++ ds) as [|d l] eqn:El; [by destruct (replicate k 0), ds|]. by rewrite <- El, digits_value_zeros, Hv.
  - apply Forall_app. split; [by apply Forall_replicate|done].
Qed.

Lemma read_digits_print z : 0 <= z -> read_digits (print_unsigned 10 z) = Some z.
Proof. apply (read_digits_pad 0). Qed.

Lemma no_dot z : 0 <= z -> "."%char ∉ print_unsigned 10 z.
Proof.
  intros Hz Hin. pose proof (print_forall (fun c => negb (Ascii.eqb c ".")) z eq_refl Hz) as Hf.
  rewrite Forall_forall in Hf. by specialize (Hf _ Hin).
Qed.

Lemma read_decimal_print d n : (1 <= d)%nat -> 0 <= n -> read_decimal d (F64.decimal d n) = Some n.
Proof.
  intros Hd Hn. unfold read_decimal, F64.decimal. pose proof (Z.pow_pos_nonneg 10 (Z.of_nat d) ltac:(lia) ltac:(lia)) as Hp.
  pose proof (Z.div_pos n (10 ^ Z.of_nat d) Hn Hp). pose proof (Z.mod_pos_bound n (10 ^ Z.of_nat d) Hp).
  rewrite split_on_app, !split_on_none; [|unfold pad_zero; rewrite not_elem_of_app, elem_of_replicate; split; [by intros []|apply no_dot; lia]|by apply no_dot].
  cbn [app]. rewrite pad_zero_length, Nat.eqb_refl by (apply print_unsigned_length; lia).
  rewrite read_digits_print, read_digits_pad by lia. cbn [mbind option_bind]. f_equal.
  pose proof (Z.div_mod n (10 ^ Z.of_nat d)). lia.
Qed.

Lemma round_div_nearest a b : 0 < b -> 2 * Z.abs (F64.round_div a b * b - a) <= b.
Proof.
  intros Hb. unfold F64.round_div. pose proof (Z.div_mod a b ltac:(lia)) as E. pose proof (Z.mod_pos_bound a b Hb).
  destruct (Z.compare_spec (2 * (a mod b)) b); [destruct (Z.even _)|..]; nia.
Qed.

Lemma fixed_nearest d x :
  (1 <= d)%nat -> nonneg x = true -> exists n, read_decimal d (F64.fixed d x) = Some n /\ nearest d n x.
Proof.
  intros Hd Hx. destruct x as [[]|s| |[] m e]; try done; cbn [F64.fixed F64.sign_chars app].
  - exists 0. by rewrite read_decimal_print.
  - exists (F64.scaled d m e). rewrite read_decimal_print by (done || apply scaled_nonneg). split; [done|].
    unfold nearest, F64.scaled. destruct (Z.leb_spec 0 e); [done|]. apply round_div_nearest, Z.pow_pos_nonneg; lia.
Qed.

Lemma print_text_line o s : exists pre, print_text o s = Some (pre ++ [newline]).
Proof.
  assert (exists t, printf "simulated recompute only (not a real vLLM/LLM Prefill benchmark): configured=%llu us, mean estimated saved_time=%.3f us per cache hit"
      [unsigned_long_long (simulated_recompute_us o); double (sm_simulated_saved_us s)] = Some (t ++ [newline])) as [t Et].
  { eexists (list_ascii_of_string "simulated recompute only (not a real vLLM/LLM Prefill benchmark): configured="
      ++ print_unsigned 10 (simulated_recompute_us o) ++ list_ascii_of_string " us, mean estimated saved_time="
      ++ F64.fixed 3 (sm_simulated_saved_us s) ++ list_ascii_of_string " us per cache hit").
    rewrite <- !app_assoc. reflexivity. }
  unfold print_text. rewrite Et.
  repeat match goal with
  | |- context [printf ?f ?a] =>
      let u := fresh "u" in assert (is_Some (printf f a)) as [u ->] by (eexists; reflexivity); cbn [mbind option_bind]
  end.
  exists (u2 ++ u1 ++ u0 ++ u ++ t). by rewrite <- !app_assoc.
Qed.

(** ** Properties *)

(** The counters by column. *)
Definition counters (s : Summary) : list (string * Z) :=
  [("operations", sm_operations s); ("dram_hits", sm_dram_hits s); ("ssd_hits", sm_ssd_hits s); ("misses", sm_misses s);
   ("demotions", sm_demotions s); ("promotions", sm_promotions s); ("bytes_read", sm_bytes_read s);
   ("bytes_written", sm_bytes_written s)]%string.

(** C26 (round trip): the report can be read back.  Every format string matches its
    arguments; the two csv lines, split at the commas, have the same number of
    columns and pair each name with its value, and the json object has the same
    members; the counters are read from their columns exactly, and a latency or rate
    that is a non-negative number to the nearest unit of its last decimal. *)
Theorem report_roundtrip (o : Options) (s : Summary) (Hs : counters_wf s) :
  (exists text, PrintSummary o s = Some text
    /\ (format o = "csv" -> read_csv text = Some (fields s))
    /\ (format o = "json" -> read_json text = Some (fields s)))
  /\ Forall (fun '(name, z) => column name (fields s) ≫= read_digits = Some z) (counters s)
  /\ (forall x, nonneg x = true -> exists n, read_decimal 3 (F64.fixed 3 x) = Some n /\ nearest 3 n x)
  /\ (nonneg (sm_hit_rate s) = true -> exists t n, column "hit_rate" (fields s) = Some t
        /\ read_decimal 6 t = Some n /\ nearest 6 n (sm_hit_rate s)).
Proof.
  split_and!.
  - unfold PrintSummary. destruct (print_text_line o s) as [pre ->]. cbn [mbind option_bind]. rewrite print_csv_eq, print_json_eq.
    destruct (String.eqb_spec (format o) "csv") as [E1|E1]; [|destruct (String.eqb_spec (format o) "json") as [E2|E2]];
      (eexists; split; [reflexivity|]; rewrite <- app_assoc; split; intros E; try congruence).
    + by apply read_csv_printed.
    + by apply read_json_printed.
  - destruct Hs as [[? _] ([? _] & [? _] & [? _]) ([? _] & [? _]) ([? _] & [? _])].
    repeat (apply Forall_cons; split; [by apply read_digits_print|]). constructor.
  - intros x Hx. by apply fixed_nearest; [lia|].
  - intros Hx. destruct (fixed_nearest 6 (sm_hit_rate s) ltac:(lia) Hx) as (n & Hn). by eexists _, n.
Qed.

Definition ex_summary : Summary :=
  mkSummary 25 1 22 2 (F64.literal 92 100) (F64.literal 3 2) (F64.literal 5 2) (F64.literal 7 2) 25 23 90 104
    (F64.literal 3 2) (F64.literal 9 4) (F64.of_Z 3) (F64.literal 1 8) (F64.literal 9985 10).

Definition ex_csv : Options := mkOptions 2 4 4 25 "lru" "uniform" 1000 "" "csv".

Lemma report_roundtrip_witness :
  (exists text, PrintSummary ex_csv ex_summary = Some text /\ read_csv text = Some (fields ex_summary))
  /\ column "misses" (fields ex_summary) = Some ["2"%char]
  /\ column "hit_rate" (fields ex_summary) = Some (list_ascii_of_string "0.920000").
Proof.
  split; [|split; vm_compute; reflexivity].
  destruct (report_roundtrip ex_csv ex_summary) as [(text & E & Hc & _) _].
  - split; unfold in_range; cbn; lia.
  - exists text. split; [exact E|]. apply Hc. reflexivity.
Defined.
End BenchReport.
