(* ===== verification/Bench.v ===== *)
(** * Benchmark: the run

    [bench/tiered_cache_bench.cpp], lines 122-170 and 245-403: a program that assembles
    tiers and a storage node through the factories, measures them and prints what it
    measured.  Modelled are its calls, their order, its early exits, the times it
    takes, what it prints and what it does to the file system.  The algorithms of the
    standard distributions are implementation-defined: they are the class [Random].
    The clock and the file system are the classes [Clock] and [FileSystem]. *)

From S2P Require Import Prelude Api BlockKeys BlockCodec EvictionPolicy Lru Arc LocalIndex Tier DramTier SsdTier AnyTier.
From S2P Require Import StorageNode Factory Float64 BenchStats BenchOptions BenchReport.

(** An engine with the two distributions over [0 .. n - 1]. *)
Class Random (R : Type) : Type := {
  seeded : R;
  draw_uniform : Z -> R -> Z * R;
  draw_zipf : Z -> R -> Z * R
}.

Class RandomLaws (R : Type) `{Random R} : Type := {
  draw_uniform_range n r : 1 <= n -> 0 <= (draw_uniform n r).1 < n;
  draw_zipf_range n r : 1 <= n -> 0 <= (draw_zipf n r).1 < n
}.

(** [steady_clock::now()], in nanoseconds. *)
Class Clock (C : Type) : Type := now : C -> Z * C.

(** [a / b] on paths, for a relative [b] *)
Definition path_append (a b : string) : string :=
  match rev (list_ascii_of_string a) with
  | [] => b
  | c :: _ => if Ascii.eqb c "/" then (a +:+ b)%string else (a +:+ "/" +:+ b)%string
  end.

(** [std::filesystem] and the databases kept there; [None] is an exception.
    [store_disk] is what a database at a path has become. *)
Class FileSystem (F D : Type) : Type := {
  temp_directory_path : F -> option string;
  remove_all : string -> F -> option F;
  create_directories : string -> F -> option F;
  disk_at : string -> F -> D;
  store_disk : string -> D -> F -> F
}.

(** The name of an entry of a directory, as opposed to a longer path, an embedded
    NUL or one of the names with a meaning of their own. *)
Definition plain_name (name : string) : bool :=
  forallb (fun c => negb (Ascii.eqb c "/") && negb (Ascii.eqb c zero)) (list_ascii_of_string name)
  && negb (String.eqb name "") && negb (String.eqb name ".") && negb (String.eqb name "..").

(** Two entries of a directory are two databases, creating directories changes no
    database, and under a path that was removed there is none. *)
Class FileSystemLaws (F D : Type) `{FileSystem F D} `{LevelDBLaws D} : Type := {
  disk_at_other dir a b d f :
    plain_name a = true -> plain_name b = true -> a <> b ->
    disk_at (path_append dir a) (store_disk (path_append dir b) d f) = disk_at (path_append dir a) f;
  disk_at_same p d f : disk_at p (store_disk p d f) = d;
  disk_at_created dir p f f' : create_directories dir f = Some f' -> disk_at p f' = disk_at p f;
  disk_at_removed dir name f f' :
    dir <> "" -> plain_name name = true -> remove_all dir f = Some f' -> ldb_view (disk_at (path_append dir name) f') = ∅
}.

Module Bench.
Import BenchOptions BenchStats BenchReport StorageNode F64(f64).
Local Open Scope tp_scope.

(** The latency vectors. *)
Record Samples : Type := mkSamples {
  latencies : list f64;
  dram_latencies : list f64;
  miss_latencies : list f64
}.

(** [static_cast<int32_t>] *)
Definition to_int32 (z : Z) : Z := wrap 32 (z + 2 ^ 31) - 2 ^ 31.

Definition Key (index : Z) : BlockKey := FromTokenPrefix [to_int32 index] 1 0x4242.

Definition MakeBlock (size : Z) (fill : Z) : Block :=
  mkBlock (mkBlockMetadata 1 32 2 8 0 0x4242) (replicate (Z.to_nat size) (byte.of_Z fill)).

Definition MakePolicy (o : Options) : AnyPolicy :=
  if String.eqb (policy o) "arc" then MakeArcEviction (Z.max 1 (dram_capacity o / block_size o))
  else MakeLruEviction.

(** The capacity used when none is given. *)
Definition with_capacity (o : Options) : Options :=
  if dram_capacity o =? 0
  then set_dram_capacity (wrap 64 (block_size o * Z.max 1 (working_set_blocks o / 8))) o
  else o.

(** A call on an object that [main] owns. *)
Definition on_object {S T A} (t : T) (m : comp T A) : comp S (A * T) := fun s al =>
  match m t al with
  | Done (a, t', al') => Done ((a, t'), s, al')
  | Terminated => Terminated
  end.

(** What a call left in the vector it was given. *)
Definition filled (buffer : bytes) (dst : MutableBuffer) : bytes := default buffer (mb_data dst).

(** A value whose computation is defined. *)
Definition defined {S A} (x : option A) : comp S A :=
  match x with
  | Some a => mret a
  | None => terminate
  end.

(** How the process ends: [main] returns, or an exception leaves it. *)
Inductive ending : Type := Returned (code : Z) | Uncaught.

#[global] Instance ending_eq_dec : EqDecision ending.
Proof. solve_decision. Defined.

(** What the process did; [rp_measured] are its local variables when it printed. *)
Record Report : Type := mkReport {
  rp_ending : ending;
  rp_stdout : chars;
  rp_stderr : chars;
  rp_measured : option (Summary * Samples)
}.

(** An early [return code] after an optional message. *)
Definition quit (code : Z) (message : chars) : Report := mkReport (Returned code) [] message None.

(** [std::fprintf(stderr, "... failed: %s\n", s.ToString().c_str())] *)
Definition failure {S} (format : string) (s : Status) : comp S chars :=
  defined (printf format [c_string (c_str (Status_ToString s))]).

Section bench.
Context {C D R : Type} `{Clock C} `{LevelDB D} `{Random R}.

Abbreviation node := (StorageNode (AnyTier D) AnyPolicy).

(** The result of a call, the time it took and the clock after it. *)
Definition TimeUs {S A} (clock : C) (fn : comp S A) : comp S (A * f64 * C) :=
  let '(begin_, clock1) := now clock in
  x ← fn;
  let '(end_, clock2) := now clock1 in
  mret (x, duration_us (end_ - begin_), clock2).

Definition NextIndex (o : Options) (operation : Z) (rng : R) : Z * R :=
  if String.eqb (access_pattern o) "sequential" then (operation mod working_set_blocks o, rng)
  else if String.eqb (access_pattern o) "uniform" then draw_uniform (working_set_blocks o) rng
  else draw_zipf (working_set_blocks o) rng.

(** ** The tiers alone *)

Definition Get (key : BlockKey) (buffer : bytes) : comp (AnyTier D) (bool * bytes) :=
  x ← tier_Get key (mkMutableBuffer (match buffer with [] => None | _ => Some buffer end) (zlen buffer)) true;
  mret (ok x.1.1, filled buffer x.1.2).

(** [n] timed reads: the samples, oldest first. *)
Fixpoint sample_gets (n : nat) (key : BlockKey) (buffer : bytes) (clock : C) : comp (AnyTier D) (list f64 * bytes * C) :=
  match n with
  | O => mret ([], buffer, clock)
  | S n' =>
      x ← TimeUs clock (Get key buffer);
      rest ← sample_gets n' key x.1.1.2 x.2;
      mret (x.1.2 :: rest.1.1, rest.1.2, rest.2)
  end.

(** The median time, the buffer and the clock; [inl] with a message: [main]
    returns 1. *)
Definition direct_dram (key : BlockKey) (block : Block) (buffer : bytes) (clock : C)
  : comp (AnyTier D) (chars + f64 * bytes * C) :=
  r ← tier_Put key block;
  match r with
  | Error _ => mret (inl [])
  | Value _ =>
      x ← sample_gets 1000 key buffer clock;
      p ← defined (Percentile x.1.1 (F64.literal 5 10));
      mret (inr (p, x.1.2, x.2))
  end.

Definition direct_ssd (key : BlockKey) (block : Block) (buffer : bytes) (clock : C)
  : comp (AnyTier D) (chars + f64 * bytes * C) :=
  s ← tier_Open;
  if negb (ok s) then (e ← failure "benchmark SSD open failed: %s" s; mret (inl e))
  else (
    r ← tier_Put key block;
    match r with
    | Error _ => mret (inl [])
    | Value _ =>
        x ← sample_gets 1000 key buffer clock;
        p ← defined (Percentile x.1.1 (F64.literal 5 10));
        c ← tier_Close;
        mret (if ok c then inr (p, x.1.2, x.2) else inl [])
    end).

(** ** The node *)

(** [for (i = 0; i < working_set_blocks; ++i)]: the keys stored; [inl] with a message
    when a [Put] fails. *)
Fixpoint seed_blocks (o : Options) (todo : nat) (i : Z) : comp node (chars + list BlockKey) :=
  match todo with
  | O => mret (inr [])
  | S todo' =>
      s ← Put (Key i) (MakeBlock (block_size o) (wrap 8 i));
      if negb (ok s) then (e ← failure "benchmark seed Put failed: %s" s; mret (inl e))
      else (
        rest ← seed_blocks o todo' (i + 1);
        mret (match rest with inl e => inl e | inr keys => inr (Key i :: keys) end))
  end.

(** [node.Get(key, MutableBuffer{buffer.data(), buffer.size()}, &view)] *)
Definition read (key : BlockKey) (buffer : bytes) : comp node (Status * bytes) :=
  x ← StorageNode.Get key (mkMutableBuffer (Some buffer) (zlen buffer)) true;
  mret (x.1.1, filled buffer x.1.2).

(** The first key found on SSD is read once: [ssd_promotion_us], the buffer and the
    clock. *)
Fixpoint probe_promotion (keys : list BlockKey) (buffer : bytes) (clock : C) : comp node (f64 * bytes * C) :=
  match keys with
  | [] => mret (F64.f_zero, buffer, clock)
  | key :: rest =>
      n ← get;
      match Locate key n with
      | Value loc =>
          if decide (tier loc = kSsd) then (x ← TimeUs clock (read key buffer); mret (x.1.2, x.1.1.2, x.2))
          else probe_promotion rest buffer clock
      | Error _ => probe_promotion rest buffer clock
      end
  end.

(** The key of operation [i]; reading past the end of [keys] is undefined. *)
Definition choose (o : Options) (keys : list BlockKey) (i : Z) (rng : R) : comp node (BlockKey * R) :=
  if i mod 20 =? 0 then mret (Key (wrap 64 (working_set_blocks o + 1000)), rng)
  else
    let '(index, rng') := NextIndex o i rng in
    match keys !! Z.to_nat index with
    | Some key => mret (key, rng')
    | None => terminate
    end.

(** [before_tier], from the state before the read. *)
Definition tier_before (i : Z) (key : BlockKey) (n : node) : TierType :=
  if i mod 20 =? 0 then kDram
  else match Locate key n with Value loc => tier loc | Error _ => kDram end.

Definition record_sample (before : TierType) (status : Status) (latency : f64) (s : Samples) : Samples :=
  let all := latencies s ++ [latency] in
  if ok status && bool_decide (before = kDram) then mkSamples all (dram_latencies s ++ [latency]) (miss_latencies s)
  else if negb (ok status) then mkSamples all (dram_latencies s) (miss_latencies s ++ [latency])
  else mkSamples all (dram_latencies s) (miss_latencies s).

Fixpoint operate (o : Options) (keys : list BlockKey) (todo : nat) (i : Z) (rng : R) (buffer : bytes) (clock : C) (s : Samples)
  : comp node Samples :=
  match todo with
  | O => mret s
  | S todo' =>
      c ← choose o keys i rng;
      n ← get;
      x ← TimeUs clock (read c.1 buffer);
      operate o keys todo' (i + 1) c.2 x.1.1.2 x.2 (record_sample (tier_before i c.1 n) x.1.1.1 x.1.2 s)
  end.

(** The fields of [summary]; [dram], [ssd] and [promotion] are those set before. *)
Definition summarise (o : Options) (before after : StorageNodeStats) (dram ssd promotion : f64) (s : Samples)
  : option Summary :=
  let dram_hits := wrap 64 (dram_hits after - dram_hits before) in
  let ssd_hits := wrap 64 (ssd_hits after - ssd_hits before) in
  let hits := wrap 64 (dram_hits + ssd_hits) in
  p50 ← Percentile (latencies s) (F64.literal 50 100);
  p95 ← Percentile (latencies s) (F64.literal 95 100);
  p99 ← Percentile (latencies s) (F64.literal 99 100);
  dram_hit_us ← match dram_latencies s with [] => Some dram | l => Percentile l (F64.literal 5 10) end;
  miss_us ← Percentile (miss_latencies s) (F64.literal 5 10);
  Some (mkSummary (operations o) dram_hits ssd_hits
    (wrap 64 (node_misses after - node_misses before))
    (if operations o =? 0 then F64.f_zero else F64.div (F64.of_Z hits) (F64.of_Z (operations o)))
    p50 p95 p99 (demotions after) (promotions after)
    (wrap 64 (bytes_read after - bytes_read before)) (bytes_written after)
    dram_hit_us ssd promotion miss_us
    (F64.max F64.f_zero (F64.sub (F64.of_Z (simulated_recompute_us o)) (Mean (latencies s))))).

(** From [node.Open()] to [node.Close()]. *)
Definition run_node (o : Options) (dram ssd : f64) (buffer : bytes) (clock : C) : comp node Report :=
  s ← Open;
  if negb (ok s) then (e ← failure "benchmark node open failed: %s" s; mret (quit 1 e))
  else (
    seeded_keys ← seed_blocks o (Z.to_nat (working_set_blocks o)) 0;
    match seeded_keys with
    | inl e => mret (quit 1 e)
    | inr keys =>
        p ← probe_promotion keys buffer clock;
        before ← gets Stats;
        samples ← operate o keys (Z.to_nat (operations o)) 0 seeded p.1.2 p.2 (mkSamples [] [] []);
        after ← gets Stats;
        summary ← defined (summarise o before after dram ssd p.1.1 samples);
        text ← defined (PrintSummary o summary);
        c ← Close;
        if ok c then mret (mkReport (Returned 0) text [] (Some (summary, samples)))
        else (e ← failure "benchmark node close failed: %s" c; mret (mkReport (Returned 1) text e (Some (summary, samples))))
    end).

(** ** The process *)

Context {F : Type} `{FileSystem F D}.

(** The database behind a tier or a node. *)
Definition tier_disk (d : D) (t : AnyTier D) : D := match t with Ssd s => SsdTier.disk s | Dram _ => d end.
Definition node_disk (d : D) (n : node) : D := fold_left (fun d t => match t with Some t => tier_disk d t | None => d end) (tiers_ n) d.

(** A call of the file system that may throw. *)
Definition fs_call (f : F -> option F) : comp F bool := fun s al =>
  match f s with
  | Some s' => Done (true, s', al)
  | None => Done (false, s, al)
  end.

Definition usage_format : string :=
  "usage: %s [--block-size=N] [--working-set-blocks=N] [--dram-capacity=N] [--operations=N] [--policy=lru|arc] [--access-pattern=uniform|sequential|zipf] [--simulated-recompute-us=N] [--db-path=PATH] [--format=text|csv|json]".

(** [root]; [None]: [temp_directory_path] throws. *)
Definition bench_root (o : Options) (pid : Z) (f : F) : option string :=
  if String.eqb (db_path o) "" then
    (fun tmp => path_append tmp ("tidepool_bench_" +:+ to_string pid +:+ "_" +:+ policy o)%string) <$> temp_directory_path f
  else Some (db_path o).

(** The measurements, once [root] exists. *)
Definition measure (o : Options) (root : string) (clock : C) : comp F Report :=
  let key := Key (wrap 64 (working_set_blocks o + 1)) in
  let block := MakeBlock (block_size o) 0x5a in
  let direct := path_append root "direct" in
  let tiered := path_append root "tiered" in
  x ← on_object (MakeDramTier (wrap 64 (block_size o * 2)))
        (direct_dram key block (replicate (Z.to_nat (block_size o)) Byte.x00) clock);
  match x.1 with
  | inl e => mret (quit 1 e)
  | inr (dram, b1, clock1) =>
      f1 ← get;
      y ← on_object (MakeSsdTier direct (disk_at direct f1)) (direct_ssd key block b1 clock1);
      modify (store_disk direct (tier_disk (disk_at direct f1) y.2));;
      match y.1 with
      | inl e => mret (quit 1 e)
      | inr (ssd, b2, clock2) =>
          f2 ← get;
          z ← on_object
                (make "tiered-benchmark" [Some (MakeDramTier (dram_capacity o)); Some (MakeSsdTier tiered (disk_at tiered f2))]
                   (Some (MakePolicy o)))
                (run_node o dram ssd b2 clock2);
          modify (store_disk tiered (node_disk (disk_at tiered f2) z.2));;
          mret z.1
      end
  end.

Definition main (argv0 : string) (args : list string) (pid : Z) (clock : C) : comp F Report :=
  match ParseOptions args with
  | None => usage ← defined (S := F) (printf usage_format [c_string (c_str argv0)]); mret (quit 2 usage)
  | Some parsed =>
      let o := with_capacity parsed in
      let temporary_path := String.eqb (db_path o) "" in
      f ← get;
      match bench_root o pid f with
      | None => mret (mkReport Uncaught [] [] None)
      | Some root =>
          removed ← (if temporary_path then fs_call (remove_all root) else mret true);
          if negb removed then mret (mkReport Uncaught [] [] None)
          else (
            created ← fs_call (create_directories root);
            if negb created then mret (mkReport Uncaught [] [] None)
            else (
              r ← measure o root clock;
              if decide (rp_ending r = Returned 0) then (
                cleaned ← (if temporary_path then fs_call (remove_all root) else mret true);
                if negb cleaned then mret (mkReport Uncaught (rp_stdout r) (rp_stderr r) (rp_measured r)) else mret r)
              else mret r))
      end
  end.
End bench.
End Bench.
