(* ===== verification/BenchTheorems.v ===== *)
(** * Benchmark: theorems

    What a run of the benchmark reports: the tiers and the node behave as their
    contracts say, every percentile and every conversion is defined, and the counters
    account for the reads. *)

From S2P Require Import Prelude Api BlockKeys BlockCodec EvictionPolicy Lru Arc LocalIndex Tier DramTier SsdTier AnyTier.
From S2P Require Import StorageNode NodeInv NodePut NodeGet NodeOpen NodeSpec NodeTheorems NodeStats Factory.
From S2P Require Import Float64 BenchStats BenchOptions BenchReport Bench.

Module BenchTheorems.
Import BenchOptions BenchStats BenchReport StorageNode Bench F64(f64).
Local Open Scope tp_scope.

(** ** Keys and blocks *)

Lemma Key_eq i : Key i = mkBlockKey (fnv_mix fnv_basis (wrap 32 i) 4) 1 0x4242.
Proof.
  unfold Key, FromTokenPrefix. change (if 1 <? zlen [to_int32 i] then 1 else wrap 32 (zlen [to_int32 i])) with 1.
  unfold fnv_tokens. change (Z.to_nat 1) with 1%nat. cbn [take fold_left]. f_equal. f_equal.
  unfold to_int32, wrap. rewrite Zminus_mod_idemp_l. f_equal. lia.
Qed.

Lemma Key_wf i : BlockKey_wf (Key i).
Proof. rewrite Key_eq. split; [apply fnv_mix_range, fnv_basis_range|done]. Qed.

Lemma Key_inj i j : Key i = Key j -> wrap 32 i = wrap 32 j.
Proof. rewrite !Key_eq. intros [= E]. apply fnv_mix_token_inj in E; [done|by apply wrap_range..]. Qed.

Lemma MakeBlock_storable i size fill :
  0 <= size -> block_codec.kHeaderSize + size < 2 ^ 63 -> storable (Key i) (MakeBlock size fill).
Proof.
  intros H0 H1. assert (size_bytes (MakeBlock size fill) = size) as E
    by (unfold size_bytes, zlen; cbn; rewrite length_replicate; lia).
  split; [apply Key_wf|]. rewrite E. split; [|done]. split; [by vm_compute|].
  rewrite E. unfold in_range, block_codec.kHeaderSize in *. lia.
Qed.

Lemma wp_on_object {S T A} (t : T) (m : comp T A) (Q : A * T -> S -> Prop) s :
  wp m (fun a t' => Q (a, t') s) t -> wp (on_object t m) Q s.
Proof. intros Hm al. specialize (Hm al). unfold on_object. by destruct (m t al) as [[[a t'] al']|]. Qed.

Lemma wp_defined {S A} (x : option A) (Q : A -> S -> Prop) s :
  is_Some x -> (forall a, x = Some a -> Q a s) -> wp (defined x) Q s.
Proof. intros [a ->] HQ. cbn. apply wp_ret. by apply HQ. Qed.

(** A format with one text argument. *)
Definition prints (format : string) : Prop := forall t, is_Some (printf format [c_string t]).

Lemma wp_failure {S} format st (Q : chars -> S -> Prop) s :
  prints format -> (forall e, Q e s) -> wp (failure format st) Q s.
Proof. intros Hf HQ. apply wp_defined; [apply Hf|]. intros e _. apply HQ. Qed.

Lemma wp_TimeUs {C S A} `{Clock C} (clock : C) (fn : comp S A) (Q : A * f64 * C -> S -> Prop) s :
  wp fn (fun a s' => forall t c, F64.not_nan t -> Q (a, t, c) s') s -> wp (TimeUs clock fn) Q s.
Proof.
  intros Hfn. unfold TimeUs. destruct (now clock) as [b c1]. wp_steps. eapply wp_mono; [exact Hfn|].
  intros a s' HQ. destruct (now c1) as [e c2]. wp_steps. apply HQ, duration_not_nan.
Qed.

Lemma median_literal : F64.literal 5 10 = F64.literal 50 100.
Proof. vm_compute. reflexivity. Qed.

Lemma quantile_50 : 50 ∈ quantiles. Proof. by left. Qed.
Lemma quantile_95 : 95 ∈ quantiles. Proof. by right; left. Qed.
Lemma quantile_99 : 99 ∈ quantiles. Proof. by right; right; left. Qed.

Lemma median_defined l : zlen l < 2 ^ 44 -> is_Some (Percentile l (F64.literal 5 10)).
Proof. rewrite median_literal. apply Percentile_defined, quantile_50. Qed.

Section direct.
Context {C D R : Type} `{Clock C} `{LevelDBLaws D}.

(** A tier that can be used. *)
Definition usable (t : AnyTier D) : Prop := tier_inv t /\ tier_IsReady t = true.

Lemma wp_sample_gets n key : forall buffer (clock : C) t, usable t -> BlockKey_wf key ->
  wp (sample_gets n key buffer clock) (fun x t' => usable t' /\ length x.1.1 = n) t.
Proof.
  induction n as [|n IH]; intros buffer clock t Ht Hk; cbn [sample_gets]; wp_steps; [done|].
  apply wp_TimeUs. unfold Get. wp_steps. eapply wp_mono; [apply tier_Get_law; [apply Ht..|done]|].
  intros [[s dst] v] t' ((Ti & _ & Tr & _) & _). wp_steps. intros d c _. wp_steps.
  eapply wp_mono; [apply IH; [|done]; split; [done|]; rewrite Tr; apply Ht|].
  intros x t2 [Hu Hl]. wp_steps. split; [done|]. cbn. by rewrite Hl.
Qed.

Lemma wp_direct_dram cap key block buffer (clock : C) :
  u64 cap -> storable key block -> wp (direct_dram key block buffer clock) (fun _ _ => True) (MakeDramTier cap).
Proof.
  intros Hc Hs. unfold direct_dram. wp_steps.
  eapply wp_mono; [apply tier_Put_law; [exact (DramTier.dram_inv_make cap Hc)|done|done]|].
  intros [h|e] t' [(Ti & _ & Tr & _) _]; wp_steps; [|done].
  eapply wp_mono; [apply wp_sample_gets; [by split; [|rewrite Tr]|apply Hs]|]. intros b t2 [_ Hl]. wp_steps.
  apply wp_defined; [|intros p _; by wp_steps]. apply median_defined. unfold zlen. rewrite Hl. lia.
Qed.

Lemma wp_direct_ssd path disk key block buffer (clock : C) :
  storable key block -> wp (direct_ssd key block buffer clock) (fun _ _ => True) (MakeSsdTier path disk).
Proof.
  intros Hs. unfold direct_ssd. wp_steps.
  apply wp_dispatch_ssd. eapply wp_mono; [apply SsdTier.wp_ssd_Open, SsdTier.ssd_inv_make|].
  intros s t1 (Ti & _ & _ & Hr & _). destruct (ok s) eqn:Es; cbn [negb]; wp_steps.
  2: { apply wp_failure; [by eexists|]. intros e. by wp_steps. }
  eapply wp_mono; [apply (tier_Put_law (Ssd t1)); [exact Ti|exact (Hr eq_refl)|done]|].
  intros [h|e] t2 [(Ti2 & _ & Tr2 & _) _]; wp_steps; [|done].
  eapply wp_mono; [apply wp_sample_gets; [split; [done|rewrite Tr2; exact (Hr eq_refl)]|apply Hs]|]. intros b t3 [[Ti3 _] Hl]. wp_steps.
  apply wp_defined; [apply median_defined; unfold zlen; rewrite Hl; lia|]. intros p _. wp_steps.
  eapply wp_mono; [by apply tier_Close_law|]. intros c t4 _. by wp_steps.
Qed.
End direct.

(** ** The node during the run *)

Section session.
Context {W D R : Type} `{Clock W} `{LevelDBLaws D} `{RandomLaws R}.

Abbreviation node := (StorageNode (AnyTier D) AnyPolicy).

(** Open, serving every key of [keys] and not [missing]. *)
Record steady (keys : list BlockKey) (missing : BlockKey) (n : node) : Prop := {
  sd_inv : node_inv n;
  sd_ready : ready_ n = true;
  sd_stats : stats_wf (stats_ n);
  sd_keys : forall k, k ∈ keys -> BlockKey_wf k /\ is_Some (serves n k);
  sd_missing : BlockKey_wf missing /\ serves n missing = None
}.

Lemma steady_preserved keys missing n n' dh sh ms :
  steady keys missing n -> preserves n n' -> counted dh sh ms n n' -> steady keys missing n'.
Proof.
  intros [S1 S2 S3 S4 S5] [P1 P2 P3 P4] C. split; [done|congruence|by apply C| |by rewrite P4].
  intros k Hk. rewrite P4. by apply S4.
Qed.

Lemma steady_incl keys keys' missing n : keys' ⊆ keys -> steady keys missing n -> steady keys' missing n.
Proof. intros Hs [S1 S2 S3 S4 S5]. split; try done. intros k Hk. by apply S4, Hs. Qed.

Lemma steady_put keys missing (n n' : node) k b s :
  steady keys missing n -> BlockKey_wf k -> k <> missing -> put_result k b n s n' -> counted 0 0 0 n n' -> ok s = true ->
  steady (k :: keys) missing n'.
Proof.
  intros [S1 S2 S3 S4 S5] Hk Hm [P1 P2 P3 P4 P5] C Hs. rewrite Hs in P4.
  split; [done|congruence|by apply C| |by rewrite P5 by done].
  intros k' Hin. destruct (decide (k' = k)) as [->|Hne]; [by rewrite P4|]. rewrite P5 by done.
  apply elem_of_cons in Hin as [?|Hin]; [done|]. by apply S4.
Qed.

Lemma wp_seed_blocks o missing todo : forall i (n : node) keys,
  0 <= block_size o -> block_codec.kHeaderSize + block_size o < 2 ^ 63 -> steady keys missing n ->
  (forall j, i <= j < i + Z.of_nat todo -> Key j <> missing) ->
  wp (seed_blocks o todo i)
    (fun r n' => forall ks, r = inr ks -> length ks = todo /\ steady (ks ++ keys) missing n') n.
Proof.
  induction todo as [|todo IH]; intros i n keys Hb0 Hb Hn Hm; cbn [seed_blocks]; wp_steps; [by intros ks [= <-]|].
  eapply wp_mono; [apply (wp_stays (counted 0 0 0)), wp_Put; [apply stays_Put|apply Hn|by apply MakeBlock_storable]|].
  intros s n1 [Pr Cn]. destruct (ok s) eqn:Es; cbn [negb]; wp_steps.
  2: { apply wp_failure; [by eexists|]. intros e. by wp_steps. }
  eapply wp_mono; [apply (IH (i + 1) n1 (Key i :: keys)); try done|].
  - eapply steady_put; try done; [apply Key_wf|apply Hm; lia].
  - intros j Hj. apply Hm. lia.
  - intros [e|rest] n2 HQ; wp_steps; [done|]. intros ks [= <-]. destruct (HQ rest eq_refl) as [El Hs].
    split; [by cbn; rewrite El|]. eapply steady_incl, Hs. intros k. rewrite !elem_of_app, !elem_of_cons. tauto.
Qed.

(** What one read does. *)
Record read_result (key : BlockKey) (n : node) (s : Status) (n' : node) : Prop := {
  rr_preserves : preserves n n';
  rr_counted : counted (read_count n key s).1.1 (read_count n key s).1.2 (read_count n key s).2 n n';
  rr_hits : (read_count n key s).1.1 + (read_count n key s).1.2 = if ok s then 1 else 0;
  rr_misses : (read_count n key s).2 = if decide (code s = kNotFound) then 1 else 0;
  rr_found : code s = kNotFound <-> serves n key = None
}.

Lemma wp_read (n : node) key buffer :
  node_inv n -> ready_ n = true -> BlockKey_wf key ->
  wp (read key buffer) (fun x n' => read_result key n x.1 n') n.
Proof.
  intros Hn Hr Hk. unfold read. wp_steps. set (dst := mkMutableBuffer _ _). intros al.
  pose proof (wp_Get n key dst true Hn Hk al) as HG.
  destruct (StorageNode.Get key dst true n al) as [[[[[s dst'] v] n'] al']|] eqn:E; [|done]. cbn.
  destruct (read_count_status n key dst true s dst' v n' Hn HG) as [Eh Em].
  split; [apply HG|by eapply Get_counts|done|done|by apply HG].
Qed.

Lemma wp_probe_promotion keys : forall buffer (clock : W) all missing n,
  keys ⊆ all -> steady all missing n -> wp (probe_promotion keys buffer clock) (fun _ n' => steady all missing n') n.
Proof.
  induction keys as [|key keys IH]; intros buffer clock all missing n Hs Hn; cbn [probe_promotion]; wp_steps; [done|].
  assert (keys ⊆ all) by (intros k Hk; apply Hs; by right).
  destruct (Locate key n) as [loc|e]; [|by apply IH]. destruct (decide (tier loc = kSsd)); [|by apply IH]. wp_steps. apply wp_TimeUs.
  destruct (sd_keys _ _ _ Hn key) as [Hk _]; [apply Hs; by left|].
  eapply wp_mono; [apply wp_read; [apply Hn..|done]|]. intros x n' [Rp Rc _ _ _] t c _. wp_steps. by eapply steady_preserved.
Qed.

(** The injected misses among operations [0 .. i - 1]. *)
Definition injected (i : Z) : Z := (i + 19) / 20.

Lemma injected_succ i : 0 <= i -> injected (i + 1) = injected i + (if i mod 20 =? 0 then 1 else 0).
Proof.
  intros Hi. unfold injected. destruct (Z.eqb_spec (i mod 20) 0); Z.to_euclidean_division_equations; lia.
Qed.

Lemma NextIndex_range o i (rng : R) : 1 <= working_set_blocks o -> 0 <= (NextIndex o i rng).1 < working_set_blocks o.
Proof.
  intros Hw. unfold NextIndex. destruct (String.eqb _ _); [apply Z.mod_pos_bound; lia|].
  destruct (String.eqb _ _); [by apply draw_uniform_range|by apply draw_zipf_range].
Qed.

Lemma wp_choose o keys i (rng : R) (n : node) :
  1 <= working_set_blocks o -> length keys = Z.to_nat (working_set_blocks o) ->
  wp (choose o keys i rng)
    (fun c n' => n' = n /\ if i mod 20 =? 0 then c.1 = Key (wrap 64 (working_set_blocks o + 1000)) else c.1 ∈ keys) n.
Proof.
  intros Hw Hl. unfold choose. destruct (i mod 20 =? 0); wp_steps; [done|].
  pose proof (NextIndex_range o i rng Hw) as Hr. destruct (NextIndex o i rng) as [index rng']. cbn in Hr.
  destruct (keys !! Z.to_nat index) as [key|] eqn:E; [wp_steps; split; [done|by eapply list_elem_of_lookup_2]|].
  apply lookup_ge_None in E. lia.
Qed.

(** The vectors grew by [all], [dh] and [ms] samples. *)
Record sampled (all dh ms : Z) (sa sa' : Samples) : Prop := {
  sp_latencies : zlen (latencies sa') = zlen (latencies sa) + all;
  sp_dram : zlen (dram_latencies sa') = zlen (dram_latencies sa) + dh;
  sp_miss : zlen (miss_latencies sa') = zlen (miss_latencies sa) + ms;
  sp_numbers : Forall F64.not_nan (latencies sa) -> Forall F64.not_nan (latencies sa')
}.

Lemma sampled_trans a b c a' b' c' x y z : sampled a b c x y -> sampled a' b' c' y z -> sampled (a + a') (b + b') (c + c') x z.
Proof. intros [] []. split; [lia..|tauto]. Qed.

Lemma zlen_snoc {A} (l : list A) x : zlen (l ++ [x]) = zlen l + 1.
Proof. rewrite zlen_app. done. Qed.

(** The sample vectors and the counters agree on one operation. *)
Lemma record_sample_counts keys missing n i key s n' sa t :
  steady keys missing n -> read_result key n s n' -> (if i mod 20 =? 0 then key = missing else key ∈ keys) -> F64.not_nan t ->
  let rc := read_count n key s in
  rc.2 = (if i mod 20 =? 0 then 1 else 0) /\ 0 <= rc.1.1 /\ 0 <= rc.1.2 /\ rc.1.1 + rc.1.2 <= 1
  /\ sampled 1 rc.1.1 (1 - rc.1.1 - rc.1.2) sa (record_sample (tier_before i key n) s t sa).
Proof.
  intros Hn [Rp Rc Rh Rm Rf] Hk Ht rc. fold rc in Rh, Rm. assert (0 <= rc.1.1 /\ 0 <= rc.1.2 /\ rc.1.1 + rc.1.2 <= 1) as (? & ? & ?).
  { unfold rc, read_count. repeat case_match; done. }
  assert (forall d m, zlen d = zlen (dram_latencies sa) + rc.1.1 -> zlen m = zlen (miss_latencies sa) + (1 - rc.1.1 - rc.1.2) ->
    sampled 1 rc.1.1 (1 - rc.1.1 - rc.1.2) sa (mkSamples (latencies sa ++ [t]) d m)) as Hsp.
  { intros d m Hd Hm. split; cbn; [apply zlen_snoc|done|done|]. intros Hl. apply Forall_app. by split; [|constructor]. }
  unfold record_sample, tier_before. destruct (i mod 20 =? 0).
  - subst key. assert (code s = kNotFound) as Es by apply Rf, Hn. rewrite decide_True in Rm by done.
    rewrite (proj2 (ok_false_iff s)) in * by congruence. split_and!; try done. cbn [andb negb]. apply Hsp; rewrite ?zlen_snoc; lia.
  - destruct (sd_keys _ _ _ Hn key Hk) as [_ [b Hb]]. rewrite decide_False in Rm by (rewrite Rf; congruence).
    split_and!; try done. destruct (ok s) eqn:Eok; cbn [andb negb]; [|apply Hsp; rewrite ?zlen_snoc; lia].
    unfold rc, read_count in *. rewrite Eok in *. destruct (Locate key n) as [loc|e]; [|destruct (ready_ n); discriminate Rh].
    destruct (decide (tier loc = kDram)) as [->|Hd]; cbn in *; [apply Hsp; rewrite ?zlen_snoc; lia|].
    rewrite bool_decide_false by done. apply Hsp; lia.
Qed.

Lemma wp_operate o keys missing todo : forall i (rng : R) buffer (clock : W) sa n,
  1 <= working_set_blocks o -> length keys = Z.to_nat (working_set_blocks o) -> 0 <= i ->
  missing = Key (wrap 64 (working_set_blocks o + 1000)) -> steady keys missing n ->
  wp (operate o keys todo i rng buffer clock sa)
    (fun sa' n' => steady keys missing n' /\ exists dh sh, 0 <= dh /\ 0 <= sh /\ dh + sh <= Z.of_nat todo
       /\ counted dh sh (injected (i + Z.of_nat todo) - injected i) n n'
       /\ sampled (Z.of_nat todo) dh (Z.of_nat todo - dh - sh) sa sa') n.
Proof.
  induction todo as [|todo IH]; intros i rng buffer clock sa n Hw Hl Hi Hm Hn; cbn [operate]; wp_steps.
  { split; [done|]. exists 0, 0. split_and!; try done; [|split; try done; lia].
    rewrite Z.add_0_r, Z.sub_diag. by apply (reflexivity (R := counted 0 0 0)). }
  eapply wp_mono; [by apply wp_choose|]. intros [key rng'] n0 [-> Hkey]. cbn [fst snd] in *. wp_steps. rewrite <- Hm in Hkey.
  assert (BlockKey_wf key) as Hk.
  { destruct (i mod 20 =? 0); [by rewrite Hkey; destruct (sd_missing _ _ _ Hn)|by destruct (sd_keys _ _ _ Hn key)]. }
  apply wp_TimeUs. eapply wp_mono; [apply wp_read; [apply Hn..|done]|]. intros [s buffer'] n1 Rr t c Ht. cbn [fst snd] in *.
  destruct (record_sample_counts _ _ _ i _ _ _ sa t Hn Rr Hkey Ht) as (Em & Ed & Es & Eds & Sp). pose proof Rr as [Rp Rc _ _ _].
  eapply wp_mono; [apply (IH (i + 1)); try done; [lia|by eapply steady_preserved]|].
  intros sa' n2 [Hn2 (dh & sh & Hdh & Hsh & Hle & Cn & Sp')]. split; [done|].
  exists ((read_count n key s).1.1 + dh), ((read_count n key s).1.2 + sh). split_and!; [lia..| |].
  - replace (injected (i + Z.of_nat (S todo)) - injected i)
      with ((read_count n key s).2 + (injected (i + 1 + Z.of_nat todo) - injected (i + 1))).
    + by eapply counted_trans.
    + rewrite injected_succ, Em by done. replace (i + Z.of_nat (S todo)) with (i + 1 + Z.of_nat todo) by lia. lia.
  - pose proof (sampled_trans _ _ _ _ _ _ _ _ _ Sp Sp') as [? ? ? ?]. split; [lia..|done].
Qed.

(** What a run that prints its summary reports. *)
Record accounted (o : Options) (sm : Summary) (sa : Samples) : Prop := {
  ac_operations : sm_operations sm = operations o /\ zlen (latencies sa) = operations o;
  ac_misses : sm_misses sm = (operations o + 19) / 20;
  ac_dram : sm_dram_hits sm = zlen (dram_latencies sa);
  ac_total : sm_dram_hits sm + sm_ssd_hits sm + zlen (miss_latencies sa) = operations o;
  ac_percentiles :
    order_statistic ((50 * operations o + 99) / 100) (latencies sa) (sm_p50_us sm)
    /\ order_statistic ((95 * operations o + 99) / 100) (latencies sa) (sm_p95_us sm)
    /\ order_statistic ((99 * operations o + 99) / 100) (latencies sa) (sm_p99_us sm);
  ac_counters : counters_wf sm
}.

(** A counter that advanced by less than [2^64]. *)
Lemma counter_difference a b d : b = wrap 64 (a + d) -> 0 <= d < 2 ^ 64 -> wrap 64 (b - a) = d.
Proof.
  intros -> Hd. unfold wrap. rewrite Zminus_mod_idemp_l. replace (a + d - a) with d by lia. by apply Z.mod_small.
Qed.

Lemma summarise_accounted o (n n' : node) dh sh dram ssd promotion sa :
  1 <= operations o < 2 ^ 44 -> stats_wf (stats_ n) -> 0 <= dh -> 0 <= sh -> dh + sh <= operations o ->
  counted dh sh (injected (operations o)) n n' ->
  sampled (operations o) dh (operations o - dh - sh) (mkSamples [] [] []) sa ->
  exists sm, summarise o (Stats n) (Stats n') dram ssd promotion sa = Some sm /\ accounted o sm sa.
Proof.
  intros Ho Hn Hd Hs Hle Cn [Sl Sd Sm Sn]. cbn [latencies dram_latencies miss_latencies] in Sl, Sd, Sm.
  change (zlen (@nil f64)) with 0 in Sl, Sd, Sm. rewrite Z.add_0_l in Sl, Sd, Sm. specialize (Sn (Forall_nil_2 _)).
  destruct (Cn Hn) as ((W1 & W2 & W3 & W4 & W5 & W6 & W7) & Ed & Es & Em). unfold Stats in *.
  assert (0 <= injected (operations o) <= operations o) as Hin by (unfold injected; Z.to_euclidean_division_equations; lia).
  assert (1 <= zlen (latencies sa) < 2 ^ 44) as Hl by lia.
  destruct (Percentile_order_statistic 50 _ quantile_50 Hl Sn) as (p50 & P50 & O50).
  destruct (Percentile_order_statistic 95 _ quantile_95 Hl Sn) as (p95 & P95 & O95).
  destruct (Percentile_order_statistic 99 _ quantile_99 Hl Sn) as (p99 & P99 & O99).
  assert (is_Some (match dram_latencies sa with [] => Some dram | l => Percentile l (F64.literal 5 10) end)) as [dh_us Edh].
  { pose proof (median_defined (dram_latencies sa) ltac:(lia)) as Hd'. by destruct (dram_latencies sa). }
  destruct (median_defined (miss_latencies sa) ltac:(lia)) as [ms_us Ems].
  unfold summarise. rewrite P50, P95, P99. cbn [mbind option_bind]. rewrite Edh. cbn [mbind option_bind]. rewrite Ems. cbn [mbind option_bind].
  eexists. split; [reflexivity|]. rewrite (counter_difference _ _ _ Ed), (counter_difference _ _ _ Es), (counter_difference _ _ _ Em) by lia.
  rewrite Sl in O50, O95, O99.
  split; cbn [sm_operations sm_misses sm_dram_hits sm_ssd_hits sm_p50_us sm_p95_us sm_p99_us]; [lia|done|lia|lia|done|].
  split; cbn; unfold in_range in *; [lia|lia|done|]. split; [apply wrap_range; lia|done].
Qed.

Lemma made_MakePolicy o : made (MakePolicy o).
Proof. unfold MakePolicy. destruct (String.eqb _ _); constructor. Qed.

(** A report of [main] is about the measurements it printed. *)
Definition report_ok (o : Options) (r : Report) : Prop :=
  (rp_ending r = Returned 0 -> is_Some (rp_measured r))
  /\ forall sm sa, rp_measured r = Some (sm, sa) -> PrintSummary o sm = Some (rp_stdout r) /\ accounted o sm sa.

Lemma report_quit o code e : code <> 0 -> report_ok o (quit code e).
Proof. intros Hc. split; [by intros [= ->]|done]. Qed.

Lemma PrintSummary_defined o sm : is_Some (PrintSummary o sm).
Proof.
  unfold PrintSummary. destruct (print_text_line o sm) as [pre ->]. cbn [mbind option_bind]. rewrite print_csv_eq, print_json_eq.
  by repeat case_match; eexists.
Qed.

Lemma wp_run_node o cap path disk dram ssd buffer (clock : W) :
  options_wf o -> u64 cap -> block_codec.kHeaderSize + block_size o < 2 ^ 63 -> working_set_blocks o + 1000 < 2 ^ 32 ->
  operations o < 2 ^ 44 ->
  SsdTier.contents (SsdTier.make path disk) !! Key (working_set_blocks o + 1000) = None ->
  wp (run_node o dram ssd buffer clock) (fun r _ => report_ok o r)
    (make "tiered-benchmark" [Some (MakeDramTier cap); Some (MakeSsdTier path disk)] (Some (MakePolicy o)) : node).
Proof.
  intros Ho Hc Hb Hw Hops Hm. destruct (fresh_ok "tiered-benchmark" _ _ (assembled_fresh cap path disk _ Hc (made_MakePolicy o))) as [Hn _].
  set (n := make _ _ _) in *. pose proof (ow_working_set o Ho). pose proof (ow_block_size o Ho). pose proof (ow_operations o Ho).
  set (missing := Key (wrap 64 (working_set_blocks o + 1000))).
  assert (missing = Key (working_set_blocks o + 1000)) as Em by (unfold missing; rewrite wrap_small; [done|unfold in_range; lia]).
  unfold run_node. wp_steps. eapply wp_mono; [apply (wp_stays (counted 0 0 0)), wp_Open; [apply stays_Open|done]|].
  intros s n1 [(HL & Hr & Hs) C1]. destruct (ok s) eqn:Es; cbn [negb]; wp_steps.
  2: { apply wp_failure; [by eexists|]. intros e. wp_steps. by apply report_quit. }
  assert (steady [] missing n1) as Hn1.
  { split; [apply HL|done|apply C1; by vm_compute|by intros k Hk%elem_of_nil|]. split; [apply Key_wf|].
    rewrite Hs, Em by done. cbn. by rewrite Hm. }
  eapply wp_mono; [apply (wp_seed_blocks o missing); try done; [lia|]|].
  { intros j Hj E. rewrite Em in E. apply Key_inj in E. rewrite !wrap_small in E by (unfold in_range; lia). lia. }
  intros [e|keys] n2 HQ; wp_steps; [by apply report_quit|]. destruct (HQ keys eq_refl) as [Hl Hn2]. rewrite app_nil_r in Hn2.
  eapply wp_mono; [by apply (wp_probe_promotion _ _ _ keys missing)|]. intros p n3 Hn3. wp_steps.
  eapply wp_mono; [apply (wp_operate o keys missing); try done; lia|]. intros sa n4 [Hn4 (dh & sh & Hd & Hsh & Hle & Cn & Esa)]. wp_steps.
  rewrite Z2Nat.id in Hle, Cn, Esa by lia. change (injected 0) with 0 in Cn. rewrite Z.sub_0_r in Cn.
  destruct (summarise_accounted o n3 n4 dh sh dram ssd p.1.1 sa) as (sm & -> & HA); [lia|apply Hn3|done..|]. cbn [defined]. wp_steps.
  apply wp_defined; [apply PrintSummary_defined|]. intros text Et. wp_steps.
  eapply wp_mono; [apply wp_Close, Hn4|]. intros c n5 _. destruct (ok c); wp_steps.
  - split; [done|]. by intros ? ? [= <- <-].
  - apply wp_failure; [by eexists|]. intros e. wp_steps. split; [done|]. by intros ? ? [= <- <-].
Qed.
End session.
Lemma with_capacity_wf o : options_wf o -> options_wf (with_capacity o).
Proof.
  intros Ho. unfold with_capacity. destruct (dram_capacity o =? 0); [|done]. destruct Ho. split; try done. by apply wrap_range.
Qed.

Lemma with_capacity_same o :
  block_size (with_capacity o) = block_size o /\ working_set_blocks (with_capacity o) = working_set_blocks o
  /\ operations (with_capacity o) = operations o /\ db_path (with_capacity o) = db_path o.
Proof. unfold with_capacity. by destruct (dram_capacity o =? 0). Qed.

(** ** The process *)

Section process.
Context {W D R F : Type} `{Clock W} `{LevelDBLaws D} `{RandomLaws R} `{!FileSystem F D} `{!FileSystemLaws F D}.

Lemma contents_empty path (disk : D) k : ldb_view disk = ∅ -> SsdTier.contents (SsdTier.make path disk) !! k = None.
Proof. intros E. unfold SsdTier.contents. cbn [SsdTier.disk SsdTier.make]. rewrite E. reflexivity. Qed.

Lemma path_append_nonempty (a b : string) : b <> ""%string -> path_append a b <> ""%string.
Proof.
  intros Hb. unfold path_append. destruct (rev (list_ascii_of_string a)) as [|c l] eqn:E; [done|].
  destruct a as [|x a]; [done|]. by case_match.
Qed.

Lemma wp_measure o root (clock : W) (f : F) :
  options_wf o -> block_codec.kHeaderSize + block_size o < 2 ^ 63 -> working_set_blocks o + 1000 < 2 ^ 32 -> operations o < 2 ^ 44 ->
  SsdTier.contents (SsdTier.make "" (disk_at (path_append root "tiered") f)) !! Key (working_set_blocks o + 1000) = None ->
  wp (measure o root clock) (fun r _ => report_ok o r) f.
Proof.
  intros Ho Hb Hw Hops Hm. unfold measure.
  assert (forall i, storable (Key i) (MakeBlock (block_size o) 0x5a)) as Hst.
  { intros i. apply MakeBlock_storable; [|done]. pose proof (ow_block_size o Ho). lia. }
  wp_steps. apply wp_on_object. eapply wp_mono; [by apply wp_direct_dram; [apply wrap_range|]|].
  intros [e|[[dram b1] c1]] t1 _; cbn [fst]; wp_steps; [by apply report_quit|].
  apply wp_on_object. eapply wp_mono; [by apply wp_direct_ssd|]. intros y t2 _. wp_steps. cbn [fst].
  destruct y as [e|[[ssd b2] c2]]; wp_steps; [by apply report_quit|].
  apply wp_on_object. eapply wp_mono; [apply wp_run_node; try done; [apply Ho|]|].
  - rewrite disk_at_other by done. rewrite <- Hm. reflexivity.
  - intros r n Hr. wp_steps. exact Hr.
Qed.

Lemma wp_fs_call (g : F -> option F) (Q : bool -> F -> Prop) f :
  (forall f', g f = Some f' -> Q true f') -> (g f = None -> Q false f) -> wp (fs_call g) Q f.
Proof. intros HT HN al. unfold fs_call. destruct (g f) as [f'|]; [by apply HT|by apply HN]. Qed.

(** [root] is empty when it is temporary. *)
Lemma wp_prepared (temporary : bool) root (f : F) (Q : bool -> F -> Prop) :
  (temporary = true -> root <> "") ->
  (forall f', (if temporary then forall name, plain_name name = true -> ldb_view (disk_at (path_append root name) f') = ∅
               else f' = f) -> Q true f') ->
  (forall f', Q false f') -> wp (if temporary then fs_call (remove_all root) else mret true) Q f.
Proof.
  intros Hroot HT HN. destruct temporary; [|by wp_steps; apply HT].
  apply wp_fs_call; [|by intros _]. intros f' E. apply HT. intros name Hname. by eapply disk_at_removed; [apply Hroot|..].
Qed.
End process.

(** ** Properties *)

(** C24 (functional): the benchmark's accounting.  Whatever the tiers answer, a
    process that returns 0 has printed a summary.  What it printed reports as misses
    exactly the reads it injected, one in twenty; as DRAM hits exactly the reads in its
    DRAM latency sample; and every other read as an SSD hit or a failed read: no read
    of a seeded block is a miss, whatever was evicted.  Its percentiles are the
    samples of nearest rank, and no conversion, subscript or format is undefined.
    A database given on the command line must not hold the key that is read to miss;
    the entries of a temporary directory do not and are gone when the process
    returns 0.  The keys must be distinct 32-bit tokens and the samples fewer than
    [2^44]. *)
Theorem bench_accounting {W D R F : Type} `{Clock W} `{LevelDBLaws D} `{RandomLaws R} `{!FileSystem F D} `{!FileSystemLaws F D}
    (argv0 : string) (args : list string) (o : Options) (pid : Z) (clock : W) (f : F)
    (Ho : ParseOptions args = Some o)
    (Hb : block_codec.kHeaderSize + block_size o < 2 ^ 63)
    (Hw : working_set_blocks o + 1000 < 2 ^ 32)
    (Hn : operations o < 2 ^ 44)
    (Hm : db_path o <> "" ->
       SsdTier.contents (SsdTier.make "" (disk_at (path_append (db_path o) "tiered") f)) !! Key (working_set_blocks o + 1000) = None) :
  wp (main argv0 args pid clock)
    (fun r f' =>
       (rp_ending r = Returned 0 -> is_Some (rp_measured r)
          /\ (db_path o = "" -> exists root, bench_root (with_capacity o) pid f = Some root
              /\ forall name, plain_name name = true -> ldb_view (disk_at (path_append root name) f') = ∅))
       /\ forall sm sa, rp_measured r = Some (sm, sa) ->
            PrintSummary (with_capacity o) sm = Some (rp_stdout r) /\ accounted o sm sa) f.
Proof.
  unfold main. rewrite Ho. apply ParseOptions_wf, with_capacity_wf in Ho. destruct (with_capacity_same o) as (E1 & E2 & E3 & E4).
  assert (forall sm sa, accounted (with_capacity o) sm sa -> accounted o sm sa) as HAo by (intros sm sa []; rewrite E3 in *; by split).
  assert (report_ok (with_capacity o) (mkReport Uncaught [] [] None)) as Hun by done.
  rewrite <- E1 in Hb. rewrite <- E2 in Hw, Hm. rewrite <- E3 in Hn. rewrite <- E4 in Hm |- *. set (o' := with_capacity o) in *. wp_steps.
  eapply wp_mono with (fun r f' => report_ok o' r /\ (rp_ending r = Returned 0 -> db_path o' = "" ->
    exists root, bench_root o' pid f = Some root
                 /\ forall name, plain_name name = true -> ldb_view (disk_at (path_append root name) f') = ∅)).
  2: { intros r f' [[Hex HA] Hroot]. split; [intros E0; split; [by apply Hex|by apply Hroot]|].
       intros sm sa Em. destruct (HA sm sa Em). auto. }
  destruct (bench_root o' pid f) as [root|] eqn:Er; [|by wp_steps].
  assert (String.eqb (db_path o') "" = true -> root <> ""%string) as Hne.
  { intros Et. unfold bench_root in Er. rewrite Et in Er. apply fmap_Some in Er as (tmp & _ & ->). by apply path_append_nonempty. }
  eapply wp_bind, (wp_prepared (String.eqb (db_path o') "")); [exact Hne| |intros f1; by wp_steps]. intros f1 Hf1. cbn [negb]. wp_steps.
  apply wp_fs_call; [|intros _; by wp_steps]. intros f2 Hf2. cbn [negb]. wp_steps.
  assert (SsdTier.contents (SsdTier.make "" (disk_at (path_append root "tiered") f2)) !! Key (working_set_blocks o' + 1000) = None) as Hm2.
  { rewrite (disk_at_created _ _ _ _ Hf2). unfold bench_root in Er. destruct (String.eqb_spec (db_path o') "") as [Et|Et].
    - by apply contents_empty, Hf1.
    - injection Er as <-. subst f1. by apply Hm. }
  eapply wp_mono; [exact (wp_measure o' root clock f2 Ho Hb Hw Hn Hm2)|].
  intros r f3 Hr. destruct (decide (rp_ending r = Returned 0)) as [E0|E0]; wp_steps; [|by split].
  apply (wp_prepared (String.eqb (db_path o') "")); [exact Hne|..]; cbn [negb]; intros f4; [|wp_steps; split; [|done]; split; [done|apply Hr]].
  intros Hf4. wp_steps. split; [done|]. intros _ Et. exists root. split; [done|]. by rewrite Et in Hf4.
Qed.

(** An engine that counts and a clock that ticks at every look. *)
#[local] Instance counting : Random Z := {|
  seeded := 0;
  draw_uniform := fun n r => (r mod n, r + 1);
  draw_zipf := fun n r => (r mod n, r + 1)
|}.

#[local] Instance counting_laws : RandomLaws Z.
Proof. split; intros n r Hn; apply Z.mod_pos_bound; lia. Qed.

#[local] Instance ticking : Clock Z := fun c => (c * c, c + 1).

(** A file system that maps paths to databases. *)
Definition MemFs : Type := gmap string SsdTier.MemDb.

Definition under (dir : string) (path : string) : bool := String.prefix (path_append dir "") path.

#[local] Instance MemFs_fs : FileSystem MemFs SsdTier.MemDb := {|
  temp_directory_path := fun _ => Some "/tmp"%string;
  remove_all := fun dir (f : gmap string SsdTier.MemDb) => Some (filter (fun kv => under dir kv.1 = false) f);
  create_directories := fun _ f => Some f;
  disk_at := fun p (f : gmap string SsdTier.MemDb) => default (SsdTier.mkMemDb ∅) (f !! p);
  store_disk := fun p d (f : gmap string SsdTier.MemDb) => <[p := d]> f
|}.

Lemma append_assoc (a b c : string) : ((a +:+ b) +:+ c = a +:+ (b +:+ c))%string.
Proof. induction a as [|x a IH]; [done|exact (f_equal (String x) IH)]. Qed.

Lemma append_inj (a b c : string) : (a +:+ b = a +:+ c)%string -> b = c.
Proof. induction a as [|x a IH]; [done|]. intros E. apply IH. by injection E. Qed.

Lemma prefix_append (a b : string) : String.prefix a (a +:+ b) = true.
Proof. induction a as [|x a IH]; [by destruct b|]. change (String.prefix _ _) with (if ascii_dec x x then String.prefix a (a +:+ b) else false).
  by destruct (ascii_dec x x). Qed.

Lemma path_append_eq dir name : path_append dir name = (path_append dir "" +:+ name)%string.
Proof.
  unfold path_append. destruct (rev _) as [|c l]; [done|]. destruct (Ascii.eqb c "/"); by rewrite !append_assoc.
Qed.

Lemma removed_lookup dir name (f : gmap string SsdTier.MemDb) :
  filter (fun kv => under dir kv.1 = false) f !! path_append dir name = None.
Proof.
  apply map_lookup_filter_None. right. intros d _. unfold under. cbn [fst]. rewrite (path_append_eq dir name), prefix_append. done.
Qed.

#[local] Instance MemFs_laws : FileSystemLaws MemFs SsdTier.MemDb.
Proof.
  split; cbn [disk_at store_disk remove_all create_directories MemFs_fs].
  - intros dir a b d f _ _ Hab. rewrite lookup_insert_ne; [done|]. intros E. apply Hab. symmetry.
    rewrite (path_append_eq dir a), (path_append_eq dir b) in E. by eapply append_inj.
  - intros p d f. by rewrite lookup_insert_eq.
  - by intros dir p f f' [= <-].
  - intros dir name f f' _ _ [= <-]. exact (f_equal (fun x => ldb_view (default (SsdTier.mkMemDb ∅) x)) (removed_lookup dir name f)).
Qed.

(** Four blocks of two bytes, DRAM for two, twenty-five reads. *)
Definition ex_args : list string :=
  ["--block-size=2"; "--working-set-blocks=4"; "--dram-capacity=4"; "--operations=25"; "--access-pattern=uniform"; "--format=csv"]%string.

Definition ex_options : Options := mkOptions 2 4 4 25 "lru" "uniform" 1000 "" "csv".

(** What a reader of the csv report learns. *)
Definition reported (x : outcome (Report * MemFs * list bool)) : option (ending * list (option Z)) :=
  match x with
  | Done (r, _, _) =>
      row ← read_csv (rp_stdout r);
      Some (rp_ending r, map (fun name => column name row ≫= read_digits) ["operations"; "dram_hits"; "ssd_hits"; "misses"]%string
                         ++ [column "hit_rate" row ≫= read_decimal 6; column "p95_us" row ≫= read_decimal 3])
  | Terminated => None
  end.

Lemma bench_accounting_witness :
  reported (main "bench" ex_args 42 0 (∅ : MemFs) []) = Some (Returned 0, [Some 25; Some 1; Some 22; Some 2; Some 920000; Some 8097])
  /\ wp (main "bench" ex_args 42 0) (fun r _ => forall sm sa, rp_measured r = Some (sm, sa) -> sm_misses sm = 2) (∅ : MemFs).
Proof.
  split; [vm_compute; reflexivity|].
  eapply wp_mono; [apply (bench_accounting "bench" ex_args ex_options 42 0 (∅ : MemFs))|].
  - vm_compute. reflexivity.
  - vm_compute. reflexivity.
  - vm_compute. reflexivity.
  - vm_compute. reflexivity.
  - intros Hne. destruct (Hne eq_refl).
  - intros r f [_ HA] sm sa Er. destruct (HA sm sa Er) as [_ A]. exact (ac_misses _ _ _ A).
Defined.
End BenchTheorems.
