(* ===== verification/HashRing.v ===== *)
(** * Consistent-hash ring

    [include/tidepool/hashring/hash_ring.h], [src/hashring/hash_ring.cpp]: the
    ring derived from a shard map, on which every client computes the owner of a
    key.  [std::hash<std::string>] is implementation-defined and a parameter;
    the [std::map] of points is a list sorted by point. *)

From S2P Require Import Prelude Api BlockKeys.

Module HashRing.

(** ** std::map<uint64_t, NodeId> *)

Abbreviation points := (list (Z * string)).

(** [ring_[p] = id] *)
Fixpoint assign (p : Z) (id : string) (r : points) : points :=
  match r with
  | [] => [(p, id)]
  | (q, i) :: rest =>
      if p <? q then (p, id) :: r
      else if p =? q then (p, id) :: rest
      else (q, i) :: assign p id rest
  end.

(** [ring_.lower_bound(h)]: the first point not below [h]. *)
Fixpoint lower_bound (h : Z) (r : points) : option (Z * string) :=
  match r with
  | [] => None
  | (p, id) :: rest => if h <=? p then Some (p, id) else lower_bound h rest
  end.

Section ring.
(** [std::hash<std::string>{}] *)
Context (hash : string -> Z).

Record HashRing : Type := mkRing { version_ : Z; ring_ : points }.

Definition empty_ring : HashRing := mkRing 0 [].

Definition empty (r : HashRing) : bool := match ring_ r with [] => true | _ => false end.

Definition PointHash (label : string) : Z := hash label.

Definition vnodes (n : NodeInfo) : Z := if 0 <? ni_vnode_count n then ni_vnode_count n else 1.

Definition label (n : NodeInfo) (v : Z) : string := (ni_id n +:+ "#" +:+ to_string v)%string.

(** The inner loop: the [todo] virtual nodes from [v] on. *)
Fixpoint add_vnodes (n : NodeInfo) (todo : nat) (v : Z) (r : points) : points :=
  match todo with
  | O => r
  | S todo' => add_vnodes n todo' (wrap 32 (v + 1)) (assign (PointHash (label n v)) (ni_id n) r)
  end.

(** The outer loop. *)
Fixpoint add_nodes (nodes : list NodeInfo) (r : points) : points :=
  match nodes with
  | [] => r
  | n :: rest =>
      add_nodes rest (if negb (ni_alive n) then r else add_vnodes n (Z.to_nat (vnodes n)) 0 r)
  end.

Definition Rebuild (m : ShardMap) (r : HashRing) : HashRing :=
  mkRing (sm_version m) (add_nodes (sm_nodes m) []).

Definition Owner (k : BlockKey) (r : HashRing) : Result string :=
  match ring_ r with
  | [] => Error (Unavailable "hash ring is empty; refresh shard map")
  | first :: _ =>
      match lower_bound (prefix_hash k) (ring_ r) with
      | Some (_, id) => Value id
      | None => Value first.2
      end
  end.

(** ** The ring as a finite map *)

Fixpoint owner_at (r : points) (p : Z) : option string :=
  match r with
  | [] => None
  | (q, i) :: rest => if p =? q then Some i else owner_at rest p
  end.

(** Strictly increasing points. *)
Fixpoint sorted (r : points) : Prop :=
  match r with
  | [] => True
  | (p, _) :: rest => (forall q, is_Some (owner_at rest q) -> p < q) /\ sorted rest
  end.

Lemma owner_at_assign p id r q :
  sorted r -> owner_at (assign p id r) q = if q =? p then Some id else owner_at r q.
Proof.
  induction r as [|[q' i] r IH]; cbn [assign owner_at sorted]; [done|]. intros [Hlt Hs].
  destruct (p <? q') eqn:E1; [done|]. destruct (p =? q') eqn:E2; cbn [owner_at]; boolZ.
  - subst. by destruct (q =? q').
  - rewrite IH by done. destruct (q =? q') eqn:E3, (q =? p) eqn:E4; boolZ; subst; done.
Qed.

Lemma sorted_assign p id r : sorted r -> sorted (assign p id r).
Proof.
  induction r as [|[q i] r IH]; cbn [assign sorted]; [split; [by intros q []|done]|]. intros [Hlt Hs].
  destruct (p <? q) eqn:E1; [|destruct (p =? q) eqn:E2]; cbn [sorted]; boolZ.
  - split; [|done]. intros q'. cbn. destruct (q' =? q) eqn:E; boolZ; [lia|]. intros Hq%Hlt. lia.
  - subst. done.
  - split; [|by apply IH]. intros q'. rewrite owner_at_assign by done.
    destruct (q' =? p) eqn:E; boolZ; [lia|apply Hlt].
Qed.

(** ** The clockwise walk *)

(** How far [p] is from [h], going up and around. *)
Definition distance (h p : Z) : Z := wrap 64 (p - h).

Lemma distance_cases h p : u64 h -> u64 p -> distance h p = if h <=? p then p - h else p - h + 2 ^ 64.
Proof.
  unfold distance, in_range, wrap. intros Hh Hp. destruct (h <=? p) eqn:E; boolZ.
  - apply Z.mod_small. lia.
  - rewrite <- (Z_mod_plus_full (p - h) 1). apply Z.mod_small. lia.
Qed.

Lemma distance_inj h p q : u64 h -> u64 p -> u64 q -> distance h p = distance h q -> p = q.
Proof.
  intros Hh Hp Hq. rewrite !distance_cases by done. unfold in_range in *.
  destruct (h <=? p) eqn:E1, (h <=? q) eqn:E2; boolZ; lia.
Qed.

Lemma lower_bound_Some h r p id :
  sorted r -> lower_bound h r = Some (p, id) ->
  owner_at r p = Some id /\ h <= p /\ forall q, is_Some (owner_at r q) -> h <= q -> p <= q.
Proof.
  induction r as [|[q i] r IH]; cbn [lower_bound sorted owner_at]; [done|]. intros [Hlt Hs].
  destruct (h <=? q) eqn:E; boolZ; intros Hl.
  - injection Hl as -> ->. rewrite Z.eqb_refl. split_and!; [done..|]. intros q'.
    destruct (q' =? p) eqn:E'; boolZ; [lia|]. intros Hq%Hlt. lia.
  - destruct (IH Hs Hl) as (Ho & Hh & Hn). pose proof (Hlt p ltac:(eauto)).
    replace (p =? q) with false by (symmetry; apply Z.eqb_neq; lia). split_and!; [done..|].
    intros q'. destruct (q' =? q) eqn:E'; boolZ; [lia|]. apply Hn.
Qed.

Lemma lower_bound_None h r q : lower_bound h r = None -> is_Some (owner_at r q) -> q < h.
Proof.
  induction r as [|[q' i] r IH]; cbn [lower_bound owner_at]; [by intros _ []|].
  destruct (h <=? q') eqn:E; [done|]. boolZ. intros Hl. destruct (q =? q') eqn:E'; boolZ; [lia|by apply IH].
Qed.

(** The node id at the point that comes next clockwise, if any. *)
Definition next_owner (h : Z) (r : points) : option string :=
  match lower_bound h r with
  | Some (_, id) => Some id
  | None => snd <$> head r
  end.

Lemma Owner_next k r :
  Owner k r = match next_owner (prefix_hash k) (ring_ r) with
              | Some id => Value id
              | None => Error (Unavailable "hash ring is empty; refresh shard map")
              end.
Proof.
  unfold Owner, next_owner. destruct (ring_ r) as [|[p i] rest]; [done|].
  destruct (lower_bound _ _) as [[? ?]|]; done.
Qed.

Definition in_u64 (r : points) : Prop := forall q, is_Some (owner_at r q) -> u64 q.

(** It is the nearest point. *)
Lemma next_owner_nearest h r id :
  sorted r -> in_u64 r -> u64 h -> next_owner h r = Some id ->
  exists p, owner_at r p = Some id /\ forall q, is_Some (owner_at r q) -> distance h p <= distance h q.
Proof.
  intros Hs Hr Hh. unfold next_owner. destruct (lower_bound h r) as [[p i]|] eqn:E.
  - intros [= ->]. destruct (lower_bound_Some _ _ _ _ Hs E) as (Ho & Hp & Hn). exists p. split; [done|].
    intros q Hq. pose proof (Hr p ltac:(eauto)) as Rp. pose proof (Hr q Hq) as Rq. rewrite !distance_cases by done.
    specialize (Hn q Hq). unfold in_range in *. destruct (h <=? p) eqn:E1, (h <=? q) eqn:E2; boolZ; lia.
  - destruct r as [|[p i] r]; [done|]. cbn. intros [= ->]. exists p. rewrite Z.eqb_refl. split; [done|].
    intros q Hq. pose proof (lower_bound_None _ _ _ E Hq) as Lq.
    pose proof (lower_bound_None h _ p E ltac:(cbn; rewrite Z.eqb_refl; eauto)) as Lp.
    assert (p <= q) as Hpq.
    { destruct Hs as [Hlt _]. cbn in Hq. destruct (q =? p) eqn:E'; boolZ; [lia|]. apply Hlt in Hq. lia. }
    pose proof (Hr p ltac:(cbn; rewrite Z.eqb_refl; eauto)) as Rp. pose proof (Hr q Hq) as Rq.
    rewrite !distance_cases by done. unfold in_range in *. destruct (h <=? p) eqn:E1, (h <=? q) eqn:E2; boolZ; lia.
Qed.

Lemma next_owner_None h r : next_owner h r = None -> r = [].
Proof. unfold next_owner. destruct (lower_bound h r) as [[? ?]|]; [done|]. by destruct r. Qed.

(** Any nearest point is the one. *)
Lemma nearest_unique h r p id :
  sorted r -> in_u64 r -> u64 h -> owner_at r p = Some id ->
  (forall q, is_Some (owner_at r q) -> distance h p <= distance h q) -> next_owner h r = Some id.
Proof.
  intros Hs Hr Hh Ho Hn. destruct (next_owner h r) as [id'|] eqn:E.
  2: { apply next_owner_None in E. by subst. }
  destruct (next_owner_nearest _ _ _ Hs Hr Hh E) as (p' & Ho' & Hn').
  assert (p = p') as ->; [|congruence]. apply (distance_inj h); eauto.
  specialize (Hn p' ltac:(eauto)). specialize (Hn' p ltac:(eauto)). lia.
Qed.

(** ** What a rebuild assigns *)

(** The assignments of the loops, in order. *)
Fixpoint vnode_points (n : NodeInfo) (todo : nat) (v : Z) : points :=
  match todo with
  | O => []
  | S todo' => (PointHash (label n v), ni_id n) :: vnode_points n todo' (wrap 32 (v + 1))
  end.

Definition node_points (n : NodeInfo) : points :=
  if ni_alive n then vnode_points n (Z.to_nat (vnodes n)) 0 else [].

Definition all_points (nodes : list NodeInfo) : points := mjoin (node_points <$> nodes).

Fixpoint assign_all (l : points) (r : points) : points :=
  match l with
  | [] => r
  | (p, id) :: rest => assign_all rest (assign p id r)
  end.

Lemma assign_all_app l1 l2 r : assign_all (l1 ++ l2) r = assign_all l2 (assign_all l1 r).
Proof. revert r. induction l1 as [|[p i] l1 IH]; intros r; cbn; [done|apply IH]. Qed.

Lemma add_vnodes_assign n todo v r : add_vnodes n todo v r = assign_all (vnode_points n todo v) r.
Proof. revert v r. induction todo as [|todo IH]; intros v r; cbn; [done|apply IH]. Qed.

Lemma add_nodes_assign nodes r : add_nodes nodes r = assign_all (all_points nodes) r.
Proof.
  revert r. induction nodes as [|n nodes IH]; intros r; cbn [add_nodes]; [done|].
  change (all_points (n :: nodes)) with (node_points n ++ all_points nodes). rewrite assign_all_app, IH. f_equal. unfold node_points.
  destruct (ni_alive n); cbn [negb]; [apply add_vnodes_assign|done].
Qed.

(** The last assignment to a point wins. *)
Fixpoint last_owner (l : points) (p : Z) : option string :=
  match l with
  | [] => None
  | (q, i) :: rest =>
      match last_owner rest p with
      | Some j => Some j
      | None => if p =? q then Some i else None
      end
  end.

Lemma last_owner_app l1 l2 p :
  last_owner (l1 ++ l2) p = match last_owner l2 p with Some j => Some j | None => last_owner l1 p end.
Proof.
  induction l1 as [|[q i] l1 IH]; cbn; [by destruct (last_owner l2 p)|]. rewrite IH. by destruct (last_owner l2 p).
Qed.

Lemma assign_all_sorted l r : sorted r -> sorted (assign_all l r).
Proof. revert r. induction l as [|[p i] l IH]; intros r Hr; cbn; [done|]. by apply IH, sorted_assign. Qed.

Lemma owner_at_assign_all l r p :
  sorted r -> owner_at (assign_all l r) p = match last_owner l p with Some j => Some j | None => owner_at r p end.
Proof.
  revert r. induction l as [|[q i] l IH]; intros r Hr; cbn; [done|].
  rewrite IH, owner_at_assign by (done || by apply sorted_assign). by destruct (last_owner l p), (p =? q).
Qed.

(** The ring of a list of nodes. *)
Definition ring_of (nodes : list NodeInfo) : points := add_nodes nodes [].

Lemma ring_of_sorted nodes : sorted (ring_of nodes).
Proof. unfold ring_of. rewrite add_nodes_assign. by apply assign_all_sorted. Qed.

Lemma ring_of_at nodes p : owner_at (ring_of nodes) p = last_owner (all_points nodes) p.
Proof.
  unfold ring_of. rewrite add_nodes_assign, owner_at_assign_all by done. by destruct (last_owner _ p).
Qed.

Lemma elem_of_last_owner l p id : last_owner l p = Some id -> (p, id) ∈ l.
Proof.
  induction l as [|[q i] l IH]; cbn; [done|]. destruct (last_owner l p) as [j|]; [intros [= ->]; right; by apply IH|].
  destruct (p =? q) eqn:E; [|done]. boolZ. intros [= ->]. subst. by left.
Qed.

Lemma last_owner_elem_of l p id : (p, id) ∈ l -> is_Some (last_owner l p).
Proof.
  induction l as [|[q i] l IH]; intros Hin; [by apply elem_of_nil in Hin|]. cbn.
  apply elem_of_cons in Hin as [[= -> ->]|Hin]; [rewrite Z.eqb_refl; destruct (last_owner l q); eauto|].
  destruct (IH Hin) as [j ->]. eauto.
Qed.

Lemma elem_of_vnode_points n todo v p id :
  in_range 32 v -> v + Z.of_nat todo <= 2 ^ 32 ->
  (p, id) ∈ vnode_points n todo v <->
  id = ni_id n /\ exists w, v <= w < v + Z.of_nat todo /\ p = PointHash (label n w).
Proof.
  revert v. induction todo as [|todo IH]; intros v Hv Hb; cbn [vnode_points].
  - split; [by intros ?%elem_of_nil|]. intros (_ & w & ? & _). lia.
  - unfold in_range in Hv. destruct (decide (v + 1 = 2 ^ 32)) as [E|E].
    + assert (todo = O) as -> by lia. cbn [vnode_points]. rewrite list_elem_of_singleton. split.
      * intros [= -> ->]. split; [done|]. exists v. split; [lia|done].
      * intros (-> & w & Hw & ->). by replace w with v by lia.
    + rewrite wrap_small by (split; lia). rewrite elem_of_cons, IH by (try split; lia). split.
      * intros [[= -> ->]|(-> & w & Hw & ->)]; (split; [done|]); [exists v|exists w]; (split; [lia|done]).
      * intros (-> & w & Hw & ->). destruct (decide (w = v)) as [->|]; [by left|right].
        split; [done|]. exists w. split; [lia|done].
Qed.

(** A virtual node of an alive member. *)
Definition vnode_of (nodes : list NodeInfo) (n : NodeInfo) (v : Z) : Prop :=
  n ∈ nodes /\ ni_alive n = true /\ 0 <= v < vnodes n.

Definition NodeInfo_wf (n : NodeInfo) : Prop := u32 (ni_vnode_count n).

Lemma vnodes_range n : NodeInfo_wf n -> 1 <= vnodes n < 2 ^ 32.
Proof. unfold NodeInfo_wf, in_range, vnodes. intros Hn. destruct (0 <? ni_vnode_count n) eqn:E; boolZ; lia. Qed.

Lemma elem_of_all_points nodes p id :
  Forall NodeInfo_wf nodes ->
  (p, id) ∈ all_points nodes <->
  exists n v, vnode_of nodes n v /\ id = ni_id n /\ p = PointHash (label n v).
Proof.
  intros Hwf. unfold all_points. rewrite list_elem_of_join. setoid_rewrite list_elem_of_fmap.
  rewrite Forall_forall in Hwf. unfold node_points, vnode_of. split.
  - intros (l & Hp & n & -> & Hn). destruct (ni_alive n) eqn:Ha; [|by apply elem_of_nil in Hp].
    pose proof (vnodes_range n (Hwf n Hn)). apply elem_of_vnode_points in Hp as (-> & w & Hw & ->); [|split; lia|lia].
    exists n, w. split_and!; try done; lia.
  - intros (n & v & (Hn & Ha & Hv) & -> & ->). exists (node_points n). unfold node_points. rewrite Ha.
    split; [|by exists n; rewrite Ha]. pose proof (vnodes_range n (Hwf n Hn)).
    apply elem_of_vnode_points; [split; lia|lia|]. split; [done|]. exists v. split; [lia|done].
Qed.

Section theorems.
Hypothesis hash_range : forall l, u64 (hash l).

Lemma ring_of_in_u64 nodes : Forall NodeInfo_wf nodes -> in_u64 (ring_of nodes).
Proof.
  intros Hwf q [id Hq]. rewrite ring_of_at in Hq. apply elem_of_last_owner, elem_of_all_points in Hq; [|done].
  destruct Hq as (n & v & _ & _ & ->). apply hash_range.
Qed.

(** The owner [Owner] computes. *)
Lemma owner_spec (m : ShardMap) (old : HashRing) (k : BlockKey)
    (Hwf : Forall NodeInfo_wf (sm_nodes m)) (Hk : BlockKey_wf k) :
  match Owner k (Rebuild m old) with
  | Value id =>
      exists n v, vnode_of (sm_nodes m) n v /\ ni_id n = id
        /\ forall n' v', vnode_of (sm_nodes m) n' v' ->
             distance (prefix_hash k) (PointHash (label n v)) <= distance (prefix_hash k) (PointHash (label n' v'))
  | Error s => code s = kUnavailable /\ forall n, n ∈ sm_nodes m -> ni_alive n = false
  end.
Proof.
  rewrite Owner_next. cbn [Rebuild ring_]. fold (ring_of (sm_nodes m)).
  assert (forall n v, vnode_of (sm_nodes m) n v -> is_Some (owner_at (ring_of (sm_nodes m)) (PointHash (label n v)))) as Hin.
  { intros n v Hv. rewrite ring_of_at. eapply last_owner_elem_of, elem_of_all_points; [done|]. eauto 6. }
  destruct (next_owner _ _) as [id|] eqn:E.
  - destruct (next_owner_nearest _ _ _ (ring_of_sorted _) (ring_of_in_u64 _ Hwf) (proj1 Hk) E) as (p & Hp & Hn).
    rewrite ring_of_at in Hp. apply elem_of_last_owner, elem_of_all_points in Hp as (n & v & Hv & -> & ->); [|done].
    exists n, v. split_and!; [done..|]. intros n' v' Hv'. by apply Hn, Hin.
  - split; [done|]. intros n Hn. destruct (ni_alive n) eqn:Ha; [|done]. apply next_owner_None in E.
    rewrite Forall_forall in Hwf. pose proof (vnodes_range n (Hwf n Hn)).
    destruct (Hin n 0) as [i Hi]; [split_and!; try done; lia|]. by rewrite E in Hi.
Qed.

Lemma sole_owner m old k x :
  Forall NodeInfo_wf (sm_nodes m) -> BlockKey_wf k ->
  (exists n, n ∈ sm_nodes m /\ ni_alive n = true) ->
  (forall n, n ∈ sm_nodes m -> ni_alive n = true -> ni_id n = x) ->
  Owner k (Rebuild m old) = Value x.
Proof.
  intros Hwf Hk (n & Hn & Ha) Hx. pose proof (owner_spec m old k Hwf Hk) as HQ. destruct (Owner _ _) as [id|s].
  - destruct HQ as (n' & v & (Hn' & Ha' & _) & <- & _). by rewrite (Hx n').
  - destruct HQ as [_ HQ]. rewrite HQ in Ha; done.
Qed.

(** C13 (functional): the owner of a key is the next virtual node clockwise.
    After [Rebuild] with a shard map, [Owner] returns the id of an alive member
    one of whose virtual nodes is at least as close to the key's hash, going up
    and around the 64-bit circle, as every virtual node of every alive member;
    it fails, with [kUnavailable], exactly when no member is alive. *)
Theorem owner_is_clockwise_next (m : ShardMap) (old : HashRing) (k : BlockKey)
    (Hwf : Forall NodeInfo_wf (sm_nodes m)) (Hk : BlockKey_wf k) :
  match Owner k (Rebuild m old) with
  | Value id =>
      exists n v, vnode_of (sm_nodes m) n v /\ ni_id n = id
        /\ forall n' v', vnode_of (sm_nodes m) n' v' ->
             distance (prefix_hash k) (PointHash (label n v)) <= distance (prefix_hash k) (PointHash (label n' v'))
  | Error s => code s = kUnavailable /\ forall n, n ∈ sm_nodes m -> ni_alive n = false
  end.
Proof. by apply owner_spec. Qed.

Lemma last_owner_same_id l p x : (forall q i, (q, i) ∈ l -> i = x) -> last_owner l p = None \/ last_owner l p = Some x.
Proof.
  intros Hl. destruct (last_owner l p) as [i|] eqn:E; [right|by left]. apply elem_of_last_owner in E.
  by rewrite (Hl _ _ E).
Qed.

(** C14 (safety): membership changes remap a minimum of keys.  Whatever point
    collisions there are, adding a member to the shard map (at any position),
    removing one, or flipping its liveness changes the owner of a key only to
    that member or away from it: every key that the member does not own on the
    larger ring has the same owner, or none, on both. *)
Theorem membership_change_is_minimal (l1 l2 : list NodeInfo) (x : NodeInfo) (v w : Z) (old old' : HashRing) (k : BlockKey)
    (Hwf : Forall NodeInfo_wf (l1 ++ x :: l2)) (Hk : BlockKey_wf k) :
  let with_x := Owner k (Rebuild (mkShardMap v (l1 ++ x :: l2)) old) in
  let without_x := Owner k (Rebuild (mkShardMap w (l1 ++ l2)) old') in
  with_x = Value (ni_id x) \/ with_x = without_x.
Proof.
  cbn zeta. rewrite !Owner_next. cbn [Rebuild ring_ sm_nodes]. fold (ring_of (l1 ++ x :: l2)) (ring_of (l1 ++ l2)).
  assert (Forall NodeInfo_wf (l1 ++ l2)) as Hwf'.
  { rewrite Forall_app in Hwf |- *. rewrite Forall_cons in Hwf. tauto. }
  assert (forall p, last_owner (all_points (l1 ++ l2)) p =
                    match last_owner (all_points l2) p with Some j => Some j | None => last_owner (all_points l1) p end) as Hwo.
  { intros p. unfold all_points. by rewrite fmap_app, join_app, last_owner_app. }
  assert (forall p, last_owner (all_points (l1 ++ x :: l2)) p =
                    match last_owner (all_points l2) p with
                    | Some j => Some j
                    | None => match last_owner (node_points x) p with Some j => Some j | None => last_owner (all_points l1) p end
                    end) as Hw.
  { intros p. unfold all_points. rewrite fmap_app, join_app, last_owner_app, fmap_cons. cbn [mjoin list_join].
    change (foldr app [] ?l) with (mjoin l). rewrite last_owner_app. by destruct (last_owner _ p), (last_owner (node_points x) p). }
  assert (forall p, last_owner (node_points x) p = None \/ last_owner (node_points x) p = Some (ni_id x)) as Hx.
  { intros p. apply last_owner_same_id. intros q i. unfold node_points. destruct (ni_alive x); [|by intros ?%elem_of_nil].
    assert (NodeInfo_wf x) as Hxw by (rewrite Forall_app, Forall_cons in Hwf; tauto). pose proof (vnodes_range x Hxw).
    intros Hq. by apply elem_of_vnode_points in Hq as [-> _]; [|split; lia|lia]. }
  destruct (next_owner (prefix_hash k) (ring_of (l1 ++ x :: l2))) as [id|] eqn:E.
  - destruct (next_owner_nearest _ _ _ (ring_of_sorted _) (ring_of_in_u64 _ Hwf) (proj1 Hk) E) as (p & Hp & Hn).
    destruct (decide (id = ni_id x)) as [->|Hne]; [by left|right].
    rewrite (nearest_unique _ _ p id (ring_of_sorted _) (ring_of_in_u64 _ Hwf') (proj1 Hk)); [done|..].
    + rewrite ring_of_at in Hp |- *. rewrite Hw in Hp. rewrite Hwo. destruct (last_owner (all_points l2) p); [done|].
      destruct (Hx p) as [Ex|Ex]; rewrite Ex in Hp; congruence.
    + intros q [i Hq]. apply Hn. rewrite ring_of_at in Hq |- *. rewrite Hwo in Hq. rewrite Hw.
      destruct (last_owner (all_points l2) q); [eauto|]. destruct (last_owner (node_points x) q); eauto.
  - right. apply next_owner_None in E. destruct (next_owner _ (ring_of (l1 ++ l2))) as [id|] eqn:E'; [|done].
    destruct (next_owner_nearest _ _ _ (ring_of_sorted _) (ring_of_in_u64 _ Hwf') (proj1 Hk) E') as (p & Hp & _).
    assert (owner_at (ring_of (l1 ++ x :: l2)) p = None) as Hnone by (by rewrite E).
    rewrite ring_of_at in Hp, Hnone. rewrite Hw in Hnone. rewrite Hwo in Hp.
    destruct (last_owner (all_points l2) p); [done|]. destruct (last_owner (node_points x) p); congruence.
Qed.
End theorems.
End ring.

(** A concrete hash: the sum of the characters. *)
Definition sum_hash (s : string) : Z := wrap 64 (foldr (fun c acc => Z.of_N (N_of_ascii c) + 31 * acc) 0 (list_ascii_of_string s)).

Definition example_nodes : list NodeInfo :=
  [mkNodeInfo "a" "10.0.0.1:7000" 3 true; mkNodeInfo "b" "10.0.0.2:7000" 0 true; mkNodeInfo "c" "10.0.0.3:7000" 2 false].

Lemma sum_hash_range l : u64 (sum_hash l).
Proof. by apply wrap_range. Qed.

Lemma example_nodes_wf : Forall NodeInfo_wf example_nodes.
Proof. repeat apply Forall_cons_2; [by split..|by apply Forall_nil]. Qed.

Lemma owner_is_clockwise_next_witness :
  match Owner (mkBlockKey 5000 1 1) (Rebuild sum_hash (mkShardMap 4 example_nodes) empty_ring) with
  | Value id =>
      exists n v, vnode_of example_nodes n v /\ ni_id n = id
        /\ forall n' v', vnode_of example_nodes n' v' ->
             distance 5000 (PointHash sum_hash (label n v)) <= distance 5000 (PointHash sum_hash (label n' v'))
  | Error s => False
  end.
Proof.
  pose proof (owner_is_clockwise_next sum_hash sum_hash_range (mkShardMap 4 example_nodes) empty_ring
    (mkBlockKey 5000 1 1) example_nodes_wf ltac:(repeat split; cbn; lia)) as HQ.
  destruct (Owner _ _) as [id|s]; [exact HQ|]. destruct HQ as [_ HQ].
  discriminate (HQ (mkNodeInfo "a" "10.0.0.1:7000" 3 true) ltac:(by left)).
Defined.

Lemma membership_change_is_minimal_witness :
  let with_x := Owner (mkBlockKey 5000 1 1) (Rebuild sum_hash (mkShardMap 1 example_nodes) empty_ring) in
  let without_x := Owner (mkBlockKey 5000 1 1) (Rebuild sum_hash (mkShardMap 2 (drop 1 example_nodes)) empty_ring) in
  with_x = Value "a" \/ with_x = without_x.
Proof.
  apply (membership_change_is_minimal sum_hash sum_hash_range [] (drop 1 example_nodes)
    (mkNodeInfo "a" "10.0.0.1:7000" 3 true) 1 2 empty_ring empty_ring (mkBlockKey 5000 1 1) example_nodes_wf).
  repeat split; cbn; lia.
Defined.
End HashRing.
