(* ===== verification/Coordinator.v ===== *)
(** * Coordinator

    [include/tidepool/coordinator/coordinator.h],
    [src/coordinator/single_node_coordinator.cpp]: the control plane's view of
    membership.  The abstract base class is a class with the contract clients
    rely on; the in-process implementation keeps a versioned shard map. *)

From S2P Require Import Prelude Api BlockKeys.

(** ** The interface *)

Class Coordinator (C : Type) : Type := {
  co_GetShardMap : comp C (Result ShardMap);
  co_RegisterNode : NodeInfo -> comp C Status;
  (** [Heartbeat(node_id, &version)]: the status, and the version written to the
      out-parameter if one was written. *)
  co_Heartbeat : string -> comp C (Status * option Z)
}.

(** The version rule of coordinator.h: reads and heartbeats change nothing; a
    successful registration is visible to the next read. *)
Class CoordinatorLaws (C : Type) `{Coordinator C} : Type := {
  co_map : C -> ShardMap;

  co_GetShardMap_law c :
    wp co_GetShardMap (fun r c' =>
      co_map c' = co_map c
      /\ match r with Value m => m = co_map c | Error s => ok s = false end) c;

  co_RegisterNode_law c n :
    wp (co_RegisterNode n) (fun s c' =>
      if ok s then sm_version (co_map c') = wrap 64 (sm_version (co_map c) + 1)
                   /\ forall id, FindNode (co_map c') id = (if String.eqb (ni_id n) id then Some n else FindNode (co_map c) id)
      else co_map c' = co_map c) c;

  co_Heartbeat_law c id :
    wp (co_Heartbeat id) (fun r c' => co_map c' = co_map c) c
}.

(** ** The single-node coordinator *)

Module SingleNodeCoordinator.

Record SingleNodeCoordinator : Type := mkCoordinator { map_ : ShardMap }.

Definition make : SingleNodeCoordinator := mkCoordinator (mkShardMap 0 []).

Definition MakeSingleNodeCoordinator : SingleNodeCoordinator := make.

Definition GetShardMap : comp SingleNodeCoordinator (Result ShardMap) := gets (fun c => Value (map_ c)).

(** The loop over [map_.nodes]: the nodes with the first entry of that id
    replaced, if there is one. *)
Fixpoint replace_node (node : NodeInfo) (nodes : list NodeInfo) : option (list NodeInfo) :=
  match nodes with
  | [] => None
  | n :: rest =>
      if String.eqb (ni_id n) (ni_id node) then Some (node :: rest)
      else cons n <$> replace_node node rest
  end.

Definition bump (nodes : list NodeInfo) (c : SingleNodeCoordinator) : SingleNodeCoordinator :=
  mkCoordinator (mkShardMap (wrap 64 (sm_version (map_ c) + 1)) nodes).

Definition RegisterNode (node : NodeInfo) : comp SingleNodeCoordinator Status :=
  if String.eqb (ni_id node) "" then mret (InvalidArgument "empty node id")
  else (
    c ← get;
    match replace_node node (sm_nodes (map_ c)) with
    | Some nodes => modify (bump nodes) ;; mret Ok
    | None => modify (bump (sm_nodes (map_ c) ++ [node])) ;; mret Ok
    end).

(** [out] says whether [out_shard_map_version] is non-null. *)
Definition HeartbeatTo (out : bool) (node_id : string) : comp SingleNodeCoordinator (Status * option Z) :=
  c ← get;
  match FindNode (map_ c) node_id with
  | None => mret (NotFound ("unknown node: " +:+ node_id)%string, None)
  | Some _ => mret (Ok, if out then Some (sm_version (map_ c)) else None)
  end.

Definition Heartbeat (node_id : string) : comp SingleNodeCoordinator (Status * option Z) := HeartbeatTo true node_id.

#[global] Instance SingleNode_coordinator : Coordinator SingleNodeCoordinator := {|
  co_GetShardMap := GetShardMap;
  co_RegisterNode := RegisterNode;
  co_Heartbeat := Heartbeat
|}.

(** ** Membership as a map *)

Lemma find_replace node nodes nodes' id :
  replace_node node nodes = Some nodes' ->
  find_node_from nodes' id = if String.eqb (ni_id node) id then Some node else find_node_from nodes id.
Proof.
  revert nodes'. induction nodes as [|n nodes IH]; intros nodes'; cbn [replace_node]; [done|].
  destruct (String.eqb (ni_id n) (ni_id node)) eqn:E.
  - intros [= <-]. cbn. apply String.eqb_eq in E. rewrite E. by destruct (String.eqb (ni_id node) id).
  - intros (rest & Hr & ->)%fmap_Some. cbn. rewrite (IH _ Hr).
    destruct (String.eqb (ni_id n) id) eqn:E1, (String.eqb (ni_id node) id) eqn:E2; try done.
    apply String.eqb_eq in E1, E2. apply String.eqb_neq in E. congruence.
Qed.

Lemma replace_None node nodes : replace_node node nodes = None <-> find_node_from nodes (ni_id node) = None.
Proof.
  induction nodes as [|n nodes IH]; cbn; [done|]. destruct (String.eqb (ni_id n) (ni_id node)); [done|].
  rewrite fmap_None. apply IH.
Qed.

Lemma replace_ids node nodes nodes' : replace_node node nodes = Some nodes' -> map ni_id nodes' = map ni_id nodes.
Proof.
  revert nodes'. induction nodes as [|n l IH]; intros nodes'; cbn [replace_node]; [done|].
  destruct (String.eqb (ni_id n) (ni_id node)) eqn:En; [intros [= <-]; cbn; apply String.eqb_eq in En; by rewrite En|].
  intros (rest & Hr & ->)%fmap_Some. cbn. by rewrite (IH _ Hr).
Qed.

Lemma find_None_ids nodes id : find_node_from nodes id = None <-> id ∉ map ni_id nodes.
Proof.
  induction nodes as [|n nodes IH]; cbn; [split; [by intros _ ?%elem_of_nil|done]|].
  rewrite elem_of_cons. destruct (String.eqb (ni_id n) id) eqn:E.
  - apply String.eqb_eq in E. naive_solver.
  - apply String.eqb_neq in E. naive_solver.
Qed.

Lemma find_append nodes node id :
  find_node_from nodes (ni_id node) = None ->
  find_node_from (nodes ++ [node]) id = if String.eqb (ni_id node) id then Some node else find_node_from nodes id.
Proof.
  induction nodes as [|n nodes IH]; cbn; [done|]. destruct (String.eqb (ni_id n) (ni_id node)) eqn:E; [done|].
  intros Hn. rewrite (IH Hn). destruct (String.eqb (ni_id n) id) eqn:E1, (String.eqb (ni_id node) id) eqn:E2; try done.
  apply String.eqb_eq in E1, E2. apply String.eqb_neq in E. congruence.
Qed.

Lemma wp_RegisterNode c node :
  wp (RegisterNode node) (fun s c' =>
    if ok s then ni_id node <> ""
                 /\ sm_version (map_ c') = wrap 64 (sm_version (map_ c) + 1)
                 /\ (forall id, FindNode (map_ c') id =
                       (if String.eqb (ni_id node) id then Some node else FindNode (map_ c) id))
                 /\ map ni_id (sm_nodes (map_ c')) =
                      (if FindNode (map_ c) (ni_id node) is Some _ then map ni_id (sm_nodes (map_ c))
                       else map ni_id (sm_nodes (map_ c)) ++ [ni_id node])
    else c' = c /\ ni_id node = "" /\ code s = kInvalidArgument) c.
Proof.
  unfold RegisterNode, FindNode. destruct (String.eqb (ni_id node) "") eqn:E0.
  { apply String.eqb_eq in E0. wp_steps. by ok_simpl. }
  apply String.eqb_neq in E0. wp_steps. destruct (replace_node node (sm_nodes (map_ c))) as [nodes|] eqn:E; wp_steps; ok_simpl.
  - split_and!; [done|done|intros id; by apply find_replace|]. cbn [bump map_ sm_nodes].
    destruct (find_node_from (sm_nodes (map_ c)) (ni_id node)) eqn:F; [|apply replace_None in F; congruence].
    by eapply replace_ids.
  - apply replace_None in E. split_and!; [done|done|intros id; by apply find_append|].
    rewrite E. cbn. by rewrite map_app.
Qed.

Lemma wp_Heartbeat_same c id : wp (Heartbeat id) (fun _ c' => c' = c) c.
Proof. unfold Heartbeat, HeartbeatTo. wp_steps. destruct (FindNode (map_ c) id); by wp_steps. Qed.

#[global] Instance SingleNode_laws : CoordinatorLaws SingleNodeCoordinator.
Proof.
  refine {| co_map := map_ |}; cbn [co_GetShardMap co_RegisterNode co_Heartbeat SingleNode_coordinator].
  - intros c. unfold GetShardMap. by wp_steps.
  - intros c n. eapply wp_mono; [apply wp_RegisterNode|]. intros s c' HQ. cbv beta in HQ.
    destruct (ok s); [naive_solver|]. by destruct HQ as [-> _].
  - intros c id. eapply wp_mono; [apply wp_Heartbeat_same|]. by intros r c' ->.
Defined.

(** ** Histories *)

Inductive request : Type :=
  | Register (n : NodeInfo)
  | Beat (id : string)
  | Read.

Definition handle (r : request) : comp SingleNodeCoordinator unit :=
  match r with
  | Register n => RegisterNode n ;; mret tt
  | Beat id => Heartbeat id ;; mret tt
  | Read => GetShardMap ;; mret tt
  end.

Fixpoint handle_all (rs : list request) : comp SingleNodeCoordinator unit :=
  match rs with
  | [] => mret tt
  | r :: rest => handle r ;; handle_all rest
  end.

(** The registrations that count, newest first. *)
Fixpoint registered (rs : list request) (acc : list NodeInfo) : list NodeInfo :=
  match rs with
  | [] => acc
  | Register n :: rest => registered rest (if String.eqb (ni_id n) "" then acc else n :: acc)
  | _ :: rest => registered rest acc
  end.

Record matches_history (acc : list NodeInfo) (c : SingleNodeCoordinator) : Prop := {
  mh_version : sm_version (map_ c) = wrap 64 (zlen acc);
  mh_find : forall id, FindNode (map_ c) id = find_node_from acc id;
  mh_nodup : NoDup (map ni_id (sm_nodes (map_ c)));
  mh_nonempty : "" ∉ map ni_id (sm_nodes (map_ c))
}.

Lemma wp_handle acc c r :
  matches_history acc c -> wp (handle r) (fun _ c' => matches_history (registered [r] acc) c') c.
Proof.
  intros Hc. destruct r as [n|id|]; cbn [handle registered]; wp_steps.
  - eapply wp_mono; [apply wp_RegisterNode|]. intros s c' HQ. wp_steps. cbv beta in HQ.
    destruct (ok s); [|destruct HQ as (-> & -> & _); by rewrite String.eqb_refl].
    destruct HQ as (Hne & Hv & Hf & Hids). pose proof (proj2 (String.eqb_neq _ _) Hne) as ->.
    destruct Hc as [C1 C2 C3 C4]. split.
    + rewrite Hv, C1. unfold wrap. rewrite Zplus_mod_idemp_l. f_equal. unfold zlen. cbn. lia.
    + intros id. rewrite Hf, C2. done.
    + rewrite Hids. destruct (FindNode (map_ c) (ni_id n)) eqn:E; [done|]. apply find_None_ids in E.
      apply NoDup_app. split_and!; [done| |apply NoDup_singleton]. intros x Hx ->%list_elem_of_singleton. done.
    + rewrite Hids. destruct (FindNode (map_ c) (ni_id n)) eqn:E; [done|]. rewrite elem_of_app, list_elem_of_singleton.
      intros [?|E']; [done|]. by apply Hne.
  - eapply wp_mono; [apply (wp_Heartbeat_same c)|]. intros x c' ->. by wp_steps.
  - unfold GetShardMap. by wp_steps.
Qed.

(** C21 (refinement): the coordinator is its registration history.  After any
    sequence of registrations, heartbeats and reads, the version counts exactly
    the accepted registrations (modulo 2^64), so it grows by one with each and
    never moves on a heartbeat or a read; [FindNode] returns, for each id, the
    information registered last; ids are distinct and never empty. *)
Theorem coordinator_refines_history (rs : list request) :
  wp (handle_all rs) (fun _ c => matches_history (registered rs []) c) make.
Proof.
  assert (forall acc c, matches_history acc c ->
    wp (handle_all rs) (fun _ c' => matches_history (registered rs acc) c') c) as Hgen.
  { induction rs as [|r rs IH]; intros acc c Hc; cbn [handle_all]; wp_steps; [done|].
    eapply wp_mono; [by apply wp_handle|]. intros [] c' Hc'. specialize (IH _ _ Hc').
    by destruct r; cbn [registered] in IH |- *. }
  apply Hgen. split; [done|done|constructor|]. by intros ?%elem_of_nil.
Qed.
End SingleNodeCoordinator.
