(* ===== verification/Transport.v ===== *)
(** * Transfer engine interface

    [include/tidepool/transport/transport.h]: the abstract transport as a class,
    and its TCP implementation, which records memory regions and otherwise reports
    that it is not implemented ([src/transport/tcp/tcp_transport.cpp]). *)

From S2P Require Import Prelude Api.

Record MemRegion : Type := mkMemRegion {
  mr_addr : option Z;
  mr_length : Z;
  mr_lkey : Z;
  mr_rkey : Z;
  mr_token : Z
}.

Record RemoteRef : Type := mkRemoteRef {
  rr_node_id : string;
  rr_address : string;
  rr_handle : Z;
  rr_remote_addr : Z;
  rr_rkey : Z
}.

(** [RemoteRef ref; ref.node_id = id;] *)
Definition RemoteRef_to (id : string) : RemoteRef := mkRemoteRef id "" 0 0 0.

Class Transport (R : Type) : Type := {
  (** [RegisterMem(addr, length, out)]: the flag says whether [out] is non-null. *)
  tr_RegisterMem : option Z -> Z -> bool -> comp R (Status * option MemRegion);
  tr_DeregisterMem : MemRegion -> comp R Status;
  (** [ReadRemote(remote, dst, length)]: the status and the memory at [dst]. *)
  tr_ReadRemote : RemoteRef -> MutableBuffer -> comp R (Status * MutableBuffer);
  tr_WriteRemote : RemoteRef -> bytes -> comp R Status;
  tr_name : R -> string
}.

Module TcpTransport.
Inductive TcpTransport : Type := mkTcpTransport.

Definition RegisterMem (addr : option Z) (length : Z) (out : bool) : comp TcpTransport (Status * option MemRegion) :=
  if negb out then mret (InvalidArgument "out == nullptr", None)
  else mret (Ok, Some (mkMemRegion addr length 0 0 0)).

Definition DeregisterMem (region : MemRegion) : comp TcpTransport Status := mret Ok.

Definition ReadRemote (remote : RemoteRef) (dst : MutableBuffer) : comp TcpTransport (Status * MutableBuffer) :=
  mret (NotImplemented "TcpTransport::ReadRemote", dst).

Definition WriteRemote (remote : RemoteRef) (src : bytes) : comp TcpTransport Status :=
  mret (NotImplemented "TcpTransport::WriteRemote").

Definition name (t : TcpTransport) : string := "tcp".

#[global] Instance TcpTransport_transport : Transport TcpTransport := {|
  tr_RegisterMem := RegisterMem;
  tr_DeregisterMem := DeregisterMem;
  tr_ReadRemote := ReadRemote;
  tr_WriteRemote := WriteRemote;
  tr_name := name
|}.
End TcpTransport.
