(* ===== verification/RdmaTransport.v ===== *)
(** * RDMA transport

    [src/transport/rdma/rdma_transport.cpp]: the second implementation of the
    transport interface, a placeholder whose operations are not implemented. *)

From S2P Require Import Prelude Api Transport.

Module RdmaTransport.
Inductive RdmaTransport : Type := mkRdmaTransport.

Definition RegisterMem (addr : option Z) (length : Z) (out : bool) : comp RdmaTransport (Status * option MemRegion) :=
  mret (NotImplemented "RdmaTransport::RegisterMem", None).

Definition DeregisterMem (region : MemRegion) : comp RdmaTransport Status :=
  mret (NotImplemented "RdmaTransport::DeregisterMem").

Definition ReadRemote (remote : RemoteRef) (dst : MutableBuffer) : comp RdmaTransport (Status * MutableBuffer) :=
  mret (NotImplemented "RdmaTransport::ReadRemote", dst).

Definition WriteRemote (remote : RemoteRef) (src : bytes) : comp RdmaTransport Status :=
  mret (NotImplemented "RdmaTransport::WriteRemote").

Definition name (t : RdmaTransport) : string := "rdma".

#[global] Instance RdmaTransport_transport : Transport RdmaTransport := {|
  tr_RegisterMem := RegisterMem;
  tr_DeregisterMem := DeregisterMem;
  tr_ReadRemote := ReadRemote;
  tr_WriteRemote := WriteRemote;
  tr_name := name
|}.
End RdmaTransport.

(** ** The factories

    [include/tidepool/transport/factory.h]: a [std::unique_ptr<Transport>] is one of
    the two implementations. *)

Inductive AnyTransport : Type :=
| Tcp (t : TcpTransport.TcpTransport)
| Rdma (t : RdmaTransport.RdmaTransport).

(** The virtual call. *)
Definition call_transport {A} (m : comp TcpTransport.TcpTransport A) (m' : comp RdmaTransport.RdmaTransport A)
  : comp AnyTransport A := fun s al =>
  match s with
  | Tcp t => match m t al with Done (a, t', al') => Done (a, Tcp t', al') | Terminated => Terminated end
  | Rdma t => match m' t al with Done (a, t', al') => Done (a, Rdma t', al') | Terminated => Terminated end
  end.

#[export] Instance AnyTransport_transport : Transport AnyTransport := {|
  tr_RegisterMem := fun addr n out => call_transport (tr_RegisterMem addr n out) (tr_RegisterMem addr n out);
  tr_DeregisterMem := fun r => call_transport (tr_DeregisterMem r) (tr_DeregisterMem r);
  tr_ReadRemote := fun r dst => call_transport (tr_ReadRemote r dst) (tr_ReadRemote r dst);
  tr_WriteRemote := fun r src => call_transport (tr_WriteRemote r src) (tr_WriteRemote r src);
  tr_name := fun t => match t with Tcp t => tr_name t | Rdma t => tr_name t end
|}.

Definition MakeTcpTransport : AnyTransport := Tcp TcpTransport.mkTcpTransport.
Definition MakeRdmaTransport : AnyTransport := Rdma RdmaTransport.mkRdmaTransport.

(** Neither moves data yet. *)
Lemma transfers_not_implemented (t : AnyTransport) r dst src al :
  (exists s, tr_ReadRemote r dst t al = Done ((s, dst), t, al) /\ code s = kNotImplemented)
  /\ (exists s, tr_WriteRemote r src t al = Done (s, t, al) /\ code s = kNotImplemented).
Proof. destruct t as [[]|[]]; split; eexists; split; reflexivity. Qed.
