(* ===== verification/Connector.v ===== *)
(** * Client connector

    [include/tidepool/client/connector.h], [src/client/connector.cpp]: what an
    inference instance links against.  It computes the owner of a key on its
    cached ring, serves keys of the co-located node in process and hands the
    rest to the transport.  The objects it points to (coordinator, transport,
    local node) are part of its state; dereferencing a null transport is
    [terminate]. *)

From S2P Require Import Prelude Api BlockKeys EvictionPolicy LocalIndex Tier StorageNode.
From S2P Require Import NodeInv NodePut NodeGet HashRing Coordinator Transport.

Module Connector.

Record ConnectorOptions : Type := mkOptions { max_shardmap_refreshes : Z }.

Definition default_options : ConnectorOptions := mkOptions 1.

Section connector.
Context (hash : string -> Z).
Context {C R T P : Type} `{Coordinator C} `{Transport R} `{Tier T} `{EvictionPolicy P}.

Abbreviation node := (StorageNode.StorageNode T P).

Record Connector : Type := mkConnector {
  coordinator_ : option C;
  transport_ : option R;
  self_node_ : string;
  local_node_ : option node;
  options_ : ConnectorOptions;
  ring_ : HashRing.HashRing
}.

(** [Connector::Connector] *)
Definition make (coordinator : option C) (transport : option R) (self_node : string) (local_node : option node)
    (options : ConnectorOptions) : Connector :=
  mkConnector coordinator transport self_node local_node options HashRing.empty_ring.

Definition set_coordinator (x : C) (c : Connector) : Connector :=
  mkConnector (Some x) (transport_ c) (self_node_ c) (local_node_ c) (options_ c) (ring_ c).
Definition set_transport (x : R) (c : Connector) : Connector :=
  mkConnector (coordinator_ c) (Some x) (self_node_ c) (local_node_ c) (options_ c) (ring_ c).
Definition set_local (n : node) (c : Connector) : Connector :=
  mkConnector (coordinator_ c) (transport_ c) (self_node_ c) (Some n) (options_ c) (ring_ c).
Definition set_ring (r : HashRing.HashRing) (c : Connector) : Connector :=
  mkConnector (coordinator_ c) (transport_ c) (self_node_ c) (local_node_ c) (options_ c) r.

(** A method of an object behind a pointer. *)
Definition on_ptr {X A} (ptr : Connector -> option X) (upd : X -> Connector -> Connector) (m : comp X A)
  : comp Connector A := fun c al =>
  match ptr c with
  | Some x =>
      match m x al with
      | Done (a, x', al') => Done (a, upd x' c, al')
      | Terminated => Terminated
      end
  | None => Terminated
  end.

Definition on_coordinator {A} (m : comp C A) : comp Connector A := on_ptr coordinator_ set_coordinator m.
Definition on_transport {A} (m : comp R A) : comp Connector A := on_ptr transport_ set_transport m.
Definition on_local {A} (m : comp node A) : comp Connector A := on_ptr local_node_ set_local m.

Definition RefreshShardMap : comp Connector Status :=
  c ← get;
  match coordinator_ c with
  | None => mret (Internal "connector has no coordinator")
  | Some _ =>
      map ← on_coordinator co_GetShardMap;
      match map with
      | Error s => mret s
      | Value m => modify (fun c => set_ring (HashRing.Rebuild hash m (ring_ c)) c) ;; mret Ok
      end
  end.

(** The retry loop: [todo] refreshes are left, [owner] is the last answer. *)
Fixpoint retry_owner (k : BlockKey) (todo : nat) (owner : Result string) : comp Connector (Result string) :=
  match todo with
  | O => mret owner
  | S todo' =>
      s ← RefreshShardMap;
      if negb (ok s) then mret (Error s)
      else (
        c ← get;
        match HashRing.Owner k (ring_ c) with
        | Value id => mret (Value id)
        | Error s' => retry_owner k todo' (Error s')
        end)
  end.

Definition ResolveOwner (k : BlockKey) : comp Connector (Result string) :=
  c ← get;
  s ← (if HashRing.empty (ring_ c) then RefreshShardMap else mret Ok);
  if negb (ok s) then mret (Error s)
  else (
    c ← get;
    match HashRing.Owner k (ring_ c) with
    | Value id => mret (Value id)
    | Error s' => retry_owner k (Z.to_nat (max_shardmap_refreshes (options_ c))) (Error s')
    end).

Definition Lookup (keys : list BlockKey) : comp Connector (Result (list bool)) :=
  mret (Error (NotImplemented "Connector::Lookup")).

(** [local_node_ != nullptr && owner == self_node_] *)
Definition is_local (owner : string) (c : Connector) : bool :=
  match local_node_ c with Some _ => String.eqb owner (self_node_ c) | None => false end.

(** [Get(key, dst, out)]; [out] is not written on the remote path, [v] is what it
    held before. *)
Definition Get (k : BlockKey) (dst : MutableBuffer) (out : bool) (v : BlockView)
  : comp Connector (Status * MutableBuffer * BlockView) :=
  owner ← ResolveOwner k;
  match owner with
  | Error s => mret (s, dst, v)
  | Value id =>
      c ← get;
      if is_local id c then on_local (StorageNode.Get k dst out)
      else (
        x ← on_transport (tr_ReadRemote (RemoteRef_to id) dst);
        if negb (ok x.1) then mret (x.1, x.2, v)
        else mret (NotImplemented "Connector::Get remote framing", x.2, v))
  end.

Definition Put (k : BlockKey) (b : Block) : comp Connector Status :=
  owner ← ResolveOwner k;
  match owner with
  | Error s => mret s
  | Value id =>
      c ← get;
      if is_local id c then on_local (StorageNode.Put k b)
      else on_transport (tr_WriteRemote (RemoteRef_to id) (data b))
  end.

Definition Prefetch (keys : list BlockKey) : comp Connector Status :=
  mret (NotImplemented "Connector::Prefetch").

(** ** Rules *)

Lemma wp_on_ptr {X A} (ptr : Connector -> option X) upd (m : comp X A) x (Q : A -> Connector -> Prop) c :
  ptr c = Some x -> wp m (fun a x' => Q a (upd x' c)) x -> wp (on_ptr ptr upd m) Q c.
Proof.
  intros Hx Hw al. specialize (Hw al). unfold on_ptr. rewrite Hx. by destruct (m x al) as [[[a x'] al']|].
Qed.

Lemma Owner_nonempty k r : HashRing.empty r = false -> exists id, HashRing.Owner k r = Value id.
Proof.
  unfold HashRing.empty, HashRing.Owner. destruct (HashRing.ring_ r); [done|]. intros _.
  destruct (HashRing.lower_bound _ _) as [[? ?]|]; eauto.
Qed.

Lemma Owner_Value k r id : HashRing.Owner k r = Value id -> HashRing.empty r = false.
Proof. unfold HashRing.empty, HashRing.Owner. by destruct (HashRing.ring_ r). Qed.

Lemma ResolveOwner_filled c k al id :
  HashRing.Owner k (ring_ c) = Value id -> ResolveOwner k c al = Done (Value id, c, al).
Proof. intros Ho. pose proof (Owner_Value k _ _ Ho) as He. unfold ResolveOwner, mbind, comp_bind, get, gets, mret, comp_ret. rewrite He. ok_simpl. cbn [negb]. by rewrite Ho. Qed.

(** *** Sequences of calls *)

Inductive call : Type :=
| CallLookup (keys : list BlockKey)
| CallGet (k : BlockKey) (dst : MutableBuffer) (out : bool) (v : BlockView)
| CallPut (k : BlockKey) (b : Block)
| CallPrefetch (keys : list BlockKey).

Definition run_call (x : call) : comp Connector Status :=
  match x with
  | CallLookup keys => r ← Lookup keys; mret (result_status r)
  | CallGet k dst out v => r ← Get k dst out v; mret r.1.1
  | CallPut k b => Put k b
  | CallPrefetch keys => Prefetch keys
  end.

Fixpoint run_calls (xs : list call) : comp Connector (list Status) :=
  match xs with
  | [] => mret []
  | x :: rest => s ← run_call x; ss ← run_calls rest; mret (s :: ss)
  end.

(** The state routing depends on. *)
Definition same_routing (c c' : Connector) : Prop := ring_ c' = ring_ c /\ coordinator_ c' = coordinator_ c.

Lemma run_call_routing x c al s c' al' :
  HashRing.empty (ring_ c) = false -> run_call x c al = Done (s, c', al') -> same_routing c c'.
Proof.
  intros He. destruct x as [keys|k dst out v|k b|keys]; cbn [run_call]; [by intros [= _ <- _]| | |by intros [= _ <- _]].
  all: destruct (Owner_nonempty k (ring_ c) He) as [id Hid]; pose proof (ResolveOwner_filled c k al id Hid) as E;
    unfold Get, Put, on_local, on_transport, on_ptr, mbind, comp_bind, get, mret, comp_ret; rewrite E.
  all: destruct (is_local id c); repeat case_match; intros [=]; subst; simplify_eq; done.
Qed.

Lemma run_calls_routing xs : forall c al ss c' al',
  HashRing.empty (ring_ c) = false -> run_calls xs c al = Done (ss, c', al') -> same_routing c c'.
Proof.
  induction xs as [|x xs IH]; intros c al ss c' al' He; cbn [run_calls]; [by intros [= _ <- _]|].
  unfold mbind, comp_bind. destruct (run_call x c al) as [[[s c1] al1]|] eqn:E1; [|done].
  destruct (run_calls xs c1 al1) as [[[ss1 c2] al2]|] eqn:E2; [|done]. intros [= _ <- _].
  destruct (run_call_routing _ _ _ _ _ _ He E1) as [Er Ec]. rewrite <- Er in He.
  destruct (IH _ _ _ _ _ He E2) as [Er' Ec']. split; congruence.
Qed.

(** C39 (safety): routing is frozen.  Once the ring has a point, no sequence of
    calls of the connector consults the coordinator or changes the ring: after
    any of them, whatever the coordinator's current map, the liveness of the owners,
    the errors of the transport and the refresh budget, every key is routed to the
    node the ring named at first. *)
Theorem filled_ring_is_final (c c' : Connector) (xs : list call) (ss : list Status) (al al' : Alloc)
    (Hring : HashRing.empty (ring_ c) = false) (Hrun : run_calls xs c al = Done (ss, c', al')) :
  ring_ c' = ring_ c /\ coordinator_ c' = coordinator_ c
  /\ forall k, exists id, HashRing.Owner k (ring_ c) = Value id
       /\ forall al2, ResolveOwner k c' al2 = Done (Value id, c', al2).
Proof.
  destruct (run_calls_routing _ _ _ _ _ _ Hring Hrun) as [Er Ec]. split; [done|]. split; [done|]. intros k.
  destruct (Owner_nonempty k (ring_ c) Hring) as [id Hid]. exists id. split; [done|]. intros al2.
  apply ResolveOwner_filled. by rewrite Er.
Qed.

(** The local fast path is the co-located node's own operation. *)
Lemma local_path_is_node (c : Connector) (n : node) (k : BlockKey) (b : Block) (dst : MutableBuffer)
    (out : bool) (v : BlockView) (al : Alloc)
    (Hown : HashRing.Owner k (ring_ c) = Value (self_node_ c))
    (Hlocal : local_node_ c = Some n) :
  Get k dst out v c al =
    match StorageNode.Get k dst out n al with
    | Done (r, n', al') => Done (r, set_local n' c, al')
    | Terminated => Terminated
    end
  /\ Put k b c al =
    match StorageNode.Put k b n al with
    | Done (s, n', al') => Done (s, set_local n' c, al')
    | Terminated => Terminated
    end.
Proof.
  pose proof (ResolveOwner_filled c k al _ Hown) as E.
  assert (is_local (self_node_ c) c = true) as El by (unfold is_local; by rewrite Hlocal, String.eqb_refl).
  unfold Get, Put, mbind, comp_bind. rewrite E. unfold get, gets. rewrite El. unfold on_local, on_ptr. by rewrite Hlocal.
Qed.

End connector.
Arguments Connector : clear implicits.
End Connector.
