(* ===== verification/ConnectorTheorems.v ===== *)
(** * Client connector: cold start and the single-node pool

    How a connector fills its ring from the coordinator, and the composition of
    coordinator, ring, connector and storage node on one machine. *)

From S2P Require Import Prelude Api BlockKeys EvictionPolicy Lru LocalIndex Tier DramTier SsdTier AnyTier StorageNode.
From S2P Require Import NodeInv NodePut NodeGet NodeSpec NodeTheorems HashRing Coordinator Transport RdmaTransport Connector.
Import Connector.

Section theorems.
Context (hash : string -> Z) (hash_range : forall l, u64 (hash l)).
Context {C R T P : Type} `{CoordinatorLaws C} `{Transport R} `{TierLaws T} `{EvictionPolicyLaws P}.

Abbreviation connector := (Connector.Connector C R T P).
Abbreviation node := (StorageNode.StorageNode T P).

(** The connector after it talked to its coordinator [x]. *)
Definition refreshed (c : connector) (m : ShardMap) (r : HashRing.HashRing) (c' : connector) : Prop :=
  exists x', co_map x' = m /\ c' = set_ring r (set_coordinator x' c).

Lemma wp_RefreshShardMap (c : connector) x :
  coordinator_ c = Some x ->
  wp (RefreshShardMap hash) (fun s c' =>
    refreshed c (co_map x) (if ok s then HashRing.Rebuild hash (co_map x) (ring_ c) else ring_ c) c') c.
Proof.
  intros Hx. unfold RefreshShardMap. wp_steps. rewrite Hx. wp_steps. eapply wp_on_ptr; [done|].
  eapply wp_mono; [apply co_GetShardMap_law|]. intros [m|s] x' [Hm HQ]; wp_steps.
  - subst m. ok_simpl. by exists x'.
  - rewrite HQ. exists x'. split; [done|]. by destruct c.
Qed.

(** Routing with an empty ring: the answer is computed on the coordinator's map,
    or the coordinator's error is passed on. *)
Definition routed (c : connector) (x : C) (k : BlockKey) (r : Result string) (c' : connector) : Prop :=
  match r with
  | Value id => HashRing.Owner k (HashRing.Rebuild hash (co_map x) HashRing.empty_ring) = Value id
                /\ refreshed c (co_map x) (HashRing.Rebuild hash (co_map x) HashRing.empty_ring) c'
  | Error s => ok s = false
  end.

Lemma Rebuild_fresh m r : HashRing.Rebuild hash m r = HashRing.Rebuild hash m HashRing.empty_ring.
Proof. done. Qed.

Lemma refreshed_trans c m r r' c1 c2 : refreshed c m r c1 -> refreshed c1 m r' c2 -> refreshed c m r' c2.
Proof. intros (x1 & _ & ->) (x2 & E & ->). by exists x2. Qed.

Lemma Owner_error k r s : HashRing.Owner k r = Error s -> ok s = false.
Proof.
  unfold HashRing.Owner. destruct (HashRing.ring_ r); [by intros [= <-]|].
  by destruct (HashRing.lower_bound _ _) as [[? ?]|].
Qed.

Lemma wp_retry_owner k todo : forall (c : connector) x owner,
  coordinator_ c = Some x -> match owner with Value _ => False | Error s => ok s = false end ->
  wp (retry_owner hash k todo owner) (routed c x k) c.
Proof.
  induction todo as [|todo IH]; intros c x owner Hx Ho; cbn [retry_owner]; wp_steps.
  { by destruct owner. }
  eapply wp_mono; [by apply wp_RefreshShardMap|]. intros s c1 Hre. cbv beta in Hre.
  destruct (ok s) eqn:Es; cbn [negb]; wp_steps; [|done]. pose proof Hre as (x1 & E1 & ->). cbn [ring_ set_ring].
  destruct (HashRing.Owner k _) as [id|s'] eqn:Eo; wp_steps; [done|].
  eapply wp_mono; [apply (IH _ x1); [done|exact (Owner_error _ _ _ Eo)]|]. intros [id|s''] c2; cbn; [|done].
  rewrite E1. intros [? ?]. split; [done|]. by eapply (refreshed_trans _ _ _ _ _ _ Hre).
Qed.

Lemma wp_ResolveOwner_cold (c : connector) x k :
  ring_ c = HashRing.empty_ring -> coordinator_ c = Some x -> wp (ResolveOwner hash k) (routed c x k) c.
Proof.
  intros Hr Hx. unfold ResolveOwner. wp_steps. rewrite Hr. cbn [HashRing.empty HashRing.empty_ring HashRing.ring_].
  eapply wp_mono; [by apply wp_RefreshShardMap|]. intros s c1 Hre. cbv beta in Hre.
  destruct (ok s) eqn:Es; cbn [negb]; wp_steps; [|done]. pose proof Hre as (x1 & E1 & ->). cbn [ring_ set_ring].
  destruct (HashRing.Owner k _) as [id|s'] eqn:Eo; wp_steps; [done|].
  eapply wp_mono; [apply (wp_retry_owner k _ _ x1); [done|exact (Owner_error _ _ _ Eo)]|]. intros [id|s''] c2; cbn; [|done].
  rewrite E1. intros [? ?]. split; [done|]. by eapply (refreshed_trans _ _ _ _ _ _ Hre).
Qed.

(** ** One machine *)

(** The local fast path, as a rule. *)
Lemma wp_Get_local (c : connector) n k dst out v (Q : Status * MutableBuffer * BlockView -> connector -> Prop) :
  local_node_ c = Some n -> HashRing.Owner k (ring_ c) = Value (self_node_ c) ->
  wp (StorageNode.Get k dst out) (fun r n' => Q r (set_local n' c)) n -> wp (Get hash k dst out v) Q c.
Proof.
  intros Hl Ho HQ. unfold Get. apply wp_bind. intros al. rewrite (ResolveOwner_filled hash c k al _ Ho).
  cbv beta iota.
  wp_steps. unfold is_local. rewrite Hl, String.eqb_refl. by eapply wp_on_ptr.
Qed.

(** Publish a block, then fetch it. *)
Definition publish_and_fetch (k : BlockKey) (b : Block) (dst : MutableBuffer) (v : BlockView)
  : comp connector (Status * option (Status * MutableBuffer * BlockView)) :=
  s ← Put hash k b;
  if ok s then x ← Get hash k dst true v; mret (s, Some x) else mret (s, None).

(** C18 (functional): a single-node pool works end to end.  A fresh connector
    whose coordinator knows this instance as its only alive member, co-located
    with an open storage node, routes every key to that node: a block it publishes
    successfully and that fits into DRAM can be fetched right away, payload and
    metadata intact, whatever the hash function and the eviction policy. *)
Theorem single_node_pool_put_get (c : connector) (x : C) (n : node) (k : BlockKey) (b : Block)
    (dst : MutableBuffer) (v : BlockView)
    (Hring : ring_ c = HashRing.empty_ring) (Hx : coordinator_ c = Some x) (Hl : local_node_ c = Some n)
    (Hwf : Forall HashRing.NodeInfo_wf (sm_nodes (co_map x)))
    (Halive : exists i, i ∈ sm_nodes (co_map x) /\ ni_alive i = true)
    (Hsole : forall i, i ∈ sm_nodes (co_map x) -> ni_alive i = true -> ni_id i = self_node_ c)
    (Hn : node_inv n) (Hr : StorageNode.ready_ n = true) (Hw : storable k b) (Hfit : fits_dram b n)
    (Hdst : is_Some (mb_data dst)) (Hcap : size_bytes b <= mb_capacity dst) :
  wp (publish_and_fetch k b dst v) (fun r c' =>
    match r with
    | (s, Some (st, dst', v')) =>
        ok s = true /\ ok st = true /\ view_bytes dst' v' = data b /\ bv_metadata v' = metadata b
    | (s, None) => ok s = false
    end) c.
Proof.
  pose proof (fun old => HashRing.sole_owner hash hash_range (co_map x) old k _ Hwf (proj1 Hw) Halive Hsole) as Hown.
  unfold publish_and_fetch, Put. wp_steps. eapply wp_mono; [by apply wp_ResolveOwner_cold|].
  intros [id|s] c1 HQ; cbn in HQ; wp_steps; [|by rewrite HQ; wp_steps].
  destruct HQ as [Eo (x' & Ex & ->)]. rewrite Hown in Eo. injection Eo as <-.
  unfold is_local. cbn [local_node_ self_node_ set_ring set_coordinator]. rewrite Hl, String.eqb_refl.
  eapply wp_on_ptr; [done|]. eapply wp_mono; [by apply wp_Put_placed|]. intros s n1 [[R1 R2 R3 R4 R5] Hplace].
  destruct (ok s) eqn:Es; wp_steps; [|done]. destruct (Hplace Hfit eq_refl) as (loc & Hloc & Ht).
  eapply (wp_Get_local _ n1); [done|apply Hown|].
  eapply wp_mono; [apply wp_Get; [done|apply Hw]|]. intros [[st dst'] v'] n2 [G1 G2 _ _ _ G6]. cbn [fst snd] in *. wp_steps.
  assert (ok st = true) as Hst.
  { apply (G6 loc b); try done; [congruence|]. destruct Hdst as [y ->]. done. }
  destruct (G2 Hst) as (_ & b' & Hb & Hm & _ & Hv & _). rewrite R4 in Hb. by injection Hb as <-.
Qed.
End theorems.

(** ** A concrete pool *)

Abbreviation pool := (Connector.Connector SingleNodeCoordinator.SingleNodeCoordinator TcpTransport.TcpTransport
                        (AnyTier SsdTier.MemDb) Lru.LruEviction).

Definition registered_coordinator : SingleNodeCoordinator.SingleNodeCoordinator :=
  match SingleNodeCoordinator.RegisterNode (mkNodeInfo "node-0" "127.0.0.1:7000" 4 true) SingleNodeCoordinator.make [] with
  | Done (_, c, _) => c
  | Terminated => SingleNodeCoordinator.make
  end.

Definition example_pool : pool :=
  Connector.make (Some registered_coordinator) (Some TcpTransport.mkTcpTransport) "node-0" (Some (ex_after ex_ops))
    Connector.default_options.

Lemma registered_coordinator_eq :
  registered_coordinator = SingleNodeCoordinator.mkCoordinator
    (mkShardMap 1 [mkNodeInfo "node-0" "127.0.0.1:7000" 4 true]).
Proof. vm_compute. reflexivity. Qed.

Lemma single_node_pool_put_get_witness :
  match publish_and_fetch HashRing.sum_hash (ex_key 4) (ex_block 4) ex_dst BlockView_default example_pool [] with
  | Done (s, Some (st, dst', v'), _, _) => s = Ok /\ st = Ok /\ view_bytes dst' v' = data (ex_block 4)
  | _ => False
  end
  /\ wp (publish_and_fetch HashRing.sum_hash (ex_key 4) (ex_block 4) ex_dst BlockView_default) (fun r _ =>
       match r with (s, Some (st, _, _)) => ok st = true | (s, None) => ok s = false end) example_pool.
Proof.
  split; [vm_compute; split_and!; reflexivity|]. eapply wp_mono.
  - apply (single_node_pool_put_get HashRing.sum_hash HashRing.sum_hash_range example_pool registered_coordinator
      (ex_after ex_ops) (ex_key 4) (ex_block 4) ex_dst BlockView_default);
      [reflexivity|reflexivity|reflexivity|..]; rewrite ?registered_coordinator_eq.
    + apply Forall_cons_2; [by split|by apply Forall_nil].
    + eexists. split; [by left|done].
    + intros i Hi _. apply list_elem_of_singleton in Hi. by subst i.
    + apply ex_inv.
    + apply ex_inv.
    + apply ex_storable. lia.
    + apply ex_fits.
    + by eexists.
    + done.
  - intros [s [[[st dst'] v']|]] c' HQ; apply HQ.
Defined.

(** ** The remote path

    With a transport of the repository, a key another node owns is neither read nor
    stored: both calls report that, and nothing changes. *)
Lemma remote_path_refuses {C T P : Type} `{Coordinator C} `{Tier T} `{EvictionPolicy P} (hash : string -> Z)
    (c : Connector.Connector C AnyTransport T P) (t : AnyTransport) k id b dst out v al :
  HashRing.Owner k (ring_ c) = Value id -> is_local id c = false -> transport_ c = Some t ->
  (exists s, Get hash k dst out v c al = Done ((s, dst, v), c, al) /\ code s = kNotImplemented)
  /\ (exists s, Put hash k b c al = Done (s, c, al) /\ code s = kNotImplemented).
Proof.
  intros Ho Hl Ht. pose proof (ResolveOwner_filled hash c k al id Ho) as E.
  destruct (transfers_not_implemented t (RemoteRef_to id) dst (data b) al) as [(s1 & E1 & C1) (s2 & E2 & C2)].
  unfold Get, Put, on_transport, on_ptr, mbind, comp_bind, get. rewrite E, Hl, Ht, E1, E2. cbn [fst snd].
  rewrite (proj2 (ok_false_iff s1)) by congruence. cbn [negb].
  assert (set_transport t c = c) as -> by (destruct c; cbn in *; by rewrite Ht). split; eexists; split; done.
Qed.

(** ** A member of a pool *)

Section pool.
Context (hash : string -> Z) {C T P : Type} `{Coordinator C} `{TierLaws T} `{EvictionPolicyLaws P}.

Abbreviation connector := (Connector.Connector C AnyTransport T P).
Abbreviation node := (StorageNode.StorageNode T P).

(** A call and all it gives back. *)
Definition serve (x : call) : comp connector reply :=
  match x with
  | CallLookup keys => r ← Lookup keys; mret (RStatus (result_status r))
  | CallGet k dst out v => r ← Get hash k dst out v; mret (RView r.1.1 r.1.2 r.2)
  | CallPut k b => s ← Put hash k b; mret (RStatus s)
  | CallPrefetch keys => s ← Prefetch keys; mret (RStatus s)
  end.

Fixpoint serve_all (xs : list call) : comp connector (list reply) :=
  match xs with
  | [] => mret []
  | x :: rest => r ← serve x; rs ← serve_all rest; mret (r :: rs)
  end.

(** The ring assigns the key to this instance. *)
Definition mine (c : connector) (k : BlockKey) : bool :=
  match HashRing.Owner k (ring_ c) with Value id => String.eqb id (self_node_ c) | Error _ => false end.

(** The operation of the co-located node a call stands for. *)
Definition local_op (c : connector) (x : call) : option op :=
  match x with
  | CallGet k dst out _ => if mine c k then Some (OpGet k dst out) else None
  | CallPut k b => if mine c k then Some (OpPut k b) else None
  | CallLookup _ | CallPrefetch _ => None
  end.

Definition local_ops (c : connector) (xs : list call) : list op := omap (local_op c) xs.

(** A call that is not served: nothing is read, the caller's memory is as it was. *)
Definition declined (x : call) (r : reply) : Prop :=
  match x, r with
  | CallGet _ dst _ v, RView s dst' v' => code s = kNotImplemented /\ dst' = dst /\ v' = v
  | CallGet _ _ _ _, _ => False
  | _, RStatus s => code s = kNotImplemented
  | _, _ => False
  end.

(** The replies [rs] to the calls [xs]: those of the node, in order, for its own
    keys, and refusals for the rest. *)
Fixpoint answered (local : call -> option op) (xs : list call) (rs nrs : list reply) : Prop :=
  match xs, rs with
  | [], [] => nrs = []
  | x :: xs, r :: rs =>
      match local x with
      | Some _ => exists nrs', nrs = r :: nrs' /\ answered local xs rs nrs'
      | None => declined x r /\ answered local xs rs nrs
      end
  | _, _ => False
  end.

Definition call_wf (x : call) : Prop :=
  match x with
  | CallGet k _ _ _ => BlockKey_wf k
  | CallPut k b => storable k b
  | CallLookup _ | CallPrefetch _ => True
  end.

Lemma serve_local (c : connector) n x o al :
  local_node_ c = Some n -> local_op c x = Some o ->
  serve x c al = match run_op o n al with
                 | Done (r, n', al') => Done (r, set_local n' c, al')
                 | Terminated => Terminated
                 end.
Proof.
  intros Hl Ho. destruct x as [keys|k dst out v|k b|keys]; try done; cbn [local_op] in Ho; unfold mine in Ho;
    (destruct (HashRing.Owner k (ring_ c)) as [id|] eqn:Eo; [|done]); (destruct (String.eqb_spec id (self_node_ c)) as [->|]; [|done]);
    injection Ho as <-; cbn [serve run_op]; unfold mbind, comp_bind.
  - rewrite (proj1 (local_path_is_node hash c n k (mkBlock (bv_metadata v) []) dst out v al Eo Hl)).
    by destruct (StorageNode.Get k dst out n al) as [[[? ?] ?]|].
  - rewrite (proj2 (local_path_is_node hash c n k b (mkMutableBuffer None 0) true BlockView_default al Eo Hl)).
    by destruct (StorageNode.Put k b n al) as [[[? ?] ?]|].
Qed.

Lemma serve_declined (c : connector) n t x al :
  HashRing.empty (ring_ c) = false -> local_node_ c = Some n -> transport_ c = Some t -> local_op c x = None ->
  exists r, serve x c al = Done (r, c, al) /\ declined x r.
Proof.
  intros He Hl Ht Ho. destruct x as [keys|k dst out v|k b|keys]; [by eexists| | |by eexists].
  all: destruct (Owner_nonempty k (ring_ c) He) as [id Hid];
    assert (is_local id c = false) as Hloc by (unfold is_local; rewrite Hl; cbn in Ho; unfold mine in Ho;
      rewrite Hid in Ho; by destruct (String.eqb id (self_node_ c))).
  - destruct (remote_path_refuses hash c t k id (mkBlock (bv_metadata v) []) dst out v al Hid Hloc Ht) as [(s & E & Hs) _].
    exists (RView s dst v). cbn [serve]. unfold mbind, comp_bind. by rewrite E.
  - destruct (remote_path_refuses hash c t k id b (mkMutableBuffer None 0) true BlockView_default al Hid Hloc Ht) as [_ (s & E & Hs)].
    exists (RStatus s). cbn [serve]. unfold mbind, comp_bind. by rewrite E.
Qed.

Lemma local_op_wf (c : connector) x o : call_wf x -> local_op c x = Some o -> op_wf o.
Proof. destruct x; cbn; try done; intros Hx; case_match; intros [= <-]; done. Qed.

Lemma set_local_twice (c : connector) n n' : set_local n' (set_local n c) = set_local n' c.
Proof. done. Qed.

(** What the calls do, given the node's own run. *)
Lemma serve_all_projects t xs : forall (c : connector) n al nrs n' al',
  HashRing.empty (ring_ c) = false -> local_node_ c = Some n -> transport_ c = Some t ->
  run_ops (local_ops c xs) n al = Done (nrs, n', al') ->
  exists rs, serve_all xs c al = Done (rs, set_local n' c, al') /\ answered (local_op c) xs rs nrs.
Proof.
  induction xs as [|x xs IH]; intros c n al nrs n' al' He Hl Ht; cbn [serve_all answered].
  { intros [= <- <- <-]. exists []. split; [|done]. by destruct c; cbn in *; subst. }
  unfold local_ops. cbn [omap list_omap]. destruct (local_op c x) as [o|] eqn:Eo.
  - cbn [run_ops]. unfold mbind, comp_bind. destruct (run_op o n al) as [[[r n1] al1]|] eqn:E1; [|done].
    change (omap (local_op c) xs) with (local_ops (set_local n1 c) xs).
    destruct (run_ops (local_ops (set_local n1 c) xs) n1 al1) as [[[nrs1 n2] al2]|] eqn:E2; [|done]. intros [= <- <- <-].
    destruct (IH (set_local n1 c) n1 al1 nrs1 n2 al2) as (rs & Es & Ha); [done..|].
    exists (r :: rs). rewrite (serve_local c n x o al Hl Eo), E1, Es, set_local_twice. split; [done|]. exists nrs1. split; [done|exact Ha].
  - intros E. destruct (serve_declined c n t x al He Hl Ht Eo) as (r & Er & Hd).
    destruct (IH c n al nrs n' al' He Hl Ht E) as (rs & Es & Ha). exists (r :: rs).
    unfold mbind, comp_bind. rewrite Er, Es. done.
Qed.

(** C23 (refinement): a pool member serves exactly its share.  Take a connector of
    any pool whose ring has been filled, with a transport of the repository and a
    co-located node.  Any sequence of its calls, under any allocation and tier
    failures, returns, never reaches [std::terminate()], and leaves everything
    but the node as it was.  The node goes through exactly the [Get]s and [Put]s
    whose key the ring assigns to this instance, in order, and its replies to them
    are the connector's; these replies are those of the abstract map of blocks.
    Every other call, on keys other members own included, reports
    [kNotImplemented] and touches neither the node nor the caller's memory. *)
Theorem member_serves_its_share (c : connector) (n : node) (t : AnyTransport) (xs : list call) (al : Alloc)
    (kinds : forall t : T, tier_type t = kDram \/ tier_type t = kSsd)
    (Hring : HashRing.empty (ring_ c) = false) (Hl : local_node_ c = Some n) (Ht : transport_ c = Some t)
    (Hn : node_ok n) (Hxs : Forall call_wf xs) :
  exists rs nrs n' al',
    serve_all xs c al = Done (rs, set_local n' c, al')
    /\ run_ops (local_ops c xs) n al = Done (nrs, n', al')
    /\ answered (local_op c) xs rs nrs
    /\ node_ok n' /\ spec_run (abs n) (local_ops c xs) nrs (abs n').
Proof.
  assert (Forall op_wf (local_ops c xs)) as Hos.
  { apply Forall_forall. intros o (x & Hx & Ho)%list_elem_of_omap. eapply local_op_wf; [|done].
    by eapply (proj1 (Forall_forall _ _) Hxs). }
  pose proof (refines_ops kinds (local_ops c xs) n Hn Hos al) as Hrun.
  destruct (run_ops (local_ops c xs) n al) as [[[nrs n'] al']|] eqn:E; [|done]. destruct Hrun as [Hn' Hs].
  destruct (serve_all_projects t xs c n al nrs n' al' Hring Hl Ht E) as (rs & Er & Ha). by exists rs, nrs, n', al'.
Qed.
End pool.

(** A read of a key nobody stored, then a write, on a filled ring. *)
Definition ex_calls : list call := [CallGet (ex_key 9) ex_dst true BlockView_default; CallPut (ex_key 4) (ex_block 4)].

Definition filled_example : pool :=
  set_ring (HashRing.Rebuild HashRing.sum_hash (SingleNodeCoordinator.map_ registered_coordinator) HashRing.empty_ring) example_pool.

Definition after_calls : outcome (list Status * pool * Alloc) := run_calls HashRing.sum_hash ex_calls filled_example [].

Lemma filled_ring_is_final_witness :
  match after_calls with
  | Done (ss, c', _) => ring_ c' = ring_ filled_example /\ coordinator_ c' = coordinator_ filled_example
  | Terminated => False
  end.
Proof.
  destruct after_calls as [[[ss c'] al']|] eqn:E.
  - destruct (filled_ring_is_final HashRing.sum_hash filled_example c' ex_calls ss [] al') as (Er & Ec & _).
    + vm_compute. reflexivity.
    + exact E.
    + split; [exact Er|exact Ec].
  - vm_compute in E. discriminate E.
Defined.

(** Two members; a key of the other one lies just behind its first point. *)
Definition pool_of_two : Connector.Connector SingleNodeCoordinator.SingleNodeCoordinator AnyTransport
    (AnyTier SsdTier.MemDb) Lru.LruEviction :=
  set_ring (HashRing.Rebuild HashRing.sum_hash
      (mkShardMap 2 [mkNodeInfo "node-0" "127.0.0.1:7000" 4 true; mkNodeInfo "node-1" "127.0.0.1:7001" 4 true])
      HashRing.empty_ring)
    (Connector.make (Some registered_coordinator) (Some MakeTcpTransport) "node-0" (Some (ex_after ex_ops))
       Connector.default_options).

Definition their_key : BlockKey := mkBlockKey 1353086972399 1 7.

Definition mixed_calls : list call :=
  [CallPut (ex_key 4) (ex_block 4); CallPut their_key (ex_block 1); CallLookup [ex_key 4];
   CallGet their_key ex_dst true BlockView_default; CallGet (ex_key 4) ex_dst true BlockView_default].

Definition reply_code (r : reply) : StatusCode :=
  match r with RStatus s | RView s _ _ | RInfo (Error s) => code s | RInfo (Value _) => kOk end.

Lemma member_serves_its_share_witness :
  match serve_all HashRing.sum_hash mixed_calls pool_of_two [] with
  | Done (rs, _, _) => map reply_code rs = [kOk; kNotImplemented; kNotImplemented; kNotImplemented; kOk]
  | Terminated => False
  end
  /\ local_ops pool_of_two mixed_calls = [OpPut (ex_key 4) (ex_block 4); OpGet (ex_key 4) ex_dst true]
  /\ exists rs nrs n' al',
       serve_all HashRing.sum_hash mixed_calls pool_of_two [true] = Done (rs, set_local n' pool_of_two, al')
       /\ run_ops (local_ops pool_of_two mixed_calls) (ex_after ex_ops) [true] = Done (nrs, n', al')
       /\ answered (local_op pool_of_two) mixed_calls rs nrs.
Proof.
  split; [vm_compute; reflexivity|]. split; [vm_compute; reflexivity|].
  destruct (member_serves_its_share HashRing.sum_hash pool_of_two (ex_after ex_ops) MakeTcpTransport mixed_calls [true]
    AnyTier_kinds) as (rs & nrs & n' & al' & E1 & E2 & Ha & _).
  - vm_compute. reflexivity.
  - reflexivity.
  - reflexivity.
  - apply ex_ok, ex_ops_wf.
  - repeat apply Forall_cons_2; [apply ex_storable; lia|repeat split; vm_compute; done|done|repeat split; vm_compute; done
      |apply ex_storable; lia|by apply Forall_nil].
  - exists rs, nrs, n', al'. split; [exact E1|]. split; [exact E2|exact Ha].
Defined.
