(* ===== verification/Sockets.v ===== *)
(** * Sockets, descriptors and the clock

    What [src/transport/tcp/tcp_connection.cpp] uses of the operating system.
    The kernel and the C library are not part of the repository: the class
    [Sockets] lists the calls on a world [W], and [SocketLaws] states the
    documented behaviour the code relies on.  Constants are those of Linux.

    A law never says that a call succeeds.  [received] and [sent] are the byte
    histories of a descriptor, [open_fds] the descriptors the process holds. *)

From S2P Require Import Prelude Api.

(** ** Constants *)

Definition EINTR : Z := 4.
Definition EAGAIN : Z := 11.
Definition EWOULDBLOCK : Z := 11.
Definition EINVAL : Z := 22.
Definition ENOTCONN : Z := 107.
Definition EALREADY : Z := 114.
Definition EINPROGRESS : Z := 115.

Definition POLLIN : Z := 1.
Definition POLLOUT : Z := 4.
Definition POLLERR : Z := 8.
Definition POLLHUP : Z := 16.
Definition POLLNVAL : Z := 32.

Definition AF_UNSPEC : Z := 0.
Definition SOCK_STREAM : Z := 1.
Definition SOCK_NONBLOCK : Z := 2048.
Definition SOCK_CLOEXEC : Z := 524288.
Definition IPPROTO_TCP : Z := 6.
Definition O_NONBLOCK : Z := 2048.
Definition FD_CLOEXEC : Z := 1.

Definition INT_MAX : Z := 2 ^ 31 - 1.
Definition SSIZE_MAX : Z := 2 ^ 63 - 1.

(** [Clock::time_point::max()], in nanoseconds. *)
Definition time_max : Z := 2 ^ 63 - 1.

(** ** The calls *)

Inductive SysResult (A : Type) : Type :=
| SysOk (a : A)
| SysErr (error_number : Z).
Arguments SysOk {A} a.
Arguments SysErr {A} error_number.

Record addrinfo : Type := mkAddrinfo {
  ai_family : Z;
  ai_socktype : Z;
  ai_protocol : Z;
  ai_addr : bytes
}.

Inductive PollResult : Type :=
| PollTimeout
| PollError (error_number : Z)
| PollReturned (revents : Z).

Class Sockets (W : Type) : Type := {
  sk_now : W -> Z * W;
  (** An error code, or the candidate addresses. *)
  sk_getaddrinfo : string -> string -> addrinfo -> W -> SysResult (list addrinfo) * W;
  sk_socket : Z -> Z -> Z -> W -> SysResult Z * W;
  sk_getfl : Z -> W -> SysResult Z * W;
  sk_setfl : Z -> Z -> W -> SysResult unit * W;
  sk_getfd : Z -> W -> SysResult Z * W;
  sk_setfd : Z -> Z -> W -> SysResult unit * W;
  sk_connect : Z -> bytes -> W -> SysResult unit * W;
  sk_so_error : Z -> W -> SysResult Z * W;
  sk_so_type : Z -> W -> SysResult Z * W;
  sk_getpeername : Z -> W -> SysResult unit * W;
  sk_poll : Z -> Z -> Z -> W -> PollResult * W;
  (** [recv(fd, p, n, 0)]: the bytes stored at [p]; none is end of file. *)
  sk_recv : Z -> Z -> W -> SysResult bytes * W;
  (** [send(fd, p, n, MSG_NOSIGNAL)]: how many bytes were taken. *)
  sk_send : Z -> bytes -> W -> SysResult Z * W;
  sk_shutdown : Z -> W -> SysResult unit * W;
  sk_close : Z -> W -> W;
  (** Whether another thread's [Shutdown] of this descriptor has run. *)
  sk_interference : Z -> W -> bool * W;
  sk_strerror : Z -> string;
  sk_gai_strerror : Z -> string
}.

(** ** The laws *)

Class SocketLaws (W : Type) `{Sockets W} : Type := {
  open_fds : W -> gset Z;
  received : W -> Z -> bytes;
  sent : W -> Z -> bytes;

  (** Real time passes: at most [call_rate] calls are made per clock tick, until
      the clock saturates. *)
  call_rate : Z;
  call_rate_pos : 0 < call_rate;
  calls : W -> Z;
  (** Signals that will still interrupt a call. *)
  interrupts : W -> nat;

  (** What every call keeps. *)
  advances (w w' : W) : Prop := calls w <= calls w' /\ (interrupts w' <= interrupts w)%nat;
  (** A call that moves no bytes and opens or closes nothing. *)
  quiet (w w' : W) : Prop :=
    advances w w' /\ open_fds w' = open_fds w
    /\ (forall fd, received w' fd = received w fd) /\ (forall fd, sent w' fd = sent w fd);

  calls_nonneg w : 0 <= calls w;
  sk_now_law w :
    let '(t, w') := sk_now w in
    quiet w w' /\ calls w < calls w' /\ 0 <= t <= time_max
    /\ (calls w <= call_rate * t \/ t = time_max);
  sk_getaddrinfo_law w host service hints : quiet w (sk_getaddrinfo host service hints w).2;
  sk_socket_law w family type protocol :
    let '(r, w') := sk_socket family type protocol w in
    match r with
    | SysOk fd =>
        0 <= fd /\ (fd ∉ open_fds w) /\ advances w w' /\ open_fds w' = {[fd]} ∪ open_fds w
        /\ (forall fd', received w' fd' = if decide (fd' = fd) then [] else received w fd')
        /\ (forall fd', sent w' fd' = if decide (fd' = fd) then [] else sent w fd')
    | SysErr _ => quiet w w'
    end;
  sk_getfl_law w fd : quiet w (sk_getfl fd w).2;
  sk_setfl_law w fd f : quiet w (sk_setfl fd f w).2;
  sk_getfd_law w fd : quiet w (sk_getfd fd w).2;
  sk_setfd_law w fd f : quiet w (sk_setfd fd f w).2;
  sk_connect_law w fd a : quiet w (sk_connect fd a w).2;
  sk_so_error_law w fd : quiet w (sk_so_error fd w).2;
  sk_so_type_law w fd : quiet w (sk_so_type fd w).2;
  sk_getpeername_law w fd : quiet w (sk_getpeername fd w).2;
  sk_poll_law w fd ev t :
    quiet w (sk_poll fd ev t w).2
    /\ ((sk_poll fd ev t w).1 = PollError EINTR -> (interrupts (sk_poll fd ev t w).2 < interrupts w)%nat);
  sk_recv_law w fd n :
    0 < n ->
    let '(r, w') := sk_recv fd n w in
    match r with
    | SysOk b =>
        zlen b <= n /\ advances w w' /\ open_fds w' = open_fds w
        /\ (forall fd', received w' fd' = if decide (fd' = fd) then received w fd ++ b else received w fd')
        /\ (forall fd', sent w' fd' = sent w fd')
    | SysErr _ => quiet w w'
    end;
  sk_send_law w fd b :
    let '(r, w') := sk_send fd b w in
    match r with
    | SysOk n =>
        0 <= n <= zlen b /\ advances w w' /\ open_fds w' = open_fds w
        /\ (forall fd', received w' fd' = received w fd')
        /\ (forall fd', sent w' fd' = if decide (fd' = fd) then sent w fd ++ take (Z.to_nat n) b else sent w fd')
    | SysErr _ => quiet w w'
    end;
  sk_shutdown_law w fd : quiet w (sk_shutdown fd w).2;
  sk_close_law w fd :
    advances w (sk_close fd w) /\ open_fds (sk_close fd w) = open_fds w ∖ {[fd]}
    /\ (forall fd', received (sk_close fd w) fd' = received w fd')
    /\ (forall fd', sent (sk_close fd w) fd' = sent w fd');
  sk_interference_law w fd : quiet w (sk_interference fd w).2
}.

(** A call as a computation. *)
Definition sys {W A} (f : W -> A * W) : comp W A := fun w al => Done ((f w).1, (f w).2, al).

Lemma wp_sys {W A} (f : W -> A * W) (Q : A -> W -> Prop) w : Q (f w).1 (f w).2 -> wp (sys f) Q w.
Proof. by intros HQ al. Qed.

Section facts.
Context {W : Type} `{SocketLaws W}.

#[export] Instance advances_preorder : PreOrder advances.
Proof. split; [by intros w|]. intros w1 w2 w3 [? ?] [? ?]. split; lia. Qed.

#[export] Instance quiet_preorder : PreOrder quiet.
Proof.
  split; [by intros w|]. intros w1 w2 w3 (A1 & B1 & C1 & D1) (A2 & B2 & C2 & D2).
  split_and!; [by etrans|congruence|..]; intros; [by rewrite C2|by rewrite D2].
Qed.

Lemma quiet_advances w w' : quiet w w' -> advances w w'.
Proof. by intros [? _]. Qed.

(** ** Loop budgets *)

(** How often a loop that looks at an unexpired deadline can still go round. *)
Definition rounds (w : W) : nat := Z.to_nat (call_rate * 2 ^ 63 - calls w).

(** The budget of every loop of the connection. *)
Definition enough_fuel (fuel : nat) (w : W) : Prop :=
  (Z.to_nat (call_rate * 2 ^ 63) + interrupts w + 2 <= fuel)%nat.

Lemma enough_fuel_advances fuel w w' : advances w w' -> enough_fuel fuel w -> enough_fuel fuel w'.
Proof. unfold enough_fuel. intros [_ ?]. lia. Qed.

Lemma rounds_bound w : (rounds w <= Z.to_nat (call_rate * 2 ^ 63))%nat.
Proof. unfold rounds. pose proof (calls_nonneg w). lia. Qed.

Lemma rounds_advances w w' : advances w w' -> (rounds w' <= rounds w)%nat.
Proof. unfold rounds. intros [? _]. lia. Qed.

(** Looking at the clock before a deadline uses up a round. *)
Lemma rounds_now w t w' : sk_now w = (t, w') -> t < time_max -> (rounds w' < rounds w)%nat.
Proof.
  intros E Ht. pose proof (sk_now_law w) as HL. rewrite E in HL. destruct HL as (_ & Hc & _ & [Hr|]); [|lia].
  unfold rounds. pose proof call_rate_pos. assert (calls w < call_rate * 2 ^ 63) by (unfold time_max in *; nia). lia.
Qed.
End facts.
