(* ===== verification/TcpConnection.v ===== *)
(** * TCP connection

    [include/tidepool/transport/tcp_connection.h],
    [src/transport/tcp/tcp_connection.cpp]: ownership of one non-blocking socket
    and exact reads and writes with a deadline.  Loops that the clock or the
    number of signals bounds take [fuel]; running out of it is [terminate].

    Another thread may call [Shutdown] at any time: every load of the flag
    [broken_] first asks the world whether that has happened. *)

From S2P Require Import Prelude Api BlockKeys Sockets.

Module TcpConnection.

(** Timeouts in milliseconds. *)
Record TcpConnectionOptions : Type := mkOptions {
  connect_timeout : Z;
  read_timeout : Z;
  write_timeout : Z
}.

Definition default_options : TcpConnectionOptions := mkOptions 5000 30000 30000.

Record TcpConnection : Type := mkConn {
  socket_fd_ : Z;
  options_ : TcpConnectionOptions;
  broken_ : bool
}.

(** [TcpConnection()] *)
Definition default_conn : TcpConnection := mkConn (-1) default_options true.

(** [TcpConnection(socket_fd, options)] *)
Definition make (fd : Z) (options : TcpConnectionOptions) : TcpConnection := mkConn fd options false.

Definition set_broken (b : bool) (c : TcpConnection) : TcpConnection := mkConn (socket_fd_ c) (options_ c) b.

(** The move constructor: the new connection and what is left of [other]. *)
Definition move (other : TcpConnection) : TcpConnection * TcpConnection :=
  (mkConn (socket_fd_ other) (options_ other) (broken_ other), mkConn (-1) (options_ other) true).

Definition to_string_of (completed target : Z) : string := (to_string completed +:+ "/" +:+ to_string target)%string.

(** ** Deadlines *)

Record Deadline : Type := mkDeadline { expires_at_ : Z }.

Definition ns_per_ms : Z := 1000000.

(** [Deadline(timeout)] when the clock reads [now]. *)
Definition deadline_at (now timeout : Z) : Deadline :=
  let max_remaining := time_max - now in
  let max_milliseconds := max_remaining / ns_per_ms in
  if max_milliseconds <=? timeout then mkDeadline time_max
  else mkDeadline (now + timeout * ns_per_ms).

Definition poll_timeout_at (now : Z) (d : Deadline) : Z :=
  if expires_at_ d <=? now then 0
  else
    let remaining := expires_at_ d - now in
    let milliseconds := remaining / ns_per_ms in
    let milliseconds := if milliseconds * ns_per_ms <? remaining then milliseconds + 1 else milliseconds in
    if INT_MAX <? milliseconds then INT_MAX else milliseconds.

Section tcp.
Context {W : Type} `{Sockets W} (fuel : nat).

Definition new_deadline (timeout : Z) : comp W Deadline :=
  now ← sys sk_now;
  mret (deadline_at now timeout).

Definition Expired (d : Deadline) : comp W bool :=
  now ← sys sk_now;
  mret (expires_at_ d <=? now).

Definition PollTimeoutMilliseconds (d : Deadline) : comp W Z :=
  now ← sys sk_now;
  mret (poll_timeout_at now d).

(** ** Helpers *)

Definition ErrnoText (e : Z) : string := (sk_strerror (W := W) e +:+ " (errno=" +:+ to_string e +:+ ")")%string.

Definition Endpoint (host : string) (port : Z) : string := (host +:+ ":" +:+ to_string port)%string.

Definition ValidateOptions (o : TcpConnectionOptions) : Status :=
  if connect_timeout o <? 0 then InvalidArgument "TcpConnection: connect_timeout must be non-negative"
  else if read_timeout o <? 0 then InvalidArgument "TcpConnection: read_timeout must be non-negative"
  else if write_timeout o <? 0 then InvalidArgument "TcpConnection: write_timeout must be non-negative"
  else Ok.

Definition ConfigureSocket (fd : Z) : comp W Status :=
  fl ← sys (sk_getfl fd);
  match fl with
  | SysErr e => mret (NetworkError ("TcpConnection: fcntl(F_GETFL) failed: " +:+ ErrnoText e)%string)
  | SysOk status_flags =>
      set ← (if Z.land status_flags O_NONBLOCK =? 0
             then sys (sk_setfl fd (Z.lor status_flags O_NONBLOCK)) else mret (SysOk tt));
      match set with
      | SysErr e => mret (NetworkError ("TcpConnection: fcntl(F_SETFL O_NONBLOCK) failed: " +:+ ErrnoText e)%string)
      | SysOk _ =>
          fdf ← sys (sk_getfd fd);
          match fdf with
          | SysErr e => mret (NetworkError ("TcpConnection: fcntl(F_GETFD) failed: " +:+ ErrnoText e)%string)
          | SysOk descriptor_flags =>
              set ← (if Z.land descriptor_flags FD_CLOEXEC =? 0
                     then sys (sk_setfd fd (Z.lor descriptor_flags FD_CLOEXEC)) else mret (SysOk tt));
              match set with
              | SysErr e => mret (NetworkError ("TcpConnection: fcntl(F_SETFD FD_CLOEXEC) failed: " +:+ ErrnoText e)%string)
              | SysOk _ => mret Ok
              end
          end
      end
  end.

Definition ValidateConnectedStreamSocket (fd : Z) : comp W Status :=
  ty ← sys (sk_so_type fd);
  match ty with
  | SysErr e => mret (InvalidArgument ("TcpConnection::AdoptConnectedSocket: fd is not a socket: " +:+ ErrnoText e)%string)
  | SysOk socket_type =>
      if negb (socket_type =? SOCK_STREAM) then
        mret (InvalidArgument "TcpConnection::AdoptConnectedSocket: socket is not SOCK_STREAM")
      else (
        peer ← sys (sk_getpeername fd);
        match peer with
        | SysErr e =>
            mret (InvalidArgument ("TcpConnection::AdoptConnectedSocket: socket is not connected: " +:+ ErrnoText e)%string)
        | SysOk _ => mret Ok
        end)
  end.

(** [CreateNonBlockingSocket(address)] *)
Definition CreateNonBlockingSocket (a : addrinfo) : comp W (SysResult Z) :=
  r ← sys (sk_socket (ai_family a) (Z.lor (Z.lor (ai_socktype a) SOCK_NONBLOCK) SOCK_CLOEXEC) (ai_protocol a));
  match r with
  | SysOk fd => mret (SysOk fd)
  | SysErr e =>
      if negb (e =? EINVAL) then mret (SysErr e)
      else sys (sk_socket (ai_family a) (ai_socktype a) (ai_protocol a))
  end.

Definition close_fd (fd : Z) : comp W unit := modify (sk_close fd).

(** ** PollReady *)

(** [PollReady]: [load] reads [externally_broken] when that pointer is given. *)
Section poll.
Context {S : Type} (os : S -> W) (set_os : W -> S -> S) (load : option (comp S bool)).

Definition on_os {A} (m : comp W A) : comp S A := zoom os set_os m.

Definition load_flag : comp S bool := match load with Some l => l | None => mret false end.

Definition interrupted_status (operation : string) (completed target : Z) : Status :=
  Unavailable ("TcpConnection::" +:+ operation +:+ " interrupted because the connection was shut down ("
               +:+ to_string_of completed target +:+ " bytes completed)")%string.

Fixpoint poll_loop (n : nat) (fd requested_events : Z) (d : Deadline) (operation : string) (completed target : Z)
    (let_socket_error_caller_inspect : bool) : comp S Status :=
  match n with
  | O => terminate
  | Datatypes.S n' =>
      broken ← load_flag;
      if broken : bool then mret (interrupted_status operation completed target)
      else (
        timeout ← on_os (PollTimeoutMilliseconds d);
        r ← on_os (sys (sk_poll fd requested_events timeout));
        match r with
        | PollTimeout =>
            mret (Unavailable ("TcpConnection::" +:+ operation +:+ " timeout ("
                               +:+ to_string_of completed target +:+ " bytes completed)")%string)
        | PollError e =>
            if e =? EINTR then
              poll_loop n' fd requested_events d operation completed target let_socket_error_caller_inspect
            else
              mret (NetworkError ("TcpConnection::" +:+ operation +:+ " poll failed after "
                                  +:+ to_string_of completed target +:+ " bytes: " +:+ ErrnoText e)%string)
        | PollReturned revents =>
            broken ← load_flag;
            if broken : bool then mret (interrupted_status operation completed target)
            else if negb (Z.land revents POLLNVAL =? 0) then
              mret (NetworkError ("TcpConnection::" +:+ operation +:+ " poll reported POLLNVAL after "
                                  +:+ to_string_of completed target +:+ " bytes")%string)
            else if negb (Z.land revents requested_events =? 0) then mret Ok
            else if let_socket_error_caller_inspect && negb (Z.land revents (Z.lor POLLERR POLLHUP) =? 0) then mret Ok
            else if negb (Z.land revents (Z.lor POLLERR POLLHUP) =? 0) then
              mret (NetworkError ("TcpConnection::" +:+ operation +:+ " peer closed or poll reported an error after "
                                  +:+ to_string_of completed target +:+ " bytes")%string)
            else
              mret (NetworkError ("TcpConnection::" +:+ operation +:+ " poll returned unexpected events after "
                                  +:+ to_string_of completed target +:+ " bytes")%string)
        end)
  end.

Definition PollReady (fd requested_events : Z) (d : Deadline) (operation : string) (completed target : Z)
    (let_socket_error_caller_inspect : bool) : comp S Status :=
  poll_loop fuel fd requested_events d operation completed target let_socket_error_caller_inspect.
End poll.

(** ** Connect *)

(** The candidate loop.  A candidate that does not become the connection is
    closed by its [ScopedFd]. *)
Fixpoint try_candidates (host : string) (port : Z) (options : TcpConnectionOptions) (d : Deadline)
    (addresses : list addrinfo) (last_error : string) : comp W (Result TcpConnection) :=
  match addresses with
  | [] =>
      expired ← Expired d;
      if expired : bool then
        mret (Error (Unavailable ("TcpConnection::Connect timeout for " +:+ Endpoint host port +:+ ": " +:+ last_error)%string))
      else
        mret (Error (NetworkError ("TcpConnection::Connect failed for " +:+ Endpoint host port +:+ ": " +:+ last_error)%string))
  | a :: rest =>
      expired ← Expired d;
      if expired : bool then
        mret (Error (Unavailable ("TcpConnection::Connect timeout for " +:+ Endpoint host port +:+ ": " +:+ last_error)%string))
      else (
        let next := try_candidates host port options d rest in
        candidate ← CreateNonBlockingSocket a;
        match candidate with
        | SysErr e => next ("socket failed: " +:+ ErrnoText e)%string
        | SysOk fd =>
            let skip (error : string) := (close_fd fd ;; next error) in
            configured ← ConfigureSocket fd;
            if negb (ok configured) then skip (message configured)
            else (
              connected ← sys (sk_connect fd (ai_addr a));
              match connected with
              | SysOk _ => mret (Value (make fd options))
              | SysErr e =>
                  if negb (e =? EINPROGRESS) && negb (e =? EALREADY) && negb (e =? EWOULDBLOCK) && negb (e =? EINTR) then
                    skip ("connect failed: " +:+ ErrnoText e)%string
                  else (
                    ready ← PollReady id (fun w _ => w) None fd POLLOUT d "Connect" 0 0 true;
                    if negb (ok ready) then
                      if decide (code ready = kUnavailable) then (
                        close_fd fd ;;
                        mret (Error (Unavailable ("TcpConnection::Connect timeout for " +:+ Endpoint host port
                                                  +:+ ": " +:+ message ready)%string)))
                      else skip (message ready)
                    else (
                      socket_error ← sys (sk_so_error fd);
                      match socket_error with
                      | SysErr e' => skip ("getsockopt(SO_ERROR) failed: " +:+ ErrnoText e')%string
                      | SysOk e' =>
                          if negb (e' =? 0) then skip ("connect failed: " +:+ ErrnoText e')%string
                          else mret (Value (make fd options))
                      end))
              end)
        end)
  end.

Definition Connect (host : string) (port : Z) (options : TcpConnectionOptions) : comp W (Result TcpConnection) :=
  if String.eqb host "" then mret (Error (InvalidArgument "TcpConnection::Connect: host is empty"))
  else if port =? 0 then mret (Error (InvalidArgument "TcpConnection::Connect: port is zero"))
  else if negb (ok (ValidateOptions options)) then mret (Error (ValidateOptions options))
  else (
    let hints := mkAddrinfo AF_UNSPEC SOCK_STREAM IPPROTO_TCP [] in
    addresses ← sys (sk_getaddrinfo host (to_string port) hints);
    match addresses with
    | SysErr e =>
        mret (Error (NetworkError ("TcpConnection::Connect getaddrinfo failed for " +:+ Endpoint host port +:+ ": "
                                   +:+ sk_gai_strerror (W := W) e)%string))
    | SysOk addresses =>
        d ← new_deadline (connect_timeout options);
        try_candidates host port options d addresses "no address candidates"
    end).

Definition AdoptConnectedSocket (socket_fd : Z) (options : TcpConnectionOptions) : comp W (Result TcpConnection) :=
  if socket_fd <? 0 then mret (Error (InvalidArgument "TcpConnection::AdoptConnectedSocket: fd is negative"))
  else if negb (ok (ValidateOptions options)) then (close_fd socket_fd ;; mret (Error (ValidateOptions options)))
  else (
    valid ← ValidateConnectedStreamSocket socket_fd;
    if negb (ok valid) then (close_fd socket_fd ;; mret (Error valid))
    else (
      configured ← ConfigureSocket socket_fd;
      if negb (ok configured) then (close_fd socket_fd ;; mret (Error configured))
      else mret (Value (make socket_fd options)))).

(** ** The connection's methods, on the connection and the world *)

Abbreviation link := (TcpConnection * W)%type.

Definition set_world (w : W) (l : link) : link := (l.1, w).
Definition set_conn (c : TcpConnection) (l : link) : link := (c, l.2).
Definition os {A} (m : comp W A) : comp link A := on_os snd set_world m.

(** [broken_.load()] *)
Definition load_broken : comp link bool :=
  l ← get;
  other ← os (sys (sk_interference (socket_fd_ l.1)));
  (if other : bool then modify (fun l => set_conn (set_broken true l.1) l) else mret tt) ;;
  gets (fun l => broken_ l.1).

Definition MarkBroken : comp link unit :=
  l ← get;
  if socket_fd_ l.1 <? 0 then modify (fun l => set_conn (set_broken true l.1) l)
  else (
    was ← load_broken;
    modify (fun l => set_conn (set_broken true l.1) l) ;;
    if negb was then os (sys (sk_shutdown (socket_fd_ l.1))) ;; mret tt else mret tt).

Definition Shutdown : comp link Status :=
  l ← get;
  if socket_fd_ l.1 <? 0 then (modify (fun l => set_conn (set_broken true l.1) l) ;; mret Ok)
  else (
    was ← load_broken;
    modify (fun l => set_conn (set_broken true l.1) l) ;;
    if was : bool then mret Ok
    else (
      r ← os (sys (sk_shutdown (socket_fd_ l.1)));
      match r with
      | SysOk _ => mret Ok
      | SysErr e =>
          if (e =? ENOTCONN) || (e =? EINVAL) then mret Ok
          else mret (NetworkError ("TcpConnection::Shutdown failed: " +:+ ErrnoText e)%string)
      end)).

Definition Close : comp link unit :=
  modify (fun l => set_conn (set_broken true l.1) l) ;;
  l ← get;
  if socket_fd_ l.1 <? 0 then mret tt
  else (
    modify (fun l => set_conn (mkConn (-1) (options_ l.1) (broken_ l.1)) l) ;;
    os (close_fd (socket_fd_ l.1))).

Definition IsOpen : comp link bool :=
  l ← get;
  if socket_fd_ l.1 <? 0 then mret false
  else (b ← load_broken; mret (negb b)).

(** [operator=(TcpConnection&& other)], for two distinct objects: what is left of
    [other]. *)
Definition move_assign (other : TcpConnection) : comp link TcpConnection :=
  Close ;;
  modify (set_conn (move other).1) ;;
  mret (move other).2.

(** The loop of [ReadExact]; [got] are the bytes stored so far. *)
Fixpoint read_loop (n : nat) (target : Z) (d : Deadline) (first_attempt : bool) (got : bytes)
  : comp link (Status * bytes) :=
  match n with
  | O => terminate
  | Datatypes.S n' =>
      let completed := zlen got in
      if target <=? completed then mret (Ok, got)
      else (
        expired ← (if first_attempt then mret false else os (Expired d));
        if expired : bool then (
          MarkBroken ;;
          mret (Unavailable ("TcpConnection::ReadExact timeout (" +:+ to_string_of completed target
                             +:+ " bytes completed)")%string, got))
        else (
          l ← get;
          let chunk := Z.min (target - completed) SSIZE_MAX in
          r ← os (sys (sk_recv (socket_fd_ l.1) chunk));
          match r with
          | SysOk [] =>
              MarkBroken ;;
              mret (NetworkError ("TcpConnection::ReadExact peer EOF (" +:+ to_string_of completed target
                                  +:+ " bytes completed)")%string, got)
          | SysOk b => read_loop n' target d false (got ++ b)
          | SysErr e =>
              if e =? EINTR then read_loop n' target d false got
              else if (e =? EAGAIN) || (e =? EWOULDBLOCK) then (
                ready ← PollReady snd set_world (Some load_broken) (socket_fd_ l.1) POLLIN d "ReadExact"
                          completed target false;
                if ok ready then read_loop n' target d false got
                else (MarkBroken ;; mret (ready, got)))
              else (
                MarkBroken ;;
                mret (NetworkError ("TcpConnection::ReadExact recv failed after " +:+ to_string_of completed target
                                    +:+ " bytes: " +:+ ErrnoText e)%string, got))
          end))
  end.

(** [ReadExact(output, bytes)]: [output] says whether the pointer is non-null;
    the status and the bytes stored at the front of it are returned. *)
Definition ReadExact (output : bool) (target : Z) : comp link (Status * bytes) :=
  if target =? 0 then mret (Ok, [])
  else if negb output then
    mret (InvalidArgument "TcpConnection::ReadExact: output is null for non-zero read", [])
  else (
    l ← get;
    if socket_fd_ l.1 <? 0 then mret (Unavailable "TcpConnection::ReadExact: connection is closed", [])
    else (
      broken ← load_broken;
      if broken : bool then mret (Unavailable "TcpConnection::ReadExact: connection is broken", [])
      else (
        d ← os (new_deadline (read_timeout (options_ l.1)));
        read_loop fuel target d true []))).

(** The loop of [WriteExact]; [completed] bytes of [input] are out. *)
Fixpoint write_loop (n : nat) (input : bytes) (d : Deadline) (first_attempt : bool) (completed : Z)
  : comp link Status :=
  match n with
  | O => terminate
  | Datatypes.S n' =>
      let target := zlen input in
      if target <=? completed then mret Ok
      else (
        expired ← (if first_attempt then mret false else os (Expired d));
        if expired : bool then (
          MarkBroken ;;
          mret (Unavailable ("TcpConnection::WriteExact timeout (" +:+ to_string_of completed target
                             +:+ " bytes completed)")%string))
        else (
          l ← get;
          let chunk := Z.min (target - completed) SSIZE_MAX in
          r ← os (sys (sk_send (socket_fd_ l.1) (take (Z.to_nat chunk) (drop (Z.to_nat completed) input))));
          match r with
          | SysOk w =>
              if 0 <? w then write_loop n' input d false (completed + w)
              else (
                MarkBroken ;;
                mret (NetworkError ("TcpConnection::WriteExact send made no progress (" +:+ to_string_of completed target
                                    +:+ " bytes completed)")%string))
          | SysErr e =>
              if e =? EINTR then write_loop n' input d false completed
              else if (e =? EAGAIN) || (e =? EWOULDBLOCK) then (
                ready ← PollReady snd set_world (Some load_broken) (socket_fd_ l.1) POLLOUT d "WriteExact"
                          completed target false;
                if ok ready then write_loop n' input d false completed
                else (MarkBroken ;; mret ready))
              else (
                MarkBroken ;;
                mret (NetworkError ("TcpConnection::WriteExact send failed after " +:+ to_string_of completed target
                                    +:+ " bytes: " +:+ ErrnoText e)%string))
          end))
  end.

(** [WriteExact(input, bytes)]: the memory at [input], [None] for a null pointer. *)
Definition WriteExact (input : option bytes) (target : Z) : comp link Status :=
  if target =? 0 then mret Ok
  else match input with
  | None => mret (InvalidArgument "TcpConnection::WriteExact: input is null for non-zero write")
  | Some input =>
      l ← get;
      if socket_fd_ l.1 <? 0 then mret (Unavailable "TcpConnection::WriteExact: connection is closed")
      else (
        broken ← load_broken;
        if broken : bool then mret (Unavailable "TcpConnection::WriteExact: connection is broken")
        else (
          d ← os (new_deadline (write_timeout (options_ l.1)));
          write_loop fuel (take (Z.to_nat target) input) d true 0))
  end.
End tcp.
End TcpConnection.
