(* ===== verification/TcpTheorems.v ===== *)
(** * TCP connection: specifications

    Exact reads and writes move exactly the bytes they report and return within
    their deadline, a broken connection stays broken, and no descriptor leaks. *)

From S2P Require Import Prelude Api BlockKeys Sockets TcpConnection.
Import TcpConnection.

(** ** Deadlines *)

Lemma deadline_at_max now timeout : 0 <= now <= time_max -> expires_at_ (deadline_at now timeout) <= time_max.
Proof.
  intros Hn. unfold deadline_at. destruct (_ <=? timeout) eqn:E; cbn; boolZ; [done|].
  pose proof (Z.mul_div_le (time_max - now) ns_per_ms ltac:(done)). unfold ns_per_ms in *. lia.
Qed.

Section tcp.
Context {W : Type} `{SocketLaws W} (fuel : nat).

Abbreviation link := (TcpConnection * W)%type.

(** ** What a method of an open connection may do *)

(** The connection keeps its descriptor, a broken one stays broken, exactly [rx]
    is read from and [tx] written to its socket, and nothing else moves. *)
Record moved (l l' : link) (rx tx : bytes) : Prop := {
  mv_fd : socket_fd_ l'.1 = socket_fd_ l.1;
  mv_options : options_ l'.1 = options_ l.1;
  mv_broken : broken_ l.1 = true -> broken_ l'.1 = true;
  mv_advances : advances l.2 l'.2;
  mv_fds : open_fds l'.2 = open_fds l.2;
  mv_rx : forall fd, received l'.2 fd = if decide (fd = socket_fd_ l.1) then received l.2 fd ++ rx else received l.2 fd;
  mv_tx : forall fd, sent l'.2 fd = if decide (fd = socket_fd_ l.1) then sent l.2 fd ++ tx else sent l.2 fd
}.

Lemma moved_refl l : moved l l [] [].
Proof. split; try done; intros fd; case_decide; by rewrite ?app_nil_r. Qed.

Lemma moved_trans l1 l2 l3 r1 t1 r2 t2 :
  moved l1 l2 r1 t1 -> moved l2 l3 r2 t2 -> moved l1 l3 (r1 ++ r2) (t1 ++ t2).
Proof.
  intros [A1 A2 A3 A4 A5 A6 A7] [B1 B2 B3 B4 B5 B6 B7]. split; try congruence; [tauto|by etrans|..]; intros fd.
  - rewrite B6, A6, A1. case_decide; [|done]. by rewrite app_assoc.
  - rewrite B7, A7, A1. case_decide; [|done]. by rewrite app_assoc.
Qed.

Lemma moved_silent l1 l2 l3 r t : moved l1 l2 [] [] -> moved l2 l3 r t -> moved l1 l3 r t.
Proof. apply (moved_trans l1 l2 l3 [] []). Qed.

Lemma moved_then_silent l1 l2 l3 r t : moved l1 l2 r t -> moved l2 l3 [] [] -> moved l1 l3 r t.
Proof. intros A B. rewrite <- (app_nil_r r), <- (app_nil_r t). by eapply moved_trans. Qed.

Lemma quiet_moved l w : quiet l.2 w -> moved l (set_world w l) [] [].
Proof.
  intros (A & B & C & D). split; try done; cbn; intros fd; case_decide; by rewrite ?app_nil_r, ?C, ?D.
Qed.

Lemma break_moved l : moved l (set_conn (set_broken true l.1) l) [] [].
Proof. split; try done; cbn; intros fd; case_decide; by rewrite ?app_nil_r. Qed.

Lemma wp_os {A} (m : comp W A) (Q : A -> link -> Prop) l :
  wp m (fun a w => Q a (set_world w l)) l.2 -> wp (os m) Q l.
Proof. apply wp_zoom. Qed.

(** A call that moves no bytes. *)
Lemma wp_os_quiet {A} (f : W -> A * W) (Q : A -> link -> Prop) l :
  quiet l.2 (f l.2).2 -> (moved l (set_world (f l.2).2 l) [] [] -> Q (f l.2).1 (set_world (f l.2).2 l)) ->
  wp (os (sys f)) Q l.
Proof. intros Hq HQ. apply wp_os, wp_sys, HQ. by apply quiet_moved. Qed.

Lemma wp_load_broken l (Q : bool -> link -> Prop) :
  (forall l', moved l l' [] [] -> Q (broken_ l'.1) l') -> wp load_broken Q l.
Proof.
  intros HQ. unfold load_broken. wp_steps. apply wp_os_quiet; [apply sk_interference_law|]. intros Hm.
  destruct (sk_interference _ _) as [[] w']; cbn [fst snd] in *; wp_steps; apply HQ; [|done].
  eapply moved_silent; [exact Hm|]. apply (break_moved (set_world w' l)).
Qed.

Lemma wp_MarkBroken l (Q : unit -> link -> Prop) :
  (forall l', moved l l' [] [] -> broken_ l'.1 = true -> Q tt l') -> wp MarkBroken Q l.
Proof.
  intros HQ. unfold MarkBroken. wp_steps. destruct (socket_fd_ l.1 <? 0); wp_steps.
  { apply HQ; [apply break_moved|done]. }
  apply wp_load_broken. intros l1 M1. wp_steps. pose proof (moved_silent _ _ _ _ _ M1 (break_moved l1)) as M2.
  destruct (negb _); wp_steps; [|by apply HQ]. apply wp_os_quiet; [apply sk_shutdown_law|]. intros M3.
  wp_steps. apply HQ; [by eapply moved_silent|done].
Qed.

(** ** Waiting *)

Section poll.
Context {S : Type} (getw : S -> W) (setw : W -> S -> S) (load : option (comp S bool)) (R : S -> S -> Prop).
Context `{!PreOrder R} (Hget : forall s w, getw (setw w s) = w) (Hset : forall s w, quiet (getw s) w -> R s (setw w s)).
Context (Hint : forall s s', R s s' -> (interrupts (getw s') <= interrupts (getw s))%nat).
Context (Hload : forall s, wp (load_flag load) (fun _ s' => R s s') s).

(** Only interruptions make it go round, so it returns. *)
Lemma wp_poll_loop n fd ev d op completed target inspect : forall s,
  (interrupts (getw s) < n)%nat ->
  wp (poll_loop getw setw load n fd ev d op completed target inspect) (fun _ s' => R s s') s.
Proof.
  induction n as [|n IH]; intros s Hn; [lia|]. cbn [poll_loop]. wp_steps.
  eapply wp_mono; [apply Hload|]. intros b s1 R1. cbv beta in R1. destruct b; wp_steps; [done|].
  unfold on_os, PollTimeoutMilliseconds. wp_steps. apply wp_sys. wp_steps.
  pose proof (sk_now_law (getw s1)) as HL. destruct (sk_now (getw s1)) as [t w1]. destruct HL as (Q1 & _). cbn [fst snd].
  apply wp_sys. rewrite Hget. pose proof (sk_poll_law w1 fd ev (poll_timeout_at t d)) as [Q2 HE].
  destruct (sk_poll _ _ _ w1) as [r w2]. cbn [fst snd] in *.
  set (s2 := setw w2 (setw w1 s1)).
  assert (R s s2) as R2.
  { etrans; [exact R1|]. etrans; [by apply (Hset s1 w1)|]. apply Hset. by rewrite Hget. }
  destruct r as [|e|revents]; wp_steps; [done| |].
  - destruct (e =? EINTR) eqn:Ee; boolZ; wp_steps; [|done]. subst e. eapply wp_mono; [apply IH|].
    + pose proof (Hint _ _ R1). specialize (HE eq_refl). unfold s2. rewrite Hget.
      destruct Q1 as ((_ & ?) & _). lia.
    + intros st s' R3. by etrans.
  - eapply wp_mono; [apply Hload|]. intros b s3 R3. cbv beta in R3.
    assert (R s s3) as R4 by (by etrans). destruct b; wp_steps; [done|]. repeat (case_match; wp_steps; try done).
Qed.
End poll.

#[local] Instance moved_preorder : PreOrder (fun l l' : link => moved l l' [] []).
Proof. split; [intros l; apply moved_refl|]. intros l1 l2 l3. apply moved_silent. Qed.

Lemma wp_PollReady_link l fd ev d op completed target inspect (Q : Status -> link -> Prop) :
  enough_fuel fuel l.2 -> (forall st l', moved l l' [] [] -> Q st l') ->
  wp (PollReady fuel snd set_world (Some load_broken) fd ev d op completed target inspect) Q l.
Proof.
  intros Hf HQ. unfold PollReady. eapply wp_mono.
  - apply (wp_poll_loop snd set_world (Some load_broken) (fun l l' : link => moved l l' [] [])); try done.
    + intros s w. apply quiet_moved.
    + intros s s' M. apply (mv_advances _ _ _ _ M).
    + intros s. apply wp_load_broken. by intros l' M.
    + unfold enough_fuel in Hf. lia.
  - intros st l'. apply HQ.
Qed.

(** ** Reading *)

Lemma wp_new_deadline timeout w (Q : Deadline -> W -> Prop) :
  (forall d w', quiet w w' -> expires_at_ d <= time_max -> Q d w') -> wp (new_deadline timeout) Q w.
Proof.
  intros HQ. unfold new_deadline. wp_steps. apply wp_sys. wp_steps. pose proof (sk_now_law w) as HL.
  destruct (sk_now w) as [t w']. destruct HL as (Hq & _ & Ht & _). apply HQ; [done|by apply deadline_at_max].
Qed.

(** Seeing an unexpired deadline uses up a round. *)
Lemma wp_Expired d w (Q : bool -> W -> Prop) :
  expires_at_ d <= time_max ->
  (forall b w', quiet w w' -> (b = false -> (rounds w' < rounds w)%nat) -> Q b w') -> wp (Expired d) Q w.
Proof.
  intros Hd HQ. unfold Expired. wp_steps. apply wp_sys. wp_steps. pose proof (sk_now_law w) as HL.
  destruct (sk_now w) as [t w'] eqn:E. destruct HL as (Hq & _). apply HQ; [done|]. intros Hb. cbn [fst] in Hb. boolZ.
  eapply rounds_now; [done|lia].
Qed.

(** What a read or write may return: success, or a failure that leaves the
    connection broken. *)
Definition settled (s : Status) (l' : link) : Prop := ok s = true \/ ok s = false /\ broken_ l'.1 = true.

Lemma wp_fail_broken {A} l l0 r t s (a : A) (Q : A -> link -> Prop) :
  moved l0 l r t -> ok s = false -> (forall l', moved l0 l' r t -> settled s l' -> Q a l') ->
  wp (MarkBroken ;; mret a) Q l.
Proof.
  intros M Hs HQ. wp_steps. apply wp_MarkBroken. intros l' M' Hb. wp_steps.
  apply HQ; [by eapply moved_then_silent|]. right. by split.
Qed.

Definition read_result (l : link) (target : Z) (x : Status * bytes) (l' : link) : Prop :=
  moved l l' x.2 [] /\ settled x.1 l'
  /\ (if ok x.1 then zlen x.2 = target else zlen x.2 < target).

Lemma enough_fuel_moved l l' r t : moved l l' r t -> enough_fuel fuel l.2 -> enough_fuel fuel l'.2.
Proof. intros M. apply enough_fuel_advances, M. Qed.

(** The rounds left to a loop that has or has not looked at the clock yet. *)
Definition rounds_left (first : bool) (l : link) : nat := (rounds l.2 + (if first then 2 else 1))%nat.

Lemma wp_check_deadline (first : bool) d l (Q : bool -> link -> Prop) :
  expires_at_ d <= time_max ->
  (forall b l', moved l l' [] [] -> (b = false -> (rounds_left false l' < rounds_left first l)%nat) -> Q b l') ->
  wp (if first then mret false else os (Expired d)) Q l.
Proof.
  intros Hd HQ. unfold rounds_left in HQ. destruct first.
  - wp_steps. apply HQ; [apply moved_refl|]. lia.
  - apply wp_os, wp_Expired; [done|]. intros b w' Hq Hr. apply HQ; [by apply quiet_moved|]. intros Hb. specialize (Hr Hb). cbn. lia.
Qed.

Lemma rounds_left_moved l l' r t b : moved l l' r t -> (rounds_left b l' <= rounds_left b l)%nat.
Proof. intros M. unfold rounds_left. pose proof (rounds_advances _ _ (mv_advances _ _ _ _ M)). lia. Qed.

Lemma wp_read_loop l0 target d n : expires_at_ d <= time_max -> forall (first : bool) got l,
  enough_fuel fuel l.2 -> (rounds_left first l <= n)%nat -> moved l0 l got [] -> zlen got <= target ->
  wp (read_loop fuel n target d first got) (read_result l0 target) l.
Proof.
  intros Hd. induction n as [|n IH]; intros first got l Hf Hn M Hg; [unfold rounds_left in Hn; destruct first; lia|].
  cbn [read_loop]. destruct (target <=? zlen got) eqn:Et; boolZ; wp_steps.
  { split_and!; [done|by left|]. cbn [fst snd]. ok_simpl. lia. }
  apply wp_check_deadline; [done|]. intros b l1 M1 Hr. pose proof (moved_then_silent _ _ _ _ _ M M1) as M01.
  assert (forall s l2 r, moved l0 l2 got r -> r = [] -> ok s = false ->
    wp (MarkBroken ;; mret (s, got)) (read_result l0 target) l2) as Hfail.
  { intros s l2 r M2 -> Hs. eapply wp_fail_broken; [done..|]. intros l' M' Hst. split_and!; [done..|]. by cbn; rewrite Hs. }
  destruct b; [by eapply Hfail|]. specialize (Hr eq_refl). pose proof (enough_fuel_moved _ _ _ _ M1 Hf) as Hf1.
  wp_steps. apply wp_os, wp_sys. pose proof (sk_recv_law l1.2 (socket_fd_ l1.1) (Z.min (target - zlen got) SSIZE_MAX)
    ltac:(unfold SSIZE_MAX; lia)) as HL.
  destruct (sk_recv _ _ l1.2) as [r w2]. cbn [fst snd]. destruct r as [b|e].
  - destruct HL as (Hlen & Ha & Ho & Hrx & Htx).
    assert (moved l1 (set_world w2 l1) b []) as M2.
    { split; try done; cbn; intros fd; [rewrite Hrx|rewrite Htx]; case_decide; subst; by rewrite ?app_nil_r. }
    pose proof (moved_trans _ _ _ _ _ _ _ M01 M2) as M02. destruct b as [|x b].
    + rewrite !app_nil_r in M02. by eapply Hfail.
    + apply IH; [by apply (enough_fuel_moved _ _ _ _ M2)|pose proof (rounds_left_moved _ _ _ _ false M2); lia|done|].
      rewrite zlen_app. lia.
  - pose proof (quiet_moved l1 w2 HL) as M2. pose proof (moved_then_silent _ _ _ _ _ M01 M2) as M02.
    pose proof (enough_fuel_moved _ _ _ _ M2 Hf1) as Hf2. pose proof (rounds_left_moved _ _ _ _ false M2) as Hr2.
    destruct (e =? EINTR); [apply IH; try done; lia|].
    destruct ((e =? EAGAIN) || (e =? EWOULDBLOCK))%bool; [|by eapply Hfail].
    wp_steps. apply wp_PollReady_link; [done|]. intros st l3 M3. pose proof (moved_then_silent _ _ _ _ _ M02 M3) as M03.
    destruct (ok st) eqn:Es; [|by eapply Hfail].
    apply IH; [by apply (enough_fuel_moved _ _ _ _ M3)|pose proof (rounds_left_moved _ _ _ _ false M3); lia|done..].
Qed.

(** The whole call on a connection that holds a socket. *)
Lemma wp_ReadExact l target :
  0 < target -> 0 <= socket_fd_ l.1 -> enough_fuel fuel l.2 ->
  wp (ReadExact fuel true target) (read_result l target) l.
Proof.
  intros Ht Hfd Hf. unfold ReadExact. rewrite (proj2 (Z.eqb_neq target 0)) by lia. cbn [negb]. wp_steps.
  rewrite (proj2 (Z.ltb_ge _ _)) by lia. wp_steps. apply wp_load_broken. intros l1 M1.
  destruct (broken_ l1.1) eqn:Eb; wp_steps.
  { split_and!; [done|right; by split|done]. }
  apply wp_os, wp_new_deadline. intros d w2 Hq Hd. pose proof (moved_silent _ _ _ _ _ M1 (quiet_moved l1 w2 Hq)) as M2.
  pose proof (enough_fuel_moved _ _ _ _ M2 Hf) as Hf2. apply wp_read_loop; try done; [|unfold zlen; cbn; lia].
  unfold rounds_left. pose proof (rounds_bound w2). unfold enough_fuel in Hf2. cbn in *. lia.
Qed.

(** ** Writing *)

(** Some front part of the input went out, all of it on success. *)
Definition write_result (l : link) (input : bytes) (s : Status) (l' : link) : Prop :=
  exists n, 0 <= n <= zlen input /\ moved l l' [] (take (Z.to_nat n) input) /\ settled s l'
            /\ (if ok s then n = zlen input else n < zlen input).

Lemma take_more {A} (l : list A) n c m :
  0 <= n -> 0 <= m -> m <= c ->
  take (Z.to_nat n) l ++ take (Z.to_nat m) (take (Z.to_nat c) (drop (Z.to_nat n) l)) = take (Z.to_nat (n + m)) l.
Proof.
  intros Hn Hm Hc. rewrite take_take, Nat.min_l by lia. rewrite Z2Nat.inj_add by lia.
  apply take_take_drop.
Qed.

Lemma wp_write_loop l0 input d n : expires_at_ d <= time_max -> forall (first : bool) done l,
  enough_fuel fuel l.2 -> (rounds_left first l <= n)%nat -> 0 <= done <= zlen input ->
  moved l0 l [] (take (Z.to_nat done) input) ->
  wp (write_loop fuel n input d first done) (write_result l0 input) l.
Proof.
  intros Hd. induction n as [|n IH]; intros first out l Hf Hn Hb M; [unfold rounds_left in Hn; destruct first; lia|].
  cbn [write_loop]. destruct (zlen input <=? out) eqn:Et; boolZ; wp_steps.
  { exists out. split_and!; [lia|lia|done|by left|]. ok_simpl. lia. }
  apply wp_check_deadline; [done|]. intros b l1 M1 Hr. pose proof (moved_then_silent _ _ _ _ _ M M1) as M01.
  assert (forall s l2, moved l0 l2 [] (take (Z.to_nat out) input) -> ok s = false ->
    wp (MarkBroken ;; mret s) (write_result l0 input) l2) as Hfail.
  { intros s l2 M2 Hs. eapply wp_fail_broken; [done..|]. intros l' M' Hst. exists out. rewrite Hs. split_and!; try done; lia. }
  destruct b; [by apply Hfail|]. specialize (Hr eq_refl). pose proof (enough_fuel_moved _ _ _ _ M1 Hf) as Hf1.
  wp_steps. apply wp_os, wp_sys. set (chunk := Z.min (zlen input - out) SSIZE_MAX).
  assert (0 < chunk <= zlen input - out) as Hchunk by (unfold chunk, SSIZE_MAX; lia).
  pose proof (sk_send_law l1.2 (socket_fd_ l1.1) (take (Z.to_nat chunk) (drop (Z.to_nat out) input))) as HL.
  destruct (sk_send _ _ l1.2) as [r w2]. cbn [fst snd]. destruct r as [m|e].
  - destruct HL as (Hm & Ha & Ho & Hrx & Htx).
    assert (zlen (take (Z.to_nat chunk) (drop (Z.to_nat out) input)) <= chunk) as Hlen.
    { unfold zlen. rewrite length_take. lia. }
    assert (moved l0 (set_world w2 l1) [] (take (Z.to_nat (out + m)) input)) as M02.
    { rewrite <- (take_more input out chunk m) by lia.
      refine (moved_trans _ _ _ [] _ [] _ M01 _).
      split; try done; cbn; intros fd; [rewrite Hrx|rewrite Htx]; case_decide; subst; by rewrite ?app_nil_r. }
    destruct (0 <? m) eqn:Em; boolZ.
    + apply IH; [by apply (enough_fuel_advances _ l1.2)| |lia|done].
      unfold rounds_left in *. pose proof (rounds_advances _ _ Ha). cbn [snd set_world]. lia.
    + replace (out + m) with out in M02 by lia. by apply Hfail.
  - pose proof (quiet_moved l1 w2 HL) as M2. pose proof (moved_then_silent _ _ _ _ _ M01 M2) as M02.
    pose proof (enough_fuel_moved _ _ _ _ M2 Hf1) as Hf2. pose proof (rounds_left_moved _ _ _ _ false M2) as Hr2.
    destruct (e =? EINTR); [apply IH; try done; lia|].
    destruct ((e =? EAGAIN) || (e =? EWOULDBLOCK))%bool; [|by apply Hfail].
    wp_steps. apply wp_PollReady_link; [done|]. intros st l3 M3. pose proof (moved_then_silent _ _ _ _ _ M02 M3) as M03.
    destruct (ok st) eqn:Es; [|by apply Hfail].
    apply IH; [by apply (enough_fuel_moved _ _ _ _ M3)|pose proof (rounds_left_moved _ _ _ _ false M3); lia|done..].
Qed.

Lemma wp_WriteExact l input :
  input <> [] -> 0 <= socket_fd_ l.1 -> enough_fuel fuel l.2 ->
  wp (WriteExact fuel (Some input) (zlen input)) (write_result l input) l.
Proof.
  intros Hne Hfd Hf. pose proof (zlen_pos input Hne) as Hpos. unfold WriteExact.
  rewrite (proj2 (Z.eqb_neq (zlen input) 0)) by lia. wp_steps.
  rewrite (proj2 (Z.ltb_ge _ _)) by lia. wp_steps. apply wp_load_broken. intros l1 M1.
  assert (take (Z.to_nat (zlen input)) input = input) as Etake by (apply take_ge; unfold zlen; lia).
  destruct (broken_ l1.1) eqn:Eb; wp_steps.
  { exists 0. split_and!; [lia|lia|done|right; by split|ok_simpl; lia]. }
  apply wp_os, wp_new_deadline. intros d w2 Hq Hd. pose proof (moved_silent _ _ _ _ _ M1 (quiet_moved l1 w2 Hq)) as M2.
  pose proof (enough_fuel_moved _ _ _ _ M2 Hf) as Hf2. rewrite Etake. apply wp_write_loop; try done; [|lia].
  unfold rounds_left. pose proof (rounds_bound w2). unfold enough_fuel in Hf2. cbn in *. lia.
Qed.

(** ** Shutting down and closing *)

Lemma wp_Shutdown l (Q : Status -> link -> Prop) :
  (forall s l', moved l l' [] [] -> broken_ l'.1 = true -> Q s l') -> wp Shutdown Q l.
Proof.
  intros HQ. unfold Shutdown. wp_steps. destruct (socket_fd_ l.1 <? 0); wp_steps.
  { apply HQ; [apply break_moved|done]. }
  apply wp_load_broken. intros l1 M1. wp_steps. pose proof (moved_silent _ _ _ _ _ M1 (break_moved l1)) as M2.
  destruct (broken_ l1.1); wp_steps; [by apply HQ|]. apply wp_os_quiet; [apply sk_shutdown_law|]. intros M3.
  pose proof (moved_silent _ _ _ _ _ M2 M3) as M4. repeat (case_match; wp_steps); by apply HQ.
Qed.

(** The socket of a connection is given back. *)
Record closed (l l' : link) : Prop := {
  cl_conn : l'.1 = mkConn (-1) (options_ l.1) true;
  cl_advances : advances l.2 l'.2;
  cl_fds : open_fds l'.2 = open_fds l.2 ∖ {[ socket_fd_ l.1 ]};
  cl_rx : forall fd, received l'.2 fd = received l.2 fd;
  cl_tx : forall fd, sent l'.2 fd = sent l.2 fd
}.

Lemma wp_conn_Close l (Q : unit -> link -> Prop) :
  0 <= socket_fd_ l.1 -> (forall l', closed l l' -> Q tt l') -> wp Close Q l.
Proof.
  intros Hfd HQ. unfold Close. wp_steps. cbn [fst set_conn set_broken socket_fd_].
  rewrite (proj2 (Z.ltb_ge _ _)) by lia. wp_steps. apply wp_os. unfold close_fd. wp_steps. apply HQ.
  pose proof (sk_close_law l.2 (socket_fd_ l.1)) as (? & ? & ? & ?). by split.
Qed.

Lemma Close_closed l al : socket_fd_ l.1 < 0 -> Close l al = Done (tt, (set_broken true l.1, l.2), al).
Proof.
  intros Hfd. unfold Close, mbind, comp_bind, modify, get, gets. cbn. by rewrite (proj2 (Z.ltb_lt _ _)).
Qed.
End tcp.
