(* ===== verification/TcpConnect.v ===== *)
(** * TCP connection: establishing one

    [Connect] tries the candidate addresses in turn and [AdoptConnectedSocket]
    takes over a descriptor.  Either yields a connection that owns one descriptor
    or holds none at all: no candidate leaks. *)

From S2P Require Import Prelude Api BlockKeys Sockets TcpConnection TcpTheorems.
Import TcpConnection.

Section connect.
Context {W : Type} `{SocketLaws W} (fuel : nat).

(** The descriptors held at the start are still held, with their histories, and
    no other is. *)
Record kept (w w' : W) : Prop := {
  kp_advances : advances w w';
  kp_fds : open_fds w' = open_fds w;
  kp_rx : forall fd, fd ∈ open_fds w -> received w' fd = received w fd;
  kp_tx : forall fd, fd ∈ open_fds w -> sent w' fd = sent w fd
}.

(** As [kept], but for a new descriptor [fd] on which nothing has moved yet. *)
Record opened (w w' : W) (fd : Z) : Prop := {
  op_nonneg : 0 <= fd;
  op_fresh : fd ∉ open_fds w;
  op_advances : advances w w';
  op_fds : open_fds w' = {[fd]} ∪ open_fds w;
  op_rx : forall fd', fd' ∈ open_fds w -> received w' fd' = received w fd';
  op_tx : forall fd', fd' ∈ open_fds w -> sent w' fd' = sent w fd';
  op_rx_new : received w' fd = [];
  op_tx_new : sent w' fd = []
}.

#[export] Instance kept_preorder : PreOrder kept.
Proof.
  split; [by split|]. intros w1 w2 w3 [A1 A2 A3 A4] [B1 B2 B3 B4].
  split; [by etrans|congruence|..]; intros fd Hfd; [rewrite B3, A3|rewrite B4, A4]; rewrite ?A2; done.
Qed.

Lemma quiet_kept w w' : quiet w w' -> kept w w'.
Proof. intros (A & B & C & D). split; [done|done|intros fd _; apply C|intros fd _; apply D]. Qed.

Lemma kept_opened w1 w2 w3 fd : kept w1 w2 -> opened w2 w3 fd -> opened w1 w3 fd.
Proof.
  intros [A1 A2 A3 A4] [B1 B2 B3 B4 B5 B6 B7 B8]. rewrite A2 in B2, B4, B5, B6.
  split; try done; [by etrans|..]; intros fd' Hfd; [rewrite B5, A3|rewrite B6, A4]; done.
Qed.

Lemma opened_quiet w1 w2 w3 fd : opened w1 w2 fd -> quiet w2 w3 -> opened w1 w3 fd.
Proof.
  intros [A1 A2 A3 A4 A5 A6 A7 A8] (B1 & B2 & B3 & B4).
  split; rewrite ?B2, ?B3, ?B4; try done; [by etrans|..]; intros fd' Hfd; rewrite ?B3, ?B4; auto.
Qed.

(** Giving a new descriptor back. *)
Lemma opened_close w1 w2 fd : opened w1 w2 fd -> kept w1 (sk_close fd w2).
Proof.
  intros [A1 A2 A3 A4 A5 A6 A7 A8]. destruct (sk_close_law w2 fd) as (B1 & B2 & B3 & B4).
  split; [by etrans|rewrite B2, A4; set_solver|..]; intros fd' Hfd; rewrite ?B3, ?B4; auto.
Qed.

(** A call that moves no bytes and whose result is inspected. *)
Lemma wp_sys_quiet {A} (f : W -> A * W) (Q : A -> W -> Prop) w :
  quiet w (f w).2 -> (forall a w', quiet w w' -> Q a w') -> wp (sys f) Q w.
Proof. intros Hq HQ. apply wp_sys, HQ, Hq. Qed.

(** A flag that is set only where it is not set already. *)
Lemma wp_set_flag (b : bool) (f : W -> SysResult unit * W) (Q : SysResult unit -> W -> Prop) w :
  quiet w (f w).2 -> (forall r w', quiet w w' -> Q r w') -> wp (if b then sys f else mret (SysOk tt)) Q w.
Proof. intros Hq HQ. destruct b; [by apply wp_sys_quiet|]. by apply wp_ret, HQ. Qed.

Lemma wp_ConfigureSocket fd w (Q : Status -> W -> Prop) :
  (forall s w', quiet w w' -> Q s w') -> wp (ConfigureSocket fd) Q w.
Proof.
  intros HQ. unfold ConfigureSocket. wp_steps. apply wp_sys_quiet; [apply sk_getfl_law|]. intros r1 w1 Q1.
  destruct r1 as [fl|e]; wp_steps; [|by apply HQ].
  apply wp_set_flag; [apply sk_setfl_law|]. intros r2 w2 Q2. assert (quiet w w2) as Q02 by (by etrans).
  destruct r2; wp_steps; [|by apply HQ]. apply wp_sys_quiet; [apply sk_getfd_law|]. intros r3 w3 Q3.
  assert (quiet w w3) as Q03 by (by etrans). destruct r3; wp_steps; [|by apply HQ].
  apply wp_set_flag; [apply sk_setfd_law|]. intros r4 w4 Q4. assert (quiet w w4) by (by etrans).
  destruct r4; wp_steps; by apply HQ.
Qed.

Lemma wp_ValidateConnectedStreamSocket fd w (Q : Status -> W -> Prop) :
  (forall s w', quiet w w' -> Q s w') -> wp (ValidateConnectedStreamSocket fd) Q w.
Proof.
  intros HQ. unfold ValidateConnectedStreamSocket. wp_steps. apply wp_sys_quiet; [apply sk_so_type_law|]. intros r1 w1 Q1.
  destruct r1; [|by wp_steps; apply HQ]. destruct (negb _); [by wp_steps; apply HQ|]. wp_steps.
  apply wp_sys_quiet; [apply sk_getpeername_law|]. intros r2 w2 Q2. destruct r2; wp_steps; apply HQ; by etrans.
Qed.

Lemma wp_CreateNonBlockingSocket a w (Q : SysResult Z -> W -> Prop) :
  (forall fd w', opened w w' fd -> Q (SysOk fd) w') -> (forall e w', quiet w w' -> Q (SysErr e) w') ->
  wp (CreateNonBlockingSocket a) Q w.
Proof.
  intros Hok Herr.
  assert (forall f t p w0 (Q' : SysResult Z -> W -> Prop), quiet w w0 ->
    (forall fd w', opened w w' fd -> Q' (SysOk fd) w') -> (forall e w', quiet w w' -> Q' (SysErr e) w') ->
    wp (sys (sk_socket f t p)) Q' w0) as Hs.
  { intros f t p w0 Q' Q0 Ho He. apply wp_sys. pose proof (sk_socket_law w0 f t p) as HL.
    destruct (sk_socket f t p w0) as [[fd|e] w1]; cbn [fst snd]; [|apply He; by etrans].
    destruct HL as (L1 & L2 & L3 & L4 & L5 & L6). apply Ho. apply (kept_opened w w0); [by apply quiet_kept|].
    split; try done; rewrite ?L5, ?L6, ?decide_True by done; try done; intros fd' Hfd;
      rewrite ?L5, ?L6, decide_False; done || set_solver. }
  unfold CreateNonBlockingSocket. wp_steps. apply Hs; [done|intros fd w' Ho; wp_steps; by apply Hok|].
  intros e w1 Q1. destruct (negb _); wp_steps; [by apply Herr|]. by apply Hs.
Qed.

Lemma wp_PollReady_os fd ev d op c t b w (Q : Status -> W -> Prop) :
  enough_fuel fuel w -> (forall st w', quiet w w' -> Q st w') ->
  wp (PollReady fuel id (fun w _ => w) None fd ev d op c t b) Q w.
Proof.
  intros Hf HQ. unfold PollReady. eapply wp_mono.
  - apply (wp_poll_loop id (fun w _ => w) None quiet); try done.
    + by intros s s' ((_ & ?) & _).
    + unfold enough_fuel in Hf. cbn. lia.
  - intros st w'. apply HQ.
Qed.

(** What [Connect] may end with. *)
Definition connect_result (w : W) (options : TcpConnectionOptions) (r : Result TcpConnection) (w' : W) : Prop :=
  match r with
  | Value c => c = make (socket_fd_ c) options /\ opened w w' (socket_fd_ c)
  | Error s => ok s = false /\ kept w w'
  end.

Lemma wp_try_candidates host port options d : expires_at_ d <= time_max -> forall addresses last w0 w,
  enough_fuel fuel w -> kept w0 w ->
  wp (try_candidates fuel host port options d addresses last) (connect_result w0 options) w.
Proof.
  intros Hd. induction addresses as [|a rest IH]; intros last w0 w Hf K; cbn [try_candidates]; wp_steps;
    (apply wp_Expired; [done|]); intros b w1 Q1 _; assert (kept w0 w1) as K1 by (by etrans; [|apply quiet_kept]);
    pose proof (enough_fuel_advances _ _ _ (quiet_advances _ _ Q1) Hf) as Hf1; (destruct b; wp_steps; [done|]); [done|].
  apply wp_CreateNonBlockingSocket; [|intros e w2 Q2; apply IH; [by eapply enough_fuel_advances, Hf1; apply Q2|
    by etrans; [|apply quiet_kept]]].
  intros fd w2 O2. pose proof (kept_opened _ _ _ _ K1 O2) as O02.
  assert (forall w', opened w0 w' fd -> advances w1 w' -> forall k Q, (forall w'', kept w0 w'' -> enough_fuel fuel w'' -> wp k Q w'') ->
    wp (close_fd fd ;; k : comp W (Result TcpConnection)) Q w') as Hclose.
  { intros w' O' A' k Q Hk. unfold close_fd. wp_steps. apply Hk; [by apply opened_close|].
    eapply enough_fuel_advances, Hf1. etrans; [done|]. apply sk_close_law. }
  assert (forall w' e, opened w0 w' fd -> advances w1 w' ->
    wp (close_fd fd ;; try_candidates fuel host port options d rest e) (connect_result w0 options) w') as Hnext.
  { intros w' e O' A'. apply Hclose; [done..|]. intros w'' K'' Hf''. by apply IH. }
  pose proof (op_advances _ _ _ O2) as A2. wp_steps. apply wp_ConfigureSocket. intros s w3 Q3.
  pose proof (opened_quiet _ _ _ _ O02 Q3) as O03. assert (advances w1 w3) as A3 by (etrans; [done|apply Q3]).
  destruct (negb (ok s)); [by apply Hnext|]. wp_steps. apply wp_sys_quiet; [apply sk_connect_law|]. intros r w4 Q4.
  pose proof (opened_quiet _ _ _ _ O03 Q4) as O04. assert (advances w1 w4) as A4 by (etrans; [done|apply Q4]).
  destruct r as [[]|e]; wp_steps; [done|]. destruct (_ && _)%bool; [by apply Hnext|]. wp_steps.
  apply wp_PollReady_os; [by eapply enough_fuel_advances|]. intros st w5 Q5.
  pose proof (opened_quiet _ _ _ _ O04 Q5) as O05. assert (advances w1 w5) as A5 by (etrans; [done|apply Q5]).
  destruct (negb (ok st)).
  { case_decide; [|by apply Hnext]. apply Hclose; [done..|]. intros w'' K'' _. by wp_steps. }
  wp_steps. apply wp_sys_quiet; [apply sk_so_error_law|]. intros r w6 Q6.
  pose proof (opened_quiet _ _ _ _ O05 Q6) as O06. assert (advances w1 w6) as A6 by (etrans; [done|apply Q6]).
  destruct r as [e'|e']; [|by apply Hnext]. destruct (negb _); [by apply Hnext|]. by wp_steps.
Qed.

Lemma ValidateOptions_error options : ok (ValidateOptions options) = false \/ ValidateOptions options = Ok.
Proof. unfold ValidateOptions. repeat case_match; auto. Qed.

Lemma wp_Connect host port options w :
  enough_fuel fuel w -> wp (Connect fuel host port options) (connect_result w options) w.
Proof.
  intros Hf. unfold Connect. destruct (String.eqb _ _); [by apply wp_ret|]. destruct (port =? 0); [by apply wp_ret|].
  destruct (negb _) eqn:E; [apply wp_ret; boolZ; by split|]. wp_steps.
  apply wp_sys_quiet; [apply sk_getaddrinfo_law|]. intros r w1 Q1. destruct r as [addresses|e]; wp_steps.
  - apply wp_new_deadline. intros d w2 Q2 Hd. apply wp_try_candidates; [done| |].
    + eapply enough_fuel_advances, Hf. etrans; [apply Q1|apply Q2].
    + etrans; by apply quiet_kept.
  - split; [done|]. by apply quiet_kept.
Qed.

Lemma wp_AdoptConnectedSocket fd options w (Q : Result TcpConnection -> W -> Prop) :
  0 <= fd ->
  (forall w', quiet w w' -> Q (Value (make fd options)) w') ->
  (forall s w', ok s = false -> open_fds w' = open_fds w ∖ {[fd]} -> Q (Error s) w') ->
  wp (AdoptConnectedSocket fd options) Q w.
Proof.
  intros Hfd Hok Herr. unfold AdoptConnectedSocket. rewrite (proj2 (Z.ltb_ge _ _)) by done.
  assert (forall s w', quiet w w' -> ok s = false -> wp (close_fd fd ;; mret (Error s)) Q w') as Hclose.
  { intros s w' Q' Hs. unfold close_fd. wp_steps. apply Herr; [done|]. destruct (sk_close_law w' fd) as (_ & -> & _).
    f_equal. apply Q'. }
  destruct (negb (ok (ValidateOptions options))) eqn:E; [boolZ; by apply Hclose|]. wp_steps.
  apply wp_ValidateConnectedStreamSocket. intros s w1 Q1. destruct (negb (ok s)) eqn:E1; [boolZ; by apply Hclose|].
  wp_steps. apply wp_ConfigureSocket. intros s2 w2 Q2. assert (quiet w w2) by (by etrans).
  destruct (negb (ok s2)) eqn:E2; [boolZ; by apply Hclose|]. wp_steps. by apply Hok.
Qed.
End connect.
