(* ===== verification/SimSockets.v ===== *)
(** * A scripted operating system

    An executable world that meets [SocketLaws]: the outcome of every call that
    can vary is read from a script, and an exhausted script means end of file, a
    complete send, a poll timeout or success.  The clock counts the calls that
    read it and saturates.  It shows that the laws can hold and runs the
    connection, the framing and the RPC connector on concrete inputs. *)

From S2P Require Import Prelude Api Sockets.

Module Sim.

Definition EBADF : Z := 9.

Record world : Type := mkWorld {
  ticks : N;
  fds : gset Z;
  rx : Z -> bytes;
  tx : Z -> bytes;
  incoming : list (SysResult bytes);
  outgoing : list (SysResult Z);
  polls : list PollResult;
  addresses : SysResult (list addrinfo);
  connects : list (SysResult unit);
  shutdowns : list bool
}.

Definition upd (f : Z -> bytes) (fd : Z) (b : bytes) : Z -> bytes := fun fd' => if decide (fd' = fd) then b else f fd'.

Definition now (w : world) : Z * world :=
  (Z.min (Z.of_N (ticks w)) time_max,
   mkWorld (N.succ (ticks w)) (fds w) (rx w) (tx w) (incoming w) (outgoing w) (polls w) (addresses w) (connects w) (shutdowns w)).

(** The next descriptor, past every open one. *)
Definition next_fd (w : world) : Z := foldr Z.max 2 (elements (fds w)) + 1.

Definition socket (w : world) : SysResult Z * world :=
  let fd := next_fd w in
  (SysOk fd, mkWorld (ticks w) ({[fd]} ∪ fds w) (upd (rx w) fd []) (upd (tx w) fd []) (incoming w) (outgoing w) (polls w)
               (addresses w) (connects w) (shutdowns w)).

Definition connect (w : world) : SysResult unit * world :=
  match connects w with
  | [] => (SysOk tt, w)
  | r :: rest =>
      (r, mkWorld (ticks w) (fds w) (rx w) (tx w) (incoming w) (outgoing w) (polls w) (addresses w) rest (shutdowns w))
  end.

Definition poll (w : world) : PollResult * world :=
  match polls w with
  | [] => (PollTimeout, w)
  | r :: rest =>
      (r, mkWorld (ticks w) (fds w) (rx w) (tx w) (incoming w) (outgoing w) rest (addresses w) (connects w) (shutdowns w))
  end.

Definition with_incoming (w : world) (r : list (SysResult bytes)) : world :=
  mkWorld (ticks w) (fds w) (rx w) (tx w) r (outgoing w) (polls w) (addresses w) (connects w) (shutdowns w).

(** A segment longer than the buffer is delivered in parts. *)
Definition recv (fd n : Z) (w : world) : SysResult bytes * world :=
  if decide (fd ∈ fds w) then
    match incoming w with
    | [] => (SysOk [], w)
    | SysErr e :: rest => (SysErr e, with_incoming w rest)
    | SysOk b :: rest =>
        let got := take (Z.to_nat n) b in
        let rest := if decide (drop (Z.to_nat n) b = []) then rest else SysOk (drop (Z.to_nat n) b) :: rest in
        (SysOk got, mkWorld (ticks w) (fds w) (upd (rx w) fd (rx w fd ++ got)) (tx w) rest (outgoing w) (polls w)
                      (addresses w) (connects w) (shutdowns w))
    end
  else (SysErr EBADF, w).

Definition accept (fd : Z) (b : bytes) (k : Z) (rest : list (SysResult Z)) (w : world) : SysResult Z * world :=
  let n := Z.max 0 (Z.min k (zlen b)) in
  (SysOk n, mkWorld (ticks w) (fds w) (rx w) (upd (tx w) fd (tx w fd ++ take (Z.to_nat n) b)) (incoming w) rest (polls w)
              (addresses w) (connects w) (shutdowns w)).

Definition send (fd : Z) (b : bytes) (w : world) : SysResult Z * world :=
  if decide (fd ∈ fds w) then
    match outgoing w with
    | [] => accept fd b (zlen b) [] w
    | SysErr e :: rest =>
        (SysErr e, mkWorld (ticks w) (fds w) (rx w) (tx w) (incoming w) rest (polls w) (addresses w) (connects w) (shutdowns w))
    | SysOk k :: rest => accept fd b k rest w
    end
  else (SysErr EBADF, w).

Definition close (fd : Z) (w : world) : world :=
  mkWorld (ticks w) (fds w ∖ {[fd]}) (rx w) (tx w) (incoming w) (outgoing w) (polls w) (addresses w) (connects w) (shutdowns w).

Definition interference (w : world) : bool * world :=
  match shutdowns w with
  | [] => (false, w)
  | b :: rest =>
      (b, mkWorld (ticks w) (fds w) (rx w) (tx w) (incoming w) (outgoing w) (polls w) (addresses w) (connects w) rest)
  end.

#[global] Instance sim_sockets : Sockets world := {
  sk_now := now;
  sk_getaddrinfo _ _ _ w := (addresses w, w);
  sk_socket _ _ _ := socket;
  sk_getfl _ w := (SysOk O_NONBLOCK, w);
  sk_setfl _ _ w := (SysOk tt, w);
  sk_getfd _ w := (SysOk FD_CLOEXEC, w);
  sk_setfd _ _ w := (SysOk tt, w);
  sk_connect _ _ := connect;
  sk_so_error _ w := (SysOk 0, w);
  sk_so_type _ w := (SysOk SOCK_STREAM, w);
  sk_getpeername _ w := (SysOk tt, w);
  sk_poll _ _ _ := poll;
  sk_recv := recv;
  sk_send := send;
  sk_shutdown _ w := (SysOk tt, w);
  sk_close := close;
  sk_interference _ := interference;
  sk_strerror _ := "error";
  sk_gai_strerror _ := "resolution error"
}.

Definition is_interrupt (r : PollResult) : bool := match r with PollError e => e =? EINTR | _ => false end.

Definition interrupts_of (w : world) : nat := length (List.filter is_interrupt (polls w)).

Lemma foldr_max_le (l : list Z) x : x ∈ l -> x <= foldr Z.max 2 l.
Proof. induction 1; cbn; lia. Qed.

Lemma next_fd_fresh w : 0 <= next_fd w /\ next_fd w ∉ fds w.
Proof.
  split.
  - unfold next_fd. induction (elements (fds w)); cbn in *; lia.
  - intros Hin. apply elem_of_elements, foldr_max_le in Hin. unfold next_fd in Hin. lia.
Qed.

#[global] Program Instance sim_laws : SocketLaws world := {
  open_fds := fds;
  received := rx;
  sent := tx;
  call_rate := 1;
  calls w := Z.of_N (ticks w);
  interrupts := interrupts_of
}.
Next Obligation. done. Qed.
Next Obligation. intros w. cbn. lia. Qed.
Next Obligation.
  intros w. cbn. split_and!; try done; cbn; unfold time_max; lia.
Qed.
Next Obligation. done. Qed.
Next Obligation.
  intros w family type protocol. cbn. destruct (next_fd_fresh w). split_and!; try done. 
Qed.
Next Obligation. done. Qed.
Next Obligation. done. Qed.
Next Obligation. done. Qed.
Next Obligation. done. Qed.
Next Obligation. intros w fd a. cbn. unfold connect. by destruct (connects w). Qed.
Next Obligation. done. Qed.
Next Obligation. done. Qed.
Next Obligation. done. Qed.
Next Obligation.
  intros w fd ev t. cbn. unfold poll, interrupts_of. destruct (polls w) as [|r rest] eqn:E; cbn; [by rewrite E|].
  split; [split_and!; try done; destruct (is_interrupt r); cbn; lia|]. intros ->. cbn. lia.
Qed.
Next Obligation.
  intros w fd n Hn. cbn. unfold recv. destruct (decide (fd ∈ fds w)) as [_|_]; [|done].
  destruct (incoming w) as [|[b|e] rest]; cbn; [|split_and!; try done|done].
  - split_and!; try done; [unfold zlen; cbn; lia|]. intros fd'. destruct (decide (fd' = fd)) as [->|]; by rewrite ?app_nil_r.
  - unfold zlen. rewrite length_take. lia.
Qed.
Next Obligation.
  intros w fd b. cbn. unfold send. destruct (decide (fd ∈ fds w)) as [_|_]; [|done].
  pose proof (zlen_nonneg b). destruct (outgoing w) as [|[k|e] rest]; cbn; [| |done]; split_and!; try done; lia.
Qed.
Next Obligation. done. Qed.
Next Obligation. intros w fd. cbn. split_and!; done. Qed.
Next Obligation. intros w fd. cbn. unfold interference. by destruct (shutdowns w). Qed.

(** A budget that is enough for any run from [w]. *)
Definition fuel (w : world) : nat := (Z.to_nat (1 * 2 ^ 63) + interrupts w + 2)%nat.

Lemma fuel_enough w : enough_fuel (fuel w) w.
Proof. unfold enough_fuel, fuel. cbn [call_rate sim_laws]. lia. Qed.
End Sim.
