(* ===== verification/TcpClaims.v ===== *)
(** * TCP connection: theorems

    The properties of one connection for any operating system that meets
    [SocketLaws], and their instances on the scripted one. *)

From S2P Require Import Prelude Api BlockKeys Sockets TcpConnection TcpTheorems TcpConnect SimSockets.
Import TcpConnection.

(** ** Deadlines *)

(** C40. A deadline is never before the present, never past the end of the clock,
    and within a millisecond of the requested time where the clock reaches that
    far; the multiplication that computes it stays in 64 bits.  The timeout handed
    to [poll] fits an [int], is zero exactly when the deadline has passed, and
    otherwise is the remaining time rounded up, so that a wait never ends early
    and wastes a round, or the [INT_MAX] cap. *)
Theorem deadline_exact (now timeout later : Z)
    (Hnow : 0 <= now <= time_max) (Htimeout : 0 <= timeout) (Hlater : 0 <= later <= time_max) :
  let d := deadline_at now timeout in
  let goal := Z.min (now + timeout * ns_per_ms) time_max in
  now <= expires_at_ d <= time_max
  /\ goal <= expires_at_ d < goal + ns_per_ms
  /\ (expires_at_ d <> time_max -> timeout * ns_per_ms <= time_max)
  /\ let p := poll_timeout_at later d in
     0 <= p <= INT_MAX
     /\ (p = 0 <-> expires_at_ d <= later)
     /\ (later < expires_at_ d -> p = INT_MAX \/ (p - 1) * ns_per_ms < expires_at_ d - later <= p * ns_per_ms).
Proof.
  intros d goal. pose proof (deadline_at_max now timeout Hnow) as Hmax. fold d in Hmax.
  assert (now <= expires_at_ d /\ goal <= expires_at_ d < goal + ns_per_ms
          /\ (expires_at_ d <> time_max -> timeout * ns_per_ms <= time_max)) as (A & B & C).
  { unfold d, goal, deadline_at. pose proof (Z.mul_div_le (time_max - now) ns_per_ms ltac:(done)).
    pose proof (Z.mul_succ_div_gt (time_max - now) ns_per_ms ltac:(done)).
    destruct (_ <=? timeout) eqn:E; cbn [expires_at_]; boolZ; unfold ns_per_ms in *; split_and!; lia. }
  split_and!; [done|done|apply B|apply B|done|..]; clear -Hlater Hmax; unfold poll_timeout_at;
    (destruct (_ <=? later) eqn:E; boolZ; [unfold INT_MAX; lia|]);
    pose proof (Z.mul_div_le (expires_at_ d - later) ns_per_ms ltac:(done));
    pose proof (Z.mul_succ_div_gt (expires_at_ d - later) ns_per_ms ltac:(done));
    assert (0 <= (expires_at_ d - later) / ns_per_ms) by (apply Z.div_pos; [lia|done]);
    destruct (_ <? expires_at_ d - later) eqn:E1; destruct (INT_MAX <? _) eqn:E2; boolZ;
    unfold ns_per_ms, INT_MAX in *; lia.
Qed.

Lemma deadline_exact_witness :
  let d := deadline_at 1000 30000 in
  expires_at_ d = 30000001000 /\ poll_timeout_at 29999999999 d = 1 /\ 1000 <= expires_at_ d <= time_max.
Proof.
  split_and!; [done|done|..]; apply (deadline_exact 1000 30000 29999999999); unfold time_max; lia.
Defined.

(** ** Exact transfers *)

Section transfers.
Context {W : Type} `{SocketLaws W} (fuel : nat).

(** A connection known to be broken moves nothing. *)
Lemma wp_ReadExact_broken l target :
  0 < target -> 0 <= socket_fd_ l.1 -> broken_ l.1 = true ->
  wp (ReadExact fuel true target) (fun x l' => ok x.1 = false /\ x.2 = []) l.
Proof.
  intros Ht Hfd Hb. unfold ReadExact. rewrite (proj2 (Z.eqb_neq target 0)) by lia. cbn [negb]. wp_steps.
  rewrite (proj2 (Z.ltb_ge _ _)) by lia. wp_steps. apply wp_load_broken. intros l1 M1.
  rewrite (mv_broken _ _ _ _ M1 Hb). by wp_steps.
Qed.

Lemma wp_WriteExact_broken l input :
  input <> [] -> 0 <= socket_fd_ l.1 -> broken_ l.1 = true ->
  wp (WriteExact fuel (Some input) (zlen input)) (fun s l' => ok s = false /\ moved l l' [] []) l.
Proof.
  intros Hne Hfd Hb. pose proof (zlen_pos input Hne). unfold WriteExact. rewrite (proj2 (Z.eqb_neq _ 0)) by lia. wp_steps.
  rewrite (proj2 (Z.ltb_ge _ _)) by lia. wp_steps. apply wp_load_broken. intros l1 M1.
  rewrite (mv_broken _ _ _ _ M1 Hb). by wp_steps.
Qed.

(** C5. [ReadExact] and [WriteExact] return on any operating system whose clock
    advances, and report exactly what moved: on success all the bytes asked for,
    on failure fewer, and then the connection is broken.  Nothing moves on another
    descriptor, none is opened or closed, and on a broken connection nothing moves
    at all, so a stream that lost its place is never used again. *)
Theorem exact_transfer (l : TcpConnection * W) (target : Z) (input : bytes)
    (Htarget : 0 < target) (Hinput : input <> []) (Hfd : 0 <= socket_fd_ l.1) (Hfuel : enough_fuel fuel l.2) :
  wp (ReadExact fuel true target)
    (fun x l' => moved l l' x.2 []
       /\ (if ok x.1 then zlen x.2 = target else zlen x.2 < target /\ broken_ l'.1 = true)
       /\ (broken_ l.1 = true -> ok x.1 = false /\ x.2 = [])) l
  /\ wp (WriteExact fuel (Some input) (zlen input))
    (fun s l' => exists n, moved l l' [] (take (Z.to_nat n) input)
       /\ (if ok s then n = zlen input else 0 <= n < zlen input /\ broken_ l'.1 = true)
       /\ (broken_ l.1 = true -> ok s = false /\ n = 0)) l.
Proof.
  split; (destruct (broken_ l.1) eqn:Eb;
    [eapply wp_mono; [apply wp_and; [first [by apply wp_ReadExact|by apply wp_WriteExact]
                                    |first [by apply wp_ReadExact_broken|by apply wp_WriteExact_broken]]|]
    |eapply wp_mono; [first [by apply wp_ReadExact|by apply wp_WriteExact]|]]).
  - intros x l' [(M & S & E) (Hok & Hx)]. rewrite Hok in *. split_and!; try done. by destruct S as [S|[_ S]]; [congruence|].
  - intros x l' (M & S & E). split_and!; try done. destruct (ok x.1) eqn:Eok; [done|]. by destruct S as [S|[_ S]]; [congruence|].
  - intros s l' [(n & Hn & M & S & E) (Hok & M0)]. rewrite Hok in *. exists 0. split_and!; try done; [by apply zlen_pos|].
    by destruct S as [S|[_ S]]; [congruence|].
  - intros s l' (n & Hn & M & S & E). exists n. split_and!; try done. destruct (ok s) eqn:Eok; [done|].
    split; [lia|]. by destruct S as [S|[_ S]]; [congruence|].
Qed.

(** ** Establishing and giving up *)

(** C15. [Connect] returns, and either yields an unbroken connection that owns one
    new descriptor on which nothing has moved, or an error with every candidate
    socket closed again; descriptors held before keep their histories.  Closing
    the connection gives back exactly that descriptor, and closing it again does
    nothing. *)
Theorem connect_no_leak (host : string) (port : Z) (options : TcpConnectionOptions) (w : W) (Hfuel : enough_fuel fuel w) :
  wp (Connect fuel host port options)
    (fun r w' =>
       match r with
       | Error s => ok s = false /\ kept w w'
       | Value c => c = make (socket_fd_ c) options /\ opened w w' (socket_fd_ c)
           /\ wp Close (fun _ l' => socket_fd_ l'.1 = -1 /\ open_fds l'.2 = open_fds w
                          /\ wp Close (fun _ l'' => l'' = l') l') (c, w')
       end) w.
Proof.
  eapply wp_mono; [by apply wp_Connect|]. intros [c|s] w'; [|done]. intros [Ec O]. split_and!; [done..|].
  apply wp_conn_Close; [apply O|]. intros [c' w''] [Ec' Ha Hfds _ _]. cbn [fst snd] in *. subst c'. split_and!; [done| |].
  - rewrite Hfds, (op_fds _ _ _ O). pose proof (op_fresh _ _ _ O). set_solver.
  - intros al. by rewrite Close_closed.
Qed.
End transfers.

(** ** Instances *)

(** A socket that delivers three bytes in two segments with a wait in between,
    and takes the output one byte at a time. *)
Definition example_world : Sim.world :=
  Sim.mkWorld 0 {[7]} (fun _ => []) (fun _ => [])
    [SysOk [Byte.x01]; SysErr EAGAIN; SysOk [Byte.x02; Byte.x03; Byte.x04]] [SysOk 1; SysErr EINTR; SysErr EAGAIN]
    [PollError EINTR; PollReturned POLLIN; PollReturned POLLOUT]
    (SysOk [mkAddrinfo 2 1 6 [Byte.x7f]; mkAddrinfo 2 1 6 [Byte.x0a]]) [SysErr EINVAL; SysErr EINPROGRESS] [].

Definition example_link : TcpConnection * Sim.world := (make 7 default_options, example_world).

(** The model runs: the read gathers its bytes from two segments. *)
Example read_runs :
  match ReadExact 10 true 3 example_link [] with
  | Done (s, b, l, _) => (ok s, b, received l.2 7)
  | Terminated => (false, [], [])
  end = (true, [Byte.x01; Byte.x02; Byte.x03], [Byte.x01; Byte.x02; Byte.x03]).
Proof. vm_compute. reflexivity. Qed.

(** The first candidate refuses and is closed, the second becomes the connection. *)
Example connect_runs :
  match Connect 10 "node" 7000 default_options (Sim.mkWorld 0 {[7]} (fun _ => []) (fun _ => []) [] [] [PollReturned POLLOUT]
          (Sim.addresses example_world) (Sim.connects example_world) []) [] with
  | Done (Value c, w, _) => (socket_fd_ c, elements (open_fds w))
  | _ => (0, [])
  end = (8, [7; 8]).
Proof. vm_compute. reflexivity. Qed.

Lemma exact_transfer_witness :
  wp (ReadExact (Sim.fuel example_world) true 3)
    (fun x l' => moved example_link l' x.2 []
       /\ (if ok x.1 then zlen x.2 = 3 else zlen x.2 < 3 /\ broken_ l'.1 = true)) example_link.
Proof.
  eapply wp_mono; [apply (exact_transfer (Sim.fuel example_world) example_link 3 [Byte.x01]);
    [lia|done|cbn; lia|apply Sim.fuel_enough]|]. by intros x l' (? & ? & _).
Defined.

Lemma connect_no_leak_witness :
  wp (Connect (Sim.fuel example_world) "node" 7000 default_options)
    (fun r w' => if r is Error s then ok s = false /\ open_fds w' = {[7]} else True) example_world.
Proof.
  eapply wp_mono; [apply (connect_no_leak (Sim.fuel example_world) "node" 7000 default_options example_world),
    Sim.fuel_enough|]. intros [c|s] w'; [done|]. intros [? K]. split; [done|]. apply (kp_fds _ _ K).
Defined.
