(* ===== verification/WireFraming.v ===== *)
(** * Wire framing

    [src/transport/tcp/wire_framing.cpp]: whole frames over a connection.  Every
    failed read leaves the connection broken, so that a reader never starts in the
    middle of a frame. *)

From S2P Require Import Prelude Api BlockKeys WireCodec Sockets TcpConnection TcpTheorems TcpConnect SimSockets.
Import TcpConnection wire.

Record WireFrame : Type := mkFrame { header : FrameHeader; payload : bytes }.

(** An allocation guarded against both [std::bad_alloc] and [std::length_error]. *)
Definition allocate {S} : comp S AllocResult :=
  fails ← alloc_fails;
  if fails : bool then (too_long ← alloc_fails; mret (if too_long : bool then LengthError else BadAlloc))
  else mret AllocOk.

Lemma wp_allocate {S} (Q : AllocResult -> S -> Prop) s : (forall mem, Q mem s) -> wp allocate Q s.
Proof. intros HQ. unfold allocate. wp_steps; apply HQ. Qed.

Section framing.
Context {W : Type} `{Sockets W} (fuel : nat).

Abbreviation link := (TcpConnection * W)%type.

Definition ReadWireFrame (limits : CodecLimits) : comp link (Result WireFrame) :=
  x ← ReadExact fuel true kHeaderBytes;
  if negb (ok x.1) then mret (Error x.1)
  else match DecodeHeader (Some x.2) kHeaderBytes limits with
  | Error s => Shutdown ;; mret (Error s)
  | Value decoded_header =>
      match ValidateFrameSize (payload_bytes decoded_header) limits with
      | Error s => Shutdown ;; mret (Error s)
      | Value frame_size =>
          let payload_size := frame_size - kHeaderBytes in
          mem ← (if payload_size =? 0 then mret AllocOk else allocate);
          match mem with
          | BadAlloc =>
              Shutdown ;; mret (Error (mkStatus kOutOfCapacity "ReadWireFrame: payload allocation failed"))
          | LengthError =>
              Shutdown ;; mret (Error (mkStatus kOutOfCapacity "ReadWireFrame: payload exceeds string capacity"))
          | AllocOk =>
              if negb (payload_size =? 0) then (
                y ← ReadExact fuel true payload_size;
                if negb (ok y.1) then mret (Error y.1) else mret (Value (mkFrame decoded_header y.2)))
              else mret (Value (mkFrame decoded_header []))
          end
      end
  end.

Definition WriteWireFrame (header : FrameHeader) (payload : bytes) (limits : CodecLimits) : comp link Status :=
  if negb (payload_bytes header =? zlen payload) then
    mret (InvalidArgument "WriteWireFrame: header payload_bytes does not match payload size")
  else match EncodeHeader header limits with
  | Error s => mret s
  | Value encoded_header =>
      s ← WriteExact fuel (Some encoded_header) (zlen encoded_header);
      if negb (ok s) then mret s
      else match payload with
      | [] => mret Ok
      | _ => WriteExact fuel (Some payload) (zlen payload)
      end
  end.
End framing.

(** ** The bytes of a frame *)

(** The frame with header [h] and payload [p] is [b] on the wire. *)
Record framed (limits : CodecLimits) (h : FrameHeader) (p b : bytes) : Prop := {
  fr_wf : FrameHeader_wf h;
  fr_size : payload_bytes h = zlen p;
  fr_bytes : exists e, EncodeHeader h limits = Value e /\ b = e ++ p
}.

Lemma framed_nonempty limits h p b : framed limits h p b -> b <> [].
Proof.
  intros [Hwf Hsz (e & He & ->)]. destruct (DecodeHeader_encoded _ _ _ Hwf He) as [Hl _].
  by destruct e.
Qed.

(** No frame is a proper prefix of another: a stream splits into frames in one
    way only. *)
Lemma framed_prefix_free limits h1 p1 b1 h2 p2 b2 r1 r2 :
  framed limits h1 p1 b1 -> framed limits h2 p2 b2 -> b1 ++ r1 = b2 ++ r2 -> h1 = h2 /\ p1 = p2 /\ r1 = r2.
Proof.
  intros [W1 S1 (e1 & E1 & ->)] [W2 S2 (e2 & E2 & ->)] E.
  destruct (DecodeHeader_encoded _ _ _ W1 E1) as [L1 D1]. destruct (DecodeHeader_encoded _ _ _ W2 E2) as [L2 D2].
  rewrite <- !app_assoc in E. apply app_inj_1 in E as [-> E]; [|unfold zlen in *; lia].
  assert (h1 = h2) as -> by congruence. apply app_inj_1 in E as [-> ->]; [done|].
  unfold zlen in *; lia.
Qed.

Section specs.
Context {W : Type} `{SocketLaws W} (fuel : nat).

Abbreviation link := (TcpConnection * W)%type.

(** What reading a frame may do: deliver one whole frame, or break the
    connection. *)
Definition frame_read (l : link) (limits : CodecLimits) (r : Result WireFrame) (l' : link) : Prop :=
  match r with
  | Value f => exists b, framed limits (header f) (payload f) b /\ moved l l' b []
  | Error s => ok s = false /\ broken_ l'.1 = true /\ exists b, moved l l' b []
  end.

Lemma wp_shutdown_error l l0 b s (limits : CodecLimits) :
  moved l0 l b [] -> ok s = false -> wp (Shutdown ;; mret (Error s)) (frame_read l0 limits) l.
Proof.
  intros M Hs. wp_steps. apply wp_Shutdown. intros _ l' M' Hb. wp_steps. split_and!; [done..|].
  exists b. by eapply moved_then_silent.
Qed.

Lemma DecodeHeader_error p limits s : DecodeHeader (Some p) kHeaderBytes limits = Error s -> ok s = false.
Proof. unfold DecodeHeader. cbv zeta. intros E. repeat (case_match; simplify_eq); done. Qed.

Lemma wp_ReadWireFrame l limits :
  0 <= socket_fd_ l.1 -> enough_fuel fuel l.2 -> wp (ReadWireFrame fuel limits) (frame_read l limits) l.
Proof.
  intros Hfd Hf. unfold ReadWireFrame. wp_steps. eapply wp_mono; [by apply wp_ReadExact|].
  intros [s e] l1 (M1 & S1 & L1). cbn [fst snd] in *. destruct (ok s) eqn:Es; cbn [negb]; wp_steps.
  2: { destruct S1 as [?|[_ Hb]]; [congruence|]. split_and!; [done|done|eauto]. }
  destruct (DecodeHeader _ _ _) as [h|s2] eqn:Ed; [|by eapply wp_shutdown_error, DecodeHeader_error].
  pose proof (DecodeHeader_inv e kHeaderBytes limits h L1 Ed) as (_ & Hwf & Hv & He).
  assert (0 <= payload_bytes h) as Hp by apply Hwf.
  unfold ValidateFrameSize. rewrite ValidateFrameSizeImpl_complete by (done || apply Hv).
  replace (kHeaderBytes + payload_bytes h - kHeaderBytes) with (payload_bytes h) by lia.
  assert (forall p, zlen p = payload_bytes h -> framed limits h p (e ++ p)) as Hframe by (intros p Hp0; split; eauto).
  destruct (payload_bytes h =? 0) eqn:E0; boolZ; cbn [negb]; wp_steps.
  { exists e. rewrite <- (app_nil_r e) at 1. split; [by apply Hframe|done]. }
  apply wp_allocate. intros mem. destruct mem; [|by eapply wp_shutdown_error..]. wp_steps.
  eapply wp_mono; [apply wp_ReadExact; [lia|by rewrite (mv_fd _ _ _ _ M1)|by apply (enough_fuel_moved _ _ _ _ _ M1)]|].
  intros [s2 p] l2 (M2 & S2 & L2). cbn [fst snd] in *. pose proof (moved_trans _ _ _ _ _ _ _ M1 M2) as M3.
  destruct (ok s2) eqn:Es2; cbn [negb]; wp_steps.
  - exists (e ++ p). split; [by apply Hframe|done].
  - destruct S2 as [?|[_ Hb]]; [congruence|]. split_and!; [done|done|eauto].
Qed.

(** What writing a frame may do: send the whole frame, refuse it before anything
    moves, or break the connection inside it. *)
Definition frame_written (l : link) (limits : CodecLimits) (h : FrameHeader) (p : bytes) (s : Status) (l' : link) : Prop :=
  if ok s then exists b, framed limits h p b /\ moved l l' [] b
  else l' = l \/ broken_ l'.1 = true /\ exists b n, framed limits h p b /\ (n < length b)%nat /\ moved l l' [] (take n b).

Lemma EncodeHeader_error h limits s : EncodeHeader h limits = Error s -> ok s = false.
Proof. unfold EncodeHeader. cbv zeta. destruct (ok _) eqn:E; [done|]. by intros [= <-]. Qed.

Lemma wp_WriteWireFrame l limits h p :
  FrameHeader_wf h -> 0 <= socket_fd_ l.1 -> enough_fuel fuel l.2 ->
  wp (WriteWireFrame fuel h p limits) (frame_written l limits h p) l.
Proof.
  intros Hwf Hfd Hf. unfold WriteWireFrame. destruct (_ =? zlen p) eqn:Ez; cbn [negb]; boolZ; [|apply wp_ret; by left].
  destruct (EncodeHeader h limits) as [e|s] eqn:Ee.
  2: { apply wp_ret. unfold frame_written. rewrite (EncodeHeader_error _ _ _ Ee). by left. }
  assert (framed limits h p (e ++ p)) as Hfr by (split; eauto).
  destruct (DecodeHeader_encoded _ _ _ Hwf Ee) as [Hl _].
  wp_steps. eapply wp_mono; [apply wp_WriteExact; [by destruct e|done|done]|].
  intros s l1 (n & Hn & M1 & S1 & L1). destruct (ok s) eqn:Es; cbn [negb]; wp_steps.
  2: { destruct S1 as [?|[_ Hb]]; [congruence|]. unfold frame_written. rewrite Es. right. split; [done|].
       exists (e ++ p), (Z.to_nat n). rewrite length_app, take_app_le by (unfold zlen in *; lia).
       split_and!; [done|unfold zlen in *; lia|done]. }
  rewrite (take_ge e) in M1 by (unfold zlen in *; lia).
  destruct p as [|b0 p0] eqn:Ep; wp_steps.
  { exists e. split; [|done]. by rewrite app_nil_r in Hfr. }
  rewrite <- Ep in *. assert (p <> []) by (by subst p).
  eapply wp_mono; [apply wp_WriteExact; [done|by rewrite (mv_fd _ _ _ _ M1)|by apply (enough_fuel_moved _ _ _ _ _ M1)]|].
  intros s2 l2 (n2 & Hn2 & M2 & S2 & L2). pose proof (moved_trans _ _ _ _ _ _ _ M1 M2) as M3. unfold frame_written.
  destruct (ok s2) eqn:Es2.
  - exists (e ++ p). split; [done|]. by rewrite (take_ge p) in M3 by (unfold zlen in *; lia).
  - destruct S2 as [?|[_ Hb]]; [congruence|]. right. split; [done|].
    exists (e ++ p), (length e + Z.to_nat n2)%nat. rewrite length_app.
    split_and!; [done|unfold zlen in *; lia|]. by rewrite take_app_add.
Qed.
End specs.

(** ** Theorems *)

(** C9. Whole frames cross a stream unchanged.  A write that reports success put
    exactly the bytes of the frame on its socket, and one that fails either moved
    nothing or left the connection broken.  A reader whose socket delivers a stream
    that starts with those bytes either breaks its connection or returns the very
    header and payload written and has consumed the frame to its last byte, so that
    the next read starts at the next frame. *)
Theorem framing_roundtrip {W : Type} `{SocketLaws W} (fuel : nat) (ls lr : TcpConnection * W) (limits : CodecLimits)
    (h : FrameHeader) (p : bytes) (Hwf : FrameHeader_wf h) (Hs : 0 <= socket_fd_ ls.1) (Hr : 0 <= socket_fd_ lr.1)
    (Hfs : enough_fuel fuel ls.2) (Hfr : enough_fuel fuel lr.2) :
  wp (WriteWireFrame fuel h p limits)
    (fun s ls' =>
       if ok s then
         exists b, framed limits h p b /\ moved ls ls' [] b
         /\ wp (ReadWireFrame fuel limits)
              (fun r lr' =>
                 match r with
                 | Value f => exists b', moved lr lr' b' []
                     /\ forall rest rest', b ++ rest = b' ++ rest' -> f = mkFrame h p /\ b' = b
                 | Error s' => ok s' = false /\ broken_ lr'.1 = true
                 end) lr
       else ls' = ls \/ broken_ ls'.1 = true) ls.
Proof.
  eapply wp_mono; [by apply wp_WriteWireFrame|]. intros s ls' Hw. unfold frame_written in Hw.
  destruct (ok s); [|destruct Hw as [?|[? _]]; auto]. destruct Hw as (b & Hb & M). exists b. split_and!; [done..|].
  eapply wp_mono; [by apply wp_ReadWireFrame|]. intros [f|s'] lr' Hf; [|by destruct Hf as (? & ? & _)].
  destruct Hf as (b' & Hb' & M'). exists b'. split; [done|]. intros rest rest' E.
  destruct (framed_prefix_free _ _ _ _ _ _ _ _ _ Hb Hb' E) as (-> & -> & ->). apply app_inv_tail in E as ->.
  by destruct f.
Qed.

(** A reader whose socket holds two ping responses in three segments. *)
Definition example_ping : FrameHeader := mkFrameHeader MessageKind.kResponse Opcode.kPing WireStatus.kOk 0 1 0.

Definition example_frames : bytes :=
  value_or (EncodeHeader example_ping default_limits) [] ++ value_or (EncodeHeader example_ping default_limits) [].

Definition framing_world : Sim.world :=
  Sim.mkWorld 0 {[7]} (fun _ => []) (fun _ => [])
    [SysOk (take 10 example_frames); SysErr EINTR; SysOk (drop 10 example_frames)] [SysOk 5] [] (SysOk []) [] [].

Definition framing_link : TcpConnection * Sim.world := (make 7 default_options, framing_world).

Example frames_run :
  match (WriteWireFrame 10 example_ping [] default_limits ≫= fun s =>
         ReadWireFrame 10 default_limits ≫= fun f1 => ReadWireFrame 10 default_limits ≫= fun f2 => mret (s, f1, f2))
        framing_link [] with
  | Done (s, f1, f2, l, _) => ok s = true /\ f1 = Value (mkFrame example_ping []) /\ f2 = f1
                              /\ sent l.2 7 ++ sent l.2 7 = received l.2 7
  | Terminated => False
  end.
Proof. vm_compute. by repeat split. Qed.

Lemma framing_roundtrip_witness :
  wp (WriteWireFrame (Sim.fuel framing_world) example_ping [] default_limits)
    (fun s l' => if ok s then exists b, framed default_limits example_ping [] b /\ moved framing_link l' [] b
                 else l' = framing_link \/ broken_ l'.1 = true) framing_link.
Proof.
  eapply wp_mono; [apply (framing_roundtrip (Sim.fuel framing_world) framing_link framing_link default_limits example_ping []);
    [repeat split; by vm_compute|cbn; lia|cbn; lia|apply Sim.fuel_enough|apply Sim.fuel_enough]|].
  intros s l' Hs. cbv beta in Hs. destruct (ok s); [|exact Hs]. destruct Hs as (b & Hb & M & _). by exists b.
Defined.
