(* ===== verification/TcpConnector.v ===== *)
(** * RPC connector

    [include/tidepool/rpc/tcp_connector.h], [src/rpc/tcp_connector.cpp]: a client
    of one remote node.  It owns at most one connection, sends one request frame
    per call and reads its response, and gives the connection up as soon as the
    stream may have lost its place.

    Exceptions are values here: a [throwing] computation ends with [inl] of
    [std::bad_alloc] or [std::length_error] or with [inr] of its result.  The
    message of an error status is an allocation and may throw; for a status that a
    callee builds, this is where the status reaches the connector. *)

From S2P Require Import Prelude Api BlockKeys BlockCodec WireCodec Sockets TcpConnection WireFraming.

Module TcpConnector.

Record TcpEndpoint : Type := mkEndpoint { host : string; port : Z }.

Record TcpConnectorOptions : Type := mkOptions {
  connection : TcpConnection.TcpConnectionOptions;
  codec_limits : wire.CodecLimits
}.

Record TcpConnector : Type := mkConnector {
  endpoint_ : TcpEndpoint;
  options_ : TcpConnectorOptions;
  connection_ : option TcpConnection.TcpConnection;
  next_request_id_ : Z
}.

(** [TcpConnector::TcpConnector] *)
Definition make (endpoint : TcpEndpoint) (options : TcpConnectorOptions) : TcpConnector :=
  mkConnector endpoint options None 1.

Record DecodedRemoteError : Type := mkRemoteError { code : StatusCode; message : string }.

Definition set_connection (c : option TcpConnection.TcpConnection) (k : TcpConnector) : TcpConnector :=
  mkConnector (endpoint_ k) (options_ k) c (next_request_id_ k).

(** ** Helpers *)

Definition DataOrNull (b : bytes) : option bytes := match b with [] => None | _ => Some b end.

Definition Capacity (msg : string) : Status := mkStatus kOutOfCapacity ("TcpConnector: " +:+ msg)%string.
Definition ProtocolError (msg : string) : Status := Corruption ("TcpConnector: " +:+ msg)%string.

Definition kEnvelopeBytes : Z := wire.kBlockKeyBytes + block_codec.kHeaderSize.

Definition ValidateBlockSize (block : Block) (limits : wire.CodecLimits) : Status :=
  let data_bytes := zlen (data block) in
  if u64_max - kEnvelopeBytes <? data_bytes then Capacity "Put payload length overflows uint64_t"
  else match wire.ValidateFrameSize (wrap 64 (kEnvelopeBytes + data_bytes)) limits with
  | Value _ => Ok
  | Error s => s
  end.

(** ** Exceptions *)

Inductive Exn : Type := bad_alloc | length_error.

Abbreviation throwing S A := (comp S (Exn + A)%type).

Definition lift {S A} (m : comp S A) : throwing S A := a ← m; mret (inr a).

Definition tbind {S A B} (m : throwing S A) (k : A -> throwing S B) : throwing S B :=
  r ← m;
  match r with
  | inl e => mret (inl e)
  | inr a => k a
  end.

Definition try_catch {S A} (m : throwing S A) (handler : Exn -> throwing S A) : throwing S A :=
  r ← m;
  match r with
  | inl e => handler e
  | inr a => mret (inr a)
  end.

(** A value whose construction allocates. *)
Definition build {S A} (a : A) : throwing S A :=
  mem ← allocate;
  mret match mem with
       | wire.AllocOk => inr a
       | wire.BadAlloc => inl bad_alloc
       | wire.LengthError => inl length_error
       end.

#[local] Notation "x <~ m ; k" := (tbind m (fun x => k))
  (at level 20, m at level 100, k at level 200, right associativity).

(** ** The connector *)

Section connector.
Context {W : Type} `{Sockets W} (fuel : nat).

Abbreviation self := (TcpConnector * W)%type.

Definition on_os {A} (m : comp W A) : comp self A := zoom snd (fun w s => (s.1, w)) m.

(** A method of [*connection_]; a null pointer is undefined behaviour. *)
Definition on_conn {A} (m : comp (TcpConnection.TcpConnection * W) A) : comp self A := fun s al =>
  match connection_ s.1 with
  | Some c =>
      match m (c, s.2) al with
      | Done (a, l, al') => Done (a, (set_connection (Some l.1) s.1, l.2), al')
      | Terminated => Terminated
      end
  | None => Terminated
  end.

Definition ValidateConfigurationLocked (k : TcpConnector) : Status :=
  let o := connection (options_ k) in
  if String.eqb (host (endpoint_ k)) "" then InvalidArgument "TcpConnector: endpoint host is empty"
  else if port (endpoint_ k) =? 0 then InvalidArgument "TcpConnector: endpoint port is zero"
  else if (TcpConnection.connect_timeout o <? 0) || (TcpConnection.read_timeout o <? 0)
          || (TcpConnection.write_timeout o <? 0) then
    InvalidArgument "TcpConnector: connection timeouts must be non-negative"
  else if wire.max_frame_bytes (codec_limits (options_ k)) <? wire.kHeaderBytes then
    InvalidArgument "TcpConnector: max_frame_bytes is smaller than the Wire header"
  else Ok.

Definition DropConnectionLocked : comp self unit :=
  k ← gets (fun s => connection_ s.1);
  match k with
  | None => mret tt
  | Some _ =>
      on_conn TcpConnection.Close ;;
      modify (fun s => (set_connection None s.1, s.2))
  end.

(** The destructor of a connection the connector does not own. *)
Definition destroy (c : TcpConnection.TcpConnection) : comp self unit :=
  on_os (fun w al => match TcpConnection.Close (c, w) al with
                     | Done (a, l, al') => Done (a, l.2, al')
                     | Terminated => Terminated
                     end).

Definition IsConnected : comp self bool :=
  k ← gets (fun s => connection_ s.1);
  match k with
  | None => mret false
  | Some _ => on_conn TcpConnection.IsOpen
  end.

Definition EnsureConnectedLocked : throwing self Status :=
  is_open <~ lift IsConnected;
  if is_open : bool then mret (inr Ok)
  else
    _ <~ lift DropConnectionLocked;
    s <~ lift get;
    _ <~ build tt;
    connected <~ lift (on_os (TcpConnection.Connect fuel (host (endpoint_ s.1)) (port (endpoint_ s.1))
                                (connection (options_ s.1))));
    match connected with
    | Error status => build status
    | Value c =>
        mem <~ lift allocate;
        match mem with
        | wire.AllocOk =>
            _ <~ lift (modify (fun s => (set_connection (Some (TcpConnection.move c).1) s.1, s.2)));
            mret (inr Ok)
        | wire.BadAlloc =>
            _ <~ lift (destroy c); build (Capacity "connection object allocation failed")
        | wire.LengthError =>
            _ <~ lift (destroy c); build (Capacity "connection object allocation exceeded a limit")
        end
    end.

Definition AllocateRequestIdLocked : comp self Z :=
  s ← get;
  let request_id := next_request_id_ s.1 in
  let next := if request_id =? u64_max then 1 else request_id + 1 in
  modify (fun s => (mkConnector (endpoint_ s.1) (options_ s.1) (connection_ s.1) next, s.2)) ;;
  mret request_id.

(** [DropConnectionLocked(); return status;] *)
Definition drop_and {A} (a : A) : throwing self A := _ <~ lift DropConnectionLocked; build a.

(** The body of the [try] block of [ExecuteLocked]. *)
Definition exchange (request : wire.FrameHeader) (payload_ : bytes) (limits : wire.CodecLimits)
  : throwing self (Result WireFrame) :=
  status <~ lift (on_conn (WriteWireFrame fuel request payload_ limits));
  if negb (ok status) then drop_and (Error status)
  else
    response <~ lift (on_conn (ReadWireFrame fuel limits));
    match response with
    | Error status => drop_and (Error status)
    | Value f =>
        if negb (wire.kind (header f) =? wire.MessageKind.kResponse) then
          drop_and (Error (ProtocolError "peer sent a request where a response was expected"))
        else if negb (wire.opcode (header f) =? wire.opcode request) then
          drop_and (Error (ProtocolError "response opcode does not match request"))
        else if negb (wire.request_id (header f) =? wire.request_id request) then
          drop_and (Error (ProtocolError "response request_id does not match request"))
        else
          mem <~ lift allocate;
          let validation := wire.ValidateResponse mem (header f) (DataOrNull (payload f)) (zlen (payload f)) limits in
          if negb (ok validation) then
            if decide (Api.code validation = kOutOfCapacity) then build (Error validation)
            else drop_and (Error validation)
          else mret (inr (Value f))
    end.

Definition ExecuteLocked (opcode : Z) (payload_ : bytes) : throwing self (Result WireFrame) :=
  s <~ lift get;
  let limits := codec_limits (options_ s.1) in
  request_id <~ lift AllocateRequestIdLocked;
  let request := wire.mkFrameHeader wire.MessageKind.kRequest opcode wire.WireStatus.kOk 0 request_id (zlen payload_) in
  mem <~ lift allocate;
  let status := wire.ValidateRequest mem request (DataOrNull payload_) (zlen payload_) limits in
  if negb (ok status) then build (Error status)
  else
    status <~ EnsureConnectedLocked;
    if negb (ok status) then mret (inr (Error status))
    else
      try_catch (exchange request payload_ limits) (fun e =>
        drop_and (Error (match e with
                         | bad_alloc => Capacity "RPC allocation failed after network I/O began"
                         | length_error => Capacity "RPC allocation exceeded a limit after network I/O began"
                         end))).

Definition DecodeRemoteErrorLocked (response : WireFrame) : throwing self (Result DecodedRemoteError) :=
  s <~ lift get;
  mem <~ lift allocate;
  match wire.DecodeErrorPayload mem (DataOrNull (payload response)) (zlen (payload response)) (codec_limits (options_ s.1)) with
  | Error status => build (Error status)
  | Value msg =>
      match wire.FromWireStatus (wire.status (header response)) with
      | Error status => build (Error status)
      | Value c =>
          if decide (c = kOk) then build (Error (ProtocolError "remote error decoder received kOk"))
          else mret (inr (Value (mkRemoteError c (string_of_list_byte msg))))
      end
  end.

(** The block every method starts a non-[kOk] response with: the status to
    return. *)
Definition remote_status (response : WireFrame) : throwing self Status :=
  remote_error <~ DecodeRemoteErrorLocked response;
  match remote_error with
  | Error status =>
      _ <~ lift (if decide (Api.code status = kOutOfCapacity) then mret tt else DropConnectionLocked);
      mret (inr status)
  | Value e => mret (inr (mkStatus (code e) (message e)))
  end.

(** A public method: its [try] block and its handlers' messages. *)
Definition guarded {A} (m : throwing self A) (failed : Status -> A) (bad long : string) : comp self A :=
  r ← m;
  match r with
  | inr a => mret a
  | inl bad_alloc => mret (failed (Capacity bad))
  | inl length_error => mret (failed (Capacity long))
  end.

Definition get_body (key : BlockKey) : throwing self (Result Block) :=
  s <~ lift get;
  let status := ValidateConfigurationLocked s.1 in
  if negb (ok status) then build (Error status)
  else
    mem <~ lift allocate;
    match wire.EncodeGetRequest mem key with
    | Error status => build (Error status)
    | Value payload_ =>
        response <~ ExecuteLocked wire.Opcode.kGet payload_;
        match response with
        | Error status => mret (inr (Error status))
        | Value f =>
            if negb (wire.status (header f) =? wire.WireStatus.kOk) then
              status <~ remote_status f; mret (inr (Error status))
            else
              mem <~ lift allocate;
              match wire.DecodeGetSuccessPayload mem (DataOrNull (payload f)) (zlen (payload f)) (codec_limits (options_ s.1)) with
              | Error status =>
                  _ <~ lift (if decide (Api.code status = kOutOfCapacity) then mret tt else DropConnectionLocked);
                  build (Error status)
              | Value block_blob =>
                  match block_codec.DeserializeHeader block_blob with
                  | Error decoded =>
                      drop_and (Error (ProtocolError ("invalid Block blob in Get response: " +:+ Api.message decoded)%string))
                  | Value h =>
                      build (Value (mkBlock (block_codec.h_metadata h) (block_codec.blob_payload block_blob h)))
                  end
              end
        end
    end.

Definition Get (key : BlockKey) : comp self (Result Block) :=
  guarded (get_body key) Error "Get Block allocation failed" "Get Block exceeds vector capacity".

Definition put_body (key : BlockKey) (block : Block) : throwing self Status :=
  s <~ lift get;
  let status := ValidateConfigurationLocked s.1 in
  if negb (ok status) then build status
  else
    let limits := codec_limits (options_ s.1) in
    let status := ValidateBlockSize block limits in
    if negb (ok status) then build status
    else
      block_blob <~ build (block_codec.SerializeBlock block);
      mem <~ lift allocate;
      match wire.EncodePutRequest mem key block_blob limits with
      | Error status => build status
      | Value payload_ =>
          response <~ ExecuteLocked wire.Opcode.kPut payload_;
          match response with
          | Error status => mret (inr status)
          | Value f =>
              if negb (wire.status (header f) =? wire.WireStatus.kOk) then remote_status f
              else mret (inr Ok)
          end
      end.

Definition Put (key : BlockKey) (block : Block) : comp self Status :=
  guarded (put_body key block) id "Put allocation failed" "Put allocation exceeded a limit".

Definition ping_body : throwing self Status :=
  s <~ lift get;
  let status := ValidateConfigurationLocked s.1 in
  if negb (ok status) then build status
  else
    match wire.EncodePingRequest with
    | Error status => build status
    | Value payload_ =>
        response <~ ExecuteLocked wire.Opcode.kPing payload_;
        match response with
        | Error status => mret (inr status)
        | Value f =>
            if negb (wire.status (header f) =? wire.WireStatus.kOk) then remote_status f
            else mret (inr Ok)
        end
    end.

Definition Ping : comp self Status := guarded ping_body id "Ping allocation failed" "Ping allocation exceeded a limit".

Definition Close : comp self unit := DropConnectionLocked.
End connector.
End TcpConnector.
