(* ===== verification/RpcInv.v ===== *)
(** * RPC connector: the stream stays in step

    The invariant of a connector between calls: a connection it still holds has
    carried whole exchanges only, each a request frame and the response frame that
    answers it, so the next byte to read is the first byte of the next response. *)

From S2P Require Import Prelude Api BlockKeys BlockCodec WireCodec Sockets TcpConnection TcpTheorems TcpConnect.
From S2P Require Import WireFraming TcpConnector.
Import TcpConnector.

Abbreviation socket_fd_ := TcpConnection.socket_fd_.

(** ** Exchanges *)

Definition answers (request response : wire.FrameHeader) : Prop :=
  wire.kind request = wire.MessageKind.kRequest /\ wire.kind response = wire.MessageKind.kResponse
  /\ wire.opcode response = wire.opcode request /\ wire.request_id response = wire.request_id request
  /\ 1 <= wire.request_id request.

(** The byte histories of a socket that has carried exchanges only. *)
Inductive in_step (limits : wire.CodecLimits) : bytes -> bytes -> Prop :=
| step_start : in_step limits [] []
| step_exchange tx rx hq pq bq hr pr br :
    in_step limits tx rx -> framed limits hq pq bq -> framed limits hr pr br -> answers hq hr ->
    in_step limits (tx ++ bq) (rx ++ br).

(** ** Exceptions *)

(** [twp m Q E s]: [m] ends with a result that satisfies [Q] or throws in a state
    that satisfies [E]. *)
Definition twp {S A} (m : throwing S A) (Q : A -> S -> Prop) (E : S -> Prop) (s : S) : Prop :=
  wp m (fun r s' => match r with inl _ => E s' | inr a => Q a s' end) s.

Section exceptions.
Context {S : Type}.

Lemma twp_ret {A} (a : A) (Q : A -> S -> Prop) E s : Q a s -> twp (mret (inr a)) Q E s.
Proof. intros HQ. by apply wp_ret. Qed.

Lemma twp_lift {A} (m : comp S A) (Q : A -> S -> Prop) E s : wp m Q s -> twp (lift m) Q E s.
Proof. intros HQ. unfold twp, lift. apply wp_bind. eapply wp_mono; [done|]. intros a s' Ha. by apply wp_ret. Qed.

Lemma twp_bind {A B} (m : throwing S A) (k : A -> throwing S B) (Q : B -> S -> Prop) E s :
  twp m (fun a s' => twp (k a) Q E s') E s -> twp (tbind m k) Q E s.
Proof.
  intros HQ. unfold twp, tbind. apply wp_bind. eapply wp_mono; [exact HQ|]. intros [e|a] s' Ha; [by apply wp_ret|done].
Qed.

Lemma twp_build {A} (a : A) (Q : A -> S -> Prop) (E : S -> Prop) s : Q a s -> E s -> twp (build a) Q E s.
Proof. intros HQ HE. unfold twp, build. wp_steps. apply wp_allocate. intros []; by wp_steps. Qed.

Lemma twp_try {A} (m : throwing S A) handler (Q : A -> S -> Prop) (E E' : S -> Prop) s :
  twp m Q E' s -> (forall e s', E' s' -> twp (handler e) Q E s') -> twp (try_catch m handler) Q E s.
Proof.
  intros HQ HE. unfold twp, try_catch. apply wp_bind. eapply wp_mono; [exact HQ|]. intros [e|a] s' Ha; [by apply HE|by apply wp_ret].
Qed.

Lemma twp_mono {A} (m : throwing S A) (Q Q' : A -> S -> Prop) (E E' : S -> Prop) s :
  twp m Q E s -> (forall a s', Q a s' -> Q' a s') -> (forall s', E s' -> E' s') -> twp m Q' E' s.
Proof. intros Hm HQ HE. eapply wp_mono; [exact Hm|]. intros [e|a] s' Ha; auto. Qed.
End exceptions.

(** One step of a throwing program. *)
Ltac twp_step :=
  lazymatch goal with
  | |- twp (mret (inr _)) _ _ _ => apply twp_ret
  | |- twp (tbind _ _) _ _ _ => apply twp_bind
  | |- twp (lift _) _ _ _ => apply twp_lift
  | |- wp _ _ _ => wp_step
  end; cbv beta iota.

Ltac twp_steps := repeat twp_step.

Section rpc.
Context {W : Type} `{SocketLaws W} (fuel : nat).

Abbreviation self := (TcpConnector * W)%type.

(** ** Ownership *)

(** The process holds the descriptors of [w] and [fd]; the former are untouched. *)
Record holds (w w' : W) (fd : Z) : Prop := {
  ho_nonneg : 0 <= fd;
  ho_fresh : fd ∉ open_fds w;
  ho_advances : advances w w';
  ho_fds : open_fds w' = {[fd]} ∪ open_fds w;
  ho_rx : forall fd', fd' ∈ open_fds w -> received w' fd' = received w fd';
  ho_tx : forall fd', fd' ∈ open_fds w -> sent w' fd' = sent w fd'
}.

Lemma opened_holds w w' fd : opened w w' fd -> holds w w' fd.
Proof. by intros []. Qed.

Lemma holds_moved w l l' rx tx : holds w l.2 (socket_fd_ l.1) -> moved l l' rx tx -> holds w l'.2 (socket_fd_ l'.1).
Proof.
  intros [A1 A2 A3 A4 A5 A6] [B1 B2 B3 B4 B5 B6 B7].
  split; rewrite ?B1; try done; [by etrans|congruence|..]; intros fd' Hfd;
    rewrite ?B6, ?B7, decide_False by congruence; auto.
Qed.

Lemma holds_closed w l l' : holds w l.2 (socket_fd_ l.1) -> closed l l' -> kept w l'.2.
Proof.
  intros [A1 A2 A3 A4 A5 A6] [B1 B2 B3 B4 B5].
  split; [by etrans|rewrite B3, A4; set_solver|..]; intros fd' Hfd; rewrite ?B4, ?B5; auto.
Qed.

(** What holds at every point of a call, relative to the world [w0] the connector
    was made in. *)
Record owned (w0 : W) (ep : TcpEndpoint) (o : TcpConnectorOptions) (s : self) : Prop := {
  ow_endpoint : endpoint_ s.1 = ep;
  ow_options : options_ s.1 = o;
  ow_id : 1 <= next_request_id_ s.1 <= u64_max;
  ow_fds : match connection_ s.1 with
           | None => kept w0 s.2
           | Some c => holds w0 s.2 (socket_fd_ c)
           end
}.

(** The histories of the connection's socket. *)
Definition history (s : self) : option (bytes * bytes) :=
  c ← connection_ s.1; Some (sent s.2 (socket_fd_ c), received s.2 (socket_fd_ c)).

(** The invariant between calls. *)
Definition rpc_inv (w0 : W) (ep : TcpEndpoint) (o : TcpConnectorOptions) (s : self) : Prop :=
  owned w0 ep o s /\ forall tx rx, history s = Some (tx, rx) -> in_step (codec_limits o) tx rx.

Context (w0 : W) (ep : TcpEndpoint) (o : TcpConnectorOptions) (Hfuel : enough_fuel fuel w0).

Lemma owned_fuel s : owned w0 ep o s -> enough_fuel fuel s.2.
Proof.
  intros [_ _ _ Hf]. eapply enough_fuel_advances, Hfuel. destruct (connection_ s.1); apply Hf.
Qed.

Lemma make_inv : rpc_inv w0 ep o (make ep o, w0).
Proof. split; [|done]. split; [done|done|cbn; unfold u64_max; lia|cbn; done]. Qed.

(** ** The owned connection *)

Lemma wp_on_conn {A} (m : comp (TcpConnection.TcpConnection * W) A) s c (Q : A -> self -> Prop) :
  connection_ s.1 = Some c ->
  wp m (fun a l => Q a (set_connection (Some l.1) s.1, l.2)) (c, s.2) -> wp (on_conn m) Q s.
Proof.
  intros Ec Hm al. unfold on_conn. rewrite Ec. specialize (Hm al). by destruct (m (c, s.2) al) as [[[a l] al']|].
Qed.

(** The state after a method of the connection has moved bytes. *)
Lemma owned_moved s c l rx tx :
  owned w0 ep o s -> connection_ s.1 = Some c -> moved (c, s.2) l rx tx ->
  owned w0 ep o (set_connection (Some l.1) s.1, l.2).
Proof.
  intros [E O I Hf] Ec M. rewrite Ec in Hf. split; try done. cbn. by apply (holds_moved _ (c, s.2) l rx tx).
Qed.

Lemma history_moved s c l rx tx tx0 rx0 :
  connection_ s.1 = Some c -> moved (c, s.2) l rx tx -> history s = Some (tx0, rx0) ->
  history (set_connection (Some l.1) s.1, l.2) = Some (tx0 ++ tx, rx0 ++ rx).
Proof.
  intros Ec M. unfold history. rewrite Ec. cbn. intros [= <- <-].
  rewrite (mv_fd _ _ _ _ M), (mv_tx _ _ _ _ M), (mv_rx _ _ _ _ M), !decide_True by done. done.
Qed.

Lemma owned_fd s c : owned w0 ep o s -> connection_ s.1 = Some c -> 0 <= socket_fd_ c.
Proof. intros [_ _ _ Hf] Ec. rewrite Ec in Hf. apply Hf. Qed.

Lemma wp_DropConnectionLocked s (Q : unit -> self -> Prop) :
  owned w0 ep o s ->
  (forall s', rpc_inv w0 ep o s' -> connection_ s'.1 = None -> next_request_id_ s'.1 = next_request_id_ s.1 -> Q tt s') ->
  wp DropConnectionLocked Q s.
Proof.
  intros Ho HQ. unfold DropConnectionLocked. wp_steps. destruct (connection_ s.1) as [c|] eqn:Ec; wp_steps.
  - apply (wp_on_conn _ _ c); [done|]. apply wp_conn_Close; [by apply (owned_fd s)|]. intros l C. wp_steps.
    destruct Ho as [E O I Hf]. rewrite Ec in Hf. apply HQ; try done. split; [|done]. split; try done. cbn.
    by apply (holds_closed _ (c, s.2)).
  - apply HQ; [|done|done]. split; [done|]. unfold history. by rewrite Ec.
Qed.

(** The invariant, with the next request id. *)
Definition inv_at (i : Z) (s : self) : Prop := rpc_inv w0 ep o s /\ next_request_id_ s.1 = i.

Lemma wp_drop_at i s (Q : unit -> self -> Prop) :
  owned w0 ep o s -> next_request_id_ s.1 = i -> (forall s', inv_at i s' -> connection_ s'.1 = None -> Q tt s') ->
  wp DropConnectionLocked Q s.
Proof. intros Ho Hi HQ. apply wp_DropConnectionLocked; [done|]. intros s' I N E. apply HQ; [split; [done|congruence]|done]. Qed.

(** [DropConnectionLocked] before an error is returned. *)
Lemma twp_drop_and {A} (a : A) i s (Q : A -> self -> Prop) (E : self -> Prop) :
  owned w0 ep o s -> next_request_id_ s.1 = i -> (forall s', inv_at i s' -> Q a s' /\ E s') -> twp (drop_and a) Q E s.
Proof.
  intros Ho Hi HQ. unfold drop_and. twp_steps. apply (wp_drop_at i); [done..|]. intros s' I _.
  destruct (HQ s' I). by apply twp_build.
Qed.

Lemma wp_IsConnected i s (Q : bool -> self -> Prop) :
  inv_at i s ->
  (forall b s', inv_at i s' -> history s' = history s -> (b = true -> is_Some (connection_ s'.1)) -> Q b s') ->
  wp IsConnected Q s.
Proof.
  intros [[Ho Hs] Hi] HQ. unfold IsConnected. wp_steps. destruct (connection_ s.1) as [c|] eqn:Ec; wp_steps.
  2: { by apply HQ; [split; [split|]|..]. }
  apply (wp_on_conn _ _ c); [done|].
  assert (forall b l, moved (c, s.2) l [] [] -> Q b (set_connection (Some l.1) s.1, l.2)) as Hmoved.
  { intros b l M. assert (history (set_connection (Some l.1) s.1, l.2) = history s) as Eh.
    { destruct (history s) as [[tx rx]|] eqn:Eh; [|unfold history in Eh; by rewrite Ec in Eh].
      rewrite (history_moved s c l [] [] tx rx) by done. by rewrite !app_nil_r. }
    apply HQ; [|done|cbn; eauto]. split; [|done]. split; [by eapply owned_moved|]. by rewrite Eh. }
  unfold TcpConnection.IsOpen. wp_steps. destruct (_ <? 0); wp_steps; [apply Hmoved, moved_refl|].
  apply wp_load_broken. intros l M. wp_steps. by apply Hmoved.
Qed.

(** A connection is there: the one from before, or a new one. *)
Definition connected_from (s s' : self) : Prop :=
  is_Some (connection_ s'.1) /\ (history s' = history s \/ history s' = Some ([], [])).

Lemma kept_after_connect s w : owned w0 ep o s -> connection_ s.1 = None -> kept s.2 w -> owned w0 ep o (s.1, w).
Proof. intros [E O I Hf] Ec K. split; try done. cbn. rewrite Ec in *. by etrans. Qed.

Lemma twp_EnsureConnectedLocked i s :
  inv_at i s ->
  twp (EnsureConnectedLocked fuel) (fun st s' => inv_at i s' /\ (ok st = true -> connected_from s s')) (inv_at i) s.
Proof.
  intros Hi. unfold EnsureConnectedLocked. twp_steps. apply (wp_IsConnected i); [done|]. intros b s1 I1 E1 Hb.
  destruct b; twp_steps. { split; [done|]. intros _. split; [by apply Hb|by left]. }
  destruct I1 as [[O1 S1] N1]. apply (wp_drop_at i); [done..|]. intros s2 I2 C2. twp_steps.
  apply twp_build; [|done]. destruct I2 as [[O2 S2] N2]. twp_steps. unfold on_os. wp_steps.
  eapply wp_mono; [apply wp_Connect; by eapply owned_fuel|]. intros r w3 Hr.
  assert (forall w, kept s2.2 w -> inv_at i (s2.1, w)) as Hkept.
  { intros w K. split; [|done]. split; [by apply kept_after_connect|]. unfold history. cbn. by rewrite C2. }
  destruct r as [c|st]; cbn [connect_result] in Hr.
  2: { destruct Hr as [Hst K]. apply twp_build; [|by apply Hkept]. split; [by apply Hkept|congruence]. }
  destruct Hr as [Ec Op]. twp_steps. apply wp_allocate. intros mem.
  assert (forall st, ok st = false ->
    twp (tbind (lift (destroy c)) (fun _ => build st)) (fun st s' => inv_at i s' /\ (ok st = true -> connected_from s s'))
      (inv_at i) (s2.1, w3)) as Hdestroy.
  { intros st Hst. twp_steps. unfold destroy, on_os. wp_steps. intros al.
    pose proof (wp_conn_Close (c, w3) (fun _ l' => closed (c, w3) l') (op_nonneg _ _ _ Op) (fun _ C => C) al) as HC.
    cbn [fst snd]. destruct (TcpConnection.Close (c, w3) al) as [[[a l] al']|]; [|done].
    assert (inv_at i (s2.1, l.2)) as I3 by (by apply Hkept, (holds_closed _ (c, w3)), HC; apply opened_holds).
    apply twp_build; [|done]. split; [done|congruence]. }
  destruct mem; [|by apply Hdestroy..]. twp_steps.
  assert (connection_ (set_connection (Some (TcpConnection.move c).1) s2.1) = Some c) as E3 by (cbn; by destruct c).
  assert (history (set_connection (Some (TcpConnection.move c).1) s2.1, w3) = Some ([], [])) as Eh.
  { unfold history. cbn [fst snd]. rewrite E3. cbn. by rewrite (op_rx_new _ _ _ Op), (op_tx_new _ _ _ Op). }
  destruct O2 as [EO OO IO Hf]. rewrite C2 in Hf. split; [split; [split|done]|].
  - split; try done. cbn [fst snd]. rewrite E3. apply opened_holds. by eapply kept_opened.
  - intros tx rx Ht. pose proof (eq_trans (eq_sym Eh) Ht) as [= <- <-]. constructor.
  - intros _. split; [cbn; eauto|by right].
Qed.

(** ** One exchange *)

(** One request frame went out and one frame that answers it came in, after the
    histories [tx] and [rx]. *)
Definition exchanged (tx rx : bytes) (hq : wire.FrameHeader) (pq : bytes) (f : WireFrame) (s' : self) : Prop :=
  exists bq br, framed (codec_limits o) hq pq bq /\ framed (codec_limits o) (header f) (payload f) br
    /\ answers hq (header f) /\ history s' = Some (tx ++ bq, rx ++ br).

Lemma exchanged_in_step tx rx hq pq f s' :
  in_step (codec_limits o) tx rx -> exchanged tx rx hq pq f s' -> owned w0 ep o s' -> rpc_inv w0 ep o s'.
Proof.
  intros Hin (bq & br & Fq & Fr & Ha & Eh) Ho. split; [done|]. rewrite Eh. intros ? ? [= <- <-]. by eapply step_exchange.
Qed.

(** The response was checked against the protocol. *)
Definition checked (f : WireFrame) : Prop :=
  exists mem, ok (wire.ValidateResponse mem (header f) (DataOrNull (payload f)) (zlen (payload f)) (codec_limits o)) = true.

Definition exchange_result (i : Z) (tx rx : bytes) (hq : wire.FrameHeader) (pq : bytes) (r : Result WireFrame) (s' : self) : Prop :=
  inv_at i s' /\ match r with
                 | Value f => exchanged tx rx hq pq f s' /\ checked f
                 | Error st => ok st = false
                 end.

Lemma twp_exchange i s tx rx hq pq :
  inv_at i s -> history s = Some (tx, rx) -> wire.FrameHeader_wf hq ->
  wire.kind hq = wire.MessageKind.kRequest -> 1 <= wire.request_id hq ->
  twp (exchange fuel hq pq (codec_limits o)) (exchange_result i tx rx hq pq)
    (fun s' => owned w0 ep o s' /\ next_request_id_ s'.1 = i) s.
Proof.
  intros [[Ho Hs] Hi] Eh Hwf Hk Hid. pose proof (Hs _ _ Eh) as Hstep.
  destruct (connection_ s.1) as [c|] eqn:Ec; [|unfold history in Eh; by rewrite Ec in Eh].
  assert (forall s' st, owned w0 ep o s' -> next_request_id_ s'.1 = i -> ok st = false ->
    twp (drop_and (Error st)) (exchange_result i tx rx hq pq) (fun s' => owned w0 ep o s' /\ next_request_id_ s'.1 = i) s')
    as Hdrop.
  { intros s' st O' N' Hst. apply (twp_drop_and _ i); [done..|]. intros s'' I. split; [by split|]. split; [apply I|apply I]. }
  unfold exchange. twp_steps. apply (wp_on_conn _ _ c); [done|].
  eapply wp_mono; [apply wp_WriteWireFrame; [done|by apply (owned_fd s)|by eapply owned_fuel]|].
  intros st l1 Hw. unfold frame_written in Hw. destruct (ok st) eqn:Est; cbn [negb].
  2: { apply Hdrop; [|done|done]. destruct Hw as [->|(_ & b & n & _ & _ & M)]; eapply owned_moved;
       [done|done|apply moved_refl|done|done|exact M]. }
  destruct Hw as (bq & Fq & M1). pose proof (owned_moved _ _ _ _ _ Ho Ec M1) as O1.
  pose proof (history_moved _ _ _ _ _ _ _ Ec M1 Eh) as H1. rewrite app_nil_r in H1. twp_steps.
  set (s1 := (set_connection (Some l1.1) s.1, l1.2)) in *. assert (connection_ s1.1 = Some l1.1) as Ec1 by done.
  apply (wp_on_conn _ s1 l1.1); [done|].
  eapply wp_mono; [apply wp_ReadWireFrame; [by apply (owned_fd s1)|by eapply (owned_fuel s1)]|].
  intros r l2 Hr. destruct r as [f|st2]; cbn [frame_read] in Hr.
  2: { destruct Hr as (Hst & _ & b & M2). apply Hdrop; [by eapply (owned_moved s1)|done|done]. }
  destruct Hr as (br & Fr & M2). pose proof (owned_moved s1 _ _ _ _ O1 Ec1 M2) as O2.
  pose proof (history_moved s1 _ _ _ _ _ _ Ec1 M2 H1) as H2. rewrite app_nil_r in H2.
  set (s2 := (set_connection (Some l2.1) s1.1, l2.2)) in *. assert (next_request_id_ s2.1 = i) as N2 by done.
  destruct (wire.kind (header f) =? _) eqn:Ek; boolZ; cbn [negb]; [|by apply Hdrop].
  destruct (wire.opcode (header f) =? _) eqn:Eo; boolZ; cbn [negb]; [|by apply Hdrop].
  destruct (wire.request_id (header f) =? _) eqn:Ei; boolZ; cbn [negb]; [|by apply Hdrop].
  assert (exchanged tx rx hq pq f s2) as Hex by (exists bq, br; split_and!; done).
  assert (inv_at i s2) as I2 by (split; [by eapply exchanged_in_step|done]).
  twp_steps. apply wp_allocate. intros mem. destruct (ok (wire.ValidateResponse _ _ _ _ _)) eqn:Ev; cbn [negb].
  - twp_steps. split; [done|]. split; [done|]. by exists mem.
  - case_decide; [|by apply Hdrop]. apply twp_build; [|done]. by split.
Qed.

(** ** Requests *)

Definition request_of (op i : Z) (p : bytes) : wire.FrameHeader := wire.frame_for wire.MessageKind.kRequest op wire.WireStatus.kOk i p.

Definition next_id (i : Z) : Z := if i =? u64_max then 1 else i + 1.

Lemma request_wf mem op i p :
  1 <= i <= u64_max ->
  ok (wire.ValidateRequest mem (request_of op i p) (DataOrNull p) (zlen p) (codec_limits o)) = true ->
  wire.FrameHeader_wf (request_of op i p).
Proof.
  intros Hi. unfold wire.ValidateRequest. cbv zeta.
  destruct (ok (wire.ValidateHeaderFields _ _ _)) eqn:E; [|congruence]. intros _.
  apply wire.ValidateHeaderFields_spec in E; [|apply zlen_nonneg]. destruct E as [_ Eop _ _ _ Es _].
  pose proof (zlen_nonneg p). cbn in *. unfold wire.Opcode.kGet, wire.Opcode.kPut, wire.Opcode.kPing in Eop.
  unfold u64_max, wire.kHeaderBytes in *. unfold wire.FrameHeader_wf, in_range. cbn.
  unfold wire.MessageKind.kRequest, wire.WireStatus.kOk. lia.
Qed.

(** What a call that ran an RPC with request id [i] leaves behind. *)
Definition rpc_result (s : self) (op i : Z) (p : bytes) (r : Result WireFrame) (s' : self) : Prop :=
  inv_at (next_id i) s'
  /\ match r with
     | Value f => checked f /\ exists tx rx, (history s = Some (tx, rx) \/ tx = [] /\ rx = [])
                    /\ exchanged tx rx (request_of op i p) p f s'
     | Error st => ok st = false
     end.

Lemma next_id_range i : 1 <= i <= u64_max -> 1 <= next_id i <= u64_max.
Proof. unfold next_id. destruct (i =? u64_max) eqn:E; boolZ; unfold u64_max in *; lia. Qed.

Lemma twp_ExecuteLocked i s op p :
  inv_at i s -> twp (ExecuteLocked fuel op p) (rpc_result s op i p) (inv_at (next_id i)) s.
Proof.
  intros [[Ho Hs] Hi]. pose proof (ow_id _ _ _ _ Ho) as Hr. rewrite Hi in Hr. unfold ExecuteLocked, AllocateRequestIdLocked. twp_steps.
  rewrite (ow_options _ _ _ _ Ho), Hi. fold (next_id i). set (s1 := (mkConnector _ _ _ _, s.2)).
  assert (inv_at (next_id i) s1) as I1.
  { split; [|done]. split; [|exact Hs]. destruct Ho as [? ? ? ?]. split; try done. by apply next_id_range. }
  apply wp_allocate. intros mem. fold (request_of op i p). change (wire.mkFrameHeader _ _ _ _ _ _) with (request_of op i p).
  destruct (ok (wire.ValidateRequest _ _ _ _ _)) eqn:Ev; cbn [negb]; [|by apply twp_build; [split|]].
  pose proof (request_wf _ _ _ _ Hr Ev) as Hwf. twp_steps.
  eapply twp_mono; [by apply (twp_EnsureConnectedLocked (next_id i))| |done]. intros st s2 [I2 Hc].
  destruct (ok st) eqn:Est; cbn [negb]; twp_steps; [|by split]. destruct (Hc eq_refl) as [[c2 Ec2] Hh].
  destruct (history s2) as [[tx rx]|] eqn:Eh; [|unfold history in Eh; by rewrite Ec2 in Eh].
  eapply twp_try.
  - eapply twp_mono; [apply (twp_exchange (next_id i) s2 tx rx (request_of op i p) p); try done; cbn; lia| |].
    + intros [f|e] s3 [I3 H3]; (split; [done|]); [|done]. destruct H3 as [H3 Hck]. split; [done|].
      exists tx, rx. split; [|done]. destruct Hh as [Hh|[= -> ->]]; [left; by rewrite Hh|by right].
    + intros s3 H3. exact H3.
  - intros e s3 [O3 N3]. apply (twp_drop_and _ (next_id i)); [done..|]. intros s4 I4. split; [|done]. split; [done|]. by destruct e.
Qed.
End rpc.
