(* ===== verification/RpcErrors.v ===== *)
(** * RPC connector: where errors come from

    Which status codes the connection, the framing and the connector produce by
    themselves: configuration, timeout, network, protocol and allocation errors.
    Codes that describe the state of the remote store, such as [kNotFound], are not
    among them.  The facts are closed under composition and live in the hint
    database [returns]. *)

From S2P Require Import Prelude Api BlockKeys BlockCodec WireCodec Sockets TcpConnection WireFraming TcpConnector.

(** ** Results *)

(** Every result of [m] satisfies [P]. *)
Definition returns {S A} (P : A -> Prop) (m : comp S A) : Prop :=
  forall s al a s' al', m s al = Done (a, s', al') -> P a.

Create HintDb returns.

Section returns.
Context {S : Type}.

Lemma returns_ret {A} (P : A -> Prop) (a : A) : P a -> returns (S := S) P (mret a).
Proof. by intros Ha s al a' s' al' [= <- _ _]. Qed.

Lemma returns_terminate {A} (P : A -> Prop) : returns (S := S) P terminate.
Proof. by intros s al a' s' al' [=]. Qed.

Lemma returns_bind {A B} (P : A -> Prop) (Q : B -> Prop) (m : comp S A) (k : A -> comp S B) :
  returns P m -> (forall a, P a -> returns Q (k a)) -> returns Q (m ≫= k).
Proof.
  intros Hm Hk s al b s' al'. unfold mbind, comp_bind. destruct (m s al) as [[[a s1] al1]|] eqn:E; [|done].
  apply Hk. by eapply Hm.
Qed.

(** Whatever [m] returns. *)
Lemma returns_any {A B} (Q : B -> Prop) (m : comp S A) (k : A -> comp S B) :
  (forall a, returns Q (k a)) -> returns Q (m ≫= k).
Proof. intros Hk. by apply (returns_bind (fun _ => True)). Qed.

Lemma returns_zoom {T A} (P : A -> Prop) (proj : S -> T) upd (m : comp T A) : returns P m -> returns P (zoom proj upd m).
Proof.
  intros Hm s al a s' al'. unfold zoom. destruct (m (proj s) al) as [[[a1 t] al1]|] eqn:E; [|done].
  intros [= <- _ _]. by eapply Hm.
Qed.

(** A [wp] and a fact about the results together. *)
Lemma wp_returns {A} (P : A -> Prop) (m : comp S A) (Q : A -> S -> Prop) s :
  returns P m -> wp m Q s -> wp m (fun a s' => Q a s' /\ P a) s.
Proof. intros Hm Hw al. specialize (Hw al). destruct (m s al) as [[[a s'] al']|] eqn:E; [|done]. split; [done|by eapply Hm]. Qed.
End returns.

(** ** Local errors *)

Definition local_code (c : StatusCode) : bool :=
  match c with
  | kInvalidArgument | kNetworkError | kUnavailable | kOutOfCapacity | kCorruption => true
  | _ => false
  end.

Definition local (st : Status) : Prop := local_code (code st) = true.

(** A status, the status of a result: fine, or a local error. *)
Definition fine (st : Status) : Prop := ok st = true \/ local st.
Definition fine_result {A} (r : Result A) : Prop := match r with Value _ => True | Error st => local st end.
Definition fine_read (x : Status * bytes) : Prop := fine x.1.
Definition fine_throw {A} (P : A -> Prop) (r : TcpConnector.Exn + A) : Prop := match r with inl _ => True | inr a => P a end.

Lemma fine_error st : fine st -> ok st = false -> local st.
Proof. intros [?|?]; [congruence|done]. Qed.

Lemma local_not_ok st : local st -> ok st = false.
Proof. unfold local, ok. by destruct (code st). Qed.

#[export] Hint Unfold fine fine_result fine_read fine_throw local : returns.
#[export] Hint Resolve fine_error : returns.

(** [codes]: by the structure of the program. *)
Ltac codes_done := solve [done | by left | by right | by apply fine_error | eauto with returns | cbn; eauto with returns].

Ltac codes :=
  cbv zeta;
  repeat match goal with
  | |- forall _, _ => intro
  | |- returns _ _ => solve [eauto 2 with returns]
  | |- returns _ (mret _) => apply returns_ret
  | |- returns _ terminate => apply returns_terminate
  | |- returns _ (_ ≫= _) => first [eapply returns_bind; [solve [eauto 2 with returns]|] | apply returns_any]
  | |- returns _ (if negb ?b then _ else _) => destruct b eqn:?; cbn [negb]
  | |- returns _ (match ?x with _ => _ end) => destruct x eqn:?
  end; try codes_done.

Section tcp.
Context {W : Type} `{Sockets W} (fuel : nat).
Import TcpConnection.

Lemma codes_poll_loop {S} (getw : S -> W) setw load n fd ev d op completed target inspect :
  returns fine (poll_loop getw setw load n fd ev d op completed target inspect).
Proof. induction n as [|n IH]; cbn [poll_loop]; codes. Qed.

Lemma codes_PollReady {S} (getw : S -> W) setw load fd ev d op completed target inspect :
  returns fine (PollReady fuel getw setw load fd ev d op completed target inspect).
Proof. apply codes_poll_loop. Qed.

#[local] Hint Resolve codes_PollReady : returns.

Lemma codes_read_loop n target d : forall first got, returns fine_read (read_loop fuel n target d first got).
Proof. induction n as [|n IH]; intros first got; cbn [read_loop]; codes. Qed.

Lemma codes_write_loop n input d : forall first completed, returns fine (write_loop fuel n input d first completed).
Proof. induction n as [|n IH]; intros first completed; cbn [write_loop]; codes. Qed.

#[local] Hint Resolve codes_read_loop codes_write_loop : returns.

Lemma codes_ReadExact output target : returns fine_read (ReadExact fuel output target).
Proof. unfold ReadExact. codes. Qed.

Lemma codes_WriteExact input target : returns fine (WriteExact fuel input target).
Proof. unfold WriteExact. codes. Qed.

Lemma codes_try_candidates host port options d addresses : forall last,
  returns fine_result (try_candidates fuel host port options d addresses last).
Proof. induction addresses as [|a addresses IH]; intros last; cbn [try_candidates]; codes. Qed.

#[local] Hint Resolve codes_try_candidates : returns.

Lemma fine_ValidateOptions o : fine (ValidateOptions o).
Proof. unfold ValidateOptions. repeat case_match; codes_done. Qed.

#[local] Hint Resolve fine_ValidateOptions : returns.

Lemma codes_Connect host port options : returns fine_result (Connect fuel host port options).
Proof. unfold Connect. codes. Qed.
End tcp.

(** ** The codecs *)

Lemma fine_result_error {A} (r : Result A) st : fine_result r -> r = Error st -> local st.
Proof. by intros Hr ->. Qed.

Lemma fine_result_status {A} (r : Result A) : fine_result r -> fine (result_status r).
Proof. destruct r; [by left|by right]. Qed.

#[export] Hint Resolve fine_result_error fine_result_status : returns.

(** [pure_codes]: by the structure of a validator. *)
Ltac pure_codes :=
  cbv zeta;
  repeat match goal with
  | |- fine (match ?x with _ => _ end) => destruct x eqn:?
  | |- fine_result (match ?x with _ => _ end) => destruct x eqn:?
  end; first [codes_done | right; solve [eauto with returns] | cbn; solve [eauto with returns]].

Section codec.
Import wire.

Lemma local_InputError b msg : local (InputError b msg).
Proof. by destruct b. Qed.

#[local] Hint Resolve local_InputError : returns.

Lemma fine_guard_alloc {A} mem bad long (a : A) : fine_result (guard_alloc mem bad long a).
Proof. unfold guard_alloc. pure_codes. Qed.

#[local] Hint Resolve fine_guard_alloc : returns.

Lemma fine_FrameSizeImpl b size limits : fine_result (ValidateFrameSizeImpl b size limits).
Proof. unfold ValidateFrameSizeImpl. pure_codes. Qed.

Lemma fine_FrameSize size limits : fine_result (ValidateFrameSize size limits).
Proof. apply fine_FrameSizeImpl. Qed.

Lemma fine_PayloadLength h limits b : fine (ValidatePayloadLength h limits b).
Proof. unfold ValidatePayloadLength. pure_codes. Qed.

#[local] Hint Resolve fine_FrameSizeImpl fine_FrameSize fine_PayloadLength : returns.

Lemma fine_HeaderFields h limits b : fine (ValidateHeaderFields h limits b).
Proof. unfold ValidateHeaderFields. pure_codes. Qed.

Lemma fine_PayloadPointer p n : fine (ValidatePayloadPointer p n).
Proof. unfold ValidatePayloadPointer. pure_codes. Qed.

#[local] Hint Resolve fine_HeaderFields fine_PayloadPointer : returns.

Lemma fine_DeclaredPayloadSize h p n : fine (ValidateDeclaredPayloadSize h p n).
Proof. unfold ValidateDeclaredPayloadSize. pure_codes. Qed.

Lemma fine_EncodeHeader h limits : fine_result (EncodeHeader h limits).
Proof. unfold EncodeHeader. pure_codes. Qed.

Lemma fine_DecodeHeader p n limits : fine_result (DecodeHeader p n limits).
Proof. unfold DecodeHeader. pure_codes. Qed.

Lemma fine_DecodeBlockKey p n : fine_result (DecodeBlockKey p n).
Proof. unfold DecodeBlockKey. pure_codes. Qed.

Lemma fine_CopyString mem p n : fine_result (CopyString mem p n).
Proof. unfold CopyString. pure_codes. Qed.

#[local] Hint Resolve fine_DeclaredPayloadSize fine_EncodeHeader fine_DecodeHeader fine_DecodeBlockKey fine_CopyString : returns.

Lemma fine_EncodeGetRequest mem k : fine_result (EncodeGetRequest mem k).
Proof. unfold EncodeGetRequest. pure_codes. Qed.

Lemma fine_EncodePutRequest mem k b limits : fine_result (EncodePutRequest mem k b limits).
Proof. unfold EncodePutRequest. pure_codes. Qed.

Lemma fine_DecodeGetSuccess mem p n limits : fine_result (DecodeGetSuccessPayload mem p n limits).
Proof. unfold DecodeGetSuccessPayload. pure_codes. Qed.

Lemma fine_DecodePutRequest mem p n limits : fine_result (DecodePutRequest mem p n limits).
Proof. unfold DecodePutRequest. pure_codes. Qed.

Lemma fine_DecodeErrorPayload mem p n limits : fine_result (DecodeErrorPayload mem p n limits).
Proof. unfold DecodeErrorPayload. pure_codes. Qed.

#[local] Hint Resolve fine_EncodeGetRequest fine_EncodePutRequest fine_DecodeGetSuccess fine_DecodePutRequest
  fine_DecodeErrorPayload : returns.

Lemma fine_ValidateRequest mem h p n limits : fine (ValidateRequest mem h p n limits).
Proof. unfold ValidateRequest, DecodeGetRequest, DecodePingRequest. pure_codes. Qed.

Lemma fine_ValidateResponse mem h p n limits : fine (ValidateResponse mem h p n limits).
Proof. unfold ValidateResponse, DecodeEmptySuccessPayload. pure_codes. Qed.

Lemma fine_FromWireStatus s : fine_result (FromWireStatus s).
Proof. unfold FromWireStatus. pure_codes. Qed.
End codec.

#[export] Hint Resolve codes_ReadExact codes_WriteExact codes_Connect fine_FrameSize fine_EncodeHeader fine_DecodeHeader
  fine_EncodeGetRequest fine_EncodePutRequest fine_DecodeGetSuccess fine_DecodeErrorPayload fine_ValidateRequest
  fine_ValidateResponse fine_FromWireStatus : returns.

(** ** Frames *)

Section frames.
Context {W : Type} `{Sockets W} (fuel : nat).

Lemma codes_ReadWireFrame limits : returns fine_result (ReadWireFrame fuel limits).
Proof. unfold ReadWireFrame. codes. Qed.

Lemma codes_WriteWireFrame h p limits : returns fine (WriteWireFrame fuel h p limits).
Proof. unfold WriteWireFrame. codes. Qed.
End frames.

#[export] Hint Resolve codes_ReadWireFrame codes_WriteWireFrame : returns.

(** ** The connector *)

Section connector.
Context {W : Type} `{Sockets W} (fuel : nat).
Import TcpConnector.

Abbreviation self := (TcpConnector * W)%type.

Lemma throws_ret {A} (P : A -> Prop) (a : A) : P a -> returns (S := self) (fine_throw P) (mret (inr a)).
Proof. intros Ha. by apply returns_ret. Qed.

Lemma throws_bind {A B} (P : A -> Prop) (Q : B -> Prop) (m : throwing self A) (k : A -> throwing self B) :
  returns (fine_throw P) m -> (forall a, P a -> returns (fine_throw Q) (k a)) -> returns (fine_throw Q) (tbind m k).
Proof.
  intros Hm Hk. unfold tbind. eapply returns_bind; [done|]. intros [e|a] Ha; [by apply returns_ret|by apply Hk].
Qed.

Lemma throws_any {A B} (Q : B -> Prop) (m : throwing self A) (k : A -> throwing self B) :
  (forall a, returns (fine_throw Q) (k a)) -> returns (fine_throw Q) (tbind m k).
Proof. intros Hk. apply (throws_bind (fun _ => True)); [|done]. by intros s al [e|a]. Qed.

Lemma throws_lift {A} (P : A -> Prop) (m : comp self A) : returns P m -> returns (fine_throw P) (lift m).
Proof. intros Hm. unfold lift. eapply returns_bind; [done|]. intros a Ha. by apply returns_ret. Qed.

Lemma throws_build {A} (P : A -> Prop) (a : A) : P a -> returns (S := self) (fine_throw P) (build a).
Proof. intros Ha. unfold build. apply returns_any. intros []; by apply returns_ret. Qed.

Lemma throws_try {A} (P : A -> Prop) (m : throwing self A) handler :
  returns (fine_throw P) m -> (forall e, returns (fine_throw P) (handler e)) -> returns (fine_throw P) (try_catch m handler).
Proof. intros Hm Hh. unfold try_catch. eapply returns_bind; [done|]. intros [e|a] Ha; [done|by apply returns_ret]. Qed.

Lemma returns_on_conn {A} (P : A -> Prop) (m : comp (TcpConnection.TcpConnection * W) A) : returns P m -> returns P (on_conn m).
Proof.
  intros Hm s al a s' al'. unfold on_conn. destruct (connection_ s.1) as [c|]; [|done].
  destruct (m (c, s.2) al) as [[[a1 l] al1]|] eqn:E; [|done]. intros [= <- _ _]. by eapply Hm.
Qed.

Lemma returns_on_os {A} (P : A -> Prop) (m : comp W A) : returns P m -> returns P (TcpConnector.on_os m).
Proof. apply returns_zoom. Qed.

Lemma throws_drop_and {A} (P : A -> Prop) (a : A) : P a -> returns (S := self) (fine_throw P) (drop_and a).
Proof. intros Ha. unfold drop_and. apply throws_any. intros _. by apply throws_build. Qed.

#[local] Hint Resolve throws_lift returns_on_conn returns_on_os : returns.

Ltac throw_codes :=
  cbv zeta;
  repeat match goal with
  | |- forall _, _ => intro
  | |- returns _ _ => solve [eauto 2 with returns]
  | |- returns _ (mret (inr _)) => apply throws_ret
  | |- returns _ (build _) => apply throws_build
  | |- returns _ (drop_and _) => apply throws_drop_and
  | |- returns _ (tbind _ _) => first [eapply throws_bind; [solve [eauto 4 with returns]|] | apply throws_any]
  | |- returns _ (try_catch _ _) => apply throws_try
  | |- returns _ (if negb ?b then _ else _) => destruct b eqn:?; cbn [negb]
  | |- returns _ (match ?x with _ => _ end) => destruct x eqn:?
  end; try first [codes_done | cbn; solve [eauto with returns] | case_match; done].

Lemma throws_EnsureConnected : returns (fine_throw fine) (EnsureConnectedLocked (W := W) fuel).
Proof. unfold EnsureConnectedLocked. throw_codes. Qed.

Lemma throws_exchange h p limits : returns (fine_throw fine_result) (exchange (W := W) fuel h p limits).
Proof. unfold exchange. throw_codes. Qed.

#[local] Hint Resolve throws_EnsureConnected throws_exchange : returns.

Lemma throws_ExecuteLocked op p : returns (fine_throw fine_result) (ExecuteLocked (W := W) fuel op p).
Proof. unfold ExecuteLocked. throw_codes. Qed.
End connector.
