(* ===== verification/RpcTheorems.v ===== *)
(** * RPC connector: theorems

    [Get], [Put] and [Ping] for any operating system that meets [SocketLaws] and
    any peer, and a run against a scripted peer. *)

From S2P Require Import Prelude Api BlockKeys BlockCodec WireCodec Sockets TcpConnection TcpTheorems TcpConnect SimSockets.
From S2P Require Import WireFraming TcpConnector RpcInv RpcErrors.
Import TcpConnector.

(** ** Decoding responses *)

#[local] Hint Resolve local_not_ok : core.

Lemma DataOrNull_some (p : bytes) : p <> [] -> DataOrNull p = Some p.
Proof. by destruct p. Qed.

(** A decoded Get payload is the payload. *)
Lemma DecodeGetSuccessPayload_inv mem p limits blob :
  wire.DecodeGetSuccessPayload mem (DataOrNull p) (zlen p) limits = Value blob -> blob = p.
Proof.
  unfold wire.DecodeGetSuccessPayload. destruct (zlen p =? 0) eqn:E0; [done|]. boolZ.
  assert (p <> []) as Hne by (by intros ->). rewrite (DataOrNull_some p Hne). cbv zeta. cbn [wire.ValidatePayloadPointer].
  ok_simpl. destruct (wire.ValidateFrameSizeImpl _ _ _); [|done]. unfold wire.CopyString.
  rewrite (proj2 (Z.eqb_neq _ _)) by done. intros <-%wire.guard_alloc_Value. cbn [wire.memory]. apply take_ge. unfold zlen. lia.
Qed.

Lemma Get_request_decodes mem k p :
  BlockKey_wf k -> wire.EncodeGetRequest mem k = Value p -> wire.DecodeGetRequest (Some p) (zlen p) = Value k.
Proof.
  intros Hk. unfold wire.EncodeGetRequest. destruct (wire.EncodeBlockKey k) as [e|] eqn:Ek; [|done].
  intros <-%wire.guard_alloc_Value. rewrite (wire.EncodeBlockKey_length _ _ Ek). apply Value_inj in Ek as <-.
  rewrite <- (app_nil_r (_ ++ _)). by apply wire.DecodeBlockKey_encoded.
Qed.

Section rpc.
Context {W : Type} `{SocketLaws W} (fuel : nat) (w0 : W) (ep : TcpEndpoint) (o : TcpConnectorOptions).
Context (Hfuel : enough_fuel fuel w0).

Abbreviation self := (TcpConnector * W)%type.
Abbreviation inv := (rpc_inv w0 ep o).

(** The exchange of one call, after the histories the connection had: those of
    the connection from before the call, or of a new one. *)
Definition call_exchanged (s : self) (op : Z) (p : bytes) (f : WireFrame) (s' : self) : Prop :=
  exists tx rx, (history s = Some (tx, rx) \/ tx = [] /\ rx = [])
    /\ exchanged o tx rx (request_of op (next_request_id_ s.1) p) p f s'.

(** ** The methods *)

Lemma twp_Execute s op p (Q : Result WireFrame -> self -> Prop) :
  inv s -> (forall f s', inv s' -> checked o f -> call_exchanged s op p f s' -> Q (Value f) s') ->
  (forall st s', inv s' -> local st -> Q (Error st) s') ->
  twp (ExecuteLocked fuel op p) Q inv s.
Proof.
  intros I HV HE. eapply wp_mono;
    [apply wp_returns, (twp_ExecuteLocked fuel w0 ep o Hfuel (next_request_id_ s.1)); [apply throws_ExecuteLocked|done]|].
  intros [e|[f|st]] s' [Hr Hl]; [apply Hr| |apply HE; [apply Hr|done]].
  destruct Hr as ([I' _] & Hc & tx & rx & Hh & Hx). apply HV; [done..|]. by exists tx, rx.
Qed.

(** The status a response carries, with its code and its message. *)
Definition remote (f : WireFrame) (st : Status) : Prop :=
  Api.code st <> kOk /\ wire.FromWireStatus (wire.status (header f)) = Value (Api.code st)
  /\ exists mem msg, wire.DecodeErrorPayload mem (DataOrNull (payload f)) (zlen (payload f)) (codec_limits o) = Value msg
                     /\ Api.message st = string_of_list_byte msg.

(** Why a call failed: an error of its own, or the peer's answer to its request. *)
Definition failed (s : self) (op : Z) (st : Status) (s' : self) : Prop :=
  local st \/ exists p f, call_exchanged s op p f s' /\ remote f st.

Lemma failed_not_ok s op st s' : failed s op st s' -> ok st = false.
Proof. intros [?|(p & f & _ & Hc & _)]; [by apply local_not_ok|by apply ok_false_iff]. Qed.

Lemma twp_remote_status f s (Q : Status -> self -> Prop) :
  inv s -> (forall st s', inv s' -> local st -> Q st s') -> (forall st, remote f st -> Q st s) -> twp (remote_status f) Q inv s.
Proof.
  intros I HQ HR. unfold remote_status, DecodeRemoteErrorLocked. twp_steps. apply wp_allocate. intros mem.
  assert (forall st, local st -> twp (build (Error st : Result DecodedRemoteError))
    (fun r s' => twp match r with
       | Value e => mret (inr (mkStatus (TcpConnector.code e) (TcpConnector.message e)))
       | Error status => tbind (lift (if decide (Api.code status = kOutOfCapacity) then mret tt else DropConnectionLocked))
                           (fun _ => mret (inr status))
       end Q inv s') inv s) as Herr.
  { intros st Hst. apply twp_build; [|done]. twp_steps. case_decide; twp_steps; [by apply HQ|].
    apply (wp_DropConnectionLocked w0 ep o); [apply I|]. intros s' I' _ _. twp_steps. by apply HQ. }
  rewrite (ow_options _ _ _ _ (proj1 I)).
  destruct (wire.DecodeErrorPayload _ _ _ _) as [msg|st] eqn:Ed; [|by eapply Herr, fine_result_error, Ed; apply fine_DecodeErrorPayload].
  destruct (wire.FromWireStatus _) as [c|st] eqn:Ef; [|by eapply Herr, fine_result_error, Ef; apply fine_FromWireStatus].
  case_decide; [by apply Herr|]. twp_steps. apply HR. split_and!; [done|done|]. by exists mem, msg.
Qed.

Lemma wp_guarded {A} (m : throwing self A) failed bad long (Q : A -> self -> Prop) s :
  twp m Q inv s -> (forall st s', inv s' -> local st -> Q (failed st) s') -> wp (guarded m failed bad long) Q s.
Proof.
  intros Hm HQ. unfold guarded. wp_steps. eapply wp_mono; [exact Hm|]. intros [[]|a] s' Hs; wp_steps; try done; by apply HQ.
Qed.

(** The block a Get response carries. *)
Definition carries (f : WireFrame) (block : Block) : Prop :=
  exists h, block_codec.DeserializeHeader (payload f) = Value h
            /\ block = mkBlock (block_codec.h_metadata h) (block_codec.blob_payload (payload f) h).

Definition get_result (s : self) (key : BlockKey) (r : Result Block) (s' : self) : Prop :=
  inv s' /\ match r with
            | Value block => exists p f mem, wire.EncodeGetRequest mem key = Value p
                /\ call_exchanged s wire.Opcode.kGet p f s' /\ wire.status (header f) = wire.WireStatus.kOk /\ carries f block
            | Error st => failed s wire.Opcode.kGet st s'
            end.

Lemma fine_ValidateConfiguration k : fine (ValidateConfigurationLocked k).
Proof. unfold ValidateConfigurationLocked. pure_codes. Qed.

Lemma fine_ValidateBlockSize b limits : fine (ValidateBlockSize b limits).
Proof. unfold ValidateBlockSize. pure_codes. Qed.

#[local] Hint Resolve fine_ValidateConfiguration fine_ValidateBlockSize : returns.

Lemma wp_rpc_Get s key : inv s -> wp (Get fuel key) (get_result s key) s.
Proof.
  intros I. assert (forall st s', inv s' -> local st -> get_result s key (Error st) s') as Herr.
  { intros st s' I' Hst. split; [done|by left]. }
  apply wp_guarded; [|done]. unfold get_body. twp_steps.
  destruct (ok (ValidateConfigurationLocked s.1)) eqn:Ev; cbn [negb]; [|apply twp_build; [apply Herr|]; eauto with returns].
  twp_steps. apply wp_allocate. intros mem.
  destruct (wire.EncodeGetRequest mem key) as [p|st] eqn:Ee; [|apply twp_build; [apply Herr|]; eauto with returns].
  twp_steps. apply twp_Execute; [done| |intros st s' I' Hst; twp_steps; by apply Herr].
  intros f s1 I1 Hck Hx. destruct (wire.status (header f) =? _) eqn:Es; cbn [negb]; boolZ.
  2: { twp_steps. apply twp_remote_status; [done|intros st s' I' Hst; twp_steps; by apply Herr|].
       intros st Hst. twp_steps. split; [done|]. right. by exists p, f. }
  twp_steps. apply wp_allocate. intros mem2. rewrite (ow_options _ _ _ _ (proj1 I)).
  destruct (wire.DecodeGetSuccessPayload _ _ _ _) as [blob|st] eqn:Ed.
  2: { assert (local st) by (eapply fine_result_error, Ed; apply fine_DecodeGetSuccess). twp_steps. case_decide; twp_steps.
       - by apply twp_build; [apply Herr|].
       - apply (wp_DropConnectionLocked w0 ep o); [apply I1|]. intros s' I' _ _. by apply twp_build; [apply Herr|]. }
  apply DecodeGetSuccessPayload_inv in Ed as ->.
  destruct (block_codec.DeserializeHeader _) as [h|st] eqn:Eh.
  - apply twp_build; [|done]. split; [done|]. exists p, f, mem. split_and!; try done. by exists h.
  - apply (twp_drop_and w0 ep o _ (next_request_id_ s1.1)); [apply I1|done|]. intros s' [I' _]. split; [by apply Herr|done].
Qed.

Definition put_result (s : self) (key : BlockKey) (block : Block) (st : Status) (s' : self) : Prop :=
  inv s' /\ (ok st = true -> exists p f mem, wire.EncodePutRequest mem key (block_codec.SerializeBlock block) (codec_limits o) = Value p
     /\ call_exchanged s wire.Opcode.kPut p f s' /\ wire.status (header f) = wire.WireStatus.kOk)
  /\ (ok st = false -> failed s wire.Opcode.kPut st s').

(** What a call that failed promises about success. *)
Lemma failed_result (P : Prop) s op st s' : failed s op st s' -> (ok st = true -> P) /\ (ok st = false -> failed s op st s').
Proof. intros Hf. pose proof (failed_not_ok _ _ _ _ Hf). split; [congruence|done]. Qed.

Lemma wp_rpc_Put s key block : inv s -> wp (Put fuel key block) (put_result s key block) s.
Proof.
  intros I. assert (forall st s', inv s' -> local st -> put_result s key block st s') as Herr.
  { intros st s' I' Hst. split; [done|]. apply failed_result. by left. }
  apply wp_guarded; [|done]. unfold put_body. twp_steps.
  destruct (ok (ValidateConfigurationLocked s.1)) eqn:Ev; cbn [negb]; [|apply twp_build; [apply Herr|]; eauto with returns].
  rewrite (ow_options _ _ _ _ (proj1 I)).
  destruct (ok (ValidateBlockSize _ _)) eqn:Eb; cbn [negb]; [|apply twp_build; [apply Herr|]; eauto with returns].
  twp_steps. apply twp_build; [|done]. twp_steps. apply wp_allocate. intros mem.
  destruct (wire.EncodePutRequest _ _ _ _) as [p|st] eqn:Ee; [|apply twp_build; [apply Herr|]; eauto with returns].
  twp_steps. apply twp_Execute; [done| |intros st s' I' Hst; twp_steps; by apply Herr].
  intros f s1 I1 Hck Hx. destruct (wire.status (header f) =? _) eqn:Es; cbn [negb]; boolZ.
  - twp_steps. split; [done|]. split; [|done]. intros _. by exists p, f, mem.
  - apply twp_remote_status; [done|done|]. intros st Hst. split; [done|]. apply failed_result. right. by exists p, f.
Qed.

Definition ping_result (s : self) (st : Status) (s' : self) : Prop :=
  inv s' /\ (ok st = true -> exists f, call_exchanged s wire.Opcode.kPing [] f s' /\ wire.status (header f) = wire.WireStatus.kOk)
  /\ (ok st = false -> failed s wire.Opcode.kPing st s').

Lemma wp_rpc_Ping s : inv s -> wp (Ping fuel) (ping_result s) s.
Proof.
  intros I. assert (forall st s', inv s' -> local st -> ping_result s st s') as Herr.
  { intros st s' I' Hst. split; [done|]. apply failed_result. by left. }
  apply wp_guarded; [|done]. unfold ping_body, wire.EncodePingRequest. twp_steps.
  destruct (ok (ValidateConfigurationLocked s.1)) eqn:Ev; cbn [negb]; [|apply twp_build; [apply Herr|]; eauto with returns].
  twp_steps. apply twp_Execute; [done| |intros st s' I' Hst; twp_steps; by apply Herr].
  intros f s1 I1 Hck Hx. destruct (wire.status (header f) =? _) eqn:Es; cbn [negb]; boolZ.
  - twp_steps. split; [done|]. split; [|done]. intros _. by exists f.
  - apply twp_remote_status; [done|done|]. intros st Hst. split; [done|]. apply failed_result. right. by exists [], f.
Qed.
End rpc.

(** ** Sequences of calls *)

Inductive rpc_call : Type :=
| CallGet (key : BlockKey)
| CallPut (key : BlockKey) (block : Block)
| CallPing
| CallClose
| CallIsConnected.

Section calls.
Context {W : Type} `{Sockets W} (fuel : nat).

Definition run_call (c : rpc_call) : comp (TcpConnector * W) unit :=
  match c with
  | CallGet key => Get fuel key ;; mret tt
  | CallPut key block => Put fuel key block ;; mret tt
  | CallPing => Ping fuel ;; mret tt
  | CallClose => Close
  | CallIsConnected => IsConnected ;; mret tt
  end.

Fixpoint run_calls (cs : list rpc_call) : comp (TcpConnector * W) unit :=
  match cs with
  | [] => mret tt
  | c :: cs' => run_call c ;; run_calls cs'
  end.

(** The ids of [n] requests in a row. *)
Fixpoint allocate_ids (n : nat) : comp (TcpConnector * W) (list Z) :=
  match n with
  | O => mret []
  | S n' => i ← AllocateRequestIdLocked; ids ← allocate_ids n'; mret (i :: ids)
  end.
End calls.

Section claims.
Context {W : Type} `{SocketLaws W} (fuel : nat) (w0 : W) (ep : TcpEndpoint) (o : TcpConnectorOptions).

Lemma wp_run_call c s :
  enough_fuel fuel w0 -> rpc_inv w0 ep o s -> wp (run_call fuel c) (fun _ s' => rpc_inv w0 ep o s') s.
Proof.
  intros Hf I. destruct c; cbn [run_call]; wp_steps.
  - eapply wp_mono; [by apply (wp_rpc_Get fuel w0 ep o)|]. intros r s' [I' _]. by wp_steps.
  - eapply wp_mono; [by apply (wp_rpc_Put fuel w0 ep o)|]. intros r s' [I' _]. by wp_steps.
  - eapply wp_mono; [by apply (wp_rpc_Ping fuel w0 ep o)|]. intros r s' [I' _]. by wp_steps.
  - apply (wp_DropConnectionLocked w0 ep o); [apply I|done].
  - apply (wp_IsConnected w0 ep o (next_request_id_ s.1)); [done|]. intros b s' [I' _] _ _. by wp_steps.
Qed.

Lemma wp_run_calls cs : forall s,
  enough_fuel fuel w0 -> rpc_inv w0 ep o s -> wp (run_calls fuel cs) (fun _ s' => rpc_inv w0 ep o s') s.
Proof.
  induction cs as [|c cs IH]; intros s Hf I; cbn [run_calls]; wp_steps; [done|].
  eapply wp_mono; [by apply wp_run_call|]. intros [] s' I'. by apply IH.
Qed.

(** C4. Whatever calls are made, whatever the peer sends and whichever allocation
    fails, every call returns, the connector touches no descriptor but its own, and
    between calls a connection it still holds has carried whole exchanges only:
    its output is a sequence of request frames, its input the response frames that
    answer them one by one.  A response is thus never taken for the answer to
    another request.  Closing gives back the descriptor. *)
Theorem rpc_in_step (cs : list rpc_call) (Hfuel : enough_fuel fuel w0) :
  wp (run_calls fuel cs)
    (fun _ s => rpc_inv w0 ep o s
       /\ wp Close (fun _ s' => connection_ s'.1 = None /\ kept w0 s'.2) s) (make ep o, w0).
Proof.
  eapply wp_mono; [apply wp_run_calls; [done|apply make_inv]|]. intros [] s I. split; [done|].
  apply (wp_DropConnectionLocked w0 ep o); [apply I|]. intros s' [[_ _ _ Hk] _] N _. rewrite N in Hk. done.
Qed.

(** C10. What the results of a call mean.  A [Get] that returns a block sent one
    request that decodes to the key, and the block is the one in the response with
    that request's id, so a peer that answers with the stored block gets it across
    unchanged.  A [Put] that returns success sent one request that decodes to the
    key and the block, and the peer answered that request with success.  A failed
    call reports an error of the client side (invalid argument, network, timeout,
    corrupt response, allocation) or exactly the code and message in the peer's
    response to its request: [kNotFound] is never the client's own invention. *)
Theorem rpc_results (key : BlockKey) (block : Block) (s : TcpConnector * W)
    (Hfuel : enough_fuel fuel w0) (Hkey : BlockKey_wf key) (Hblock : Block_wf block) (Hinv : rpc_inv w0 ep o s) :
  wp (Get fuel key)
    (fun r s' => rpc_inv w0 ep o s' /\
       match r with
       | Error st => ok st = false /\ failed o s wire.Opcode.kGet st s'
       | Value b => exists p f, call_exchanged o s wire.Opcode.kGet p f s'
           /\ wire.DecodeGetRequest (Some p) (zlen p) = Value key
           /\ wire.status (header f) = wire.WireStatus.kOk
           /\ carries f b
           /\ (payload f = block_codec.SerializeBlock block -> b = block)
       end) s
  /\ wp (Put fuel key block)
    (fun st s' => rpc_inv w0 ep o s' /\
       if ok st then exists p f, call_exchanged o s wire.Opcode.kPut p f s'
          /\ wire.DecodePutRequest wire.AllocOk (Some p) (zlen p) (codec_limits o)
             = Value (wire.mkDecodedPutRequest key (block_codec.SerializeBlock block))
          /\ wire.status (header f) = wire.WireStatus.kOk
       else failed o s wire.Opcode.kPut st s') s.
Proof.
  split.
  - eapply wp_mono; [by apply (wp_rpc_Get fuel w0 ep o)|]. intros [b|st] s' [I' Hr]; (split; [done|]).
    2: { split; [by eapply failed_not_ok|done]. }
    destruct Hr as (p & f & mem & Ee & Hx & Hst & Hc). exists p, f. split_and!; try done; [by eapply Get_request_decodes|].
    intros Ep. destruct Hc as (h & Eh & ->). rewrite Ep in *.
    unfold block_codec.DeserializeHeader in Eh. rewrite block_codec.DeserializeHeader_Serialize in Eh by done.
    apply Value_inj in Eh as <-. rewrite block_codec.blob_payload_Serialize. by destruct block.
  - eapply wp_mono; [by apply (wp_rpc_Put fuel w0 ep o)|]. intros st s' (I' & Hr & Hf). split; [done|].
    destruct (ok st); [|by apply Hf].
    destruct (Hr eq_refl) as (p & f & mem & Ee & Hx & Hs). exists p, f. split_and!; [done| |done].
    by rewrite (wire.DecodePutRequest_encoded mem wire.AllocOk key _ _ _ Hkey Ee).
Qed.

Lemma wp_allocate_ids n : forall k i w,
  1 <= i <= u64_max -> i = 1 + k mod u64_max -> 0 <= k ->
  wp (allocate_ids n) (fun ids _ => forall j x, ids !! j = Some x -> x = 1 + (k + Z.of_nat j) mod u64_max)
    (mkConnector ep o None i, w : W).
Proof.
  induction n as [|n IH]; intros k i w Hi Ei Hk; cbn [allocate_ids]; wp_steps; [done|].
  unfold AllocateRequestIdLocked. wp_steps. cbn [fst snd endpoint_ options_ connection_ next_request_id_].
  eapply wp_mono; [apply (IH (k + 1))|].
  - apply (next_id_range i Hi).
  - pose proof (Z.mod_pos_bound k u64_max ltac:(done)). rewrite <- Z.add_mod_idemp_l by done.
    destruct (i =? u64_max) eqn:E; boolZ.
    + replace (k mod u64_max + 1) with u64_max by lia. by rewrite Z_mod_same_full.
    + rewrite (Z.mod_small (_ + 1)) by lia. lia.
  - lia.
  - intros ids s' His. wp_steps. intros [|j] x Hx; cbn in Hx; [simplify_eq; by rewrite Z.add_0_r|].
    rewrite (His _ _ Hx). do 2 f_equal. lia.
Qed.

(** Request ids count up from 1, skip the reserved 0 when the 64-bit counter
    wraps, and a fresh connector repeats one only after [2^64 - 1] requests. *)
Theorem request_ids_fresh (n : nat) :
  wp (allocate_ids n)
    (fun ids _ => (forall j x, ids !! j = Some x -> x = 1 + Z.of_nat j mod u64_max /\ 1 <= x <= u64_max)
       /\ (forall j k x, ids !! j = Some x -> ids !! k = Some x -> (j < k)%nat -> u64_max <= Z.of_nat k - Z.of_nat j))
    (make ep o, w0).
Proof.
  eapply wp_mono; [by apply (wp_allocate_ids n 0); unfold u64_max|]. intros ids s' His. cbv beta in His. split.
  - intros j x Hx. rewrite (His _ _ Hx). rewrite Z.add_0_l. pose proof (Z.mod_pos_bound (Z.of_nat j) u64_max ltac:(done)). lia.
  - intros j k x Hj Hk Hjk. pose proof (His _ _ Hj) as E1. pose proof (His _ _ Hk) as E2. rewrite Z.add_0_l in *.
    pose proof (Z.div_mod (Z.of_nat j) u64_max ltac:(done)). pose proof (Z.div_mod (Z.of_nat k) u64_max ltac:(done)).
    unfold u64_max in *. nia.
Qed.
End claims.

(** ** A scripted peer *)

Definition example_endpoint : TcpEndpoint := mkEndpoint "node-1" 7000.
Definition example_options : TcpConnectorOptions := mkOptions TcpConnection.default_options wire.default_limits.
Definition example_key : BlockKey := mkBlockKey 11 16 3.

Definition response (op i : Z) (p : bytes) : bytes :=
  value_or (wire.EncodeHeader (wire.frame_for wire.MessageKind.kResponse op wire.WireStatus.kOk i p) wire.default_limits) [] ++ p.

(** It answers a [Get] with a block, a [Put] with success, and the third request
    with the id of the second. *)
Definition peer : Sim.world :=
  Sim.mkWorld 0 {[1]} (fun _ => []) (fun _ => [])
    [SysOk (response wire.Opcode.kGet 1 (block_codec.SerializeBlock block_codec.example_block));
     SysOk (response wire.Opcode.kPut 2 []); SysOk (response wire.Opcode.kPing 2 [])]
    [] [] (SysOk [mkAddrinfo 2 1 6 []]) [] [].

Definition example_calls : list rpc_call :=
  [CallGet example_key; CallPut example_key block_codec.example_block; CallPing; CallIsConnected].

(** The block comes across, the put succeeds on the same socket, and the stale
    response makes the connector drop the connection instead of using it. *)
Example rpc_runs :
  match (Get 40 example_key ≫= fun b => Put 40 example_key block_codec.example_block ≫= fun s =>
         IsConnected ≫= fun c1 => Ping 40 ≫= fun p => IsConnected ≫= fun c2 => mret (b, ok s, c1, Api.code p, c2))
        (make example_endpoint example_options, peer) [] with
  | Done (x, s, _) => (x, elements (open_fds s.2)) = (Value block_codec.example_block, true, true, kCorruption, false, [1])
  | Terminated => False
  end.
Proof. vm_compute. reflexivity. Qed.

Lemma rpc_in_step_witness :
  wp (run_calls (Sim.fuel peer) example_calls) (fun _ s => rpc_inv peer example_endpoint example_options s)
    (make example_endpoint example_options, peer).
Proof.
  eapply wp_mono; [apply (rpc_in_step (Sim.fuel peer) peer example_endpoint example_options example_calls), Sim.fuel_enough|].
  by intros [] s [I _].
Defined.

(** A peer that does not have the block. *)
Definition empty_peer : Sim.world :=
  let p := value_or (wire.EncodeErrorPayload wire.AllocOk (list_byte_of_string "no such block") wire.default_limits) [] in
  Sim.mkWorld 0 {[1]} (fun _ => []) (fun _ => [])
    [SysOk (value_or (wire.EncodeHeader (wire.frame_for wire.MessageKind.kResponse wire.Opcode.kGet wire.WireStatus.kNotFound 1 p)
                        wire.default_limits) [] ++ p)]
    [] [] (SysOk [mkAddrinfo 2 1 6 []]) [] [].

Lemma rpc_results_witness :
  match Get 40 example_key (make example_endpoint example_options, empty_peer) [] with
  | Done (r, _, _) => r = Error (NotFound "no such block")
  | Terminated => False
  end
  /\ wp (Get (Sim.fuel empty_peer) example_key)
    (fun r s' => match r with
       | Error st => failed example_options (make example_endpoint example_options, empty_peer) wire.Opcode.kGet st s'
       | Value _ => True
       end) (make example_endpoint example_options, empty_peer).
Proof.
  split; [vm_compute; reflexivity|].
  eapply wp_mono; [refine (proj1 (rpc_results (Sim.fuel empty_peer) empty_peer example_endpoint example_options example_key
      block_codec.example_block _ _ _ _ _));
    [apply Sim.fuel_enough|repeat split; by vm_compute|apply block_codec.example_block_wf|apply make_inv]|].
  intros [b|st] s' [_ Hst]; [done|apply Hst].
Defined.
