(* ===== verification/HealthyLink.v ===== *)
(** * A healthy link

    [SocketLaws] lets every call fail.  Here the environment is assumed to work:
    the address resolves, the connection is accepted, the peer answers what it has
    received, and the clock readings a call needs fall within the timeouts.  Reads
    and writes may still be split at every byte, a read may find nothing yet, and
    the connection may be accepted only later.  Under this assumption
    connecting, exact reads and writes and frames succeed. *)

From S2P Require Import Prelude Api BlockKeys BlockCodec WireCodec Sockets TcpConnection SimSockets WireFraming TcpConnector.
Import TcpConnector.

(** ** Runs without allocation failures *)

(** [m] ends, from [s] and with no failing allocation, in a state that satisfies
    [Q]. *)
Definition runs {S A} (m : comp S A) (Q : A -> S -> Prop) (s : S) : Prop :=
  exists a s', m s [] = Done (a, s', []) /\ Q a s'.

Section runs.
Context {S : Type}.

Lemma runs_ret {A} (a : A) (Q : A -> S -> Prop) s : Q a s -> runs (mret a) Q s.
Proof. intros HQ. by exists a, s. Qed.

Lemma runs_bind {A B} (m : comp S A) (k : A -> comp S B) (Q : B -> S -> Prop) s :
  runs m (fun a s' => runs (k a) Q s') s -> runs (m ≫= k) Q s.
Proof.
  intros (a & s1 & E1 & b & s2 & E2 & HQ). exists b, s2. split; [|done]. unfold mbind, comp_bind. by rewrite E1.
Qed.

Lemma runs_mono {A} (m : comp S A) (Q Q' : A -> S -> Prop) s :
  runs m Q s -> (forall a s', Q a s' -> Q' a s') -> runs m Q' s.
Proof. intros (a & s' & E & HQ) Hi. exists a, s'. auto. Qed.

Lemma runs_get (Q : S -> S -> Prop) s : Q s s -> runs get Q s.
Proof. intros HQ. by exists s, s. Qed.

Lemma runs_gets {A} (f : S -> A) (Q : A -> S -> Prop) s : Q (f s) s -> runs (gets f) Q s.
Proof. intros HQ. by exists (f s), s. Qed.

Lemma runs_modify (f : S -> S) (Q : unit -> S -> Prop) s : Q tt (f s) -> runs (modify f) Q s.
Proof. intros HQ. by exists tt, (f s). Qed.

Lemma runs_zoom {T A} (proj : S -> T) (upd : T -> S -> S) (m : comp T A) (Q : A -> S -> Prop) s :
  runs m (fun a t => Q a (upd t s)) (proj s) -> runs (zoom proj upd m) Q s.
Proof. intros (a & t & E & HQ). exists a, (upd t s). split; [|done]. unfold zoom. by rewrite E. Qed.

Lemma runs_allocate (Q : wire.AllocResult -> S -> Prop) s : Q wire.AllocOk s -> runs allocate Q s.
Proof. intros HQ. by exists wire.AllocOk, s. Qed.

Lemma runs_sys {A} (f : S -> A * S) (Q : A -> S -> Prop) s : Q (f s).1 (f s).2 -> runs (sys f) Q s.
Proof. intros HQ. by exists (f s).1, (f s).2. Qed.

(** Exceptions. *)
Lemma runs_lift {A} (m : comp S A) (Q : Exn + A -> S -> Prop) s : runs m (fun a s' => Q (inr a) s') s -> runs (lift m) Q s.
Proof. intros HQ. apply runs_bind. eapply runs_mono; [done|]. intros a s' Ha. by apply runs_ret. Qed.

Lemma runs_build {A} (a : A) (Q : Exn + A -> S -> Prop) s : Q (inr a) s -> runs (build a) Q s.
Proof. intros HQ. by exists (inr a), s. Qed.

Lemma runs_tbind {A B} (m : throwing S A) (k : A -> throwing S B) (Q : Exn + B -> S -> Prop) s :
  runs m (fun r s' => match r with inr a => runs (k a) Q s' | inl _ => False end) s -> runs (tbind m k) Q s.
Proof. intros HQ. apply runs_bind. eapply runs_mono; [done|]. by intros [e|a] s'. Qed.

Lemma runs_try {A} (m : throwing S A) handler (Q : Exn + A -> S -> Prop) s :
  runs m (fun r s' => match r with inr a => Q (inr a) s' | inl _ => False end) s -> runs (try_catch m handler) Q s.
Proof. intros HQ. apply runs_bind. eapply runs_mono; [done|]. intros [e|a] s' Ha; [done|by apply runs_ret]. Qed.
End runs.

Ltac runs_step :=
  lazymatch goal with
  | |- runs (mret _) _ _ => apply runs_ret
  | |- runs (tbind _ _) _ _ => apply runs_tbind
  | |- runs (lift _) _ _ => apply runs_lift
  | |- runs (build _) _ _ => apply runs_build
  | |- runs (try_catch _ _) _ _ => apply runs_try
  | |- runs allocate _ _ => apply runs_allocate
  | |- runs (_ ≫= _) _ _ => apply runs_bind
  | |- runs get _ _ => apply runs_get
  | |- runs (gets _) _ _ => apply runs_gets
  | |- runs (modify _) _ _ => apply runs_modify
  | |- runs (zoom _ _ _) _ _ => apply runs_zoom
  | |- runs (sys _) _ _ => apply runs_sys
  end; cbv beta iota.

Ltac runs_steps := repeat runs_step.

(** ** The environment *)

(** What a read finds: perhaps nothing yet, after which a poll announces data. *)
Inductive Phase : Type := Flowing | Waiting | Announced.

(** [reply tx] is everything the peer sends in answer to the bytes [tx].  [c] is the
    number of clock readings that still fall within [span] milliseconds of [start]. *)
Class HealthyPeer (W : Type) `{Sockets W} (reply : bytes -> bytes) (start span : Z) : Type := {
  live : Phase -> nat -> Z -> bytes -> bytes -> W -> Prop;
  live_weaken ph c c' fd tx rx w : (c <= c')%nat -> live ph c' fd tx rx w -> live ph c fd tx rx w;
  live_fd ph c fd tx rx w : live ph c fd tx rx w -> 0 <= fd;
  live_now ph c fd tx rx w :
    live ph (S c) fd tx rx w ->
    live ph c fd tx rx (sk_now w).2 /\ start <= (sk_now w).1 < start + span * TcpConnection.ns_per_ms;
  live_interference ph c fd tx rx w :
    live ph c fd tx rx w -> (sk_interference fd w).1 = false /\ live ph c fd tx rx (sk_interference fd w).2;
  live_recv ph c fd tx rx w n p :
    live ph c fd tx rx w -> ph <> Waiting -> 0 < n -> reply tx = rx ++ p -> p <> [] ->
    (exists k : nat, (0 < k)%nat /\ Z.of_nat k <= n /\ (sk_recv fd n w).1 = SysOk (take k p)
       /\ live Flowing c fd tx (rx ++ take k p) (sk_recv fd n w).2)
    \/ ph = Flowing /\ (sk_recv fd n w).1 = SysErr EAGAIN /\ live Waiting c fd tx rx (sk_recv fd n w).2;
  live_poll c fd tx rx w timeout :
    live Waiting c fd tx rx w ->
    exists revents, (sk_poll fd POLLIN timeout w).1 = PollReturned revents
      /\ Z.land revents POLLNVAL = 0 /\ Z.land revents POLLIN <> 0
      /\ live Announced c fd tx rx (sk_poll fd POLLIN timeout w).2;
  live_send c fd tx rx w b :
    live Flowing c fd tx rx w -> b <> [] ->
    exists k, 0 < k <= zlen b /\ (sk_send fd b w).1 = SysOk k
      /\ live Flowing c fd (tx ++ take (Z.to_nat k) b) rx (sk_send fd b w).2;

  (** Before the connection: nothing opened, a socket, a pending connection. *)
  idle : nat -> W -> Prop;
  opening : nat -> Z -> W -> Prop;
  connecting : nat -> Z -> W -> Prop;
  idle_now c w : idle (S c) w -> idle c (sk_now w).2 /\ start <= (sk_now w).1 < start + span * TcpConnection.ns_per_ms;
  idle_getaddrinfo c w host service hints :
    idle c w -> idle c (sk_getaddrinfo host service hints w).2
    /\ exists a rest, (sk_getaddrinfo host service hints w).1 = SysOk (a :: rest);
  idle_socket c w family type protocol :
    idle c w -> exists fd, 0 <= fd /\ (sk_socket family type protocol w).1 = SysOk fd
                 /\ opening c fd (sk_socket family type protocol w).2;
  opening_getfl c fd w : opening c fd w -> opening c fd (sk_getfl fd w).2 /\ exists f, (sk_getfl fd w).1 = SysOk f;
  opening_setfl c fd w f : opening c fd w -> opening c fd (sk_setfl fd f w).2 /\ (sk_setfl fd f w).1 = SysOk tt;
  opening_getfd c fd w : opening c fd w -> opening c fd (sk_getfd fd w).2 /\ exists f, (sk_getfd fd w).1 = SysOk f;
  opening_setfd c fd w f : opening c fd w -> opening c fd (sk_setfd fd f w).2 /\ (sk_setfd fd f w).1 = SysOk tt;
  opening_connect c fd w a :
    opening c fd w ->
    (sk_connect fd a w).1 = SysOk tt /\ live Flowing c fd [] [] (sk_connect fd a w).2
    \/ (sk_connect fd a w).1 = SysErr EINPROGRESS /\ connecting c fd (sk_connect fd a w).2;
  connecting_now c fd w :
    connecting (S c) fd w ->
    connecting c fd (sk_now w).2 /\ start <= (sk_now w).1 < start + span * TcpConnection.ns_per_ms;
  connecting_poll c fd w timeout :
    connecting c fd w ->
    exists revents, (sk_poll fd POLLOUT timeout w).1 = PollReturned revents
      /\ Z.land revents POLLNVAL = 0 /\ Z.land revents POLLOUT <> 0 /\ connecting c fd (sk_poll fd POLLOUT timeout w).2;
  connecting_so_error c fd w :
    connecting c fd w -> (sk_so_error fd w).1 = SysOk 0 /\ live Flowing c fd [] [] (sk_so_error fd w).2
}.

Section live.
Context {W : Type} `{HealthyPeer W reply start span} (fuel : nat).
Import TcpConnection.
Context (Hstart : 0 <= start) (Hclock : start + span * ns_per_ms <= time_max).

(** ** The clock *)

(** No reading within the span reaches the deadline. *)
Definition unexpired (d : Deadline) : Prop := start + span * ns_per_ms <= expires_at_ d.

Lemma deadline_unexpired t timeout :
  start <= t < start + span * ns_per_ms -> span <= timeout -> unexpired (deadline_at t timeout).
Proof. intros Ht Hs. unfold unexpired, deadline_at. destruct (_ <=? timeout); cbn; unfold ns_per_ms in *; lia. Qed.

Abbreviation up fd opts w := (mkConn fd opts false, w : W).

Section link.
Context (fd : Z) (opts : TcpConnectionOptions).

Lemma runs_deadline ph c tx rx w timeout (Q : Deadline -> TcpConnection * W -> Prop) :
  live ph (S c) fd tx rx w -> span <= timeout ->
  (forall d w', unexpired d -> live ph c fd tx rx w' -> Q d (up fd opts w')) ->
  runs (os (new_deadline timeout)) Q (up fd opts w).
Proof.
  intros [L T]%live_now Hs HQ. unfold os, on_os, new_deadline. runs_steps. apply HQ; [by apply deadline_unexpired|done].
Qed.

Lemma runs_Expired ph c tx rx w d (Q : bool -> TcpConnection * W -> Prop) :
  live ph (S c) fd tx rx w -> unexpired d -> (forall w', live ph c fd tx rx w' -> Q false (up fd opts w')) ->
  runs (os (Expired d)) Q (up fd opts w).
Proof.
  intros [L T]%live_now Hd HQ. unfold os, on_os, Expired. runs_steps.
  rewrite (proj2 (Z.leb_gt _ _)) by (unfold unexpired in Hd; cbn in *; lia). by apply HQ.
Qed.

Lemma runs_load_broken ph c tx rx w (Q : bool -> TcpConnection * W -> Prop) :
  live ph c fd tx rx w -> (forall w', live ph c fd tx rx w' -> Q false (up fd opts w')) ->
  runs load_broken Q (up fd opts w).
Proof.
  intros [E L]%live_interference HQ. unfold load_broken, os, on_os. runs_steps. cbn [fst snd set_world socket_fd_].
  rewrite E. runs_steps. by apply HQ.
Qed.

(** ** Exact reads and writes *)

(** A poll after an empty read announces data. *)
Lemma runs_PollReady c tx rx w d op completed target (Q : Status -> TcpConnection * W -> Prop) :
  (0 < fuel)%nat -> live Waiting (S c) fd tx rx w -> (forall w', live Announced c fd tx rx w' -> Q Ok (up fd opts w')) ->
  runs (PollReady fuel snd set_world (Some load_broken) fd POLLIN d op completed target false) Q (up fd opts w).
Proof.
  unfold PollReady. destruct fuel as [|n]; [lia|]. intros _ L HQ. cbn [poll_loop load_flag]. runs_steps. eapply runs_load_broken; [exact L|]. intros w1 L1. unfold on_os, PollTimeoutMilliseconds.
  runs_steps. destruct (live_now _ _ _ _ _ _ L1) as [L2 T2]. cbn [fst snd set_world].
  destruct (live_poll _ _ _ _ _ (poll_timeout_at (sk_now w1).1 d) L2) as (rev & Ep & E1 & E2 & L3). rewrite Ep. runs_steps.
  eapply runs_load_broken; [exact L3|]. intros w4 L4. rewrite (proj2 (Z.eqb_eq _ _) E1). cbn [negb].
  rewrite (proj2 (Z.eqb_neq _ _) E2). cbn [negb]. runs_steps. by apply HQ.
Qed.

Lemma runs_check_deadline (first : bool) ph c tx rx w d (Q : bool -> TcpConnection * W -> Prop) :
  live ph (S c) fd tx rx w -> unexpired d -> (forall w', live ph c fd tx rx w' -> Q false (up fd opts w')) ->
  runs (if first then mret false else os (Expired d)) Q (up fd opts w).
Proof.
  intros L Hd HQ. destruct first; [|by eapply runs_Expired]. runs_steps. apply HQ. eapply live_weaken, L. lia.
Qed.

(** Iterations left to read [p]; each looks at the clock at most twice. *)
Definition reads (ph : Phase) (p : bytes) : nat := (2 * length p + match ph with Flowing => 1 | _ => 0 end)%nat.

Lemma runs_read_loop c target d tx rest : unexpired d -> (0 < fuel)%nat -> forall n ph rx p first got w,
  (reads ph p < n)%nat -> ph <> Waiting -> (p = [] -> ph = Flowing) -> live ph (2 * S (reads ph p) + c) fd tx rx w ->
  reply tx = rx ++ p ++ rest -> zlen got + zlen p = target ->
  runs (read_loop fuel n target d first got)
    (fun x l => x = (Ok, got ++ p) /\ exists w', live Flowing c fd tx (rx ++ p) w' /\ l = up fd opts w') (up fd opts w).
Proof.
  intros Hd Hf. induction n as [|n IH]; intros ph rx p first got w Hn Hph Hp L Er Et; [lia|].
  pose proof (zlen_nonneg p). cbn [read_loop]. cbv zeta. destruct (target <=? zlen got) eqn:Ec; boolZ.
  { assert (p = []) as -> by (apply zlen_nil_iff; lia). rewrite !app_nil_r. runs_steps. split; [done|]. exists w.
    split; [|done]. rewrite (Hp eq_refl) in L. eapply live_weaken, L. lia. }
  assert (p <> []) as Hne by (intros ->; unfold zlen in *; cbn in *; lia).
  runs_steps. eapply (runs_check_deadline _ _ (S (2 * reads ph p + c))); [eapply live_weaken, L; lia|done|]. intros w1 L1. runs_steps. unfold os at 1, on_os. runs_steps.
  cbn [fst snd set_world socket_fd_]. set (m := Z.min (target - zlen got) SSIZE_MAX).
  assert (0 < m <= zlen p) as Hm by (unfold m, SSIZE_MAX; lia).
  destruct (live_recv _ _ _ _ _ _ m (p ++ rest) L1 Hph) as [(k & Hk & Hkm & Eb & L2)|(-> & Ee & L2)];
    [lia|done|by destruct p| |].
  - rewrite take_app_le in Eb, L2 by (unfold zlen in *; lia). rewrite Eb.
    destruct (take k p) as [|x b] eqn:Etk; [by destruct p, k; lia || discriminate || done|]. rewrite <- Etk in *. clear Etk x b.
    assert (length (drop k p) <= length p - 1)%nat by (rewrite length_drop; lia).
    eapply runs_mono; [apply (IH Flowing (rx ++ take k p) (drop k p))|].
    + unfold reads in *; destruct ph; unfold zlen in *; lia.
    + done.
    + done.
    + eapply live_weaken, L2. unfold reads, zlen in *. destruct ph; lia.
    + rewrite <- !app_assoc. by rewrite (app_assoc (take k p)), take_drop.
    + rewrite zlen_app, <- Z.add_assoc, <- zlen_app, take_drop. done.
    + intros x l Hx. by rewrite <- !app_assoc, !take_drop in Hx.
  - rewrite Ee. change (EAGAIN =? EINTR) with false. change ((EAGAIN =? EAGAIN) || (EAGAIN =? EWOULDBLOCK))%bool with true.
    cbv iota. runs_steps. eapply runs_PollReady; [done|exact L2|].
    intros w3 L3. ok_simpl. apply (IH Announced); try done; [|eapply live_weaken, L3]; unfold reads in *; lia.
Qed.

(** Clock readings an exact read or write of [n] bytes may need. *)
Definition cost (n : nat) : nat := (4 * n + 6)%nat.

Lemma runs_ReadExact c target tx rx p rest w :
  (2 * length p + 1 < fuel)%nat -> span <= read_timeout opts -> live Flowing (cost (length p) + c) fd tx rx w ->
  reply tx = rx ++ p ++ rest -> zlen p = target -> p <> [] ->
  runs (ReadExact fuel true target)
    (fun x l => x = (Ok, p) /\ exists w', live Flowing c fd tx (rx ++ p) w' /\ l = up fd opts w') (up fd opts w).
Proof.
  intros Hf Hs L Er Et Hne. pose proof (zlen_pos p Hne). unfold ReadExact. rewrite (proj2 (Z.eqb_neq _ _)) by lia. cbn [negb].
  runs_steps. cbn [fst socket_fd_]. rewrite (proj2 (Z.ltb_ge _ _)) by (by eapply live_fd). runs_steps.
  eapply runs_load_broken; [exact L|]. intros w1 L1. runs_steps. cbn [fst options_].
  eapply (runs_deadline _ (2 * S (reads Flowing p) + c)); [|done|].
  - eapply live_weaken, L1. unfold cost, reads. lia.
  - intros d w2 Hd L2. apply (runs_read_loop c target d tx rest Hd ltac:(lia) fuel Flowing rx p true []);
      [unfold reads; lia|done|done|exact L2|done|].
    unfold zlen in *. cbn. lia.
Qed.

Lemma runs_write_loop c d tx0 rx input : unexpired d -> forall n first out w,
  (length input - Z.to_nat out < n)%nat -> 0 <= out <= zlen input ->
  live Flowing (length input - Z.to_nat out + c) fd (tx0 ++ take (Z.to_nat out) input) rx w ->
  runs (write_loop fuel n input d first out)
    (fun s l => s = Ok /\ exists w', live Flowing c fd (tx0 ++ input) rx w' /\ l = up fd opts w') (up fd opts w).
Proof.
  intros Hd. induction n as [|n IH]; intros first out w Hn Ho L; [lia|]. cbn [write_loop]. cbv zeta.
  destruct (zlen input <=? out) eqn:Ec; boolZ.
  { runs_steps. split; [done|]. exists w. split; [|done]. rewrite take_ge in L by (unfold zlen in *; lia).
    eapply live_weaken, L. lia. }
  assert (Z.to_nat out < length input)%nat by (unfold zlen in *; lia).
  runs_steps. eapply (runs_check_deadline _ _ (length input - Z.to_nat out - 1 + c)); [eapply live_weaken, L; lia|done|].
  intros w1 L1. runs_steps. unfold os at 1, on_os. runs_steps. cbn [fst snd set_world socket_fd_].
  set (m := Z.min (zlen input - out) SSIZE_MAX). assert (0 < m <= zlen input - out) as Hm by (unfold m, SSIZE_MAX; lia).
  set (b := take (Z.to_nat m) (drop (Z.to_nat out) input)).
  assert (zlen b = m) as Hb by (unfold b, zlen in *; rewrite length_take, length_drop; lia).
  destruct (live_send _ _ _ _ _ b L1) as (k & Hk & Ek & L2); [intros E; rewrite E in Hb; unfold zlen in Hb; cbn in Hb; lia|].
  rewrite Ek, (proj2 (Z.ltb_lt 0 k)) by lia. apply IH; [unfold zlen in *; lia|unfold zlen in *; lia|].
  assert (tx0 ++ take (Z.to_nat (out + k)) input = (tx0 ++ take (Z.to_nat out) input) ++ take (Z.to_nat k) b) as ->.
  { unfold b. rewrite <- app_assoc, take_take, Nat.min_l, Z2Nat.inj_add by lia. by rewrite take_take_drop. }
  eapply live_weaken, L2. lia.
Qed.

Lemma runs_WriteExact c tx rx input w :
  (length input < fuel)%nat -> span <= write_timeout opts -> live Flowing (cost (length input) + c) fd tx rx w -> input <> [] ->
  runs (WriteExact fuel (Some input) (zlen input))
    (fun s l => s = Ok /\ exists w', live Flowing c fd (tx ++ input) rx w' /\ l = up fd opts w') (up fd opts w).
Proof.
  intros Hf Hs L Hne. pose proof (zlen_pos input Hne). unfold WriteExact. rewrite (proj2 (Z.eqb_neq _ _)) by lia.
  runs_steps. cbn [fst socket_fd_]. rewrite (proj2 (Z.ltb_ge _ _)) by (by eapply live_fd). runs_steps.
  eapply runs_load_broken; [exact L|]. intros w1 L1. runs_steps. cbn [fst options_].
  rewrite take_ge by (unfold zlen; lia).
  eapply (runs_deadline _ (length input + c)); [eapply live_weaken, L1; unfold cost; lia|done|].
  intros d w2 Hd L2. apply runs_write_loop; [done|cbn; lia|lia|]. cbn. rewrite app_nil_r. eapply live_weaken, L2. lia.
Qed.

(** ** Frames *)

(** Fuel and clock readings for a frame of [n] bytes. *)
Definition enough (n : nat) : Prop := (2 * n + 1 < fuel)%nat.
Definition frame_cost (n : nat) : nat := (2 * cost n)%nat.

Lemma framed_lengths limits h p b :
  framed limits h p b -> exists e, b = e ++ p /\ wire.EncodeHeader h limits = Value e /\ zlen e = wire.kHeaderBytes
    /\ wire.DecodeHeader (Some e) wire.kHeaderBytes limits = Value h
    /\ wire.ValidateFrameSize (wire.payload_bytes h) limits = Value (wire.kHeaderBytes + zlen p).
Proof.
  intros [Hwf Hsz (e & Ee & ->)]. destruct (wire.DecodeHeader_encoded _ _ _ Hwf Ee) as [Hl Hd]. exists e.
  assert (0 <= wire.payload_bytes h) as Hp by apply Hwf. split_and!; try done.
  apply wire.EncodeHeader_inv in Ee as [Hv _]; [|done]. rewrite <- Hsz. apply wire.ValidateFrameSizeImpl_complete; [done|apply Hv].
Qed.

Lemma runs_WriteWireFrame c limits h p b tx rx w :
  framed limits h p b -> enough (length b) -> span <= write_timeout opts -> live Flowing (frame_cost (length b) + c) fd tx rx w ->
  runs (WriteWireFrame fuel h p limits)
    (fun s l => s = Ok /\ exists w', live Flowing c fd (tx ++ b) rx w' /\ l = up fd opts w') (up fd opts w).
Proof.
  intros Hfr Hf Hs L. destruct (framed_lengths _ _ _ _ Hfr) as (e & -> & Ee & Hl & _ & _). destruct Hfr as [_ Hsz _].
  unfold enough, frame_cost, cost in *. rewrite length_app in *. unfold WriteWireFrame. rewrite Hsz, Z.eqb_refl. cbn [negb]. rewrite Ee.
  runs_steps. eapply runs_mono; [apply (runs_WriteExact (cost (length p) + c) tx rx e); [lia|done| |by intros ->]|].
  { eapply live_weaken, L. unfold cost. lia. }
  intros s l (-> & w1 & L1 & ->). ok_simpl. cbn [negb]. destruct p as [|x p'] eqn:Ep.
  - runs_steps. rewrite app_nil_r. split; [done|]. exists w1. split; [|done]. eapply live_weaken, L1. unfold cost. lia.
  - rewrite <- Ep in *. rewrite app_assoc. apply runs_WriteExact; [lia|done|done|by rewrite Ep].
Qed.

Lemma runs_ReadWireFrame c limits h p b tx rx rest w :
  framed limits h p b -> enough (length b) -> span <= read_timeout opts -> live Flowing (frame_cost (length b) + c) fd tx rx w ->
  reply tx = rx ++ b ++ rest ->
  runs (ReadWireFrame fuel limits)
    (fun r l => r = Value (mkFrame h p) /\ exists w', live Flowing c fd tx (rx ++ b) w' /\ l = up fd opts w') (up fd opts w).
Proof.
  intros Hfr Hf Hs L Er. destruct (framed_lengths _ _ _ _ Hfr) as (e & -> & _ & Hl & Hd & Hz).
  unfold enough, frame_cost, cost in *. rewrite length_app in *. unfold ReadWireFrame. rewrite <- app_assoc in Er.
  runs_steps. eapply runs_mono; [apply (runs_ReadExact (cost (length p) + c) _ tx rx e (p ++ rest)); [lia|done| |done|done|by intros ->]|].
  { eapply live_weaken, L. unfold cost. lia. }
  intros x l (-> & w1 & L1 & ->). cbn [fst snd]. ok_simpl. cbn [negb]. rewrite Hd, Hz.
  replace (wire.kHeaderBytes + zlen p - wire.kHeaderBytes) with (zlen p) by lia. destruct (zlen p =? 0) eqn:E0; boolZ; cbn [negb].
  - runs_steps. apply zlen_nil_iff in E0 as ->. rewrite app_nil_r. split; [done|]. exists w1. split; [|done].
    eapply live_weaken, L1. unfold cost. lia.
  - runs_steps. eapply runs_mono; [apply (runs_ReadExact c (zlen p) tx (rx ++ e) p rest); [lia|done|done| |done|]|].
    + by rewrite <- app_assoc.
    + intros ->. by unfold zlen in E0.
    + intros y l (-> & w2 & L2 & ->). cbn [fst snd]. ok_simpl. cbn [negb]. runs_steps. rewrite app_assoc. split; [done|]. by exists w2.
Qed.
End link.

(** ** Connecting *)

Lemma runs_ConfigureSocket c fd w (Q : Status -> W -> Prop) :
  opening c fd w -> (forall w', opening c fd w' -> Q Ok w') -> runs (ConfigureSocket fd) Q w.
Proof.
  intros O HQ. unfold ConfigureSocket. runs_steps. destruct (opening_getfl _ _ _ O) as [O1 [f1 ->]].
  assert (forall w', opening c fd w' -> runs
    (fdf ← sys (sk_getfd fd);
     match fdf with
     | SysErr e => mret (NetworkError ("TcpConnection: fcntl(F_GETFD) failed: " +:+ ErrnoText (W := W) e)%string)
     | SysOk descriptor_flags =>
         set ← (if Z.land descriptor_flags FD_CLOEXEC =? 0
                then sys (sk_setfd fd (Z.lor descriptor_flags FD_CLOEXEC)) else mret (SysOk tt));
         match set with
         | SysErr e => mret (NetworkError ("TcpConnection: fcntl(F_SETFD FD_CLOEXEC) failed: " +:+ ErrnoText (W := W) e)%string)
         | SysOk _ => mret Ok
         end
     end) Q w') as Hfd.
  { intros w' O'. runs_steps. destruct (opening_getfd _ _ _ O') as [O2 [f2 ->]]. destruct (_ =? 0); runs_steps; [|by apply HQ].
    destruct (opening_setfd _ _ _ (Z.lor f2 FD_CLOEXEC) O2) as [O3 ->]. runs_steps. by apply HQ. }
  apply runs_bind. destruct (_ =? 0); runs_step; [|by apply Hfd].
  destruct (opening_setfl _ _ _ (Z.lor f1 O_NONBLOCK) O1) as [O2 ->]. by apply Hfd.
Qed.

Lemma runs_Connect c host port options w :
  host <> ""%string -> port <> 0 -> ok (ValidateOptions options) = true -> span <= connect_timeout options -> (0 < fuel)%nat ->
  idle (3 + c) w ->
  runs (Connect fuel host port options)
    (fun r w' => exists fd, r = Value (make fd options) /\ live Flowing c fd [] [] w') w.
Proof.
  intros Hh Hp Hv Hs Hf I. unfold Connect. rewrite (proj2 (String.eqb_neq _ _) Hh), (proj2 (Z.eqb_neq _ _) Hp), Hv. cbn [negb].
  runs_steps. destruct (idle_getaddrinfo _ _ host (to_string port) (mkAddrinfo AF_UNSPEC SOCK_STREAM IPPROTO_TCP []) I)
    as [I1 (a & rest & ->)]. unfold new_deadline. runs_steps.
  destruct (idle_now _ _ I1) as [I2 T2]. pose proof (deadline_unexpired _ _ T2 Hs) as Hd. cbn [try_candidates].
  unfold Expired. runs_steps. destruct (idle_now _ _ I2) as [I3 T3].
  rewrite (proj2 (Z.leb_gt _ _)) by (unfold unexpired in Hd; lia). unfold CreateNonBlockingSocket. runs_steps.
  destruct (idle_socket _ _ (ai_family a) (Z.lor (Z.lor (ai_socktype a) SOCK_NONBLOCK) SOCK_CLOEXEC) (ai_protocol a) I3)
    as (fd & Hfd & -> & O4). runs_steps. eapply runs_ConfigureSocket; [exact O4|]. intros w5 O5. ok_simpl. cbn [negb]. runs_steps.
  destruct (opening_connect _ _ _ (ai_addr a) O5) as [[-> L]|[-> C6]].
  { runs_steps. exists fd. split; [done|]. eapply live_weaken, L. lia. }
  change (EINPROGRESS =? EINPROGRESS) with true. cbn [negb andb]. runs_steps. unfold PollReady. destruct fuel as [|n]; [lia|].
  cbn [poll_loop load_flag]. unfold on_os, PollTimeoutMilliseconds. runs_steps. cbn [id].
  destruct (connecting_now _ _ _ C6) as [C7 T7].
  match goal with |- context [sk_poll fd POLLOUT ?t ?w7] =>
    destruct (connecting_poll _ _ w7 t C7) as (rev & Ep & E1 & E2 & C8); rewrite Ep end.
  runs_steps. rewrite (proj2 (Z.eqb_eq _ _) E1), (proj2 (Z.eqb_neq _ _) E2). cbn [negb]. runs_steps. ok_simpl. cbn [negb]. runs_steps.
  destruct (connecting_so_error _ _ _ C8) as [-> L9]. change (0 =? 0) with true. cbn [negb]. runs_steps. by exists fd.
Qed.
End live.
