(* ===== verification/RpcLiveness.v ===== *)
(** * RPC connector: a healthy peer is reached

    On a link as described by [HealthyPeer], with no failing allocation and the
    clock within the timeouts, every call completes with the peer's answer; a block
    stored through the connector is read back. *)

From S2P Require Import Prelude Api BlockKeys BlockCodec WireCodec Sockets TcpConnection SimSockets WireFraming TcpConnector.
From S2P Require Import RpcInv RpcErrors RpcTheorems HealthyLink.
Import TcpConnector.

(** The bytes of a frame are its header and its payload. *)
Lemma framed_length limits h p b : framed limits h p b -> length b = (32 + length p)%nat.
Proof.
  intros (e & -> & _ & Hl & _)%framed_lengths. rewrite length_app. unfold zlen, wire.kHeaderBytes in Hl. lia.
Qed.

Section connector.
Context {W : Type} `{HealthyPeer W reply start span} (fuel : nat) (ep : TcpEndpoint) (o : TcpConnectorOptions).
Context (Hstart : 0 <= start) (Hclock : start + span * TcpConnection.ns_per_ms <= time_max).

Abbreviation self := (TcpConnector * W)%type.
Abbreviation limits := (codec_limits o).

(** The configuration is valid and its timeouts cover the span. *)
Record patient : Prop := {
  pa_config : ok (ValidateConfigurationLocked (make ep o)) = true;
  pa_connect : span <= TcpConnection.connect_timeout (connection o);
  pa_read : span <= TcpConnection.read_timeout (connection o);
  pa_write : span <= TcpConnection.write_timeout (connection o)
}.

Context (Hpa : patient).

Lemma config_valid :
  host ep <> ""%string /\ port ep <> 0 /\ ok (TcpConnection.ValidateOptions (connection o)) = true
  /\ wire.kHeaderBytes <= wire.max_frame_bytes limits.
Proof.
  destruct Hpa as [Hc _ _ _]. unfold ValidateConfigurationLocked in Hc. cbn [make endpoint_ options_] in Hc. cbv zeta in Hc.
  destruct (String.eqb _ _) eqn:E1; [done|]. destruct (port ep =? 0) eqn:E2; [done|]. destruct (_ || _)%bool eqn:E3; [done|].
  destruct (_ <? wire.kHeaderBytes) eqn:E4; [done|]. apply String.eqb_neq in E1. boolZ. unfold TcpConnection.ValidateOptions.
  rewrite !(proj2 (Z.ltb_ge _ _)) by lia. split_and!; done.
Qed.

(** The connector at rest: request id [i] is next, [tx] and [rx] have crossed its
    connection, and [c] clock readings are left. *)
Record attached (i : Z) (c : nat) (tx rx : bytes) (s : self) : Prop := {
  at_endpoint : endpoint_ s.1 = ep;
  at_options : options_ s.1 = o;
  at_id : next_request_id_ s.1 = i;
  at_link : match connection_ s.1 with
            | None => idle (3 + c) s.2 /\ tx = [] /\ rx = []
            | Some cn => cn = TcpConnection.mkConn (socket_fd_ cn) (connection o) false
                         /\ live Flowing c (socket_fd_ cn) tx rx s.2
            end
}.

Lemma runs_on_conn {A} (m : comp (TcpConnection.TcpConnection * W) A) s cn (Q : A -> self -> Prop) :
  connection_ s.1 = Some cn ->
  runs m (fun a l => Q a (set_connection (Some l.1) s.1, l.2)) (cn, s.2) -> runs (on_conn m) Q s.
Proof.
  intros Ec (a & l & E & HQ). exists a, (set_connection (Some l.1) s.1, l.2). split; [|done]. unfold on_conn. by rewrite Ec, E.
Qed.

Lemma runs_EnsureConnected i c tx rx s :
  (0 < fuel)%nat -> attached i c tx rx s ->
  runs (EnsureConnectedLocked fuel)
    (fun r s' => r = inr Ok /\ attached i c tx rx s' /\ is_Some (connection_ s'.1)) s.
Proof.
  intros Hf [A1 A2 A3 A4]. destruct config_valid as (Hh & Hp & Hv & _).
  unfold EnsureConnectedLocked, IsConnected. runs_steps. destruct (connection_ s.1) as [cn|] eqn:Ec; runs_steps.
  - destruct A4 as [E L]. apply (runs_on_conn _ _ cn); [done|]. unfold TcpConnection.IsOpen. runs_steps. cbn [fst].
    rewrite (proj2 (Z.ltb_ge _ _)) by (by eapply live_fd). runs_steps. rewrite E.
    eapply runs_load_broken; [exact L|]. intros w1 L1. runs_steps. cbn [negb]. runs_steps. split_and!; [done| |by eexists].
    by split.
  - unfold DropConnectionLocked. runs_steps. rewrite Ec. runs_steps. unfold on_os. runs_steps. destruct A4 as (I & -> & ->).
    rewrite A1, A2. eapply runs_mono; [apply (runs_Connect fuel Hclock c); try done; apply Hpa|].
    intros r w1 (fd & -> & L1). runs_steps. cbn [fst snd]. split_and!; [done| |by eexists]. by split.
Qed.

(** ** One exchange *)

Definition response_of (op i st : Z) (q : bytes) : wire.FrameHeader := wire.frame_for wire.MessageKind.kResponse op st i q.

(** The peer answers request [i], with payload [p], by status [st] and payload [q]. *)
Definition answered (tx rx : bytes) (op i : Z) (p : bytes) (st : Z) (q bq br : bytes) : Prop :=
  framed limits (request_of op i p) p bq /\ framed limits (response_of op i st q) q br /\ reply (tx ++ bq) = rx ++ br.

(** Clock readings and fuel for a request of [n] and a response of [m] payload bytes. *)
Definition call_cost (n m : nat) : nat := (frame_cost (32 + n) + frame_cost (32 + m))%nat.

Lemma runs_exchange i c tx rx s op p st q bq br j :
  attached i (call_cost (length p) (length q) + c) tx rx s -> is_Some (connection_ s.1) ->
  answered tx rx op j p st q bq br -> enough fuel (32 + length p) -> enough fuel (32 + length q) ->
  ok (wire.ValidateResponse wire.AllocOk (response_of op j st q) (DataOrNull q) (zlen q) limits) = true ->
  runs (exchange fuel (request_of op j p) p limits)
    (fun r s' => r = inr (Value (mkFrame (response_of op j st q) q)) /\ attached i c (tx ++ bq) (rx ++ br) s') s.
Proof.
  intros [A1 A2 A3 A4] [cn Ec] (Fq & Fr & Er) Hq Hr Hv. rewrite Ec in A4. destruct A4 as [E L].
  pose proof (framed_length _ _ _ _ Fq) as Lq. pose proof (framed_length _ _ _ _ Fr) as Lr.
  unfold call_cost in L. rewrite <- Lq, <- Lr in *. unfold exchange. runs_steps. apply (runs_on_conn _ _ cn); [done|]. rewrite E.
  eapply runs_mono; [apply (runs_WriteWireFrame fuel Hclock (socket_fd_ cn) (connection o) (frame_cost (length br) + c)); try done;
    [apply Hpa|eapply live_weaken, L; lia]|].
  intros s1 l (-> & w1 & L1 & ->). ok_simpl. cbn [negb]. runs_steps.
  eapply runs_on_conn; [done|]. cbn [fst snd].
  eapply runs_mono; [apply (runs_ReadWireFrame fuel Hclock (socket_fd_ cn) (connection o) c limits (response_of op j st q) q br (tx ++ bq) rx []); try done;
    [apply Hpa|by rewrite app_nil_r]|].
  intros r l (-> & w2 & L2 & ->). cbn [header payload]. cbn [response_of request_of wire.frame_for wire.kind wire.opcode wire.request_id].
  rewrite !Z.eqb_refl. cbn [negb]. runs_steps. fold (response_of op j st q). rewrite Hv. cbn [negb]. runs_steps. split; [done|].
  by split.
Qed.

Lemma runs_Execute i c tx rx s op p st q bq br :
  attached i (call_cost (length p) (length q) + c) tx rx s -> 1 <= i <= u64_max ->
  answered tx rx op i p st q bq br -> enough fuel (32 + length p) -> enough fuel (32 + length q) ->
  ok (wire.ValidateRequest wire.AllocOk (request_of op i p) (DataOrNull p) (zlen p) limits) = true ->
  ok (wire.ValidateResponse wire.AllocOk (response_of op i st q) (DataOrNull q) (zlen q) limits) = true ->
  runs (ExecuteLocked fuel op p)
    (fun r s' => r = inr (Value (mkFrame (response_of op i st q) q)) /\ attached (next_id i) c (tx ++ bq) (rx ++ br) s') s.
Proof.
  intros At Hi Ha Hq Hr Hvq Hvr. pose proof At as [A1 A2 A3 A4]. unfold ExecuteLocked, AllocateRequestIdLocked. runs_steps.
  rewrite A2, A3. fold (next_id i). change (wire.mkFrameHeader _ _ _ _ _ _) with (request_of op i p). rewrite Hvq. cbn [negb]. runs_steps.
  eapply runs_mono; [apply (runs_EnsureConnected (next_id i) (call_cost (length p) (length q) + c) tx rx)|].
  - unfold enough in Hq. lia.
  - by split.
  - intros r s2 (-> & At2 & Hc2). ok_simpl. cbn [negb]. runs_steps.
    eapply runs_mono; [by apply (runs_exchange (next_id i) c tx rx s2 op p st q bq br i)|]. intros x s3 (-> & At3). by split.
Qed.

(** ** Calls *)

(** The response frame fits when the request that stored the block does. *)
Lemma block_fits block :
  Block_wf block -> ok (ValidateBlockSize block limits) = true ->
  zlen (block_codec.SerializeBlock block) + wire.kBlockKeyBytes + wire.kHeaderBytes <= Z.min (wire.max_frame_bytes limits) u64_max.
Proof.
  intros [_ Hb] Hv. unfold ValidateBlockSize in Hv. cbv zeta in Hv. fold (size_bytes block) in Hv. unfold kEnvelopeBytes in Hv.
  rewrite block_codec.SerializeBlock_length. destruct (_ <? size_bytes block) eqn:E; boolZ; [done|].
  unfold in_range in Hb. rewrite wrap_small in Hv by (unfold in_range, u64_max, wire.kBlockKeyBytes, block_codec.kHeaderSize in *; lia).
  destruct (wire.ValidateFrameSize _ _) as [r|e] eqn:Ef.
  - apply wire.ValidateFrameSizeImpl_spec in Ef; unfold wire.kBlockKeyBytes, block_codec.kHeaderSize in *; lia.
  - apply fine_result_error in Ef; [|apply fine_FrameSize]. apply local_not_ok in Ef. congruence.
Qed.

(** A frame whose header obeys the protocol can be put on the wire. *)
Lemma framed_exists h p :
  wire.FrameHeader_wf h -> wire.payload_bytes h = zlen p -> ok (wire.ValidateHeaderFields h limits true) = true ->
  exists b, framed limits h p b.
Proof.
  intros Hw Hs Hv. assert (0 <= wire.payload_bytes h) by apply Hw. apply wire.ValidateHeaderFields_spec in Hv; [|done].
  destruct (wire.EncodeHeader h limits) as [e|st] eqn:Ee; [exists (e ++ p); split; eauto|].
  unfold wire.EncodeHeader in Ee. cbv zeta in Ee. by rewrite (proj2 (wire.ValidateHeaderFields_spec h limits false ltac:(done)) Hv) in Ee.
Qed.

Lemma framed_valid h p b : framed limits h p b -> ok (wire.ValidateHeaderFields h limits true) = true.
Proof.
  intros [Hw _ (e & Ee & _)]. assert (0 <= wire.payload_bytes h) by apply Hw.
  apply wire.ValidateHeaderFields_spec; [done|]. by apply wire.EncodeHeader_inv in Ee as [Hv _].
Qed.

(** The client accepts the frames of both directions. *)
Lemma put_request_valid i key blob p b :
  1 <= i -> BlockKey_wf key -> wire.EncodePutRequest wire.AllocOk key blob limits = Value p ->
  framed limits (request_of wire.Opcode.kPut i p) p b ->
  ok (wire.ValidateRequest wire.AllocOk (request_of wire.Opcode.kPut i p) (DataOrNull p) (zlen p) limits) = true.
Proof.
  intros Hi Hk Ep Fq. destruct (wire.EncodePutRequest_inv _ _ _ _ _ Ep) as (e & _ & Epe & Hbl & _).
  rewrite DataOrNull_some by (intros Enil; rewrite Epe in Enil; by apply app_nil in Enil as [_ ?]).
  unfold request_of. rewrite wire.ValidateRequest_accepts; [|tauto|done|by eapply framed_valid].
  cbn [Z.eqb]. change (wire.Opcode.kPut =? wire.Opcode.kGet) with false. rewrite Z.eqb_refl.
  by rewrite (wire.DecodePutRequest_encoded wire.AllocOk wire.AllocOk key _ _ _ Hk Ep).
Qed.

Lemma get_request_valid i key p b :
  1 <= i -> BlockKey_wf key -> wire.EncodeGetRequest wire.AllocOk key = Value p ->
  framed limits (request_of wire.Opcode.kGet i p) p b ->
  ok (wire.ValidateRequest wire.AllocOk (request_of wire.Opcode.kGet i p) (DataOrNull p) (zlen p) limits) = true.
Proof.
  intros Hi Hk Ep Fq. pose proof (Get_request_decodes _ _ _ Hk Ep) as Hd.
  rewrite DataOrNull_some by (intros ->; discriminate Hd).
  unfold request_of. rewrite wire.ValidateRequest_accepts; [|tauto|done|by eapply framed_valid]. by rewrite Z.eqb_refl, Hd.
Qed.

Lemma empty_response_valid op i b :
  op = wire.Opcode.kPut \/ op = wire.Opcode.kPing -> 1 <= i -> framed limits (response_of op i wire.WireStatus.kOk []) [] b ->
  ok (wire.ValidateResponse wire.AllocOk (response_of op i wire.WireStatus.kOk []) (DataOrNull []) (zlen (@nil byte)) limits) = true.
Proof.
  intros Ho Hi Fr. pose proof (framed_valid _ _ _ Fr) as Hv. unfold wire.ValidateResponse. cbv zeta. rewrite Hv.
  unfold response_of. cbn [wire.frame_for wire.kind wire.request_id wire.opcode wire.status].
  rewrite (proj2 (Z.eqb_neq i 0)) by lia. by destruct Ho as [-> | ->].
Qed.

Lemma get_response_valid i blob b :
  1 <= i -> blob <> [] -> framed limits (response_of wire.Opcode.kGet i wire.WireStatus.kOk blob) blob b ->
  wire.DecodeGetSuccessPayload wire.AllocOk (DataOrNull blob) (zlen blob) limits = Value blob
  /\ ok (wire.ValidateResponse wire.AllocOk (response_of wire.Opcode.kGet i wire.WireStatus.kOk blob) (DataOrNull blob) (zlen blob) limits)
     = true.
Proof.
  intros Hi Hne Fr. destruct (framed_lengths _ _ _ _ Fr) as (e & _ & _ & _ & _ & Hz).
  assert (wire.EncodeGetSuccessPayload wire.AllocOk blob limits = Value blob) as Ee.
  { unfold wire.EncodeGetSuccessPayload. cbn [response_of wire.frame_for wire.payload_bytes] in Hz. rewrite Hz. by destruct blob. }
  apply wire.DecodeGetSuccessPayload_encoded in Ee. rewrite DataOrNull_some by done. split; [done|].
  unfold response_of. rewrite wire.ValidateResponse_accepts; [|tauto|done|by eapply framed_valid].
  rewrite !Z.eqb_refl. cbn [negb]. by rewrite Ee.
Qed.

Lemma runs_guarded {A} (m : throwing self A) failed bad long (Q : A -> self -> Prop) s :
  runs m (fun r s' => match r with inr a => Q a s' | inl _ => False end) s -> runs (guarded m failed bad long) Q s.
Proof. intros HQ. unfold guarded. runs_steps. eapply runs_mono; [done|]. intros [e|a] s' Ha; [done|]. by runs_steps. Qed.

Lemma runs_Put i c tx rx s key block p bq br :
  attached i (call_cost (length p) 0 + c) tx rx s -> 1 <= i <= u64_max -> BlockKey_wf key -> Block_wf block ->
  ok (ValidateBlockSize block limits) = true ->
  wire.EncodePutRequest wire.AllocOk key (block_codec.SerializeBlock block) limits = Value p ->
  answered tx rx wire.Opcode.kPut i p wire.WireStatus.kOk [] bq br -> enough fuel (32 + length p) ->
  runs (Put fuel key block) (fun st s' => st = Ok /\ attached (next_id i) c (tx ++ bq) (rx ++ br) s') s.
Proof.
  intros At Hi Hk Hb Hv Ep Ha Hf. pose proof At as [A1 A2 A3 A4]. apply runs_guarded. unfold put_body. runs_steps.
  assert (ValidateConfigurationLocked s.1 = ValidateConfigurationLocked (make ep o)) as ->
    by (unfold ValidateConfigurationLocked; by rewrite A1, A2).
  rewrite (pa_config Hpa), A2, Hv. cbn [negb]. runs_steps. rewrite Ep. runs_steps.
  pose proof Ha as (Fq & Fr & _).
  eapply runs_mono; [apply (runs_Execute i c tx rx s wire.Opcode.kPut p wire.WireStatus.kOk [] bq br); try done|].
  - unfold enough in *. cbn. lia.
  - by eapply put_request_valid, Fq; [lia|..].
  - by eapply empty_response_valid; [left|lia|].
  - intros r s' (-> & At'). cbn [header response_of wire.frame_for wire.status]. rewrite Z.eqb_refl. cbn [negb]. by runs_steps.
Qed.

Lemma runs_Get i c tx rx s key block p bq br :
  let blob := block_codec.SerializeBlock block in
  attached i (call_cost (length p) (length blob) + c) tx rx s -> 1 <= i <= u64_max -> BlockKey_wf key -> Block_wf block ->
  wire.EncodeGetRequest wire.AllocOk key = Value p ->
  answered tx rx wire.Opcode.kGet i p wire.WireStatus.kOk blob bq br ->
  enough fuel (32 + length p) -> enough fuel (32 + length blob) ->
  runs (Get fuel key) (fun r s' => r = Value block /\ attached (next_id i) c (tx ++ bq) (rx ++ br) s') s.
Proof.
  intros blob At Hi Hk Hb Ep Ha Hf1 Hf2. pose proof At as [A1 A2 A3 A4]. apply runs_guarded. unfold get_body. runs_steps.
  assert (ValidateConfigurationLocked s.1 = ValidateConfigurationLocked (make ep o)) as ->
    by (unfold ValidateConfigurationLocked; by rewrite A1, A2).
  rewrite (pa_config Hpa). cbn [negb]. runs_steps. rewrite Ep. runs_steps. pose proof Ha as (Fq & Fr & _).
  assert (blob <> []) as Hne.
  { intros E. pose proof (block_codec.SerializeBlock_length block) as Hl. fold blob in Hl. rewrite E in Hl.
    pose proof (zlen_nonneg (data block)). unfold size_bytes, block_codec.kHeaderSize in Hl. unfold zlen at 1 in Hl. cbn in Hl. lia. }
  destruct (get_response_valid i blob br ltac:(lia) Hne Fr) as [Hd Hv].
  eapply runs_mono; [apply (runs_Execute i c tx rx s wire.Opcode.kGet p wire.WireStatus.kOk blob bq br); try done|].
  - by eapply get_request_valid, Fq; [lia|..].
  - intros r s' (-> & At'). cbn [header payload response_of wire.frame_for wire.status]. rewrite Z.eqb_refl. cbn [negb]. runs_steps.
    rewrite A2, Hd. unfold blob at 1, block_codec.DeserializeHeader. rewrite block_codec.DeserializeHeader_Serialize by done.
    runs_steps. unfold blob. rewrite block_codec.blob_payload_Serialize. split; [by destruct block|done].
Qed.

(** A frame of a known kind whose payload obeys the size rules exists. *)
Lemma frame_exists k op i p :
  k = wire.MessageKind.kRequest \/ k = wire.MessageKind.kResponse ->
  op = wire.Opcode.kGet \/ op = wire.Opcode.kPut \/ op = wire.Opcode.kPing -> 1 <= i <= u64_max ->
  wire.kHeaderBytes + zlen p <= Z.min (wire.max_frame_bytes limits) u64_max ->
  wire.payload_rule (wire.frame_for k op wire.WireStatus.kOk i p) limits ->
  exists b, framed limits (wire.frame_for k op wire.WireStatus.kOk i p) p b.
Proof.
  intros Hk Ho Hi Hs Hr. pose proof (zlen_nonneg p). apply framed_exists; [|done|by apply wire.frame_valid].
  unfold wire.kHeaderBytes, u64_max in *.
  unfold wire.FrameHeader_wf, wire.frame_for, in_range, wire.WireStatus.kOk; cbn.
  unfold wire.MessageKind.kRequest, wire.MessageKind.kResponse, wire.Opcode.kGet, wire.Opcode.kPut, wire.Opcode.kPing in *. lia.
Qed.

(** ** Delivery *)

(** A peer that acknowledges the [Put] of [block] and answers the [Get] with it. *)
Definition keeps_block (key : BlockKey) (block : Block) : Prop :=
  let blob := block_codec.SerializeBlock block in
  forall p g bq1 br1 bq2 br2,
    wire.EncodePutRequest wire.AllocOk key blob limits = Value p -> wire.EncodeGetRequest wire.AllocOk key = Value g ->
    framed limits (request_of wire.Opcode.kPut 1 p) p bq1 ->
    framed limits (response_of wire.Opcode.kPut 1 wire.WireStatus.kOk []) [] br1 ->
    framed limits (request_of wire.Opcode.kGet 2 g) g bq2 ->
    framed limits (response_of wire.Opcode.kGet 2 wire.WireStatus.kOk blob) blob br2 ->
    reply bq1 = br1 /\ reply (bq1 ++ bq2) = br1 ++ br2.

(** Clock readings and fuel for the two calls. *)
Definition delivery_cost (block : Block) : nat :=
  let n := length (block_codec.SerializeBlock block) in (call_cost (16 + n) 0 + call_cost 16 n)%nat.

Lemma requests_encode key block :
  Block_wf block -> ok (ValidateBlockSize block limits) = true ->
  let blob := block_codec.SerializeBlock block in
  exists p g, wire.EncodePutRequest wire.AllocOk key blob limits = Value p /\ length p = (16 + length blob)%nat
    /\ wire.EncodeGetRequest wire.AllocOk key = Value g /\ length g = 16%nat /\ blob <> [].
Proof.
  intros Hb Hv blob. pose proof (block_fits block Hb Hv) as Hs. fold blob in Hs.
  assert (36 <= zlen blob) as H36.
  { unfold blob. rewrite block_codec.SerializeBlock_length. pose proof (zlen_nonneg (data block)).
    unfold size_bytes, block_codec.kHeaderSize. lia. }
  assert (blob <> []) as Hne by (intros E; rewrite E in H36; unfold zlen in H36; cbn in H36; lia).
  destruct (wire.EncodeBlockKey key) as [e|] eqn:Ek; [|discriminate Ek].
  pose proof (wire.EncodeBlockKey_length _ _ Ek) as Hle. unfold wire.kBlockKeyBytes, wire.kHeaderBytes, zlen in *.
  exists (e ++ blob), e. split_and!; [|rewrite length_app; lia|unfold wire.EncodeGetRequest; by rewrite Ek|lia|done].
  unfold wire.EncodePutRequest. destruct blob as [|x blob'] eqn:E; [done|]. rewrite <- E in *. unfold wire.kBlockKeyBytes, zlen.
  rewrite (proj2 (Z.ltb_ge _ _)) by (unfold u64_max in *; lia). cbv zeta.
  rewrite wrap_small by (unfold in_range, u64_max in *; lia). unfold wire.ValidateFrameSize.
  rewrite wire.ValidateFrameSizeImpl_complete by (unfold wire.kHeaderBytes in *; lia). by rewrite Ek.
Qed.
End connector.

(** C11 (liveness): a stored block is delivered.  Over a healthy link, whatever the
    sizes in which the bytes travel and however often a read finds nothing yet, a
    fresh connector connects, its [Put] returns success and its [Get] returns that
    very block, provided the peer acknowledges the one and answers the other with
    it, the block fits the frame limit and the timeouts cover the clock readings the
    calls need. *)
Theorem put_get_delivers {W : Type} `{HealthyPeer W reply start span} (fuel : nat) (ep : TcpEndpoint)
    (o : TcpConnectorOptions) (key : BlockKey) (block : Block) (w : W)
    (Hclock : start + span * TcpConnection.ns_per_ms <= time_max) (Hpa : patient (span := span) ep o)
    (Hkey : BlockKey_wf key) (Hblock : Block_wf block) (Hsize : ok (ValidateBlockSize block (codec_limits o)) = true)
    (Hpeer : keeps_block (reply := reply) o key block)
    (Hfuel : enough fuel (48 + length (block_codec.SerializeBlock block)))
    (Hidle : idle (3 + delivery_cost block) w) :
  runs (st ← Put fuel key block; r ← Get fuel key; mret (st, r))
    (fun x s => x = (Ok, Value block) /\ is_Some (connection_ s.1)) (make ep o, w).
Proof.
  destruct (requests_encode o key block Hblock Hsize) as (p & g & Ep & Lp & Eg & Lg & Hne).
  pose proof (block_fits o block Hblock Hsize) as Hs. unfold keeps_block, delivery_cost in *.
  remember (block_codec.SerializeBlock block) as blob eqn:Eblob.
  pose proof (zlen_pos blob Hne). unfold wire.kBlockKeyBytes, wire.kHeaderBytes in *.
  assert (zlen p = 16 + zlen blob /\ zlen g = 16) as [Zp Zg] by (unfold zlen; lia).
  destruct (frame_exists o wire.MessageKind.kRequest wire.Opcode.kPut 1 p) as [bq1 Fq1]; [tauto|tauto|unfold u64_max; lia| | |].
  { unfold wire.kHeaderBytes. lia. }
  { cbn. unfold wire.Opcode.kGet, wire.Opcode.kPut, wire.Opcode.kPing. lia. }
  destruct (frame_exists o wire.MessageKind.kResponse wire.Opcode.kPut 1 []) as [br1 Fr1]; [tauto|tauto|unfold u64_max; lia| |by cbn|].
  { unfold wire.kHeaderBytes, zlen in *. cbn. lia. }
  destruct (frame_exists o wire.MessageKind.kRequest wire.Opcode.kGet 2 g) as [bq2 Fq2]; [tauto|tauto|unfold u64_max; lia| | |].
  { unfold wire.kHeaderBytes. lia. }
  { cbn. unfold wire.Opcode.kGet, wire.Opcode.kPut, wire.Opcode.kPing. lia. }
  destruct (frame_exists o wire.MessageKind.kResponse wire.Opcode.kGet 2 blob) as [br2 Fr2]; [tauto|tauto|unfold u64_max; lia| | |].
  { unfold wire.kHeaderBytes. lia. }
  { cbn. unfold wire.Opcode.kGet, wire.Opcode.kPut, wire.Opcode.kPing. lia. }
  destruct (Hpeer p g bq1 br1 bq2 br2 Ep Eg Fq1 Fr1 Fq2 Fr2) as [R1 R2].
  runs_steps. unfold enough in Hfuel. eapply runs_mono.
  { apply (runs_Put fuel ep o Hclock Hpa 1 (call_cost 16 (length blob)) [] [] (make ep o, w) key block p bq1 br1);
      try done; rewrite <- ?Eblob; try done; [|unfold enough; lia].
    split; try done. cbn. split_and!; try done. by rewrite Lp. }
  intros st s1 (-> & At1). runs_steps. change (next_id 1) with 2 in At1.
  eapply runs_mono.
  { apply (runs_Get fuel ep o Hclock Hpa 2 0 bq1 br1 s1 key block g bq2 br2); rewrite <- ?Eblob; try done;
      [by rewrite Lg, Nat.add_0_r|unfold enough; lia..]. }
  intros r s2 (-> & At2). runs_steps. split; [done|]. destruct At2 as [_ _ _ A4]. destruct (connection_ s2.1); [by eexists|].
  destruct A4 as (_ & E & _). apply app_nil in E as [_ E]. by apply framed_nonempty in Fq2.
Qed.

(** ** A slow peer *)

(** It accepts a connection only after a poll, takes and gives one byte at a time,
    and lets every read find nothing first.  The clock counts its readings. *)
Record slow : Type := mkSlow { s_ticks : N; s_phase : Phase; s_tx : bytes; s_rx : bytes }.

Definition set_phase (ph : Phase) (w : slow) : slow := mkSlow (s_ticks w) ph (s_tx w) (s_rx w).

Section slow.
Context (reply : bytes -> bytes).

Definition slow_recv (w : slow) : SysResult bytes * slow :=
  match s_phase w with
  | Flowing => (SysErr EAGAIN, set_phase Waiting w)
  | _ =>
      let b := take 1 (drop (length (s_rx w)) (reply (s_tx w))) in
      (SysOk b, mkSlow (s_ticks w) Flowing (s_tx w) (s_rx w ++ b))
  end.

#[local] Instance slow_sockets : Sockets slow := {
  sk_now w := (Z.of_N (s_ticks w), mkSlow (N.succ (s_ticks w)) (s_phase w) (s_tx w) (s_rx w));
  sk_getaddrinfo _ _ _ w := (SysOk [mkAddrinfo 2 1 6 []], w);
  sk_socket _ _ _ w := (SysOk 3, w);
  sk_getfl _ w := (SysOk 0, w);
  sk_setfl _ _ w := (SysOk tt, w);
  sk_getfd _ w := (SysOk 0, w);
  sk_setfd _ _ w := (SysOk tt, w);
  sk_connect _ _ w := (SysErr EINPROGRESS, w);
  sk_so_error _ w := (SysOk 0, w);
  sk_so_type _ w := (SysOk SOCK_STREAM, w);
  sk_getpeername _ w := (SysOk tt, w);
  sk_poll _ events _ w := (PollReturned events, match s_phase w with Waiting => set_phase Announced w | _ => w end);
  sk_recv _ _ := slow_recv;
  sk_send _ b w := (SysOk 1, mkSlow (s_ticks w) (s_phase w) (s_tx w ++ take 1 b) (s_rx w));
  sk_shutdown _ w := (SysOk tt, w);
  sk_close _ w := w;
  sk_interference _ w := (false, w);
  sk_strerror _ := "error";
  sk_gai_strerror _ := "resolution error"
}.

(** Its clock advances one nanosecond per reading: five seconds are enough for five
    billion readings. *)
Definition slow_live (ph : Phase) (c : nat) (fd : Z) (tx rx : bytes) (w : slow) : Prop :=
  0 <= fd /\ Z.of_N (s_ticks w) + Z.of_nat c < 5000 * TcpConnection.ns_per_ms /\ s_phase w = ph /\ s_tx w = tx /\ s_rx w = rx.

#[local] Program Instance slow_healthy : HealthyPeer slow reply 0 5000 := {
  live := slow_live;
  idle c w := slow_live Flowing c 0 [] [] w;
  opening c fd w := slow_live Flowing c fd [] [] w;
  connecting c fd w := slow_live Flowing c fd [] [] w
}.
Next Obligation. intros ph c c' fd tx rx w Hc (? & ? & ? & ? & ?). unfold slow_live. split_and!; done || lia. Qed.
Next Obligation. by intros ph c fd tx rx w (? & _). Qed.
Next Obligation. intros ph c fd tx rx w (? & ? & ? & ? & ?). cbn. unfold slow_live. cbn. unfold TcpConnection.ns_per_ms in *. split_and!; done || lia. Qed.
Next Obligation. done. Qed.
Next Obligation.
  intros ph c fd tx rx w n p (Hfd & Hc & Hph & Htx & Hrx) Hw Hn Er Hp. cbn. unfold slow_recv. rewrite Hph.
  destruct ph; [by right|done|]. left. exists 1%nat. rewrite Htx, Hrx, Er, drop_app_length. unfold slow_live. cbn.
  split_and!; done || lia.
Qed.
Next Obligation. intros c fd tx rx w t (Hfd & Hc & Hph & Htx & Hrx). exists POLLIN. cbn. rewrite Hph. by repeat split. Qed.
Next Obligation.
  intros c fd tx rx w b (Hfd & Hc & Hph & Htx & Hrx) Hb. exists 1. pose proof (zlen_pos b Hb).
  unfold slow_live. cbn. rewrite Htx. split_and!; done || lia.
Qed.
Next Obligation. intros c w (? & ? & ? & ? & ?). cbn. unfold slow_live. cbn. unfold TcpConnection.ns_per_ms in *. split_and!; done || lia. Qed.
Next Obligation. intros c w host service hints L. by eauto. Qed.
Next Obligation. intros c w family type protocol (? & ? & ? & ? & ?). by exists 3. Qed.
Next Obligation. intros c fd w L. by eauto. Qed.
Next Obligation. done. Qed.
Next Obligation. intros c fd w L. by eauto. Qed.
Next Obligation. done. Qed.
Next Obligation. intros c fd w a L. by right. Qed.
Next Obligation. intros c fd w (? & ? & ? & ? & ?). cbn. unfold slow_live. cbn. unfold TcpConnection.ns_per_ms in *. split_and!; done || lia. Qed.
Next Obligation.
  intros c fd w t (Hfd & Hc & Hph & Htx & Hrx). exists POLLOUT. cbn. rewrite Hph. by repeat split.
Qed.
Next Obligation. done. Qed.
End slow.

(** The peer of the example: it answers the two requests byte for byte. *)
Definition frame_bytes (h : wire.FrameHeader) (p : bytes) : bytes := value_or (wire.EncodeHeader h wire.default_limits) [] ++ p.

Definition slow_reply : bytes -> bytes :=
  let blob := block_codec.SerializeBlock block_codec.example_block in
  let p := value_or (wire.EncodePutRequest wire.AllocOk example_key blob wire.default_limits) [] in
  let g := value_or (wire.EncodeGetRequest wire.AllocOk example_key) [] in
  let put := frame_bytes (request_of wire.Opcode.kPut 1 p) p in
  let acknowledged := frame_bytes (response_of wire.Opcode.kPut 1 wire.WireStatus.kOk []) [] in
  let get := frame_bytes (request_of wire.Opcode.kGet 2 g) g in
  let block := frame_bytes (response_of wire.Opcode.kGet 2 wire.WireStatus.kOk blob) blob in
  fun tx => if decide (tx = put) then acknowledged else if decide (tx = put ++ get) then acknowledged ++ block else [].

Lemma framed_bytes h p b : framed wire.default_limits h p b -> b = frame_bytes h p.
Proof. intros [_ _ (e & Ee & ->)]. unfold frame_bytes. by rewrite Ee. Qed.

Lemma slow_keeps_block : keeps_block (reply := slow_reply) example_options example_key block_codec.example_block.
Proof.
  unfold keeps_block. cbv zeta. intros p g bq1 br1 bq2 br2 Ep Eg Fq1 Fr1 Fq2 Fr2.
  apply framed_bytes in Fq1, Fr1, Fq2, Fr2. subst bq1 br1 bq2 br2.
  vm_compute in Ep. apply Value_inj in Ep as <-. vm_compute in Eg. apply Value_inj in Eg as <-. split; vm_compute; reflexivity.
Qed.

Definition slow_start : slow := mkSlow 0 Flowing [] [].

#[local] Instance example_sockets : Sockets slow := slow_sockets slow_reply.
#[local] Instance example_healthy : HealthyPeer slow slow_reply 0 5000 := slow_healthy slow_reply.

Lemma put_get_delivers_witness :
  exists s, (st ← Put 200 example_key block_codec.example_block; r ← Get 200 example_key; mret (st, r))
              (make example_endpoint example_options, slow_start) []
            = Done ((Ok, Value block_codec.example_block), s, []).
Proof.
  destruct (put_get_delivers (W := slow) (reply := slow_reply) (start := 0) (span := 5000) 200 example_endpoint example_options example_key
              block_codec.example_block slow_start) as (x & s & E & -> & _).
  - by vm_compute.
  - split; by vm_compute.
  - repeat split; by vm_compute.
  - apply block_codec.example_block_wf.
  - by vm_compute.
  - apply slow_keeps_block.
  - unfold enough. vm_compute. lia.
  - by split_and!.
  - by exists s.
Defined.
