(* ===== verification/VllmAdapter.v ===== *)
(** * vLLM adapter

    [integration/vllm/vllm_adapter.h], [vllm_adapter.cpp]: the hooks an inference
    engine calls.  They are placeholders in the source: none of them reaches the
    connector, and each reports [kNotImplemented]. *)

From S2P Require Import Prelude Api.

Module VllmKvAdapter.

Record EngineBlockDesc : Type := mkDesc { tokens : list Z; prefix_len : Z; model_fingerprint : Z }.

Section adapter.
(** The connector the adapter points to. *)
Context {C : Type}.

Definition LookupPrefix (descs : list EngineBlockDesc) : comp C (Result (list bool)) :=
  mret (Error (NotImplemented "VllmKvAdapter::LookupPrefix")).

Definition Load (desc : EngineBlockDesc) (dst : MutableBuffer) : comp C Status :=
  mret (NotImplemented "VllmKvAdapter::Load").

Definition Store (desc : EngineBlockDesc) (src : option bytes) (len : Z) : comp C Status :=
  mret (NotImplemented "VllmKvAdapter::Store").
End adapter.
End VllmKvAdapter.
